(* ===== verification/_CoqProject ===== *)
-Q . S2P
Prelude.v
RustStr.v
Order.v
Json.v
Composer.v
BeadHolder.v
SilenceWatch.v
PaneFence.v
Saga.v
GraderGate.v
Grading.v
ClaimFence.v
TickMonitor.v
TickState.v
Receipt.v
AckStage.v
AckSpine.v
Completion.v
Lifecycle.v
Findings.v
Supervisor.v
DecisionLedger.v
Pending.v
LifeLedger.v
LifeReader.v
QueueSelect.v
Utf8.v
Packet.v
Activity.v
Resident.v
Transport.v
Receiver.v
Preflight.v
SendVerify.v
OracleCompare.v
Refill.v
Availability.v
Inversion.v
DefinitionQuality.v
UdsGate.v
SpineEmit.v
CellMatrix.v
Observe.v
PeerGate.v
Closeout.v
Cycle.v
NtmKernel.v
Ready.v
