(* ===== verification/Prelude.v ===== *)
(** * Verification of the omp-orchestrator dispatch path

    omp-orchestrator (crates/ under src/) hands units of work ("beads") to agents that
    live in terminal panes.  A dispatch crosses these parts, and this library models
    them in the order a packet meets them:

    - a pane is observed twice, and only positive proof makes it dispatchable
      (tick-monitor: [TickMonitor]; its guard, alarm and state file: [TickState]);
    - the claim on the bead is checked against the tracker and the identity registries
      (dispatch-claim-fence: [ClaimFence]);
    - the pane's present incarnation must admit the packet at the moment of sending
      (pane-dispatch-fence: [PaneFence]);
    - the packet is sent at most once under its key, and a crash is reconciled by
      reading (dispatch-saga: [Saga]);
    - the receiver is observed again (receiver-receipt: [Receipt]); transport, receiver
      and tracker are assessed together and a verdict published (ack-stage: [AckStage]);
    - a durable marker blocks a retry until three independent authorities agree
      (ack-spine/src/spine.rs, ledger.rs, ack.rs, authorities.rs: [AckSpine]);
    - the worker reports that it finished, silence is followed up, a close is judged by
      its reason (ack-spine/src/completion.rs, followup.rs, close_reason.rs:
      [Completion]);
    - the grader is never the implementer (dispatch-saga/src/grading.rs and m2.rs:
      [Grading]; grader-attribution-gate: [GraderGate]).

    The resident supervisor carries these parts out (omp-orchestrator/src/resident.rs):

    - the commands it runs, its clocks, its heartbeat, its ledger and the incarnations of
      its panes are one world, and what the outside answers is a function of the trace of
      effects ([Resident]).  A heartbeat row and a ledger row stand in the trace with
      whether they were written, an admission of a pane and a mail as effects of their
      own, so a fact about the trace is about what happened, not about what was tried;
    - a packet is rendered from a bead and admitted against stale documents
      (dispatch_packet.rs, mutation_minimality.rs, packet_admission.rs: [Packet]);
    - a dispatch is prepared ([Preflight]), sent through NTM and its durable receipt
      ([Transport]) or typed into a Codex pane, and the receiver is watched ([Receiver],
      with NTM's activity report, ntm-fleet-monitor/src/ntm.rs: [Activity]) until it is
      acknowledged or the window closes ([SendVerify]);
    - before a cycle observes, the target gate is asked (uds_target_gate.rs: [UdsGate]);
      what it observes, the monitor's answer, the plan documents, the build volume, the
      finished panes and the dispatch policy, is [Observe];
    - finished work is graded before new work is sent ([PeerGate]); the outcome of a
      dispatch is recorded, told and watched, and a close counts once it is read back
      ([Closeout]); the steps of both halves go to the spine (spine_emit.rs: [SpineEmit])
      and the cells of each dispatch to a row (ack-stage/src/cell_matrix.rs: [CellMatrix]);
    - one cycle composes all of these, and the supervisor repeats it ([Cycle]);
    - NTM is asked through one kernel (ntm-kernel: [NtmKernel]), and a pass over the panes
      says which can safely receive a dispatch (pane-dispatch-ready: [Ready]);
    - whether a composer holds typed text (composer-typed: [Composer]), who holds a bead
      (bead-holder: [BeadHolder]) and whether a dispatch has gone silent
      (dispatch-silence-watch: [SilenceWatch]) are judged apart.

    Around that path stands the loop that drives it:

    - the resident supervisor reads the fleet and decides what a cycle owes
      (omp-orchestrator/src/lib.rs: [Supervisor]); what it decides may owe a finding,
      spooled and filed until it is published (finding, finding-dispatch: [Findings]);
    - a durable marker in the pending directory fences each dispatch of the supervisor
      across crashes (omp-orchestrator/src/resident.rs: [Pending]);
    - the queue is ranked, and a peer is chosen to grade finished work
      (loop-queue-filter: [QueueSelect]);
    - what is ready is reconciled with the graph of the tracker (bead-availability:
      [Availability]), a priority that waits on a lower one is found ([Inversion]) and
      the quality of definitions measured ([DefinitionQuality]);
    - two oracles of one value are compared (oracle-compare, fleet-reconcile:
      [OracleCompare]) and idle panes matched with work (refill-idle-panes: [Refill]);
    - every bead has a lifecycle (ntm-fleet-monitor: [Lifecycle]), journaled in an
      append-only file it is resumed from ([LifeLedger], with the hold of a bead by
      another pane, omp-orchestrator/src/cross_pane_hold.rs), which other processes
      follow with a cursor ([LifeReader]);
    - a question for a human is asked once and its answer recorded (decision-ledger:
      [DecisionLedger]).

    ** How the code is represented

    Rust functions are Rocq functions.  [Result] is [result] below (the error first, a
    monad for the question-mark operator), [Option] is [option], [Vec] is [list],
    [u32], [u64] and [usize] are [N] with the operation of the code written out
    (saturating, wrapping or unchecked), [i64] and [i32] are [Z].  A [&mut] receiver is
    state passing: a method that may refuse is in the state-and-error monad [StM] below,
    which keeps the state a refusal leaves behind (ack-spine's asynchronous calls have
    a monad of their own, [AckSpine.M]).  A [String] is stdpp's string of bytes:
    [RustStr] models the [str] methods the code calls, characters included (a lead byte
    and its continuation bytes).  A parsed [serde_json::Value] is [Json.Json].

    What is not in the repository is a parameter: serde_json's parser and printer
    ([Json.SerdeJson], [Json.ToJson], with the laws [Json.JsonLaws]), the tables of
    characters beyond ASCII ([Json.Unicode]), the standard hasher, the transport of a saga ([Saga.Transport]), the process probe, the outside of the supervisor ([Resident.Env], [Resident.Host]), the
    JSON encoding of the durable marker ([AckSpine.MarkerCodec], with the round trip
    [AckSpine.MarkerRoundtrip] as its law), and the Debug rendering of one enum.  Clock
    readings, checkpoints of a cancelled context and the outcome of every file operation
    are arguments, so a theorem over all of them is about every schedule and fault.

    Loops over data are structural.  [RustStr.count_matches] and
    [QueueSelect.strip_go] have the length of the text as fuel: every step consumes a
    character, so it never runs out.  The bounded wait of [LifeReader] takes the number
    of polls that fit before its deadline, and [LifeReader.wait_terminates] shows that
    it ends within them.  [SendVerify.verify_loop] has the number of polls as fuel:
    [SendVerify.send_terminates] shows that 361 are enough, a window of 90 seconds with
    sleeps of a quarter second, when the clock does not run backwards.  [Inversion.walk]
    has the size of the index as fuel, since no bead is visited twice;
    [Observe.existing_ancestor] has the length of the path.  [Cycle.run_supervisor] has
    the number of ticks as fuel: its result [None] is a supervisor still running, and
    [Cycle.supervisor_only_observes] shows that one tick more than the configured bound
    is enough.

    ** What the theorems show

    - Safety: a run of a saga sends at most once whatever the crashes, and cannot be
      closed without one ([Saga.saga_sends_at_most_once],
      [Saga.no_close_without_crash]); a drained or stale incarnation is refused
      ([PaneFence]); no retry before three recorded authorities
      ([AckSpine.retry_needs_all_authorities]); a third repeated block carries an
      escalation, through the state file ([TickState.third_block_escalates]).
    - Safety of a dispatch, for every outside: the packet enters a pane at most four times
      ([SendVerify.sends_bounded], a bound an idle pane reaches), never before the ledger
      took the dispatch row and, directly after it, the pane's incarnation admitted
      ([SendVerify.nothing_sent_unjournaled]); it is prepared only on the tracker's answer
      that this very pane holds the bead ([Preflight.prepared_dispatch_rests_on]), accepted
      by NTM only with a durable record of this operation whose row is written
      ([Transport.ntm_send_accepted]) and delivered only with this pane's acknowledgement,
      read in this run, and a receiver row the ledger took
      ([SendVerify.delivered_is_acknowledged]).
    - Safety of a cycle, for every outside: as it is written, with no census handed to its
      observation, it never dispatches, and it ends without a refusal only at one of four
      halts before the decision ([Cycle.cycle_never_dispatches]); given a census, it does
      more than observe only on the grounds of a dispatch: each ground holds at a world
      the same run went through, in the order of the code, and the decision is over the
      very observation the run made ([Cycle.cycle_dispatch_rests_on]).  The decision
      itself is characterised exactly ([Supervisor.decide_dispatch_iff]).
    - Safety around a dispatch: a claimed grading rests on a receiver-verified bead and a
      grader that is not its receiver ([PeerGate.peer_claim_rests_on]); a close is read
      back, and refused while a listed reservation names the bead
      ([Closeout.closed_is_read_back]); an outcome is written to the heartbeat before it
      is told or mailed, and not told when it could not be written
      ([Closeout.result_recorded_first]); a bead is admitted to the queue only on the
      tracker's own answers ([Availability.live_admission_rests_on]).
    - Exact conditions of each decision, errors included: rendering and admitting a packet
      ([Packet.render_ok_iff], [Packet.admitted_iff]), the holder of a bead
      ([BeadHolder.bound_iff]), typed text ([Composer.is_typed_iff]), admission, claim
      authorisation, identity resolution, receipts, ack waits, the newest-wins read-back,
      the published verdict, close reasons and actors, routing.
    - Proof of idleness: the monitor calls a pane dispatchable only after two idle
      captures far enough apart ([TickMonitor.dispatchable_is_proven]); the readiness pass
      offers no pane at all under its own rules ([Ready.never_free]).
    - Crash recovery: a lifecycle resumed from its ledger is the lifecycle that wrote
      it ([LifeLedger.resume_recovers]); a retried row is replayed
      ([LifeLedger.retry_is_replayed]); one marker, one send ([Pending.no_double_send]);
      a reader delivers every row once ([LifeReader.reader_delivers_once]).
    - Refinement: the follow-up stage implements the completion classifier
      ([Completion.followup_implements_completion]) and the lifecycle of a bead
      implements its automaton ([Lifecycle.lifecycle_refines_automaton]); a closed bead
      was received and graded with evidence of this bead, pane and objective by a grader
      that is not its worker ([Lifecycle.closed_was_peer_graded]).
    - Termination and progress: the verification of a dispatch
      ([SendVerify.send_terminates]); the bounded wait of the reader
      ([LifeReader.wait_terminates]); a stale marker is retired and its bead can be
      dispatched again ([Pending.stale_fence_reopens]).
    - Selection: the dispatch order is the dispatchable part of the queue, nothing lost
      and nothing twice ([QueueSelect.dispatch_order_complete]); a grader is idle, is
      not the observer and did not work on the bead
      ([QueueSelect.peer_grade_assignment]); the priority inversions of the graph are
      exactly its inverted paths ([Inversion.inversions_exact]).
    - Well-formedness: every operation of the decision ledger keeps it auditable
      ([DecisionLedger.ledger_stays_auditable]); a saga's phases stay consistent
      ([Saga.saga_reachable_wf]).
    - Round trips: the monitor's state file, the completion row, the finding's spool, the
      idle token, the JSON lines of the step ledger, the recovered marker; the civil-time
      arithmetic is the Gregorian calendar ([AckStage.unix_from_civil_gregorian]).

    Where a theorem says what a routine computes, its statement does not use the routine:
    what a reader of a composer sees ([Composer.touches]), the rank of a bead
    ([QueueSelect.ranked_before]), the rows between two cursors
    ([LifeReader.rows_between]), an acknowledgement ([AckStage.acknowledges]), a
    reservation that names a bead ([Closeout.reserves]) and a census that passes
    ([Supervisor.census_passed]) are defined on their own.

    ** What is not modelled

    Subprocesses (tmux, ntm, br), the launch of threads, the command lines, and the
    gates that read the repository's own source text, the census of omp-orchestrator
    included.  In a cycle the census of the gates, the worker oracle, the publisher of
    findings, the receipt row of the tick, the mail client and the S1 emission are
    answers of the environment; lines printed for an operator are no effects, and
    neither are the reads of br behind the ready queue.  The installer, the inventories
    and the crates that lint the source are other programs of the repository.

    This file holds what all parts share: results, machine integers, list helpers, the
    tactics [split_cases] and [unbool], and the hint databases. *)

From stdpp Require Import base numbers list option relations strings gmap sorting.
From Stdlib Require Import NArith Lia.

Declare Scope rust_scope.
Delimit Scope rust_scope with rust.

(** ** [Result<A, E>], with the error first so that [result E] is a monad. *)
Inductive result (E A : Type) : Type :=
  | Ok (a : A)
  | Err (e : E).
Arguments Ok {E A} a.
Arguments Err {E A} e.

#[global] Instance result_eq_dec {E A} `{EqDecision E, EqDecision A} :
  EqDecision (result E A).
Proof. solve_decision. Defined.

#[global] Instance result_ret {E} : MRet (result E) := λ A a, Ok a.
#[global] Instance result_bind {E} : MBind (result E) := λ A B f r,
  match r with Ok a => f a | Err e => Err e end.

(** [Option::ok_or]. *)
Definition ok_or {E A} (o : option A) (e : E) : result E A :=
  match o with Some a => Ok a | None => Err e end.

(** [Result::map_err]. *)
Definition map_err {E F A} (f : E → F) (r : result E A) : result F A :=
  match r with Ok a => Ok a | Err e => Err (f e) end.

(** [Result::is_ok]. *)
Definition is_ok {E A} (r : result E A) : bool :=
  match r with Ok _ => true | Err _ => false end.

(** The early return [if b { return Err(e) }]: go on with [k] otherwise. *)
Definition ensure {E A} (b : bool) (e : E) (k : result E A) : result E A :=
  if b then k else Err e.

Notation "'guard!' b 'else' e ; k" := (ensure b e k)
  (at level 20, b at level 100, e at level 100, k at level 200,
   right associativity) : rust_scope.

(** ** State passing with [Result]: a [&mut self] method that may refuse.

    The state after a refusal is kept: whatever the method wrote before it
    returned the error is still there. *)
Definition StM (S E A : Type) : Type := S → S * result E A.

#[global] Instance stm_ret {S E} : MRet (StM S E) := λ A a s, (s, Ok a).
#[global] Instance stm_bind {S E} : MBind (StM S E) := λ A B f m s,
  match m s with
  | (s', Ok a) => f a s'
  | (s', Err e) => (s', Err e)
  end.
Definition stm_lift {S E A} (r : result E A) : StM S E A := λ s, (s, r).
Definition stm_fail {S E A} (e : E) : StM S E A := λ s, (s, Err e).
Definition stm_get {S E} : StM S E S := λ s, (s, Ok s).
Definition stm_modify {S E} (f : S → S) : StM S E unit := λ s, (f s, Ok tt).
(** [if !b { return Err(e) }] and [if b { return Err(e) }]. *)
Definition stm_require {S E} (b : bool) (e : E) : StM S E unit :=
  if b then mret tt else stm_fail e.
Definition stm_refuse {S E} (b : bool) (e : E) : StM S E unit := stm_require (negb b) e.

(** ** Machine integers: [u32], [u64] and [usize] as [N] below their modulus. *)
Definition u32_modulus : N := 4294967296.
Definition u64_modulus : N := 18446744073709551616.
Definition u32_max : N := 4294967295.
Definition u64_max : N := 18446744073709551615.

(** [u64::saturating_add], [u64::saturating_sub], [u64::wrapping_add] and the
    32-bit saturating addition. *)
Definition sat_add64 (a b : N) : N := N.min (a + b) u64_max.
Definition sat_sub (a b : N) : N := (a - b)%N.
Definition wrap_add64 (a b : N) : N := ((a + b) mod u64_modulus)%N.
Definition sat_add32 (a b : N) : N := N.min (a + b) u32_max.

(** [u64::abs_diff]. *)
Definition abs_diff (a b : N) : N := if (a <? b)%N then (b - a)%N else (a - b)%N.

(** ** List helpers the standard library of Rust names. *)

(** [Iterator::find]. *)
Fixpoint find_first {A} (p : A → bool) (l : list A) : option A :=
  match l with
  | [] => None
  | x :: l' => if p x then Some x else find_first p l'
  end.

(** [Iterator::find_map]. *)
Fixpoint find_map {A B} (f : A → option B) (l : list A) : option B :=
  match l with
  | [] => None
  | x :: l' => match f x with Some y => Some y | None => find_map f l' end
  end.

(** [slice::windows(2).all(..)] on an adjacent-pair predicate. *)
Fixpoint adjacent_all {A} (p : A → A → bool) (l : list A) : bool :=
  match l with
  | [] => true
  | x :: l' => match l' with
              | [] => true
              | y :: _ => p x y && adjacent_all p l'
              end
  end.

(** ** Automation. *)

Create HintDb rust.
Create Rewrite HintDb rust.
Create Rewrite HintDb stm.

(** Case analysis on every boolean test and every match in sight, closing the
    branches the context contradicts. *)
Ltac case_match_step :=
  match goal with
  | H : context [match ?x with _ => _ end] |- _ =>
      lazymatch x with context [match _ with _ => _ end] => fail | _ => idtac end;
      destruct x eqn:?; simplify_eq/=
  | |- context [match ?x with _ => _ end] =>
      lazymatch x with context [match _ with _ => _ end] => fail | _ => idtac end;
      destruct x eqn:?; simplify_eq/=
  end.
Ltac split_cases := repeat case_match_step.

(** Turn boolean equations into propositions. *)
Ltac unbool :=
  repeat match goal with
  | H : bool_decide _ = true |- _ => apply bool_decide_eq_true_1 in H
  | H : bool_decide _ = false |- _ => apply bool_decide_eq_false_1 in H
  | H : _ && _ = true |- _ => apply andb_true_iff in H; destruct H
  | H : _ || _ = false |- _ => apply orb_false_iff in H; destruct H
  | H : _ || _ = true |- _ => apply orb_true_iff in H
  | H : _ && _ = false |- _ => apply andb_false_iff in H
  | H : negb _ = true |- _ => apply negb_true_iff in H
  | H : negb _ = false |- _ => apply negb_false_iff in H
  | H : (_ <? _)%N = true |- _ => apply N.ltb_lt in H
  | H : (_ <? _)%N = false |- _ => apply N.ltb_ge in H
  | H : (_ <=? _)%N = true |- _ => apply N.leb_le in H
  | H : (_ <=? _)%N = false |- _ => apply N.leb_gt in H
  | H : (_ =? _)%N = true |- _ => apply N.eqb_eq in H
  | H : (_ =? _)%N = false |- _ => apply N.eqb_neq in H
  end.

(** ** Generic lemmas. *)

Lemma ensure_ok {E A} (b : bool) (e : E) (k : result E A) (a : A) :
  ensure b e k = Ok a ↔ b = true ∧ k = Ok a.
Proof. destruct b; naive_solver. Qed.

Lemma ensure_err {E A} (b : bool) (e x : E) (k : result E A) :
  ensure b e k = Err x ↔ (b = false ∧ e = x) ∨ (b = true ∧ k = Err x).
Proof. destruct b; naive_solver. Qed.

(** What a run of a state-passing method that returned [Ok] did, part by part. *)
Lemma stm_bind_ok {S E A B} (m : StM S E A) (f : A → StM S E B) s s' b :
  (m ≫= f) s = (s', Ok b) ↔ ∃ t a, m s = (t, Ok a) ∧ f a t = (s', Ok b).
Proof. unfold mbind, stm_bind. destruct (m s) as [t [a|e]]; naive_solver. Qed.

Lemma stm_bind_err {S E A B} (m : StM S E A) (f : A → StM S E B) s s' e :
  (m ≫= f) s = (s', Err e) ↔
  m s = (s', Err e) ∨ ∃ t a, m s = (t, Ok a) ∧ f a t = (s', Err e).
Proof. unfold mbind, stm_bind. destruct (m s) as [t [a|e']]; naive_solver. Qed.

(** Run the first step of a state-passing method forward. *)
Lemma stm_bind_run {S E A B} (m : StM S E A) (f : A → StM S E B) s t a :
  m s = (t, Ok a) → (m ≫= f) s = f a t.
Proof. unfold mbind, stm_bind. by intros ->. Qed.

Lemma stm_require_run {S E} b (e : E) (s : S) : b = true → stm_require b e s = (s, Ok tt).
Proof. by intros ->. Qed.

Lemma stm_refuse_run {S E} b (e : E) (s : S) : b = false → stm_refuse b e s = (s, Ok tt).
Proof. by intros ->. Qed.

Lemma stm_lift_run {S E A} (r : result E A) (s : S) a : r = Ok a → stm_lift r s = (s, Ok a).
Proof. by intros ->. Qed.

Lemma stm_get_run {S E} (s : S) : (stm_get : StM S E S) s = (s, Ok s).
Proof. done. Qed.

Lemma stm_modify_run {S E} (f : S → S) s : (stm_modify f : StM S E unit) s = (f s, Ok tt).
Proof. done. Qed.

Lemma stm_ret_ok {S E A} (a b : A) (s s' : S) :
  (mret a : StM S E A) s = (s', Ok b) ↔ s' = s ∧ b = a.
Proof. unfold mret, stm_ret. naive_solver. Qed.

Lemma stm_ret_err {S E A} (a : A) (e : E) (s s' : S) :
  (mret a : StM S E A) s = (s', Err e) ↔ False.
Proof. unfold mret, stm_ret. naive_solver. Qed.

Lemma stm_fail_ok {S E A} (e : E) (s s' : S) (a : A) :
  (stm_fail e : StM S E A) s = (s', Ok a) ↔ False.
Proof. unfold stm_fail. naive_solver. Qed.

Lemma stm_fail_err {S E A} (e x : E) (s s' : S) :
  (stm_fail e : StM S E A) s = (s', Err x) ↔ s' = s ∧ x = e.
Proof. unfold stm_fail. naive_solver. Qed.

Lemma stm_require_ok {S E} b (e : E) (s s' : S) u :
  stm_require b e s = (s', Ok u) ↔ b = true ∧ s' = s.
Proof. destruct b, u; cbv; naive_solver. Qed.

Lemma stm_require_err {S E} b (e x : E) (s s' : S) :
  stm_require b e s = (s', Err x) ↔ b = false ∧ s' = s ∧ x = e.
Proof. destruct b; cbv; naive_solver. Qed.

Lemma stm_refuse_ok {S E} b (e : E) (s s' : S) u :
  stm_refuse b e s = (s', Ok u) ↔ b = false ∧ s' = s.
Proof. unfold stm_refuse. rewrite stm_require_ok, negb_true_iff. done. Qed.

Lemma stm_refuse_err {S E} b (e x : E) (s s' : S) :
  stm_refuse b e s = (s', Err x) ↔ b = true ∧ s' = s ∧ x = e.
Proof. unfold stm_refuse. rewrite stm_require_err, negb_false_iff. done. Qed.

Lemma stm_lift_ok {S E A} (r : result E A) (s s' : S) a :
  stm_lift r s = (s', Ok a) ↔ s' = s ∧ r = Ok a.
Proof. unfold stm_lift. naive_solver. Qed.

Lemma stm_lift_err {S E A} (r : result E A) (s s' : S) e :
  stm_lift r s = (s', Err e) ↔ s' = s ∧ r = Err e.
Proof. unfold stm_lift. naive_solver. Qed.

Lemma stm_get_ok {S E} (s s' : S) x : (stm_get : StM S E S) s = (s', Ok x) ↔ s' = s ∧ x = s.
Proof. unfold stm_get. naive_solver. Qed.

Lemma stm_get_err {S E} (s s' : S) (e : E) : stm_get s = (s', Err e) ↔ False.
Proof. unfold stm_get. naive_solver. Qed.

Lemma stm_modify_ok {S E} (f : S → S) (s s' : S) u :
  (stm_modify f : StM S E unit) s = (s', Ok u) ↔ s' = f s.
Proof. destruct u. unfold stm_modify. naive_solver. Qed.

Lemma stm_modify_err {S E} (f : S → S) (s s' : S) (e : E) :
  stm_modify f s = (s', Err e) ↔ False.
Proof. unfold stm_modify. naive_solver. Qed.

(** [?] on a result, read backwards. *)
Lemma bind_ok {E A B} (m : result E A) (f : A → result E B) b : m ≫= f = Ok b ↔ ∃ a, m = Ok a ∧ f a = Ok b.
Proof. destruct m; cbn; naive_solver. Qed.

Lemma map_err_ok {E F A} (f : E → F) (m : result E A) a : map_err f m = Ok a ↔ m = Ok a.
Proof. destruct m; cbn; naive_solver. Qed.

Lemma ensure_tt {E} b (e : E) u : ensure b e (Ok tt) = Ok u ↔ b = true.
Proof. destruct b, u; cbn; naive_solver. Qed.

Lemma ok_or_ok {E A} (o : option A) (e : E) a : ok_or o e = Ok a ↔ o = Some a.
Proof. destruct o; simpl; naive_solver. Qed.

Lemma ok_or_err {E A} (o : option A) (e x : E) : ok_or o e = Err x ↔ o = None ∧ x = e.
Proof. destruct o; simpl; naive_solver. Qed.

(** ** [slice::sort_by]: a stable sort.  [lt a b] is "[a] comes before [b]"; an
    element is put after the elements it does not come before. *)
Section StableSort.
Context {A : Type} (lt : A → A → bool).

Fixpoint sort_insert (x : A) (l : list A) : list A :=
  match l with
  | [] => [x]
  | y :: l' => if lt y x then y :: sort_insert x l' else x :: l
  end.
Definition stable_sort (l : list A) : list A := foldr sort_insert [] l.

Lemma sort_insert_Permutation x l : sort_insert x l ≡ₚ x :: l.
Proof.
  induction l as [|y l IH]; simpl; [done|]. destruct (lt y x); [|done].
  rewrite IH. apply Permutation_swap.
Qed.

Lemma stable_sort_Permutation l : stable_sort l ≡ₚ l.
Proof. induction l as [|x l IH]; simpl; [done|]. by rewrite sort_insert_Permutation, IH. Qed.

(** For a strict weak order, the result is sorted: no element comes before an
    earlier one. *)
Context (lt_trans : ∀ x y z, lt y x = false → lt z y = false → lt z x = false)
  (lt_asym : ∀ x y, lt x y = true → lt y x = false).

Lemma sort_insert_sorted x l :
  StronglySorted (λ a b, lt b a = false) l → StronglySorted (λ a b, lt b a = false) (sort_insert x l).
Proof.
  induction 1 as [|y l Hl IH Hy]; simpl; [by repeat constructor|].
  destruct (lt y x) eqn:Hlt.
  - constructor; [done|]. rewrite sort_insert_Permutation. constructor; [|done].
    by apply lt_asym.
  - constructor; [by constructor|]. constructor; [done|].
    eapply Forall_impl; [exact Hy|]. intros z Hz. by eapply lt_trans.
Qed.

Lemma stable_sort_sorted l : StronglySorted (λ a b, lt b a = false) (stable_sort l).
Proof. induction l; simpl; [constructor|by apply sort_insert_sorted]. Qed.
End StableSort.

(** [sort_by_key]. *)
Definition sort_by_key {A} (key : A → N) (l : list A) : list A :=
  stable_sort (λ a b, (key a <? key b)%N) l.

Lemma sort_by_key_Permutation {A} (key : A → N) l : sort_by_key key l ≡ₚ l.
Proof. apply stable_sort_Permutation. Qed.

Lemma strongly_sorted_impl {A} (R Q : A → A → Prop) l :
  (∀ x y, R x y → Q x y) → StronglySorted R l → StronglySorted Q l.
Proof. intros HRQ. induction 1; constructor; [done|]. eapply Forall_impl; eauto. Qed.

Lemma sort_by_key_sorted {A} (key : A → N) l :
  StronglySorted (λ a b, (key a <= key b)%N) (sort_by_key key l).
Proof.
  eapply strongly_sorted_impl; [|apply stable_sort_sorted].
  - intros a b Hab. by apply N.ltb_ge in Hab.
  - intros x y z. rewrite !N.ltb_ge. lia.
  - intros x y. rewrite N.ltb_lt, N.ltb_ge. lia.
Qed.

(** A step-indexed invariant holds in every reachable state. *)
Lemma rtc_invariant {S} (R : relation S) (I : S → Prop) :
  (∀ s s', I s → R s s' → I s') → ∀ s s', rtc R s s' → I s → I s'.
Proof. intros Hstep s s' Hrtc. induction Hrtc; eauto. Qed.

Lemma sat_add64_small (a b : N) : (a + b <= u64_max)%N → sat_add64 a b = (a + b)%N.
Proof. unfold sat_add64. lia. Qed.

Lemma sat_add64_le (a b : N) : (sat_add64 a b <= u64_max)%N.
Proof. unfold sat_add64. lia. Qed.

Lemma find_first_Some {A} (p : A → bool) l x :
  find_first p l = Some x ↔
  ∃ l1 l2, l = l1 ++ x :: l2 ∧ p x = true ∧ Forall (λ y, p y = false) l1.
Proof.
  split.
  - induction l as [|y l IH]; simpl; [done|].
    destruct (p y) eqn:Hy.
    + intros [= ->]. exists [], l. naive_solver.
    + intros (l1 & l2 & -> & Hx & Hl)%IH. exists (y :: l1), l2. naive_solver.
  - intros (l1 & l2 & -> & Hx & Hl).
    induction Hl as [|y l1 Hy Hl IH]; simpl; [by rewrite Hx | by rewrite Hy].
Qed.

Lemma find_first_None {A} (p : A → bool) l :
  find_first p l = None ↔ Forall (λ y, p y = false) l.
Proof.
  induction l as [|y l IH]; simpl; [naive_solver|].
  rewrite Forall_cons. destruct (p y); naive_solver.
Qed.

Lemma find_map_Some {A B} (f : A → option B) l y :
  find_map f l = Some y →
  ∃ l1 x l2, l = l1 ++ x :: l2 ∧ f x = Some y ∧ Forall (λ z, f z = None) l1.
Proof.
  induction l as [|x l IH]; simpl; [done|].
  destruct (f x) eqn:Hx.
  - intros [= ->]. exists [], x, l. naive_solver.
  - intros (l1 & z & l2 & -> & Hz & Hl)%IH. exists (x :: l1), z, l2. naive_solver.
Qed.

Lemma existsb_false_Forall {A} (p : A → bool) l :
  existsb p l = false ↔ Forall (λ x, p x = false) l.
Proof.
  induction l as [|x l IH]; simpl; [naive_solver|].
  rewrite orb_false_iff, IH, Forall_cons. done.
Qed.

#[export] Hint Rewrite @ensure_ok @ensure_err : rust.
#[export] Hint Rewrite @ok_or_ok @ok_or_err : rust stm.
#[export] Hint Rewrite @stm_bind_ok @stm_bind_err @stm_ret_ok @stm_ret_err
  @stm_fail_ok @stm_fail_err @stm_require_ok @stm_require_err
  @stm_refuse_ok @stm_refuse_err @stm_lift_ok @stm_lift_err @stm_get_ok @stm_get_err
  @stm_modify_ok @stm_modify_err : stm.

Create HintDb stm_run.
#[export] Hint Resolve stm_require_run stm_refuse_run stm_lift_run stm_get_run
  stm_modify_run : stm_run.

(** Run the next step; its side condition, if it has one, is the first goal. *)
Ltac stm_next :=
  erewrite stm_bind_run; cycle 1;
  [ lazymatch goal with
    | |- stm_get _ = _ => apply stm_get_run
    | |- stm_modify _ _ = _ => apply stm_modify_run
    | |- stm_require _ _ _ = _ => apply stm_require_run
    | |- stm_refuse _ _ _ = _ => apply stm_refuse_run
    | |- stm_lift _ _ = _ => apply stm_lift_run
    end
  | cbv beta ].

(** The same with a lemma about the step. *)
Tactic Notation "stm_by" tactic3(t) := erewrite stm_bind_run by t; cbv beta.

(** Take a finished run of a state-passing method apart into its steps. *)
Ltac stm_inv H :=
  autorewrite with stm in H; destruct_and?; destruct_or?;
  repeat match goal with
  | K : ∃ _, _ |- _ => destruct K; autorewrite with stm in *
  | K : _ ∧ _ |- _ => destruct K
  | K : _ ∨ _ |- _ => destruct K
  end; simplify_eq/=.
#[export] Hint Resolve sat_add64_le : rust.
