(* ===== verification/RustStr.v ===== *)
(** * Rust's [str] and [String] on their UTF-8 bytes

    A Rust string is a [string] of bytes.  Searching for an ASCII pattern on the
    bytes agrees with searching on the characters, because UTF-8 is
    self-synchronising; where the code walks characters ([trim], [chars]) the
    model does too, through [chars]. *)

From stdpp Require Import base numbers list option strings pretty sorting.
From Stdlib Require Import NArith Ascii Lia.
From S2P Require Import Prelude.

Open Scope string_scope.

(** The characters Coq's string syntax has no escape for. *)
Definition dquote : string := String "034" EmptyString.
Definition lf : ascii := "010".
Definition cr : ascii := "013".
Definition lf_str : string := String "010" EmptyString.

(** ** Prefixes and searching. *)

(** [str::strip_prefix]. *)
Fixpoint strip_prefix (p s : string) : option string :=
  match p, s with
  | EmptyString, _ => Some s
  | String a p', String b s' => if ascii_dec a b then strip_prefix p' s' else None
  | String _ _, EmptyString => None
  end.

(** [str::starts_with]. *)
Definition starts_with (s p : string) : bool :=
  match strip_prefix p s with Some _ => true | None => false end.

(** [str::strip_suffix]. *)
Fixpoint strip_suffix (suf s : string) : option string :=
  if String.eqb s suf then Some EmptyString
  else match s with
       | EmptyString => None
       | String c s' => option_map (String c) (strip_suffix suf s')
       end.

(** [str::ends_with]. *)
Definition ends_with (s suf : string) : bool :=
  match strip_suffix suf s with Some _ => true | None => false end.

(** [&s[n..]] at a character boundary. *)
Fixpoint str_drop (n : nat) (s : string) : string :=
  match n, s with
  | O, _ => s
  | S n', String _ s' => str_drop n' s'
  | S _, EmptyString => EmptyString
  end.

(** [s.bytes().enumerate().all(p)], counting from [i]. *)
Fixpoint all_bytes_at (p : nat → ascii → bool) (i : nat) (s : string) : bool :=
  match s with
  | EmptyString => true
  | String c s' => p i c && all_bytes_at p (S i) s'
  end.

(** [s.as_bytes()[i] == c]. *)
Definition byte_at_is (i : nat) (c : ascii) (s : string) : bool :=
  match String.get i s with Some d => Ascii.eqb c d | None => false end.

(** [str::is_empty]. *)
Definition is_empty (s : string) : bool :=
  match s with EmptyString => true | _ => false end.

(** [str::split_once]: around the first occurrence of [sep]. *)
Fixpoint split_once (sep s : string) : option (string * string) :=
  match strip_prefix sep s with
  | Some r => Some (EmptyString, r)
  | None =>
      match s with
      | EmptyString => None
      | String c s' =>
          match split_once sep s' with
          | Some (a, b) => Some (String c a, b)
          | None => None
          end
      end
  end.

(** [str::contains]. *)
Definition contains (s p : string) : bool :=
  match split_once p s with Some _ => true | None => false end.

(** [str::matches(p).count()] for a non-empty [p]: non-overlapping occurrences;
    every step consumes a byte, so the length of [s] is fuel enough. *)
Fixpoint count_matches_fuel (fuel : nat) (p s : string) : N :=
  match fuel with
  | O => 0
  | S fuel' =>
      match split_once p s with
      | Some (_, r) => 1 + count_matches_fuel fuel' p r
      | None => 0
      end
  end%N.
Definition count_matches (p s : string) : N :=
  count_matches_fuel (S (String.length s)) p s.

(** [str::rsplit_once] for a one-byte separator: around the last occurrence. *)
Fixpoint rsplit_once (c : ascii) (s : string) : option (string * string) :=
  match s with
  | EmptyString => None
  | String d s' =>
      match rsplit_once c s' with
      | Some (a, b) => Some (String d a, b)
      | None => if ascii_dec c d then Some (EmptyString, s') else None
      end
  end.

(** [str::split(c)] for a one-byte separator. *)
Fixpoint split_char (c : ascii) (s : string) : list string :=
  match s with
  | EmptyString => [EmptyString]
  | String d s' =>
      let r := split_char c s' in
      if ascii_dec c d then EmptyString :: r
      else match r with
           | h :: t => String d h :: t
           | [] => [String d EmptyString]
           end
  end.

(** ** Characters: a lead byte and its continuation bytes. *)

Definition is_cont (c : ascii) : bool :=
  ((128 <=? N_of_ascii c) && (N_of_ascii c <? 192))%N.

(** [str::chars]. *)
Fixpoint chars (s : string) : list string :=
  match s with
  | EmptyString => []
  | String c s' =>
      match chars s' with
      | String d w :: rest =>
          if is_cont d then String c (String d w) :: rest
          else String c EmptyString :: String d w :: rest
      | rest => String c EmptyString :: rest
      end
  end.

(** Collecting characters back into a [String]. *)
Definition concat_chars (l : list string) : string := foldr String.append EmptyString l.

Definition bytes2 (a b : N) : string :=
  String (ascii_of_N a) (String (ascii_of_N b) EmptyString).
Definition bytes3 (a b c : N) : string := String (ascii_of_N a) (bytes2 b c).
Definition bytes4 (a b c d : N) : string := String (ascii_of_N a) (bytes3 b c d).

(** [char::is_whitespace]: the Unicode White_Space property. *)
Definition unicode_spaces : list string :=
  [bytes2 194 133; bytes2 194 160; bytes3 225 154 128;
   bytes3 226 128 168; bytes3 226 128 169; bytes3 226 128 175;
   bytes3 226 129 159; bytes3 227 128 128]
  ++ map (λ k, bytes3 226 128 (128 + k)) [0;1;2;3;4;5;6;7;8;9;10]%N.

Definition is_ascii_ws (c : ascii) : bool :=
  let n := N_of_ascii c in ((9 <=? n) && (n <=? 13) || (n =? 32))%N.

Definition is_whitespace (ch : string) : bool :=
  match ch with
  | String c EmptyString => is_ascii_ws c
  | _ => existsb (λ w, bool_decide (ch = w)) unicode_spaces
  end.

Fixpoint drop_while {A} (p : A → bool) (l : list A) : list A :=
  match l with [] => [] | x :: l' => if p x then drop_while p l' else l end.

Fixpoint take_while {A} (p : A → bool) (l : list A) : list A :=
  match l with [] => [] | x :: l' => if p x then x :: take_while p l' else [] end.

(** [str::trim_start_matches], [str::trim_end_matches] and [str::trim_matches]
    on a character predicate, and the white-space instances. *)
Definition trim_start_matches (p : string → bool) (s : string) : string :=
  concat_chars (drop_while p (chars s)).
Definition trim_end_matches (p : string → bool) (s : string) : string :=
  concat_chars (rev (drop_while p (rev (chars s)))).
Definition trim_matches (p : string → bool) (s : string) : string :=
  concat_chars (rev (drop_while p (rev (drop_while p (chars s))))).
Definition trim_start : string → string := trim_start_matches is_whitespace.
Definition trim_end : string → string := trim_end_matches is_whitespace.
Definition trim : string → string := trim_matches is_whitespace.

(** [str::split] on a character predicate (a predicate on the characters). *)
Fixpoint split_chars (p : string → bool) (l : list string) : list string :=
  match l with
  | [] => [EmptyString]
  | ch :: l' =>
      let r := split_chars p l' in
      if p ch then EmptyString :: r
      else match r with
           | h :: t => (ch +:+ h) :: t
           | [] => [ch]
           end
  end.

(** [str::split_whitespace]. *)
Definition split_whitespace (s : string) : list string :=
  List.filter (λ w, negb (is_empty w)) (split_chars is_whitespace (chars s)).

(** [str::lines]: split at LF, dropping one CR directly before it; a final LF
    opens no line. *)
Fixpoint lines (s : string) : list string :=
  match s with
  | EmptyString => []
  | String c s' =>
      if ascii_dec c lf then EmptyString :: lines s'
      else match s' with
           | String d _ =>
               if bool_decide (c = cr) && bool_decide (d = lf) then lines s'
               else match lines s' with
                    | h :: t => String c h :: t
                    | [] => [String c EmptyString]
                    end
           | EmptyString => [String c EmptyString]
           end
  end.

(** ** ASCII case. *)

Definition ascii_lower (c : ascii) : ascii :=
  let n := N_of_ascii c in
  if ((65 <=? n) && (n <=? 90))%N then ascii_of_N (n + 32) else c.

(** [str::to_ascii_lowercase]. *)
Fixpoint to_ascii_lowercase (s : string) : string :=
  match s with
  | EmptyString => EmptyString
  | String c s' => String (ascii_lower c) (to_ascii_lowercase s')
  end.

(** [str::eq_ignore_ascii_case]. *)
Definition eq_ignore_ascii_case (a b : string) : bool :=
  bool_decide (to_ascii_lowercase a = to_ascii_lowercase b).

Definition is_ascii_digit (c : ascii) : bool :=
  let n := N_of_ascii c in ((48 <=? n) && (n <=? 57))%N.

Definition is_ascii_alpha (c : ascii) : bool :=
  let n := N_of_ascii (ascii_lower c) in ((97 <=? n) && (n <=? 122))%N.

Definition is_ascii_alnum (c : ascii) : bool := is_ascii_digit c || is_ascii_alpha c.

(** [s.bytes().all(p)]. *)
Fixpoint all_bytes (p : ascii → bool) (s : string) : bool :=
  match s with EmptyString => true | String c s' => p c && all_bytes p s' end.

(** ** Decimal integers. *)

Fixpoint parse_digits (s : string) (acc : N) : option N :=
  match s with
  | EmptyString => Some acc
  | String c s' =>
      if is_ascii_digit c
      then parse_digits s' (acc * 10 + (N_of_ascii c - 48))%N
      else None
  end.

(** [str::parse::<u64>] and [str::parse::<u32>]: an optional plus sign, at least
    one digit, and no overflow of the width. *)
Definition parse_below (bound : N) (s : string) : option N :=
  let body := match strip_prefix "+" s with Some r => r | None => s end in
  match body with
  | EmptyString => None
  | _ => match parse_digits body 0 with
         | Some n => if (n <? bound)%N then Some n else None
         | None => None
         end
  end.
Definition parse_u64 : string → option N := parse_below u64_modulus.
Definition parse_u32 : string → option N := parse_below u32_modulus.

(** [Display] of an unsigned integer. *)
Definition show_N (n : N) : string := pretty n.

(** [Vec<String>::join]. *)
Fixpoint join (sep : string) (l : list string) : string :=
  match l with
  | [] => EmptyString
  | [x] => x
  | x :: l' => x +:+ sep +:+ join sep l'
  end.

(** [Vec<String>::sort]: the bytewise order. *)
Definition sort_strings (l : list string) : list string := merge_sort String.le l.

(** [Vec::dedup]: drop repetitions that are next to each other. *)
Fixpoint dedup {A} `{EqDecision A} (l : list A) : list A :=
  match l with
  | [] => []
  | x :: l' => match dedup l' with
              | y :: t => if decide (x = y) then y :: t else x :: y :: t
              | [] => [x]
              end
  end.

(** Collecting into a [BTreeSet<String>] and iterating over it. *)
Definition btree_set (l : list string) : list string := dedup (sort_strings l).

(** ** Append, prefixes and searching: lemmas. *)

Lemma str_app_nil_l (s : string) : EmptyString +:+ s = s.
Proof. done. Qed.

Lemma str_app_cons (c : ascii) (s t : string) : String c s +:+ t = String c (s +:+ t).
Proof. done. Qed.

Lemma str_app_nil_r (s : string) : s +:+ EmptyString = s.
Proof. induction s as [|c s IH]; [done|]. by rewrite str_app_cons, IH. Qed.

Lemma str_app_assoc (a b c : string) : a +:+ (b +:+ c) = (a +:+ b) +:+ c.
Proof. induction a as [|x a IH]; [done|]. by rewrite !str_app_cons, IH. Qed.

Lemma str_app_inj_l (a b c : string) : a +:+ b = a +:+ c → b = c.
Proof. induction a as [|x a IH]; [done|]. rewrite !str_app_cons. intros [= H]. auto. Qed.

Lemma str_app_length (a b : string) :
  String.length (a +:+ b) = (String.length a + String.length b)%nat.
Proof. induction a as [|x a IH]; [done|]. rewrite str_app_cons. simpl. by rewrite IH. Qed.

Lemma strip_prefix_Some p s r : strip_prefix p s = Some r ↔ s = p +:+ r.
Proof.
  revert s. induction p as [|a p IH]; intros s; simpl.
  - rewrite str_app_nil_l. naive_solver.
  - destruct s as [|b s]; simpl; [naive_solver|].
    rewrite str_app_cons. destruct (ascii_dec a b) as [->|Hne]; [|naive_solver].
    rewrite IH. naive_solver.
Qed.

Lemma strip_prefix_app p r : strip_prefix p (p +:+ r) = Some r.
Proof. by apply strip_prefix_Some. Qed.

Lemma strip_suffix_app suf r : strip_suffix suf (r +:+ suf) = Some r.
Proof.
  induction r as [|c r IH].
  - rewrite str_app_nil_l. destruct suf; [done|]. cbn [strip_suffix]. by rewrite String.eqb_refl.
  - rewrite str_app_cons. cbn [strip_suffix]. rewrite IH.
    destruct (String.eqb_spec (String c (r +:+ suf)) suf) as [Heq|_]; [|done].
    apply (f_equal String.length) in Heq. cbn in Heq. rewrite str_app_length in Heq. lia.
Qed.

Lemma strip_suffix_Some suf s r : strip_suffix suf s = Some r → s = r +:+ suf.
Proof.
  revert r. induction s as [|c s IH]; intros r; cbn [strip_suffix].
  - destruct (String.eqb EmptyString suf) eqn:Heq; [|done].
    apply String.eqb_eq in Heq. by intros [= <-].
  - destruct (String.eqb (String c s) suf) eqn:Heq.
    + apply String.eqb_eq in Heq. by intros [= <-].
    + destruct (strip_suffix suf s) as [r'|]; simpl; [|done].
      intros [= <-]. by rewrite str_app_cons, (IH r').
Qed.

Lemma starts_with_spec s p : starts_with s p = true ↔ ∃ r, s = p +:+ r.
Proof.
  unfold starts_with. destruct (strip_prefix p s) as [r|] eqn:H.
  - apply strip_prefix_Some in H. naive_solver.
  - split; [done|]. intros [r ->]. by rewrite strip_prefix_app in H.
Qed.

Lemma starts_with_app p r : starts_with (p +:+ r) p = true.
Proof. apply starts_with_spec. eauto. Qed.

(** Neither of two prefixes of one string can be blind to the other. *)
Lemma starts_with_two s p q :
  starts_with s p = true → starts_with s q = true →
  starts_with p q = true ∨ starts_with q p = true.
Proof.
  rewrite !starts_with_spec. intros [r ->] [r' H]. revert q r' H.
  induction p as [|a p IH]; intros q r' H; [right; by exists q|].
  destruct q as [|b q]; [left; by exists (String a p)|].
  rewrite !str_app_cons in H. injection H as -> H.
  destruct (IH q r' H) as [[x Hx]|[x Hx]].
  - left. exists x. by rewrite str_app_cons, <- Hx.
  - right. exists x. by rewrite str_app_cons, <- Hx.
Qed.

Lemma split_once_app sep s a b :
  split_once sep s = Some (a, b) → s = a +:+ sep +:+ b.
Proof.
  revert a. induction s as [|c s IH]; intros a; simpl.
  - destruct (strip_prefix sep EmptyString) as [r|] eqn:H; [|done].
    intros [= <- <-]. by apply strip_prefix_Some in H.
  - destruct (strip_prefix sep (String c s)) as [r|] eqn:H.
    + intros [= <- <-]. by apply strip_prefix_Some in H.
    + destruct (split_once sep s) as [[x y]|]; [|done].
      intros [= <- <-]. by rewrite str_app_cons, (IH x).
Qed.

Lemma split_once_None sep s :
  split_once sep s = None ↔ ∀ a b, s ≠ a +:+ sep +:+ b.
Proof.
  split.
  - induction s as [|c s IH]; simpl; intros H a b Heq.
    + destruct a; [|done]. rewrite str_app_nil_l in Heq. symmetry in Heq.
      destruct sep; [|done]. by simpl in H.
    + destruct a as [|x a].
      * rewrite str_app_nil_l in Heq. rewrite Heq, strip_prefix_app in H. done.
      * rewrite str_app_cons in Heq. injection Heq as -> Heq.
        destruct (strip_prefix sep (String x s)); [done|].
        destruct (split_once sep s) as [[? ?]|] eqn:?; [done|].
        by apply (IH eq_refl a b).
  - intros Hno. destruct (split_once sep s) as [[a b]|] eqn:H; [|done].
    apply split_once_app in H. by destruct (Hno a b).
Qed.

Lemma contains_spec s p : contains s p = true ↔ ∃ a b, s = a +:+ p +:+ b.
Proof.
  unfold contains. destruct (split_once p s) as [[a b]|] eqn:H.
  - apply split_once_app in H. naive_solver.
  - rewrite split_once_None in H. naive_solver.
Qed.

(** A string in which no byte of [a] is the separator is split at its end. *)
Lemma split_once_char c a b :
  all_bytes (λ d, negb (bool_decide (c = d))) a = true →
  split_once (String c EmptyString) (a +:+ String c EmptyString +:+ b) = Some (a, b).
Proof.
  induction a as [|d a IH]; simpl.
  - intros _. destruct (ascii_dec c c); [|done]. by destruct b.
  - rewrite andb_true_iff, negb_true_iff, bool_decide_eq_false.
    intros [Hne Ha]. destruct (ascii_dec c d); [done|].
    by rewrite (IH Ha).
Qed.

Lemma rsplit_once_char c a b :
  all_bytes (λ d, negb (bool_decide (c = d))) b = true →
  rsplit_once c (a +:+ String c b) = Some (a, b).
Proof.
  intros Hb. assert (rsplit_once c b = None) as Hnone.
  { revert Hb. induction b as [|d b IH]; simpl; [done|].
    rewrite andb_true_iff, negb_true_iff, bool_decide_eq_false.
    intros [Hne Hb]. rewrite (IH Hb). by destruct (ascii_dec c d). }
  induction a as [|d a IH]; simpl.
  - rewrite Hnone. by destruct (ascii_dec c c).
  - by rewrite IH.
Qed.

(** ** Decimal integers: printing then parsing. *)

Lemma all_bytes_app p a b : all_bytes p (a +:+ b) = all_bytes p a && all_bytes p b.
Proof. induction a as [|c a IH]; [done|]. rewrite str_app_cons. simpl. by rewrite IH, andb_assoc. Qed.

Lemma all_bytes_impl (p q : ascii → bool) s :
  (∀ c, p c = true → q c = true) → all_bytes p s = true → all_bytes q s = true.
Proof.
  intros Hpq. induction s as [|c s IH]; simpl; [done|].
  rewrite !andb_true_iff. naive_solver.
Qed.

Lemma parse_digits_app a b acc :
  parse_digits (a +:+ b) acc = parse_digits a acc ≫= parse_digits b.
Proof.
  revert acc. induction a as [|c a IH]; intros acc; [done|].
  rewrite str_app_cons. simpl. destruct (is_ascii_digit c); [apply IH|done].
Qed.

Lemma digit_char (d : N) :
  (d < 10)%N →
  is_ascii_digit (pretty_N_char d) = true ∧ (N_of_ascii (pretty_N_char d) - 48 = d)%N.
Proof.
  intros Hd. assert (d ∈ [0;1;2;3;4;5;6;7;8;9]%N) as Hin.
  { rewrite !elem_of_cons. lia. }
  rewrite !elem_of_cons, elem_of_nil in Hin.
  repeat destruct Hin as [->|Hin]; done.
Qed.

Lemma pretty_go_digits n s :
  ∃ t, pretty_N_go n s = t +:+ s ∧ all_bytes is_ascii_digit t = true ∧
       parse_digits t 0 = Some n.
Proof.
  revert s. induction (N.lt_wf_0 n) as [n _ IH]; intros s.
  destruct (decide (n = 0)%N) as [->|Hn].
  { exists EmptyString. by rewrite pretty_N_go_0. }
  rewrite pretty_N_go_step by lia.
  assert (n `mod` 10 < 10)%N as Hd by (apply N.mod_lt; lia).
  destruct (digit_char _ Hd) as [Hdig Hval].
  destruct (IH (n `div` 10)%N) with (s := String (pretty_N_char (n `mod` 10)) s)
    as (t & -> & Ht & Hp).
  { apply N.div_lt; lia. }
  exists (t +:+ String (pretty_N_char (n `mod` 10)) EmptyString). split_and!.
  - by rewrite <- str_app_assoc.
  - rewrite all_bytes_app, Ht. simpl. by rewrite Hdig.
  - rewrite parse_digits_app, Hp. simpl. rewrite Hdig, Hval.
    f_equal. rewrite N.mul_comm. symmetry. apply N.div_mod. lia.
Qed.

Lemma show_N_digits n :
  all_bytes is_ascii_digit (show_N n) = true ∧ parse_digits (show_N n) 0 = Some n ∧
  show_N n ≠ EmptyString.
Proof.
  unfold show_N, pretty, pretty_N. destruct (decide (n = 0)%N) as [->|Hn]; [done|].
  destruct (pretty_go_digits n EmptyString) as (t & -> & Ht & Hp).
  rewrite str_app_nil_r. split_and!; [done..|].
  intros ->. simpl in Hp. congruence.
Qed.

Lemma show_N_inj m n : show_N m = show_N n → m = n.
Proof.
  intros H. destruct (show_N_digits m) as (_ & Hm & _).
  destruct (show_N_digits n) as (_ & Hn & _). rewrite H in Hm. congruence.
Qed.

(** A digit string holds no byte that is not a digit. *)
Lemma digits_avoid c s :
  is_ascii_digit c = false → all_bytes is_ascii_digit s = true →
  all_bytes (λ d, negb (bool_decide (c = d))) s = true.
Proof.
  intros Hc. apply all_bytes_impl. intros d Hd.
  apply negb_true_iff, bool_decide_eq_false. congruence.
Qed.

Lemma parse_below_show bound n : (n < bound)%N → parse_below bound (show_N n) = Some n.
Proof.
  intros Hn. destruct (show_N_digits n) as (Hd & Hp & Hne).
  unfold parse_below. destruct (show_N n) as [|c s] eqn:Hs; [done|].
  assert (strip_prefix "+" (String c s) = None) as ->.
  { destruct (strip_prefix "+" (String c s)) as [r|] eqn:Hplus; [|done].
    apply strip_prefix_Some in Hplus. by rewrite Hplus in Hd. }
  rewrite Hp. apply N.ltb_lt in Hn. by rewrite Hn.
Qed.

Lemma parse_below_bound bound s n : parse_below bound s = Some n → (n < bound)%N.
Proof.
  unfold parse_below. cbv zeta. generalize (match strip_prefix "+" s with Some r => r | None => s end).
  intros [|c t]; [done|].
  destruct (parse_digits _ _) as [m|]; [|done].
  destruct (m <? bound)%N eqn:Hm; [|done]. intros [= <-]. by apply N.ltb_lt.
Qed.

(** ** Characters and trimming. *)

Lemma concat_chars_chars s : concat_chars (chars s) = s.
Proof.
  induction s as [|c s IH]; [done|]. simpl. rewrite <- IH at 2.
  destruct (chars s) as [|[|d w] rest]; [done..|].
  by destruct (is_cont d).
Qed.

Lemma drop_while_head {A} (p : A → bool) x l :
  p x = false → drop_while p (x :: l) = x :: l.
Proof. intros H. simpl. by rewrite H. Qed.

(** A string that neither starts nor ends with white space is its own trim. *)
Lemma trim_matches_noop p s :
  match head (chars s) with Some ch => p ch | None => false end = false →
  match last (chars s) with Some ch => p ch | None => false end = false →
  trim_matches p s = s.
Proof.
  intros Hh Hl. unfold trim_matches.
  assert (drop_while p (chars s) = chars s) as ->.
  { destruct (chars s); [done|]. by apply drop_while_head. }
  assert (drop_while p (rev (chars s)) = rev (chars s)) as ->.
  { rewrite <- (rev_involutive (chars s)) in Hl.
    destruct (rev (chars s)) as [|x l]; [done|]. simpl in Hl.
    rewrite last_snoc in Hl. by apply drop_while_head. }
  by rewrite rev_involutive, concat_chars_chars.
Qed.

(** Plain ASCII strings are one character per byte. *)
Fixpoint bytes_of (s : string) : list string :=
  match s with EmptyString => [] | String c s' => String c EmptyString :: bytes_of s' end.

Lemma chars_ascii s :
  all_bytes (λ c, (N_of_ascii c <? 128)%N) s = true → chars s = bytes_of s.
Proof.
  induction s as [|c s IH]; [done|]. simpl. intros [_ Hs]%andb_true_iff.
  rewrite (IH Hs). destruct s as [|d s]; [done|]. simpl in *.
  apply andb_true_iff in Hs as [Hd _]. apply N.ltb_lt in Hd.
  unfold is_cont. rewrite (proj2 (N.leb_gt _ _) Hd). done.
Qed.

Lemma lines_single s :
  all_bytes (λ c, negb (bool_decide (lf = c))) s = true → s ≠ EmptyString → lines s = [s].
Proof.
  induction s as [|c s IH]; [done|]. simpl.
  rewrite andb_true_iff, negb_true_iff, bool_decide_eq_false.
  intros [Hc Hs] _. destruct (ascii_dec c lf); [congruence|].
  destruct s as [|d s]; [done|].
  rewrite (IH Hs) by done. simpl in Hs. unbool.
  rewrite (bool_decide_eq_false_2 (d = lf)) by congruence.
  by rewrite andb_false_r.
Qed.

(** A character list as [chars] yields it: every character has a first byte and
    continuation bytes after it, and every character but the first starts with a
    byte that is no continuation. *)
Definition starts_char (ch : string) : bool :=
  match ch with String c _ => negb (is_cont c) | EmptyString => false end.
Definition well_char (ch : string) : bool :=
  match ch with String _ w => all_bytes is_cont w | EmptyString => false end.
Definition well_chars (l : list string) : Prop :=
  Forall (λ ch, well_char ch = true) l ∧ Forall (λ ch, starts_char ch = true) (tail l).

Lemma chars_well s : well_chars (chars s).
Proof.
  induction s as [|c s [Hw Hs]]; [by split|]. simpl.
  destruct (chars s) as [|[|d w] rest]; [by repeat constructor|by inversion Hw|].
  inversion Hw as [|? ? Hd Hrest]; subst. simpl in Hs, Hd.
  destruct (is_cont d) eqn:Hc; split; simpl.
  - constructor; [simpl; by rewrite Hc|done].
  - done.
  - by repeat constructor.
  - constructor; [simpl; by rewrite Hc|done].
Qed.

Lemma chars_cons c s :
  chars (String c s) =
  match chars s with
  | String d w :: rest =>
      if is_cont d then String c (String d w) :: rest
      else String c EmptyString :: String d w :: rest
  | rest => String c EmptyString :: rest
  end.
Proof. done. Qed.

Lemma chars_cons_char ch s :
  well_char ch = true →
  match head (chars s) with Some h => starts_char h | None => true end = true →
  chars (ch +:+ s) = ch :: chars s.
Proof.
  destruct ch as [|c w]; [done|]. cbn [well_char]. intros Hw Hs. revert c.
  induction w as [|d w IH]; intros c.
  - change (String c EmptyString +:+ s) with (String c s).
    rewrite chars_cons. destruct (chars s) as [|[|d w] rest]; [done..|].
    simpl in Hs. apply negb_true_iff in Hs. by rewrite Hs.
  - simpl in Hw. apply andb_true_iff in Hw as [Hd Hw].
    change (String c (String d w) +:+ s) with (String c (String d w +:+ s)).
    rewrite chars_cons.
    rewrite (IH Hw d). by rewrite Hd.
Qed.

Lemma chars_concat l : well_chars l → chars (concat_chars l) = l.
Proof.
  unfold well_chars. induction l as [|ch l IH]; [done|]. simpl. intros [Hw Hs].
  inversion Hw as [|? ? Hch Hl]; subst.
  assert (chars (concat_chars l) = l) as Hcl.
  { apply IH. split; [done|]. destruct l; [done|]. by inversion Hs. }
  unfold concat_chars in *. rewrite chars_cons_char; [by rewrite Hcl|done|].
  rewrite Hcl. destruct l as [|h l]; [done|]. simpl. by inversion Hs.
Qed.

Lemma well_chars_suffix l1 l2 : well_chars (app l1 l2) → well_chars l2.
Proof.
  intros [Hw Hs]. apply Forall_app in Hw as [_ Hw]. split; [done|].
  destruct l1 as [|ch l1]; [done|]. simpl in Hs. apply Forall_app in Hs as [_ Hs].
  destruct l2; [done|]. by inversion Hs.
Qed.

Lemma well_chars_prefix l1 l2 : well_chars (app l1 l2) → well_chars l1.
Proof.
  intros [Hw Hs]. apply Forall_app in Hw as [Hw _]. split; [done|].
  destruct l1 as [|ch l1]; [done|]. simpl in Hs. by apply Forall_app in Hs as [Hs _].
Qed.

Lemma drop_while_suffix {A} (p : A → bool) l : ∃ l1, l = app l1 (drop_while p l).
Proof.
  induction l as [|x l [l1 IH]]; [by exists []|]. simpl. destruct (p x).
  - exists (x :: l1). simpl. by f_equal.
  - by exists [].
Qed.

Lemma drop_while_idem {A} (p : A → bool) l : drop_while p (drop_while p l) = drop_while p l.
Proof. induction l as [|x l IH]; [done|]. simpl. destruct (p x) eqn:H; [done|]. simpl. by rewrite H. Qed.

Lemma drop_while_prefix {A} (p : A → bool) l1 l2 :
  drop_while p (app l1 l2) = app l1 l2 → l1 ≠ [] → drop_while p l1 = l1.
Proof.
  destruct l1 as [|x l1]; [done|]. simpl. destruct (p x) eqn:H; [|done].
  intros Heq _. destruct (drop_while_suffix p (app l1 l2)) as [l3 Hl3].
  apply (f_equal length) in Heq, Hl3. simpl in Heq.
  rewrite !length_app in *. lia.
Qed.

Lemma trim_matches_idem p s : trim_matches p (trim_matches p s) = trim_matches p s.
Proof.
  unfold trim_matches.
  destruct (drop_while_suffix p (chars s)) as [a Ha].
  set (m := drop_while p (chars s)) in *.
  destruct (drop_while_suffix p (rev m)) as [b Hb].
  set (k := drop_while p (rev m)) in *.
  assert (m = app (rev k) (rev b)) as Hm.
  { rewrite <- (rev_involutive m), Hb at 1. by rewrite rev_app_distr. }
  assert (well_chars (rev k)) as Hwk.
  { apply (well_chars_prefix _ (rev b)). rewrite <- Hm.
    apply (well_chars_suffix a). rewrite <- Ha. apply chars_well. }
  rewrite (chars_concat _ Hwk).
  assert (drop_while p (rev k) = rev k) as ->.
  { destruct (decide (rev k = [])) as [->|Hne]; [done|].
    apply (drop_while_prefix p _ (rev b)); [|done].
    rewrite <- Hm. unfold m. apply drop_while_idem. }
  rewrite rev_involutive. unfold k. by rewrite drop_while_idem.
Qed.

Lemma trim_idem s : trim (trim s) = trim s.
Proof. apply trim_matches_idem. Qed.

(** ** Sorted sets of strings. *)

Lemma elem_of_dedup {A} `{EqDecision A} (x : A) l : x ∈ dedup l ↔ x ∈ l.
Proof.
  induction l as [|y l IH]; [done|]. cbn [dedup]. rewrite elem_of_cons, <- IH.
  destruct (dedup l) as [|z t]; [by rewrite elem_of_cons|].
  destruct (decide (y = z)) as [->|]; rewrite !elem_of_cons; naive_solver.
Qed.

Lemma elem_of_sort_strings x l : x ∈ sort_strings l ↔ x ∈ l.
Proof. unfold sort_strings. by rewrite merge_sort_Permutation. Qed.

Lemma elem_of_btree_set x l : x ∈ btree_set l ↔ x ∈ l.
Proof. unfold btree_set. by rewrite elem_of_dedup, elem_of_sort_strings. Qed.

Lemma dedup_sorted_NoDup {A} `{EqDecision A} (R : relation A) `{!AntiSymm (=) R} l :
  StronglySorted R l → NoDup (dedup l) ∧ StronglySorted R (dedup l).
Proof.
  induction 1 as [|x l Hl [IHn IHs] Hx]; [by repeat constructor|]. cbn [dedup].
  assert (Forall (R x) (dedup l)) as Hx'.
  { apply Forall_forall. intros y Hy. rewrite elem_of_dedup in Hy.
    by apply (proj1 (Forall_forall _ _) Hx). }
  destruct (dedup l) as [|z t]; [by repeat constructor; auto using not_elem_of_nil|].
  destruct (decide (x = z)) as [->|Hne]; [done|]. split; [|by constructor].
  constructor; [|done]. intros [->|Hin]%elem_of_cons; [done|].
  inversion IHs as [|? ? _ Hz]; subst. inversion Hx' as [|? ? Hxz _]; subst.
  apply (proj1 (Forall_forall _ _) Hz) in Hin. by apply Hne, (anti_symm R).
Qed.

Lemma btree_set_NoDup l : NoDup (btree_set l).
Proof.
  apply (dedup_sorted_NoDup String.le). unfold sort_strings.
  apply (StronglySorted_merge_sort String.le).
Qed.

#[export] Hint Rewrite str_app_nil_r concat_chars_chars strip_prefix_app starts_with_app : rust.
#[export] Hint Resolve starts_with_app strip_prefix_app : rust.

(** ** Separators. *)

(** No byte of [s] is [c]. *)
Definition no_byte (c : ascii) (s : string) : Prop :=
  all_bytes (λ d, negb (Ascii.eqb d c)) s = true.

Lemma split_char_skip c s r :
  no_byte c s → split_char c (s +:+ String c r) = s :: split_char c r.
Proof.
  unfold no_byte. induction s as [|d s IH]; cbn [all_bytes]; intros Hs.
  - change (EmptyString +:+ String c r) with (String c r). cbn [split_char].
    by destruct (ascii_dec c c).
  - apply andb_true_iff in Hs as [Hd Hs]. apply negb_true_iff, Ascii.eqb_neq in Hd.
    rewrite str_app_cons. cbn [split_char]. rewrite (IH Hs).
    by destruct (ascii_dec c d).
Qed.

Lemma split_char_last c s : no_byte c s → split_char c s = [s].
Proof.
  unfold no_byte. induction s as [|d s IH]; cbn [all_bytes]; intros Hs; [done|].
  apply andb_true_iff in Hs as [Hd Hs]. apply negb_true_iff, Ascii.eqb_neq in Hd.
  cbn [split_char]. rewrite (IH Hs). by destruct (ascii_dec c d).
Qed.

(** Joining on a separator no item holds, and splitting there, gives the items. *)
Lemma split_join c row :
  row ≠ [] → Forall (no_byte c) row → split_char c (join (String c EmptyString) row) = row.
Proof.
  intros Hne Hrow. induction Hrow as [|x row Hx Hrow IH]; [done|].
  destruct row as [|y row].
  - by apply split_char_last.
  - change (join (String c EmptyString) (x :: y :: row))
      with (x +:+ String c (join (String c EmptyString) (y :: row))).
    rewrite split_char_skip by done. f_equal. by apply IH.
Qed.

Lemma no_byte_join c sep row :
  no_byte c sep → Forall (no_byte c) row → no_byte c (join sep row).
Proof.
  intros Hc Hrow. induction Hrow as [|x row Hx Hrow IH]; [done|].
  destruct row as [|y row]; [done|].
  change (join sep (x :: y :: row)) with (x +:+ sep +:+ join sep (y :: row)).
  unfold no_byte in *. by rewrite !all_bytes_app, Hx, Hc, IH.
Qed.

Lemma no_byte_app c a b : no_byte c a → no_byte c b → no_byte c (a +:+ b).
Proof. unfold no_byte. rewrite all_bytes_app. by intros -> ->. Qed.

Lemma no_byte_show_N c n : is_ascii_digit c = false → no_byte c (show_N n).
Proof.
  intros Hc. eapply all_bytes_impl; [|apply show_N_digits]. intros d Hd.
  apply negb_true_iff, Ascii.eqb_neq. intros ->. congruence.
Qed.

(** ** Strings that are not blank. *)

Lemma chars_head d s : ∃ w rest, chars (String d s) = String d w :: rest.
Proof. rewrite chars_cons. destruct (chars s) as [|[|e w] rest]; [eauto..|]. destruct (is_cont e); eauto. Qed.

Lemma chars_cons_starts c d s :
  is_cont d = false → chars (String c (String d s)) = String c EmptyString :: chars (String d s).
Proof.
  intros Hd. rewrite chars_cons. destruct (chars_head d s) as (w & rest & ->). by rewrite Hd.
Qed.

Lemma drop_while_snoc {A} (p : A → bool) l x :
  p x = false → ∃ l', drop_while p (app l [x]) = app l' [x].
Proof.
  intros Hx. induction l as [|y l [l' IH]]; cbn [app drop_while].
  - rewrite Hx. by exists [].
  - destruct (p y); [eauto|]. by exists (y :: l).
Qed.

(** A string whose first character is no white space is not blank. *)
Lemma trim_not_blank s c w rest :
  chars s = String c w :: rest → is_whitespace (String c w) = false → trim s ≠ EmptyString.
Proof.
  intros Hs Hw. unfold trim, trim_matches. rewrite Hs, drop_while_head by done. cbn [rev].
  destruct (drop_while_snoc is_whitespace (rev rest) (String c w) Hw) as [l' ->].
  rewrite rev_app_distr. done.
Qed.

Lemma lines_line l s :
  no_byte lf l → no_byte cr l → lines (l +:+ lf_str +:+ s) = l :: lines s.
Proof.
  unfold no_byte. change (lf_str +:+ s) with (String lf s).
  induction l as [|c l IH]; cbn [all_bytes]; intros Hlf Hcr; [done|].
  apply andb_true_iff in Hlf as [Hc Hlf], Hcr as [Hc' Hcr].
  apply negb_true_iff, Ascii.eqb_neq in Hc, Hc'.
  specialize (IH Hlf Hcr). rewrite str_app_cons.
  assert (∃ d t, l +:+ String lf s = String d t) as (d & t & Heq).
  { destruct l; cbn; eauto. }
  rewrite Heq in *. cbn [lines] in *. rewrite IH. destruct (ascii_dec c lf); [done|].
  by rewrite bool_decide_eq_false_2.
Qed.

(** ** Splitting at a separator of several bytes. *)

Lemma starts_with_length s p q :
  starts_with s p = true → starts_with s q = true →
  (String.length q ≤ String.length p)%nat → starts_with p q = true.
Proof.
  intros Hp Hq Hlen. destruct (starts_with_two s p q Hp Hq) as [H|H]; [done|].
  apply starts_with_spec in H as [r ->]. rewrite str_app_length in Hlen.
  destruct r as [|c r]; simpl in Hlen; [|lia].
  rewrite str_app_nil_r. apply starts_with_spec. exists EmptyString. by rewrite str_app_nil_r.
Qed.

Lemma starts_with_contains s p : starts_with s p = true → contains s p = true.
Proof. rewrite starts_with_spec, contains_spec. intros [r ->]. by exists EmptyString, r. Qed.

Lemma contains_cons c s p : contains s p = true → contains (String c s) p = true.
Proof. rewrite !contains_spec. intros (a & b & ->). by exists (String c a), b. Qed.

(** [a] holds no separator, even one that would end inside the separator that
    follows it: the split is right after [a]. *)
Lemma split_once_first sep0 c a b :
  contains (a +:+ sep0) (sep0 +:+ String c EmptyString) = false →
  split_once (sep0 +:+ String c EmptyString) (a +:+ (sep0 +:+ String c EmptyString) +:+ b)
    = Some (a, b).
Proof.
  set (sep := sep0 +:+ String c EmptyString). induction a as [|d a IH]; intros Hno.
  - rewrite str_app_nil_l. assert (strip_prefix sep (sep +:+ b) = Some b) as H
      by apply strip_prefix_app.
    destruct (sep +:+ b) eqn:Hs; cbn [split_once]; by rewrite H.
  - rewrite str_app_cons. cbn [split_once].
    destruct (strip_prefix sep (String d (a +:+ sep +:+ b))) as [r|] eqn:H.
    + exfalso. apply strip_prefix_Some in H.
      assert (starts_with (String d a +:+ sep0) sep = true) as Hsw.
      { apply (starts_with_length (String d (a +:+ sep +:+ b))).
        -- apply starts_with_spec. exists (String c EmptyString +:+ b).
           rewrite str_app_cons, str_app_cons. f_equal.
           unfold sep. by rewrite !str_app_assoc.
        -- apply starts_with_spec. eauto.
        -- unfold sep. rewrite !str_app_length. simpl. lia. }
      apply starts_with_contains in Hsw. congruence.
    + rewrite IH; [done|]. apply not_true_iff_false. intros Hc.
      apply (contains_cons d) in Hc. rewrite <- str_app_cons in Hc. congruence.
Qed.

(** ** Sixteen hexadecimal digits: the rendering [:016x]. *)
Definition hex_nibble (n : N) : ascii := ascii_of_N (if (n <? 10)%N then n + 48 else n + 87).
Fixpoint hex_fixed (k : nat) (n : N) : string :=
  match k with
  | O => EmptyString
  | S k' => hex_fixed k' (n / 16) +:+ String (hex_nibble (n mod 16)) EmptyString
  end.
Definition hex16 (n : N) : string := hex_fixed 16 n.

(** ** The FNV-1a hash of 64 bits, as the code folds it over bytes. *)
Definition fnv_offset : N := 14695981039346656037.
Definition fnv_prime : N := 1099511628211.
Definition fnv_byte (h : N) (b : N) : N := (N.lxor h b * fnv_prime) mod u64_modulus.
Fixpoint fnv_str (h : N) (s : string) : N :=
  match s with
  | EmptyString => h
  | String c s' => fnv_str (fnv_byte h (N_of_ascii c)) s'
  end.

(** [str::parse::<u8>]. *)
Definition parse_u8 : string → option N := parse_below 256.

(** ** Strings that are their own trim. *)

(** [s] starts at a character boundary, as every Rust string does. *)
Definition starts_at_char (s : string) : bool :=
  match s with String c _ => negb (is_cont c) | EmptyString => true end.

Lemma chars_starts s :
  starts_at_char s = true →
  match head (chars s) with Some h => starts_char h | None => true end = true.
Proof. destruct s as [|c s]; [done|]. destruct (chars_head c s) as (w & rest & ->). done. Qed.

Lemma chars_app a b : starts_at_char b = true → chars (a +:+ b) = app (chars a) (chars b).
Proof.
  intros Hb. apply chars_starts in Hb. induction a as [|c a IH]; [done|].
  rewrite str_app_cons, !chars_cons, IH.
  destruct (chars a) as [|[|d w] rest] eqn:Ha; cbn [app].
  - destruct (chars b) as [|[|d w] rest]; [done..|]. cbn [head starts_char] in Hb.
    apply negb_true_iff in Hb. by rewrite Hb.
  - done.
  - by destruct (is_cont d).
Qed.

Lemma trim_fix_lists s :
  trim s = s →
  drop_while is_whitespace (chars s) = chars s ∧
  drop_while is_whitespace (rev (chars s)) = rev (chars s).
Proof.
  unfold trim, trim_matches. intros H.
  destruct (drop_while_suffix is_whitespace (chars s)) as [a Ha].
  set (m := drop_while is_whitespace (chars s)) in *.
  destruct (drop_while_suffix is_whitespace (rev m)) as [b Hb].
  set (k := drop_while is_whitespace (rev m)) in *.
  assert (m = app (rev k) (rev b)) as Hm.
  { rewrite <- (rev_involutive m), Hb at 1. by rewrite rev_app_distr. }
  assert (rev k = chars s) as Hk.
  { rewrite <- H. symmetry. apply chars_concat. apply (well_chars_prefix _ (rev b)).
    rewrite <- Hm. apply (well_chars_suffix a). rewrite <- Ha. apply chars_well. }
  assert (a = [] ∧ rev b = []) as [-> Hb0].
  { rewrite Hm, Hk in Ha. apply (f_equal length) in Ha. rewrite !length_app in Ha.
    split; apply nil_length_inv; lia. }
  assert (m = chars s) as Hms by (by rewrite Hm, Hb0, app_nil_r).
  split; [done|]. rewrite <- Hms at 1. fold k. by rewrite <- Hk, rev_involutive.
Qed.

Lemma drop_while_fix_head {A} (p : A → bool) x l : drop_while p (x :: l) = x :: l → p x = false.
Proof.
  simpl. destruct (p x); [|done]. intros H.
  destruct (drop_while_suffix p l) as [l1 Hl]. rewrite H in Hl.
  apply (f_equal length) in Hl. rewrite length_app in Hl. simpl in Hl. lia.
Qed.

Lemma trim_fix_last s :
  trim s = s → match last (chars s) with Some ch => is_whitespace ch | None => false end = false.
Proof.
  intros [_ H]%trim_fix_lists. rewrite <- (rev_involutive (chars s)).
  destruct (rev (chars s)) as [|x l]; [done|]. cbn [rev]. rewrite last_snoc.
  by apply drop_while_fix_head in H.
Qed.

(** A trimmed value after a text that starts with no white space. *)
Lemma trim_prefixed k v :
  match head (chars k) with Some ch => is_whitespace ch | None => true end = false →
  starts_at_char v = true → v ≠ EmptyString → trim v = v → trim (k +:+ v) = k +:+ v.
Proof.
  intros Hk Hs Hne Hv. apply trim_matches_noop; rewrite chars_app by done.
  - by destruct (chars k).
  - apply trim_fix_last in Hv. destruct v as [|c v]; [done|].
    destruct (chars_head c v) as (w & rest & Heq). rewrite Heq in *.
    assert (∃ l x, String c w :: rest = app l [x]) as (l & x & Hlx).
    { destruct (rev (String c w :: rest)) as [|x l] eqn:Hr.
      - apply (f_equal length) in Hr. rewrite length_rev in Hr. done.
      - exists (rev l), x. by rewrite <- (rev_involutive (_ :: rest)), Hr. }
    rewrite Hlx in *. rewrite last_snoc in Hv. by rewrite app_assoc, last_snoc.
Qed.

(** A trimmed value after one space. *)
Lemma trim_spaced v : starts_at_char v = true → trim v = v → trim (" " +:+ v) = v.
Proof.
  intros Hs Hv. apply trim_fix_lists in Hv as [H1 H2]. unfold trim, trim_matches.
  rewrite chars_app by done. change (chars " ") with [" "]. cbn [app drop_while].
  change (is_whitespace " ") with true. cbn iota. rewrite H1, H2, rev_involutive.
  apply concat_chars_chars.
Qed.

(** A trimmed text and the end of its line. *)
Lemma trim_line v : trim v = v → trim (v +:+ String lf EmptyString) = v.
Proof.
  intros Hv. pose proof Hv as Hv'. apply trim_fix_lists in Hv' as [H1 H2]. unfold trim, trim_matches.
  rewrite chars_app by done. change (chars (String lf EmptyString)) with [String lf EmptyString].
  assert (is_whitespace (String lf EmptyString) = true) as Hw by done.
  destruct (chars v) as [|x l] eqn:Hc.
  - cbn [app drop_while]. rewrite Hw. cbn [rev drop_while]. rewrite <- (concat_chars_chars v), Hc. done.
  - apply drop_while_fix_head in H1. cbn [app drop_while]. rewrite H1.
    change (x :: app l [String lf EmptyString]) with (app (x :: l) [String lf EmptyString]).
    rewrite rev_app_distr. cbn [rev app drop_while]. rewrite Hw.
    change (app (rev l) [x]) with (rev (x :: l)).
    rewrite H2, rev_involutive, <- Hc. apply concat_chars_chars.
Qed.

(** A value a "key = value" line carries unchanged. *)
Definition line_value (s : string) : bool :=
  negb (is_empty s) && bool_decide (trim s = s) && starts_at_char s
  && all_bytes (λ c, negb (Ascii.eqb c lf)) s && all_bytes (λ c, negb (Ascii.eqb c cr)) s.

Lemma line_value_spec s :
  line_value s = true →
  s ≠ EmptyString ∧ trim s = s ∧ starts_at_char s = true ∧ no_byte lf s ∧ no_byte cr s.
Proof.
  unfold line_value, no_byte. rewrite !andb_true_iff, bool_decide_eq_true.
  intros [[[[Hne ?] ?] ?] ?]. split_and!; [|done..]. by destruct s.
Qed.

(** Text of printable ASCII bytes carries unchanged. *)
Lemma word_line_value (p : ascii → bool) s :
  (∀ c, p c = true → (33 <= N_of_ascii c < 127)%N) →
  s ≠ EmptyString → all_bytes p s = true → line_value s = true.
Proof.
  intros Hp Hne Hs. unfold line_value.
  assert (∀ c, p c = true → is_whitespace (String c EmptyString) = false) as Hws.
  { intros c Hc%Hp. unfold is_whitespace, is_ascii_ws. apply orb_false_iff.
    split; [|apply N.eqb_neq; lia]. apply andb_false_iff. right. apply N.leb_gt. lia. }
  assert (∀ d, (N_of_ascii d < 33)%N → all_bytes (λ c, negb (Ascii.eqb c d)) s = true) as Hno.
  { intros d Hd. revert Hs. apply all_bytes_impl. intros c Hc%Hp.
    apply negb_true_iff, Ascii.eqb_neq. intros ->. lia. }
  rewrite !andb_true_iff, bool_decide_eq_true. split_and!.
  - by destruct s.
  - assert (chars s = bytes_of s) as Hch.
    { apply chars_ascii. revert Hs. apply all_bytes_impl. intros c Hc%Hp. apply N.ltb_lt. lia. }
    apply trim_matches_noop; rewrite Hch; clear Hch Hno.
    + destruct s; [done|]. simpl in Hs. apply andb_true_iff in Hs as [Hc _]. by apply Hws.
    + induction s as [|c s IH]; [done|]. simpl in Hs.
      apply andb_true_iff in Hs as [Hc Hs]. destruct s as [|d s]; [by apply Hws|].
      apply (IH ltac:(done) Hs).
  - destruct s as [|c s]; [done|]. simpl in *. apply andb_true_iff in Hs as [Hc%Hp _].
    unfold is_cont. apply negb_true_iff, andb_false_iff. left. apply N.leb_gt. lia.
  - by apply Hno.
  - by apply Hno.
Qed.

Lemma digits_line_value s :
  s ≠ EmptyString → all_bytes is_ascii_digit s = true → line_value s = true.
Proof.
  apply word_line_value. intros c. unfold is_ascii_digit.
  rewrite andb_true_iff, !N.leb_le. lia.
Qed.

(** ** Files of whole lines. *)

(** Empty, or ended by a line feed. *)
Fixpoint ends_lf (s : string) : bool :=
  match s with
  | EmptyString => true
  | String c EmptyString => Ascii.eqb c lf
  | String _ s' => ends_lf s'
  end.

Lemma ends_lf_app s l : ends_lf (s +:+ l +:+ lf_str) = true.
Proof.
  induction s as [|c s IH].
  - rewrite str_app_nil_l. induction l as [|c l IH]; [done|]. rewrite str_app_cons.
    cbn [ends_lf]. rewrite IH. by destruct (l +:+ lf_str) eqn:H; [destruct l|].
  - rewrite str_app_cons. cbn [ends_lf]. rewrite IH.
    destruct (s +:+ l +:+ lf_str) eqn:H; [|done]. by destruct s, l.
Qed.

Lemma lines_cons2 c d s :
  lines (String c (String d s)) =
  if ascii_dec c lf then EmptyString :: lines (String d s)
  else if bool_decide (c = cr) && bool_decide (d = lf) then lines (String d s)
  else match lines (String d s) with
       | h :: t => String c h :: t
       | [] => [String c EmptyString]
       end.
Proof. done. Qed.

Lemma lines_not_nil d s : lines (String d s) ≠ [].
Proof.
  revert d. induction s as [|e s IH]; intros d.
  - cbn. by destruct (ascii_dec d lf).
  - rewrite lines_cons2. destruct (ascii_dec d lf); [done|].
    destruct (bool_decide _ && _); [apply IH|]. by destruct (lines (String e s)).
Qed.

Lemma lines_app s t : ends_lf s = true → lines (s +:+ t) = app (lines s) (lines t).
Proof.
  induction s as [|c s IH]; intros Hs; [done|]. rewrite str_app_cons. destruct s as [|d s].
  - cbn [ends_lf] in Hs. apply Ascii.eqb_eq in Hs as ->. done.
  - specialize (IH Hs). rewrite str_app_cons in *. rewrite !lines_cons2, IH.
    destruct (ascii_dec c lf); [done|]. destruct (bool_decide _ && _); [done|].
    by destruct (lines (String d s)) eqn:H; [apply lines_not_nil in H|].
Qed.

(** ** File names and prefixes. *)

(** File names: [Path::extension], [Path::with_extension]. *)
Definition extension (name : string) : option string :=
  match rsplit_once "." name with
  | Some (b, e) => if is_empty b then None else Some e
  | None => None
  end.
Definition with_extension (ext name : string) : string :=
  match rsplit_once "." name with
  | Some (b, _) => if is_empty b then name +:+ "." +:+ ext else b +:+ "." +:+ ext
  | None => name +:+ "." +:+ ext
  end.

(** Cut at a character boundary: the bytes before position [n] when a character
    starts there. *)
Fixpoint str_take (n : nat) (s : string) : string :=
  match n, s with
  | S n', String c s' => String c (str_take n' s')
  | _, _ => EmptyString
  end.
Definition is_char_boundary (n : nat) (s : string) : bool :=
  match n, str_drop n s with
  | O, _ => true
  | _, String c _ => negb (is_cont c)
  | _, EmptyString => Nat.eqb n (String.length s)
  end.

Lemma extension_dot b e : b ≠ EmptyString → no_byte "." e → extension (b +:+ "." +:+ e) = Some e.
Proof.
  intros Hb He. unfold extension. change ("." +:+ e) with (String "." e).
  rewrite rsplit_once_char; [by destruct b|].
  revert He. apply all_bytes_impl. intros d Hd. apply negb_true_iff in Hd.
  apply negb_true_iff, bool_decide_eq_false. intros <-. by rewrite Ascii.eqb_refl in Hd.
Qed.

Lemma with_extension_dot b e x :
  b ≠ EmptyString → no_byte "." e → with_extension x (b +:+ "." +:+ e) = b +:+ "." +:+ x.
Proof.
  intros Hb He. unfold with_extension. change ("." +:+ e) with (String "." e).
  rewrite rsplit_once_char; [by destruct b|].
  revert He. apply all_bytes_impl. intros d Hd. apply negb_true_iff in Hd.
  apply negb_true_iff, bool_decide_eq_false. intros <-. by rewrite Ascii.eqb_refl in Hd.
Qed.

(** ** [BTreeMap<String, A>]: an association list sorted by its keys. *)
Section BTreeMap.
Context {A : Type}.
Implicit Types (l : list (string * A)).

Definition bt_get (k : string) l : option A := snd <$> find_first (λ kv, bool_decide (kv.1 = k)) l.

Fixpoint bt_insert (k : string) (v : A) l : list (string * A) :=
  match l with
  | [] => [(k, v)]
  | (k', v') :: l' =>
      match String.compare k k' with
      | Lt => (k, v) :: l
      | Eq => (k, v) :: l'
      | Gt => (k', v') :: bt_insert k v l'
      end
  end.
(** [collect] and [extend]: the pairs inserted one by one. *)
Definition bt_extend (kvs l : list (string * A)) : list (string * A) :=
  fold_left (λ m kv, bt_insert kv.1 kv.2 m) kvs l.

Fixpoint bt_above (k : string) l : bool :=
  match l with
  | [] => true
  | (k', _) :: l' => match String.compare k k' with Lt => bt_above k' l' | _ => false end
  end.
Definition bt_sorted l : bool := match l with [] => true | (k, _) :: l' => bt_above k l' end.

Lemma bt_get_insert k k' v l : bt_get k (bt_insert k' v l) = if decide (k = k') then Some v else bt_get k l.
Proof.
  unfold bt_get. induction l as [|[j w] l IH]; cbn [bt_insert find_first fst].
  - case_decide as Hk; [subst; by rewrite bool_decide_eq_true_2|].
    by rewrite bool_decide_eq_false_2 by congruence.
  - destruct (String.compare k' j) eqn:Hc; cbn [find_first fst].
    + apply String.compare_eq_iff in Hc as ->. case_decide as Hk.
      * subst. by rewrite bool_decide_eq_true_2.
      * by rewrite bool_decide_eq_false_2 by congruence.
    + case_decide as Hk; [subst; by rewrite bool_decide_eq_true_2|].
      rewrite (bool_decide_eq_false_2 (k' = k)) by congruence. done.
    + destruct (bool_decide (j = k)) eqn:Hj; [|exact IH]. apply bool_decide_eq_true in Hj as ->.
      case_decide as Hk; [|done]. subst.
      pose proof (String.compare_antisym k' k') as Ha. rewrite Hc in Ha. done.
Qed.

Lemma compare_gt_lt a b : String.compare a b = Gt → String.compare b a = Lt.
Proof. intros H. rewrite String.compare_antisym, H. done. Qed.

Lemma bt_above_insert j k v l :
  String.compare j k = Lt → bt_above j l = true → bt_above j (bt_insert k v l) = true.
Proof.
  revert j. induction l as [|[k' w] l IH]; intros j Hjk; cbn [bt_insert bt_above].
  - by rewrite Hjk.
  - destruct (String.compare j k') eqn:Hj; try done. intros Hl.
    destruct (String.compare k k') eqn:Hc; cbn [bt_above].
    + apply String.compare_eq_iff in Hc as ->. by rewrite Hj.
    + by rewrite Hjk, Hc.
    + rewrite Hj. apply IH; [by apply compare_gt_lt|done].
Qed.

Lemma bt_sorted_insert k v l : bt_sorted l = true → bt_sorted (bt_insert k v l) = true.
Proof.
  destruct l as [|[k' w] l]; [done|]. cbn [bt_insert bt_sorted]. intros Hl.
  destruct (String.compare k k') eqn:Hc; cbn [bt_sorted bt_above].
  - by apply String.compare_eq_iff in Hc as ->.
  - by rewrite Hc.
  - apply bt_above_insert; [by apply compare_gt_lt|done].
Qed.

Lemma bt_sorted_extend kvs : ∀ l, bt_sorted l = true → bt_sorted (bt_extend kvs l) = true.
Proof.
  induction kvs as [|[k v] kvs IH]; intros l Hl; [done|]. cbn. apply IH. by apply bt_sorted_insert.
Qed.

(** Inserting touches no value but the new one. *)
Lemma bt_insert_forallb (p : A → bool) k v l :
  p v = true → forallb (λ kv, p kv.2) l = true → forallb (λ kv, p kv.2) (bt_insert k v l) = true.
Proof.
  intros Hv. induction l as [|[k' w] l IH]; cbn [bt_insert forallb snd]; [by rewrite Hv|].
  intros [Hw Hl]%andb_true_iff. destruct (String.compare k k'); cbn [forallb snd]; rewrite ?Hv, ?Hw, ?Hl; auto.
Qed.

Lemma bt_extend_forallb (p : A → bool) kvs : ∀ l,
  forallb (λ kv, p kv.2) kvs = true → forallb (λ kv, p kv.2) l = true →
  forallb (λ kv, p kv.2) (bt_extend kvs l) = true.
Proof.
  induction kvs as [|[k v] kvs IH]; intros l Hk Hl; [done|]. cbn in *.
  apply andb_true_iff in Hk as [Hv Hk]. apply IH; [done|]. by apply bt_insert_forallb.
Qed.
End BTreeMap.
