(* ===== verification/Order.v ===== *)
(** * Orders of tuples, and lists sorted by them

    Rust compares tuples by their first fields, then the next; strings by their bytes.
    A [sort] of tuples and the iteration of a [BTreeSet] of them follow that order. *)

From stdpp Require Import base numbers list option strings sorting.
From Stdlib Require Import NArith ZArith Ascii Lia.
From S2P Require Import Prelude RustStr.

Definition pair_lt {A B} (lta : A → A → bool) (ltb : B → B → bool) (x y : A * B) : bool :=
  if lta x.1 y.1 then true else if lta y.1 x.1 then false else ltb x.2 y.2.
Definition str_lt (a b : string) : bool := match String.compare a b with Lt => true | _ => false end.

(** Collecting pairs of strings into a [BTreeSet] and iterating over it. *)
Definition pair_set (l : list (string * string)) : list (string * string) :=
  dedup (stable_sort (pair_lt str_lt str_lt) l).

(** ** Strict weak orders, and lists sorted by them. *)

Class StrictWeak {A} (lt : A → A → bool) : Prop := {
  sw_asym x y : lt x y = true → lt y x = false;
  sw_trans x y z : lt y x = false → lt z y = false → lt z x = false }.

#[global] Instance N_strict_weak : StrictWeak N.ltb.
Proof. split; intros *; rewrite ?N.ltb_lt, ?N.ltb_ge; lia. Qed.
#[global] Instance Z_strict_weak : StrictWeak Z.ltb.
Proof. split; intros *; rewrite ?Z.ltb_lt, ?Z.ltb_ge; lia. Qed.
#[global] Instance nat_strict_weak : StrictWeak Nat.ltb.
Proof. split; intros *; rewrite ?Nat.ltb_lt, ?Nat.ltb_ge; lia. Qed.

Lemma str_lt_le a b : str_lt b a = false ↔ String.le a b.
Proof.
  unfold str_lt, String.le, String.leb. rewrite (String.compare_antisym a b).
  destruct (String.compare b a); cbn; naive_solver.
Qed.
#[global] Instance str_strict_weak : StrictWeak str_lt.
Proof.
  split; intros *.
  - unfold str_lt. rewrite (String.compare_antisym x y). by destruct (String.compare y x).
  - rewrite !str_lt_le. intros Hx Hy. by etrans.
Qed.

#[global] Instance pair_strict_weak {A B} (lta : A → A → bool) (ltb : B → B → bool) :
  StrictWeak lta → StrictWeak ltb → StrictWeak (pair_lt lta ltb).
Proof.
  intros Ha Hb. split.
  - intros [a b] [a' b']. unfold pair_lt. cbn. destruct (lta a a') eqn:Haa.
    + by rewrite (sw_asym _ _ Haa).
    + destruct (lta a' a); [done|]. apply sw_asym.
  - intros [a1 b1] [a2 b2] [a3 b3]. unfold pair_lt. cbn.
    destruct (lta a2 a1) eqn:H21, (lta a3 a2) eqn:H32; try done.
    pose proof (sw_trans _ _ _ H21 H32) as H31. rewrite H31.
    destruct (lta a1 a2) eqn:H12, (lta a2 a3) eqn:H23.
    + destruct (lta a1 a3) eqn:H13; [done|]. pose proof (sw_trans a2 a3 a1 H32 H13) as Hc. congruence.
    + destruct (lta a1 a3) eqn:H13; [done|]. pose proof (sw_trans a2 a3 a1 H32 H13) as Hc. congruence.
    + destruct (lta a1 a3) eqn:H13; [done|]. pose proof (sw_trans a3 a1 a2 H13 H21) as Hc. congruence.
    + destruct (lta a1 a3) eqn:H13; [done|]. apply sw_trans.
Qed.

Lemma sorted_by {A} (lt : A → A → bool) `{!StrictWeak lt} l : StronglySorted (λ a b, lt b a = false) (stable_sort lt l).
Proof. apply stable_sort_sorted; [apply sw_trans|apply sw_asym]. Qed.

Lemma sublist_strongly_sorted {A} (R : relation A) l k :
  sublist l k → StronglySorted R k → StronglySorted R l.
Proof.
  induction 1 as [|x l k Hs IH|x l k Hs IH]; intros Hk; [constructor| |].
  - inversion Hk as [|? ? Hk' Hx]; subst. constructor; [by apply IH|].
    rewrite Forall_forall in Hx |- *. intros y Hy. apply Hx. by eapply elem_of_sublist.
  - inversion Hk; subst. by apply IH.
Qed.

(** ** Sets of pairs. *)

Lemma elem_of_pair_set x l : x ∈ pair_set l ↔ x ∈ l.
Proof. unfold pair_set. by rewrite elem_of_dedup, (stable_sort_Permutation (pair_lt str_lt str_lt)). Qed.

Lemma dedup_ne {A} `{EqDecision A} (l : list A) x y t : dedup l = x :: y :: t → x ≠ y.
Proof.
  destruct l as [|a l]; [done|]. cbn. destruct (dedup l) as [|b t'] eqn:Hd; [done|].
  destruct (decide (a = b)) as [->|Hne]; [|by intros [= <- <- _]].
  intros [= <- ->]. revert Hd. revert y t. induction l as [|c l IH]; [done|]. cbn. intros y t.
  destruct (dedup l) as [|d t'] eqn:Hd; [done|]. destruct (decide (c = d)) as [->|Hne]; [|by intros [= <- <- _]].
  intros [= -> ->]. by eapply IH.
Qed.

(** One pair, no pair, or two that differ. *)
Lemma pair_set_cases l :
  match pair_set l with
  | [] => l = []
  | [x] => l ≠ [] ∧ ∀ y, y ∈ l → y = x
  | x :: y :: _ => x ∈ l ∧ y ∈ l ∧ x ≠ y
  end.
Proof.
  pose proof (λ x, elem_of_pair_set x l) as He. destruct (pair_set l) as [|x [|y t]] eqn:Hs.
  - destruct l as [|z l]; [done|]. exfalso. specialize (He z). rewrite elem_of_cons in He.
    apply (not_elem_of_nil z), He. by left.
  - split.
    + intros ->. apply (not_elem_of_nil x), He, list_elem_of_here.
    + intros z Hz%He. by apply list_elem_of_singleton in Hz.
  - split_and!; [apply He, list_elem_of_here|apply He, list_elem_of_further, list_elem_of_here|by eapply dedup_ne].
Qed.
