(* ===== verification/Json.v ===== *)
(** * The [serde_json] values the code reads, and Unicode case tables

    [serde_json::Value] is data; the parser that produces it and the printer that
    renders it are third-party code and stay parameters ([SerdeJson], [ToJson], with
    the round trip of [JsonLaws] as their law).  Objects are sorted by key, as
    serde_json's default map is.  The character tables of Rust's [char] beyond ASCII
    are a parameter as well ([Unicode]); the ASCII part is written out. *)

From stdpp Require Import base numbers list option strings countable.
From Stdlib Require Import NArith ZArith Ascii SpecFloat Lia.
From S2P Require Import Prelude RustStr.

(** ** [serde_json::Value] and [serde_json::Number]: an unsigned integer, a negative
    integer, or a finite 64-bit float. *)
Inductive Number := PosInt (n : N) | NegInt (z : Z) | Float (f : spec_float).

Inductive Json :=
  | JNull
  | JBool (b : bool)
  | JNumber (n : Number)
  | JString (s : string)
  | JArray (items : list Json)
  | JObject (fields : list (string * Json)).

(** [Value::as_str], [Value::as_array], [Value::as_object], [Value::as_u64]. *)
Definition as_str (v : Json) : option string :=
  match v with JString s => Some s | _ => None end.
Definition as_array (v : Json) : option (list Json) :=
  match v with JArray l => Some l | _ => None end.
Definition as_object (v : Json) : option (list (string * Json)) :=
  match v with JObject l => Some l | _ => None end.
Definition as_u64 (v : Json) : option N :=
  match v with JNumber (PosInt n) => Some n | _ => None end.
Definition as_i64 (v : Json) : option Z :=
  match v with
  | JNumber (PosInt n) => if (n <? 9223372036854775808)%N then Some (Z.of_N n) else None
  | JNumber (NegInt z) => Some z
  | _ => None
  end.
Definition as_bool (v : Json) : option bool := match v with JBool b => Some b | _ => None end.
(** [as f64] of an integer rounds to nearest even. *)
Definition f64_of_Z (z : Z) : spec_float := binary_normalize 53 1024 z 0 false.
Definition as_f64 (v : Json) : option spec_float :=
  match v with
  | JNumber (PosInt n) => Some (f64_of_Z (Z.of_N n))
  | JNumber (NegInt z) => Some (f64_of_Z z)
  | JNumber (Float f) => Some f
  | _ => None
  end.

(** [Map::get]: the keys of a parsed object are distinct. *)
Definition map_get : string → list (string * Json) → option Json := bt_get.

(** [Value::get] with a string index. *)
Definition json_get (k : string) (v : Json) : option Json := as_object v ≫= map_get k.

(** [json!({..})]: the keys in the order of the source, inserted one by one. *)
Definition map_of (kvs : list (string * Json)) : list (string * Json) := bt_extend kvs [].
Definition jobj (kvs : list (string * Json)) : Json := JObject (map_of kvs).

(** [value["k"]]: null where there is no such key. *)
Definition json_index (k : string) (v : Json) : Json := default JNull (json_get k v).

(** [serde_json::from_str::<Value>]: [None] is any parse error. *)
Class SerdeJson := from_str : string → option Json.

(** [serde_json::to_string] and [to_vec] of a [Value]: it cannot fail. *)
Class ToJson := to_string : Json → string.

(** A value the round trip is claimed for: the keys of its objects are sorted and
    distinct, and its numbers are integers. *)
Fixpoint canonical (v : Json) : bool :=
  match v with
  | JNull | JBool _ | JString _ => true
  | JNumber (Float _) => false
  | JNumber _ => true
  | JArray l => forallb canonical l
  | JObject l =>
      bt_sorted l && forallb (λ kv, canonical kv.2) l
  end.

(** What the code relies on: a printed value reads back, with or without the end of its
    line, and is one line. *)
Class JsonLaws `{SerdeJson, ToJson} := {
  from_to_string v : canonical v = true → from_str (to_string v) = Some v;
  from_to_string_line v : canonical v = true → from_str (to_string v +:+ lf_str) = Some v;
  to_string_line v : no_byte lf (to_string v) ∧ no_byte cr (to_string v);
  to_string_text v : trim (to_string v) = to_string v ∧ to_string v ≠ EmptyString;
}.

Lemma canonical_object kvs l :
  forallb (λ kv, canonical kv.2) kvs = true → canonical (JObject l) = true →
  canonical (JObject (bt_extend kvs l)) = true.
Proof.
  cbn [canonical]. rewrite !andb_true_iff. intros Hk [Hs Hl].
  split; [by apply bt_sorted_extend|by apply bt_extend_forallb].
Qed.

Lemma canonical_jobj kvs : forallb (λ kv, canonical kv.2) kvs = true → canonical (jobj kvs) = true.
Proof. intros Hk. by apply (canonical_object kvs []). Qed.

(** ** Characters beyond ASCII. *)
Class Unicode := {
  uni_lower : string → string;
  uni_alphanumeric : string → bool;
}.

(** [char::to_lowercase] and [str::to_lowercase]; the final-sigma rule is part of
    the table's answer for that character. *)
Definition lower_char `{Unicode} (ch : string) : string :=
  match ch with
  | String c EmptyString => String (ascii_lower c) EmptyString
  | _ => uni_lower ch
  end.
Definition to_lowercase `{Unicode} (s : string) : string :=
  concat_chars (map lower_char (chars s)).

(** [char::is_alphanumeric]. *)
Definition is_alphanumeric `{Unicode} (ch : string) : bool :=
  match ch with
  | String c EmptyString => is_ascii_alnum c
  | _ => uni_alphanumeric ch
  end.

(** A table with no entries: every character beyond ASCII is its own lower case
    and no letter; concrete inputs are evaluated with it. *)
Definition ascii_only : Unicode := {| uni_lower := λ ch, ch; uni_alphanumeric := λ _, false |}.

(** [Option::map(str::trim).filter(|s| !s.is_empty())]. *)
Definition trimmed_nonempty (o : option string) : option string :=
  match o with
  | Some s => if is_empty (trim s) then None else Some (trim s)
  | None => None
  end.

(** ** Lemmas. *)

Lemma to_lowercase_ascii `{Unicode} s :
  all_bytes (λ c, (N_of_ascii c <? 128)%N) s = true →
  to_lowercase s = to_ascii_lowercase s.
Proof.
  intros Hs. unfold to_lowercase. rewrite chars_ascii by done. clear Hs.
  induction s as [|c s IH]; [done|]. simpl. by rewrite IH.
Qed.

Lemma trimmed_nonempty_Some o s :
  trimmed_nonempty o = Some s ↔ ∃ r, o = Some r ∧ s = trim r ∧ s ≠ EmptyString.
Proof.
  unfold trimmed_nonempty. split.
  - destruct o as [r|]; [|done]. destruct (trim r) eqn:Hr; simpl; [done|].
    intros [= <-]. eauto.
  - intros (r & -> & -> & Hne). by destruct (trim r).
Qed.

(** ** A ledger of one JSON row per line, refusing at the first bad row.

    [row n line] reads the row of a line that is not blank; the lines are
    numbered from one. *)
Section Rows.
Context {E R : Type} (row : N → string → result E R).

Fixpoint parse_rows (n : N) (ls : list string) : result E (list R) :=
  match ls with
  | [] => Ok []
  | l :: ls' =>
      if is_empty (trim l) then parse_rows (n + 1) ls'
      else match row n l with
           | Ok r => match parse_rows (n + 1) ls' with
                     | Ok rs => Ok (r :: rs)
                     | Err e => Err e
                     end
           | Err e => Err e
           end
  end.

(** Every line that is not blank, with its number. *)
Fixpoint numbered (n : N) (ls : list string) : list (N * string) :=
  match ls with
  | [] => []
  | l :: ls' =>
      if is_empty (trim l) then numbered (n + 1) ls' else (n, l) :: numbered (n + 1) ls'
  end.

Lemma parse_rows_Ok n ls rs :
  parse_rows n ls = Ok rs ↔ Forall2 (λ nl r, row nl.1 nl.2 = Ok r) (numbered n ls) rs.
Proof.
  revert n rs. induction ls as [|l ls IH]; intros n rs; simpl.
  - split; [intros [= <-]; constructor|by inversion 1].
  - destruct (is_empty (trim l)); [apply IH|].
    destruct (row n l) as [r|e] eqn:Hr.
    + destruct (parse_rows (n + 1) ls) as [rs'|e] eqn:Hrs.
      * split.
        -- intros [= <-]. constructor; [done|]. by apply IH.
        -- inversion 1 as [|? r2 ? rs2 Hr2 Hrs2]; subst. simpl in Hr2.
           apply IH in Hrs2. congruence.
      * split; [done|]. inversion 1 as [|? r2 ? rs2 Hr2 Hrs2]; subst.
        apply IH in Hrs2. congruence.
    + split; [done|]. inversion 1; subst. simpl in *. congruence.
Qed.

Lemma parse_rows_app n l1 l2 :
  parse_rows n (app l1 l2) =
  match parse_rows n l1 with
  | Ok rs => match parse_rows (n + N.of_nat (length l1))%N l2 with
             | Ok rs' => Ok (app rs rs')
             | Err e => Err e
             end
  | Err e => Err e
  end.
Proof.
  revert n. induction l1 as [|l l1 IH]; intros n; cbn [app parse_rows length].
  - rewrite N.add_0_r. by destruct (parse_rows n l2).
  - replace (n + N.of_nat (S (length l1)))%N with (n + 1 + N.of_nat (length l1))%N by lia.
    destruct (is_empty (trim l)); [apply IH|]. destruct (row n l); [|done].
    rewrite IH. destruct (parse_rows (n + 1) l1); [|done]. by destruct (parse_rows _ l2).
Qed.

(** A refusal is the refusal of the first row that has one. *)
Lemma parse_rows_Err n ls e :
  parse_rows n ls = Err e ↔
  ∃ l1 nl l2, numbered n ls = app l1 (nl :: l2) ∧ row nl.1 nl.2 = Err e ∧
    Forall (λ x, is_ok (row x.1 x.2) = true) l1.
Proof.
  revert n. induction ls as [|l ls IH]; intros n; simpl.
  - split; [done|]. intros (l1 & nl & l2 & H & _). by destruct l1.
  - destruct (is_empty (trim l)); [apply IH|].
    destruct (row n l) as [r|e'] eqn:Hr.
    + transitivity (parse_rows (n + 1) ls = Err e).
      { destruct (parse_rows (n + 1) ls); naive_solver. }
      rewrite IH. split.
      * intros (l1 & nl & l2 & -> & Hnl & Hl1). exists ((n, l) :: l1), nl, l2.
        split_and!; [done..|]. constructor; [|done]. simpl. by rewrite Hr.
      * intros ([|x l1] & nl & l2 & H & Hnl & Hl1); simpl in H; injection H as <- H.
        -- simpl in Hnl. congruence.
        -- inversion Hl1; subst. by exists l1, nl, l2.
    + split.
      * intros [= ->]. exists [], (n, l), (numbered (n + 1) ls). auto.
      * intros ([|x l1] & nl & l2 & H & Hnl & Hl1); simpl in H; injection H as <- H.
        -- simpl in Hnl. congruence.
        -- inversion Hl1 as [|? ? Hx _]; subst. simpl in Hx. by rewrite Hr in Hx.
Qed.
End Rows.

(** ** A concrete printer and parser, for examples. *)

(** The bits of a code, as text. *)
Fixpoint bits (p : positive) : string :=
  match p with xH => "" | xO p' => String "0" (bits p') | xI p' => String "1" (bits p') end.

Fixpoint of_bits (s : string) : positive :=
  match s with
  | EmptyString => xH
  | String c s' => if ascii_dec c "0" then xO (of_bits s') else xI (of_bits s')
  end.

Lemma of_bits_bits p : of_bits (bits p) = p.
Proof. induction p as [p IH|p IH|]; cbn; by rewrite ?IH. Qed.

Lemma bits_digits p : all_bytes is_ascii_digit (bits p) = true.
Proof. induction p as [p IH|p IH|]; [exact IH|exact IH|done]. Qed.

(** A tree of leaves: the shape of a value. *)
Definition sf_code (f : spec_float) : bool + (bool + (unit + (bool * positive * Z))) :=
  match f with
  | S754_zero b => inl b | S754_infinity b => inr (inl b) | S754_nan => inr (inr (inl tt))
  | S754_finite b m e => inr (inr (inr (b, m, e)))
  end.
Definition sf_decode (c : bool + (bool + (unit + (bool * positive * Z)))) : spec_float :=
  match c with
  | inl b => S754_zero b | inr (inl b) => S754_infinity b | inr (inr (inl _)) => S754_nan
  | inr (inr (inr (b, m, e))) => S754_finite b m e
  end.
Lemma sf_decode_code f : sf_decode (sf_code f) = f.
Proof. by destruct f. Qed.

Notation leaf := (unit + bool + N + Z + (bool + (bool + (unit + (bool * positive * Z)))) + string)%type.

Fixpoint json_tree (v : Json) : gen_tree leaf :=
  match v with
  | JNull => GenLeaf (inl (inl (inl (inl (inl tt)))))
  | JBool b => GenLeaf (inl (inl (inl (inl (inr b)))))
  | JNumber (PosInt n) => GenLeaf (inl (inl (inl (inr n))))
  | JNumber (NegInt z) => GenLeaf (inl (inl (inr z)))
  | JNumber (Float f) => GenLeaf (inl (inr (sf_code f)))
  | JString s => GenLeaf (inr s)
  | JArray l => GenNode 0 (map json_tree l)
  | JObject l => GenNode 1 (map (λ kv, GenNode 2 [GenLeaf (inr kv.1); json_tree kv.2]) l)
  end.

Fixpoint tree_json (t : gen_tree leaf) : Json :=
  match t with
  | GenLeaf (inl (inl (inl (inl (inl _))))) => JNull
  | GenLeaf (inl (inl (inl (inl (inr b))))) => JBool b
  | GenLeaf (inl (inl (inl (inr n)))) => JNumber (PosInt n)
  | GenLeaf (inl (inl (inr z))) => JNumber (NegInt z)
  | GenLeaf (inl (inr c)) => JNumber (Float (sf_decode c))
  | GenLeaf (inr s) => JString s
  | GenNode 0 l => JArray (map tree_json l)
  | GenNode _ l =>
      JObject (map (λ t, match t with
                         | GenNode _ [GenLeaf (inr k); t'] => (k, tree_json t')
                         | _ => (EmptyString, JNull)
                         end) l)
  end.

Section JsonInd.
Context (P : Json → Prop) (Hnull : P JNull) (Hbool : ∀ b, P (JBool b)) (Hnum : ∀ n, P (JNumber n))
  (Hstr : ∀ s, P (JString s)) (Harr : ∀ l, Forall P l → P (JArray l))
  (Hobj : ∀ l, Forall (λ kv, P kv.2) l → P (JObject l)).
Fixpoint Json_deep_ind (v : Json) : P v :=
  match v with
  | JNull => Hnull
  | JBool b => Hbool b
  | JNumber n => Hnum n
  | JString s => Hstr s
  | JArray l => Harr l ((fix go l := match l return Forall P l with
                        | [] => Forall_nil_2 _
                        | x :: l' => Forall_cons_2 _ _ _ (Json_deep_ind x) (go l')
                        end) l)
  | JObject l => Hobj l ((fix go l := match l return Forall (λ kv, P kv.2) l with
                        | [] => Forall_nil_2 _
                        | x :: l' => Forall_cons_2 _ _ _ (Json_deep_ind x.2) (go l')
                        end) l)
  end.
End JsonInd.

Lemma tree_json_tree v : tree_json (json_tree v) = v.
Proof.
  induction v as [| | [n|z|f] | |l IH|l IH] using Json_deep_ind; try done; cbn.
  - by rewrite sf_decode_code.
  - f_equal. rewrite map_map. induction IH as [|x l Hx _ IHl]; cbn; [done|]. by rewrite Hx, IHl.
  - f_equal. rewrite map_map. induction IH as [|[k x] l Hx _ IHl]; cbn in *; [done|].
    by rewrite Hx, IHl.
Qed.

#[global] Instance spec_float_eq_dec : EqDecision spec_float.
Proof.
  refine (λ a b, cast_if (decide (sf_code a = sf_code b))).
  - abstract (rewrite <- (sf_decode_code a), <- (sf_decode_code b); congruence).
  - abstract congruence.
Defined.
#[global] Instance number_eq_dec : EqDecision Number.
Proof. solve_decision. Defined.
#[global] Instance json_eq_dec : EqDecision Json.
Proof.
  refine (λ a b, cast_if (decide (json_tree a = json_tree b))).
  - abstract (rewrite <- (tree_json_tree a), <- (tree_json_tree b); congruence).
  - abstract congruence.
Defined.

#[global] Instance json_countable : Countable Json :=
  inj_countable' json_tree tree_json tree_json_tree.

Definition bits_to_json : ToJson := λ v, "J" +:+ bits (encode v).
Definition bits_from_json : SerdeJson := λ s,
  match s with
  | String _ b => decode (of_bits (default b (strip_suffix lf_str b)))
  | EmptyString => None
  end.

Lemma no_line_end p s : p lf = false → all_bytes p s = true → strip_suffix lf_str s = None.
Proof.
  intros Hp Hs. destruct (strip_suffix lf_str s) as [r|] eqn:Hr; [|done].
  apply strip_suffix_Some in Hr as ->. rewrite all_bytes_app in Hs.
  apply andb_true_iff in Hs as [_ Hs]. change (p lf && true = true) in Hs. by rewrite Hp in Hs.
Qed.

Lemma bits_json_laws : @JsonLaws bits_from_json bits_to_json.
Proof.
  assert (∀ v, line_value (bits_to_json v) = true) as Hv.
  { intros v. apply (word_line_value (λ c, is_ascii_digit c || Ascii.eqb c "J")).
    - intros c. unfold is_ascii_digit. rewrite orb_true_iff, andb_true_iff, !N.leb_le.
      intros [?| ->%Ascii.eqb_eq]; [lia|done].
    - done.
    - unfold bits_to_json. rewrite all_bytes_app. apply andb_true_intro. split; [done|].
      eapply all_bytes_impl; [|apply bits_digits]. intros c ->. done. }
  split.
  - intros v _. change (decode (of_bits (default (bits (encode v)) (strip_suffix lf_str (bits (encode v))))) = Some v).
    rewrite (no_line_end is_ascii_digit) by (done || apply bits_digits). cbn [default from_option id].
    by rewrite of_bits_bits, decode_encode.
  - intros v _. change (decode (of_bits (default (bits (encode v) +:+ lf_str)
      (strip_suffix lf_str (bits (encode v) +:+ lf_str)))) = Some v).
    rewrite strip_suffix_app. cbn [default from_option id]. by rewrite of_bits_bits, decode_encode.
  - intros v. specialize (Hv v). by apply line_value_spec in Hv as (_ & _ & _ & ? & ?).
  - intros v. specialize (Hv v). by apply line_value_spec in Hv as (? & ? & _).
Qed.
