(* ===== verification/Composer.v ===== *)
(** * Does the composer of a pane hold typed text?

    Model of composer-typed/src/lib.rs: the last lines of a pane are scanned for a
    prompt marker, and what follows it is typed text when some of it is visible and
    not greyed out.  A captured line is its list of characters; the SGR sequences the
    code finds with a regular expression are found here by [sgr_at]. *)

From stdpp Require Import base numbers list option strings.
From Stdlib Require Import NArith Ascii Lia.
From S2P Require Import Prelude RustStr.

Definition MARKERS : list string := ["❯"; "›"].
Definition STRIP : list string := chars (" " +:+ bytes2 9 13 +:+ lf_str +:+ " │╰╮╯╭─" +:+ bytes2 194 160).

Inductive Rule := DimSuggestionIsNotTyped | BrightBodyIsTyped.
Definition ALL : list Rule := [DimSuggestionIsNotTyped; BrightBodyIsTyped].
Definition rule_as_str (r : Rule) : string :=
  match r with
  | DimSuggestionIsNotTyped => "dim_suggestion_is_not_typed"
  | BrightBodyIsTyped => "bright_body_is_typed"
  end.
Definition rule_parse (name : string) : option Rule :=
  find_first (λ r, bool_decide (rule_as_str r = name)) ALL.

Record Rules := MkRules { dim_suggestion_is_not_typed : bool; bright_body_is_typed : bool }.
Definition default_rules : Rules := MkRules true true.
(** [disable]: whether the name was one of a rule. *)
Definition disable (name : string) (r : Rules) : Rules * bool :=
  match rule_parse name with
  | None => (r, false)
  | Some DimSuggestionIsNotTyped => (MkRules false (bright_body_is_typed r), true)
  | Some BrightBodyIsTyped => (MkRules (dim_suggestion_is_not_typed r) false, true)
  end.

(** ** SGR sequences: ESC, an opening bracket, digits and semicolons, an m. *)

Definition esc : string := String "027" EmptyString.
Definition is_code (ch : string) : bool :=
  match ch with String c EmptyString => is_ascii_digit c || Ascii.eqb c ";" | _ => false end.

Definition sgr_at (l : list string) : option (string * list string) :=
  match l with
  | e :: b :: l =>
      if bool_decide (e = esc) && bool_decide (b = "[")
      then match drop_while is_code l with
           | m :: rest => if bool_decide (m = "m") then Some (concat_chars (take_while is_code l), rest) else None
           | [] => None
           end
      else None
  | _ => None
  end.

(** The first sequence: what is before it, its codes, what follows. *)
Fixpoint next_sgr (l : list string) : option (list string * string * list string) :=
  match sgr_at l with
  | Some (codes, rest) => Some ([], codes, rest)
  | None =>
      match l with
      | [] => None
      | c :: l => match next_sgr l with
                  | Some (chunk, codes, rest) => Some (c :: chunk, codes, rest)
                  | None => None
                  end
      end
  end.

(** The codes of every sequence, one after the other. *)
Fixpoint all_codes (fuel : nat) (l : list string) : list string :=
  match fuel with
  | O => []
  | S fuel => match next_sgr l with
              | Some (_, codes, rest) => codes :: all_codes fuel rest
              | None => []
              end
  end.

(** ** What a sequence does to the foreground. *)

Definition code_parts (codes : string) : list string :=
  List.filter (λ p, negb (is_empty p)) (split_char ";" codes).
Definition i32_part (s : string) : option N := parse_below 2147483648 s.
Definition in_range (a b n : N) : bool := (a <=? n)%N && (n <=? b)%N.

Definition dim_fg (codes : string) : bool :=
  match code_parts codes with
  | [] => false
  | parts =>
      if bool_decide (parts = ["2"]) then true else
      match parts with
      | "38" :: "5" :: p :: _ =>
          match i32_part p with
          | Some n => in_range 232 250 n || in_range 244 248 n
          | None => false
          end
      | "38" :: "2" :: r :: g :: b :: _ =>
          match i32_part r, i32_part g, i32_part b with
          | Some r, Some g, Some b =>
              let mx := N.max (N.max r g) b in
              let mn := N.min (N.min r g) b in
              (mx <=? 205)%N && (mx - mn <=? 20)%N
          | _, _, _ => false
          end
      | _ => false
      end
  end.

Definition sets_fg (codes : string) : bool :=
  match code_parts codes with
  | [] => true
  | p :: _ =>
      bool_decide (p = "0") || bool_decide (p = "39") || bool_decide (p = "38") || bool_decide (p = "2")
      || bool_decide (String.length p = 2%nat) && starts_with p "3"
  end.

Definition next_dim (cur : bool) (c : string) : bool :=
  if negb (sets_fg c) then cur
  else if is_empty c || bool_decide (c = "0") || bool_decide (c = "39") then false
  else dim_fg c.

Definition fg_dim_state (codes_seq : list string) : bool := foldl next_dim false codes_seq.

(** ** One line. *)

(** The line around the end of its first marker. *)
Fixpoint marker_idx (l : list string) : option (list string * list string) :=
  match l with
  | [] => None
  | c :: l =>
      if bool_decide (c ∈ MARKERS) then Some ([c], l)
      else match marker_idx l with Some (pre, rest) => Some (c :: pre, rest) | None => None end
  end.

(** Some character of the text is not blank or a part of the frame. *)
Definition strip_empty (l : list string) : bool :=
  negb (is_empty (trim_matches (λ c, bool_decide (c ∈ STRIP)) (concat_chars l))).

Fixpoint ansi_loop (fuel : nat) (rules : Rules) (cur_dim : bool) (rest : list string) : bool :=
  match fuel with
  | O => false
  | S fuel =>
      match next_sgr rest with
      | Some (chunk, codes, rest) =>
          if strip_empty chunk && negb cur_dim && bright_body_is_typed rules then true
          else let cur_dim := next_dim cur_dim codes in
               ansi_loop fuel rules (if negb (dim_suggestion_is_not_typed rules) then false else cur_dim) rest
      | None => strip_empty rest && negb cur_dim && bright_body_is_typed rules
      end
  end.

Definition typed_ansi (line : list string) (rules : Rules) : bool :=
  match marker_idx line with
  | None => false
  | Some (pre, rest) =>
      ansi_loop (S (length rest)) rules (fg_dim_state (all_codes (length pre) pre)) rest
  end.

Definition typed_plain (line : list string) (rules : Rules) : bool :=
  match marker_idx line with
  | None => false
  | Some (_, rest) => strip_empty rest && bright_body_is_typed rules
  end.

Definition is_typed (data : string) (rules : Rules) : bool :=
  if is_empty data then false
  else let has_ansi := contains data (esc +:+ "[") in
       existsb (λ line, if has_ansi then typed_ansi (chars line) rules else typed_plain (chars line) rules)
         (split_char lf data).

Example ex_typed : is_typed "❯ hello" default_rules = true.
Proof. vm_compute. reflexivity. Qed.
Example ex_bare : is_typed "│ ❯   │" default_rules = false.
Proof. vm_compute. reflexivity. Qed.
Example ex_dim : is_typed ("❯ " +:+ esc +:+ "[2mtry this" +:+ esc +:+ "[0m") default_rules = false.
Proof. vm_compute. reflexivity. Qed.

(** ** What a reader of the pane sees: every character with whether it is bright. *)

Inductive Tok := Sgr (codes : string) | Ch (c : string).
Fixpoint toks (fuel : nat) (l : list string) : list Tok :=
  match fuel, l with
  | S fuel, c :: l' =>
      match sgr_at l with
      | Some (codes, rest) => Sgr codes :: toks fuel rest
      | None => Ch c :: toks fuel l'
      end
  | _, _ => []
  end.
Fixpoint lit (dim : bool) (ts : list Tok) : list (string * bool) :=
  match ts with
  | [] => []
  | Ch c :: ts => (c, negb dim) :: lit dim ts
  | Sgr codes :: ts => lit (next_dim dim codes) ts
  end.
Definition shown (l : list string) : list (string * bool) := lit false (toks (length l) l).
Fixpoint after_marker (l : list (string * bool)) : list (string * bool) :=
  match l with
  | [] => []
  | (c, _) :: l => if bool_decide (c ∈ MARKERS) then l else after_marker l
  end.

Definition visible (x : string * bool) : bool := x.2 && negb (bool_decide (x.1 ∈ STRIP)).

Lemma sgr_at_app l codes rest :
  sgr_at l = Some (codes, rest) →
  ∃ cs, l = app (esc :: "[" :: app cs ["m"]) rest ∧ concat_chars cs = codes ∧ Forall (λ c, is_code c = true) cs.
Proof.
  unfold sgr_at. destruct l as [|e [|b l]]; [done..|].
  destruct (bool_decide (e = esc)) eqn:He; [|done]. destruct (bool_decide (b = "[")) eqn:Hb; [|done]. unbool. subst.
  assert (l = app (take_while is_code l) (drop_while is_code l) ∧ Forall (λ c, is_code c = true) (take_while is_code l)) as [Hl Hc].
  { clear. induction l as [|x l [IH IH2]]; cbn; [by split|]. destruct (is_code x) eqn:Hx; [|by split].
    split; [|by constructor]. cbn. by f_equal. }
  destruct (drop_while is_code l) as [|m r] eqn:Hd; [done|].
  case_bool_decide; [|done]. intros [= <- <-]. exists (take_while is_code l). split; [|done].
  subst m. rewrite Hl at 1. cbn [app]. by rewrite <- app_assoc.
Qed.

Lemma sgr_at_length l codes rest : sgr_at l = Some (codes, rest) → (length rest + 3 <= length l)%nat.
Proof. intros (cs & -> & _)%sgr_at_app. cbn. rewrite !length_app. cbn. lia. Qed.

Lemma toks_fuel n : ∀ l, (length l <= n)%nat → toks n l = toks (length l) l.
Proof.
  induction n as [n IH] using lt_wf_ind. intros l Hl.
  destruct n as [|n]; [by destruct l; [|cbn in Hl; lia]|].
  destruct l as [|c l]; [done|]. cbn [toks length] in *.
  destruct (sgr_at (c :: l)) as [[codes rest]|] eqn:Hs.
  - apply sgr_at_length in Hs. cbn in Hs. f_equal. rewrite (IH n) by lia.
    destruct (base.decide (length l = n)) as [->|]; [by rewrite (IH n) by lia|].
    symmetry. apply IH; lia.
  - f_equal. rewrite (IH n) by lia. done.
Qed.

Lemma toks_sgr l codes rest :
  sgr_at l = Some (codes, rest) → toks (length l) l = Sgr codes :: toks (length rest) rest.
Proof.
  intros Hs. pose proof (sgr_at_length _ _ _ Hs). destruct l as [|c l]; [done|]. cbn [length toks] in *.
  rewrite Hs. f_equal. apply toks_fuel. lia.
Qed.

Lemma toks_next l :
  match next_sgr l with
  | Some (chunk, codes, rest) =>
      toks (length l) l = app (map Ch chunk) (Sgr codes :: toks (length rest) rest) ∧
      (length rest < length l)%nat ∧ (∃ sgr, l = app chunk (app sgr rest))
  | None => toks (length l) l = map Ch l
  end.
Proof.
  induction l as [|c l IH]; [done|]. cbn [next_sgr].
  destruct (sgr_at (c :: l)) as [[codes rest]|] eqn:Hs.
  - split_and!; [by apply toks_sgr|apply sgr_at_length in Hs; lia|].
    apply sgr_at_app in Hs as (cs & Hs & _). rewrite Hs. by eexists.
  - assert (toks (length (c :: l)) (c :: l) = Ch c :: toks (length l) l) as Ht.
    { cbn [length toks]. by rewrite Hs. }
    destruct (next_sgr l) as [[[chunk codes] rest]|].
    + destruct IH as (IH & ? & sgr & ->). rewrite Ht, IH. split_and!; [done|cbn; lia|by exists sgr].
    + by rewrite Ht, IH.
Qed.

Lemma existsb_lit_chunk dim cs ts :
  existsb visible (lit dim (app (map Ch cs) ts)) =
  existsb (λ c, negb (bool_decide (c ∈ STRIP))) cs && negb dim || existsb visible (lit dim ts).
Proof.
  induction cs as [|c cs IH]; [done|]. cbn [map app lit existsb]. rewrite IH. unfold visible at 1. cbn [fst snd].
  destruct dim, (bool_decide (c ∈ STRIP)); cbn; by rewrite ?andb_false_r, ?andb_true_r.
Qed.

Lemma drop_while_none {A} (p : A → bool) l : drop_while p l = [] ↔ existsb (λ x, negb (p x)) l = false.
Proof. induction l as [|x l IH]; [done|]. cbn. destruct (p x); cbn; [done|]. by split. Qed.

Lemma strip_empty_spec l : well_chars l → strip_empty l = existsb (λ c, negb (bool_decide (c ∈ STRIP))) l.
Proof.
  intros Hw. unfold strip_empty, trim_matches. rewrite chars_concat by done.
  set (p := λ c, bool_decide (c ∈ STRIP)). change (λ c, negb (bool_decide (c ∈ STRIP))) with (λ c, negb (p c)).
  destruct (existsb (λ c, negb (p c)) l) eqn:He.
  - destruct (drop_while p l) as [|x t] eqn:Hd; [apply drop_while_none in Hd; congruence|].
    assert (p x = false) as Hx.
    { destruct (p x) eqn:Hp; [|done]. exfalso. pose proof (drop_while_idem p l) as Hi. rewrite Hd in Hi. cbn in Hi.
      rewrite Hp in Hi. destruct (drop_while_suffix p t) as [l1 Hl]. apply (f_equal length) in Hi, Hl.
      rewrite length_app in Hl. cbn in Hi. lia. }
    cbn [rev]. destruct (drop_while_snoc p (rev t) x Hx) as [l' ->]. rewrite rev_app_distr. cbn.
    destruct (drop_while_suffix p l) as [l1 Hl]. rewrite Hd in Hl. destruct Hw as [Hw _]. rewrite Hl in Hw.
    apply Forall_app in Hw as [_ Hw]. inversion Hw as [|? ? Hc]; subst. by destruct x.
  - apply drop_while_none in He. by rewrite He.
Qed.

(** The scan between sequences finds a bright visible character when there is one. *)
Lemma ansi_loop_spec fuel : ∀ dim rest, (length rest < fuel)%nat → well_chars rest →
  ansi_loop fuel default_rules dim rest = existsb visible (lit dim (toks (length rest) rest)).
Proof.
  induction fuel as [|fuel IH]; intros dim rest Hf Hw; [lia|]. cbn [ansi_loop]. pose proof (toks_next rest) as Ht.
  destruct (next_sgr rest) as [[[chunk codes] rest']|].
  - destruct Ht as (-> & Hlen & sgr & ->). rewrite existsb_lit_chunk. cbn [lit default_rules bright_body_is_typed dim_suggestion_is_not_typed negb].
    rewrite strip_empty_spec by (by eapply well_chars_prefix). rewrite andb_true_r.
    rewrite IH; [by destruct (_ && _)|lia|]. by do 2 apply well_chars_suffix in Hw.
  - rewrite Ht. rewrite <- (app_nil_r (map Ch rest)), existsb_lit_chunk, strip_empty_spec by done. cbn.
    by rewrite orb_false_r, andb_true_r.
Qed.

Lemma marker_not_sgr c : bool_decide (c ∈ MARKERS) = true → c ≠ esc ∧ c ≠ "[" ∧ c ≠ "m" ∧ is_code c = false.
Proof.
  intros Hc%bool_decide_eq_true. unfold MARKERS in Hc. rewrite !elem_of_cons, elem_of_nil in Hc.
  destruct Hc as [->|[->|[]]]; split_and!; (reflexivity || discriminate).
Qed.

Lemma marker_app pre l : Forall (λ c, bool_decide (c ∈ MARKERS) = false) pre →
  marker_idx (app pre l) = match marker_idx l with Some (p, r) => Some (app pre p, r) | None => None end.
Proof.
  induction 1 as [|c pre Hc Hp IH]; cbn; [by destruct (marker_idx l) as [[]|]|]. rewrite Hc, IH. by destruct (marker_idx l) as [[]|].
Qed.

Lemma span_code cs r : Forall (λ c, is_code c = true) cs →
  drop_while is_code (app cs ("m" :: r)) = "m" :: r ∧ take_while is_code (app cs ("m" :: r)) = cs.
Proof. induction 1 as [|c cs Hc _ [IH1 IH2]]; [done|]. cbn. by rewrite Hc, IH2. Qed.

Lemma sgr_no_marker l codes rest : sgr_at l = Some (codes, rest) →
  ∃ pre, l = app pre rest ∧ Forall (λ c, bool_decide (c ∈ MARKERS) = false) pre ∧
    ∀ r, sgr_at (app pre r) = Some (codes, r).
Proof.
  intros (cs & -> & Hcs & Hall)%sgr_at_app. eexists. split; [done|]. split.
  - do 2 (constructor; [by vm_compute|]). apply Forall_app. split; [|by repeat constructor].
    eapply Forall_impl; [exact Hall|]. intros c Hc. destruct (bool_decide (c ∈ MARKERS)) eqn:Hm; [|done].
    apply marker_not_sgr in Hm as (_ & _ & _ & Hm). congruence.
  - intros r. destruct (span_code cs r Hall) as [Hd Ht].
    replace (app (esc :: "[" :: app cs ["m"]) r) with (esc :: "[" :: app cs ("m" :: r)) by (cbn; by rewrite <- app_assoc).
    unfold sgr_at. rewrite !bool_decide_eq_true_2 by done. cbn [andb]. by rewrite Hd, Ht, bool_decide_eq_true_2, Hcs.
Qed.

Lemma all_codes_fuel n : ∀ p, (length p <= n)%nat → all_codes n p = all_codes (length p) p.
Proof.
  induction n as [n IH] using lt_wf_ind. intros p Hp. destruct n as [|n]; [by destruct p; [|cbn in Hp; lia]|].
  destruct p as [|c p]; [done|]. cbn [length all_codes]. pose proof (toks_next (c :: p)) as Ht.
  destruct (next_sgr (c :: p)) as [[[ch co] re]|]; [|done]. destruct Ht as (_ & Hlt & _). cbn in *. f_equal.
  rewrite (IH n) by lia. destruct (base.decide (length p = n)) as [->|]; [by rewrite (IH n) by lia|]. symmetry. apply IH; lia.
Qed.

Lemma all_codes_next p :
  all_codes (length p) p = match next_sgr p with
                           | Some (_, codes, rest) => codes :: all_codes (length rest) rest
                           | None => []
                           end.
Proof.
  destruct p as [|c p]; [done|]. cbn [length all_codes]. pose proof (toks_next (c :: p)) as Ht.
  destruct (next_sgr (c :: p)) as [[[ch co] re]|]; [|done]. destruct Ht as (_ & Hlt & _). cbn in Hlt. f_equal.
  apply all_codes_fuel. lia.
Qed.

Lemma marker_idx_app l pre rest : marker_idx l = Some (pre, rest) → l = app pre rest.
Proof.
  revert pre. induction l as [|c l IH]; [done|]. intros pre. cbn. destruct (bool_decide _); [by intros [= <- <-]|].
  destruct (marker_idx l) as [[p r]|]; [|done]. intros [= <- <-]. cbn. f_equal. by apply IH.
Qed.

(** The rendering of a line with a marker, from the marker on. *)
Lemma shown_marker : ∀ l dim,
  match marker_idx l with
  | Some (pre, rest) => after_marker (lit dim (toks (length l) l)) =
      lit (foldl next_dim dim (all_codes (length pre) pre)) (toks (length rest) rest)
  | None => after_marker (lit dim (toks (length l) l)) = []
  end.
Proof.
  intros l. remember (length l) as n eqn:Hn. revert l Hn. induction n as [n IH] using lt_wf_ind. intros l -> dim.
  destruct l as [|c l]; [done|].
  destruct (sgr_at (c :: l)) as [[codes rest]|] eqn:Hs.
  - rewrite (toks_sgr _ _ _ Hs). pose proof (sgr_at_length _ _ _ Hs) as Hlen.
    destruct (sgr_no_marker _ _ _ Hs) as (pre & Heq & Hp & Hany). rewrite Heq, marker_app by done. cbn [lit].
    specialize (IH (length rest) ltac:(lia) rest eq_refl (next_dim dim codes)).
    destruct (marker_idx rest) as [[p r]|] eqn:Hm; [|done]. rewrite IH. f_equal.
    rewrite (all_codes_next (app pre p)). specialize (Hany p). destruct (app pre p) as [|y t]; [done|]. cbn [next_sgr]. by rewrite Hany.
  - cbn [length toks]. rewrite Hs. cbn [lit after_marker marker_idx].
    destruct (bool_decide (c ∈ MARKERS)) eqn:Hc; [done|].
    specialize (IH (length l) ltac:(cbn; lia) l eq_refl dim). destruct (marker_idx l) as [[p r]|] eqn:Hm; [|done].
    rewrite IH. f_equal. rewrite (all_codes_next (c :: p)), (all_codes_next p). cbn [next_sgr].
    destruct (sgr_at (c :: p)) as [[co re]|] eqn:Hs2; [exfalso|by destruct (next_sgr p) as [[[]]|]].
    destruct (sgr_no_marker _ _ _ Hs2) as (pre & Heq & _ & Hany). specialize (Hany (app re r)).
    rewrite app_assoc, <- Heq in Hany. cbn [app] in Hany. apply marker_idx_app in Hm. congruence.
Qed.

Lemma typed_ansi_shown s :
  typed_ansi (chars s) default_rules = existsb visible (after_marker (shown (chars s))).
Proof.
  unfold typed_ansi, shown. pose proof (shown_marker (chars s) false) as Hm.
  destruct (marker_idx (chars s)) as [[pre rest]|] eqn:Hi; rewrite Hm; [|done].
  apply ansi_loop_spec; [lia|]. apply marker_idx_app in Hi. pose proof (chars_well s) as Hw. rewrite Hi in Hw.
  by apply well_chars_suffix in Hw.
Qed.

Lemma split_char_part c x s : x ∈ split_char c s → ∃ a b, s = a +:+ x +:+ b.
Proof.
  revert x. induction s as [|d s IH]; intros x; cbn [split_char].
  { rewrite list_elem_of_singleton. intros ->. by exists "", "". }
  destruct (ascii_dec c d).
  { rewrite elem_of_cons. intros [->|(a & b & ->)%IH]; [by exists "", (String d s)|by exists (String d a), b]. }
  destruct (split_char c s) as [|h t] eqn:Hs.
  { rewrite list_elem_of_singleton. intros ->. by exists "", s. }
  rewrite elem_of_cons. intros [->|Hx].
  - assert (∃ r, s = h +:+ r) as [r ->]; [|by exists "", r].
    clear IH. revert h t Hs. induction s as [|e s IH]; intros h t; cbn [split_char]; [intros [= <- _]; by exists ""|].
    destruct (ascii_dec c e); [intros [= <- _]; by eexists|].
    destruct (split_char c s) as [|h' t']; intros [= <- _]; [by exists s|]. destruct (IH _ _ eq_refl) as [r ->]. by exists r.
  - destruct (IH x) as (a & b & ->); [by apply list_elem_of_further|]. by exists (String d a), b.
Qed.

(** Without a sequence in the text every character is bright. *)
Lemma plain_shown l : contains (concat_chars l) (esc +:+ "[") = false →
  shown l = map (λ c, (c, true)) l.
Proof.
  unfold shown. induction l as [|c l IH]; intros Hc; [done|]. cbn [length toks].
  destruct (sgr_at (c :: l)) as [[codes rest]|] eqn:Hs.
  - apply sgr_at_app in Hs as (cs & Heq & _). rewrite Heq in Hc. cbn in Hc. done.
  - cbn [lit map]. f_equal. apply IH. destruct (contains (concat_chars l) (esc +:+ "[")) eqn:Hl; [|done].
    exfalso. apply contains_spec in Hl as (a & b & Hl).
    assert (contains (concat_chars (c :: l)) (esc +:+ "[") = true); [|congruence].
    apply contains_spec. exists (c +:+ a), b. cbn [concat_chars foldr]. fold (concat_chars l). by rewrite Hl, str_app_assoc.
Qed.

Lemma after_marker_bright l :
  after_marker (map (λ c, (c, true)) l) = match marker_idx l with Some (_, r) => map (λ c, (c, true)) r | None => [] end.
Proof. induction l as [|c l IH]; [done|]. cbn. destruct (bool_decide _); [done|]. rewrite IH. by destruct (marker_idx l) as [[]|]. Qed.

(** The code looks for a bright visible character after the marker. *)
Lemma is_typed_shown data :
  is_typed data default_rules = true ↔
  ∃ line c, line ∈ split_char lf data ∧ (c, true) ∈ after_marker (shown (chars line)) ∧ c ∉ STRIP.
Proof.
  assert (∀ line, existsb visible (after_marker (shown (chars line))) = true ↔
    ∃ c, (c, true) ∈ after_marker (shown (chars line)) ∧ c ∉ STRIP) as Hvis.
  { intros line. rewrite existsb_exists. split.
    - intros ([c []] & Hin & Hv); [|done]. unfold visible in Hv. cbn in Hv. exists c. rewrite list_elem_of_In.
      split; [done|]. by apply negb_true_iff, bool_decide_eq_false in Hv.
    - intros (c & Hin & Hc). exists (c, true). rewrite <- list_elem_of_In. split; [done|]. unfold visible. cbn.
      by rewrite bool_decide_eq_false_2. }
  assert (∀ line, line ∈ split_char lf data →
    (if contains data (esc +:+ "[") then typed_ansi (chars line) default_rules else typed_plain (chars line) default_rules)
    = existsb visible (after_marker (shown (chars line)))) as Heq.
  { intros line Hin. destruct (contains data _) eqn:Hc; [apply typed_ansi_shown|].
    rewrite plain_shown, after_marker_bright.
    - unfold typed_plain. destruct (marker_idx (chars line)) as [[pre rest]|] eqn:Hm; [|done].
      apply marker_idx_app in Hm. pose proof (chars_well line) as Hw. rewrite Hm in Hw. apply well_chars_suffix in Hw.
      rewrite strip_empty_spec by done. cbn. rewrite andb_true_r. clear. induction rest as [|c l IH]; cbn; [done|]. by rewrite IH.
    - rewrite concat_chars_chars. destruct (contains line _) eqn:Hl; [|done]. exfalso.
      apply split_char_part in Hin as (a & b & ->). apply contains_spec in Hl as (a' & b' & ->).
      assert (contains (a +:+ (a' +:+ (esc +:+ "[") +:+ b') +:+ b) (esc +:+ "[") = true); [|congruence].
      apply contains_spec. exists (a +:+ a'), (b' +:+ b). by rewrite !str_app_assoc. }
  unfold is_typed. destruct (is_empty data) eqn:He.
  { destruct data; [|done]. split; [done|]. intros (line & c & Hin & Hc & _). cbn in Hin.
    apply list_elem_of_singleton in Hin as ->. by apply not_elem_of_nil in Hc. }
  rewrite existsb_exists. split.
  - intros (line & Hin%list_elem_of_In & Ht). rewrite Heq in Ht by done. apply Hvis in Ht as (c & ? & ?). eauto.
  - intros (line & c & Hin & ? & ?). exists line. rewrite <- list_elem_of_In, Heq by done. split; [done|]. apply Hvis. eauto.
Qed.

(** ** What a reader of the line sees, told without the code's scan. *)

(** A line begins with a sequence: the escape, a bracket, digits and semicolons, an m. *)
Definition begins_sgr (l : list string) : Prop :=
  ∃ cs rest, l = esc :: "[" :: app cs ("m" :: rest) ∧ Forall (λ c, is_code c = true) cs.
(** The sequences and characters of a line. *)
Inductive Line : list string → list Tok → Prop :=
  | line_nil : Line [] []
  | line_sgr cs rest ts :
      Forall (λ c, is_code c = true) cs → Line rest ts →
      Line (esc :: "[" :: app cs ("m" :: rest)) (Sgr (concat_chars cs) :: ts)
  | line_ch c l ts : ¬ begins_sgr (c :: l) → Line l ts → Line (c :: l) (Ch c :: ts).
Definition sequences (ts : list Tok) : list string := omap (λ t, match t with Sgr codes => Some codes | Ch _ => None end) ts.

(** A sequence sets the foreground: it has no codes, or its first is 0, 2 or 30 to 39. *)
Definition touches (codes : string) : Prop :=
  match code_parts codes with
  | [] => True
  | p :: _ => p = "0" ∨ p = "2" ∨ ∃ c, p = String "3" (String c EmptyString)
  end.
(** It greys it: the dim attribute alone, a grey of the palette, or a dark colour of nearly
    equal parts. *)
Definition greys (codes : string) : Prop :=
  code_parts codes = ["2"] ∨
  (∃ p n rest, code_parts codes = "38" :: "5" :: p :: rest ∧ i32_part p = Some n ∧ (232 <= n <= 250)%N) ∨
  (∃ pr pg pb r g b rest, code_parts codes = "38" :: "2" :: pr :: pg :: pb :: rest ∧
     i32_part pr = Some r ∧ i32_part pg = Some g ∧ i32_part pb = Some b ∧
     ∀ x y, x ∈ [r; g; b] → y ∈ [r; g; b] → (x <= 205 ∧ x <= y + 20)%N).
(** The last of the sequences that set the foreground greyed it. *)
Definition greyed (codes : list string) : Prop :=
  ∃ a c b, codes = app a (c :: b) ∧ greys c ∧ ∀ x, x ∈ b → ¬ touches x.

Lemma sgr_at_begins l : (∃ r, sgr_at l = Some r) ↔ begins_sgr l.
Proof.
  split.
  - intros ([codes rest] & (cs & -> & _ & Hall)%sgr_at_app). exists cs, rest. split; [|done]. cbn. by rewrite <-app_assoc.
  - intros (cs & rest & -> & Hall). destruct (span_code cs rest Hall) as [Hd Ht].
    eexists. unfold sgr_at. rewrite !bool_decide_eq_true_2 by done. cbn [andb]. by rewrite Hd, bool_decide_eq_true_2.
Qed.
Lemma line_toks l ts : Line l ts ↔ ts = toks (length l) l.
Proof.
  split.
  - induction 1 as [|cs rest ts Hall _ ->|c l ts Hn _ ->]; [done| |].
    + symmetry. apply toks_sgr. destruct (span_code cs rest Hall) as [Hd Ht].
      unfold sgr_at. rewrite !bool_decide_eq_true_2 by done. cbn [andb]. by rewrite Hd, Ht, bool_decide_eq_true_2.
    + cbn [length toks]. destruct (sgr_at (c :: l)) eqn:Hs; [|done]. destruct Hn. apply sgr_at_begins. eauto.
  - intros ->. remember (length l) as n eqn:Hn. revert l Hn. induction n as [n IH] using lt_wf_ind. intros l ->.
    destruct l as [|c l]; [constructor|]. destruct (sgr_at (c :: l)) as [[codes rest]|] eqn:Hs.
    + rewrite (toks_sgr _ _ _ Hs). pose proof (sgr_at_length _ _ _ Hs). apply sgr_at_app in Hs as (cs & -> & <- & Hall).
      replace (app (esc :: "[" :: app cs ["m"]) rest) with (esc :: "[" :: app cs ("m" :: rest)) by (cbn; by rewrite <-app_assoc).
      constructor; [done|]. by apply (IH (length rest) ltac:(lia)).
    + cbn [length toks]. rewrite Hs. constructor; [intros [r Hr]%sgr_at_begins; congruence|]. by apply (IH (length l) ltac:(cbn; lia)).
Qed.

Lemma touches_sets codes : sets_fg codes = true ↔ touches codes.
Proof.
  unfold sets_fg, touches. destruct (code_parts codes) as [|p ps]; [done|].
  rewrite !orb_true_iff, andb_true_iff, !bool_decide_eq_true. split.
  - intros [[[[Hp|Hp]|Hp]|Hp]|[Hl Hs]]; [subst; eauto..|].
    destruct p as [|a [|b [|? ?]]]; try done. apply starts_with_spec in Hs as [r [= -> _]]. eauto.
  - intros [->|[->|[c ->]]]; [auto..|]. right. split; [done|]. by apply (starts_with_app "3").
Qed.
Lemma greys_dim codes : dim_fg codes = true ↔ greys codes.
Proof.
  unfold dim_fg, greys. destruct (code_parts codes) as [|p ps]; [naive_solver|].
  case_bool_decide as H2; [naive_solver|]. split.
  - intros Hd. right. revert Hd. repeat (case_match; try done); intros Hd;
      first
      [ left; do 3 eexists; split; [reflexivity|]; split; [eassumption|];
        unfold in_range in Hd; rewrite orb_true_iff, !andb_true_iff, !N.leb_le in Hd; lia
      | right; do 7 eexists; split; [reflexivity|]; split_and!; [eassumption..|];
        apply andb_true_iff in Hd as [Hmax%N.leb_le Hspread%N.leb_le];
        intros x y Hx Hy; rewrite !elem_of_cons, elem_of_nil in Hx, Hy; naive_solver lia ].
  - intros [?|[(q & n & rest & [= -> ->] & -> & Hn)|(pr & pg & pb & r & g & b & rest & [= -> ->] & -> & -> & -> & Hall)]]; [congruence| |].
    + unfold in_range. apply orb_true_iff. left. rewrite andb_true_iff, !N.leb_le. lia.
    + rewrite andb_true_iff, !N.leb_le.
      pose proof (Hall r g). pose proof (Hall r b). pose proof (Hall g r). pose proof (Hall g b).
      pose proof (Hall b r). pose proof (Hall b g).
      assert (r ∈ [r; g; b] ∧ g ∈ [r; g; b] ∧ b ∈ [r; g; b]) as (? & ? & ?) by (rewrite !elem_of_cons; naive_solver). intuition lia.
Qed.
Lemma greys_touches codes : greys codes → touches codes.
Proof.
  unfold greys, touches. intros [->|[(p & n & rest & -> & _)|(pr & pg & pb & r & g & b & rest & -> & _)]]; eauto.
Qed.
Lemma next_dim_spec dim codes : next_dim dim codes = true ↔ greys codes ∨ (dim = true ∧ ¬ touches codes).
Proof.
  unfold next_dim. pose proof (touches_sets codes) as Ht. pose proof (greys_dim codes) as Hg. pose proof (greys_touches codes) as Hgt.
  destruct (sets_fg codes); cbn [negb]; [|naive_solver].
  assert (is_empty codes || bool_decide (codes = "0") || bool_decide (codes = "39") = true → dim_fg codes = false) as Hreset.
  { rewrite !orb_true_iff, !bool_decide_eq_true. intros [[He| ->]| ->]; [by destruct codes|done..]. }
  destruct (_ || _); [rewrite Hreset in Hg by done|]; naive_solver.
Qed.
Lemma foldl_greyed codes : foldl next_dim false codes = true ↔ greyed codes.
Proof.
  unfold greyed. induction codes as [|c codes IH] using rev_ind.
  { split; [done|]. by intros ([|] & ? & ? & ? & _). }
  rewrite foldl_app. cbn [foldl]. rewrite next_dim_spec, IH. split.
  - intros [Hg|[(a & x & b & -> & Hx & Hb) Ht]].
    + exists codes, c, []. split_and!; [done..|]. by intros x ?%not_elem_of_nil.
    + exists a, x, (app b [c]). split_and!; [by rewrite <-app_assoc|done|].
      intros y [Hy| ->%list_elem_of_singleton]%elem_of_app; [by apply Hb|done].
  - intros (a & x & b & Heq & Hx & Hb). destruct b as [|y b _] using rev_ind.
    + apply app_inj_tail in Heq as [-> ->]. by left.
    + rewrite app_comm_cons, app_assoc in Heq. apply app_inj_tail in Heq as [-> ->]. right. split.
      * exists a, x, b. split_and!; [done..|]. intros z Hz. apply Hb, elem_of_app. by left.
      * apply Hb, elem_of_app. right. by apply list_elem_of_singleton.
Qed.

Lemma lit_bright c ts : ∀ dim,
  (c, true) ∈ lit dim ts ↔ ∃ a b, ts = app a (Ch c :: b) ∧ foldl next_dim dim (sequences a) = false.
Proof.
  induction ts as [|[codes|x] ts IH]; intros dim; cbn [lit].
  - split; [by intros ?%not_elem_of_nil|]. by intros ([|] & ? & ? & _).
  - rewrite IH. split.
    + intros (a & b & -> & Hd). by exists (Sgr codes :: a), b.
    + intros ([|y a] & b & [= <- ->] & Hd). by exists a, b.
  - rewrite elem_of_cons, IH. split.
    + intros [[= <- Hd]|(a & b & -> & Hd)]; [exists [], ts; split; [done|]; by destruct dim|]. by exists (Ch x :: a), b.
    + intros ([|y a] & b & [= <- ->] & Hd); [left; cbn in Hd; by rewrite Hd|]. right. by exists a, b.
Qed.
Lemma after_marker_lit c ts : ∀ dim,
  (c, true) ∈ after_marker (lit dim ts) ↔
  ∃ before m between rest, ts = app before (Ch m :: app between (Ch c :: rest)) ∧ m ∈ MARKERS ∧
    (∀ x, Ch x ∈ before → x ∉ MARKERS) ∧ foldl next_dim dim (sequences (app before between)) = false.
Proof.
  induction ts as [|[codes|x] ts IH]; intros dim; cbn [lit after_marker].
  - split; [by intros ?%not_elem_of_nil|]. by intros ([|] & ? & ? & ? & ? & _).
  - rewrite IH. split.
    + intros (before & m & between & rest & -> & Hm & Hb & Hd). exists (Sgr codes :: before), m, between, rest.
      split_and!; [done..| |done]. intros y [?|?]%elem_of_cons; [done|by apply Hb].
    + intros ([|y before] & m & between & rest & [= <- ->] & Hm & Hb & Hd). exists before, m, between, rest.
      split_and!; [done..| |done]. intros y Hy. apply Hb. by constructor.
  - case_bool_decide as Hx.
    + rewrite lit_bright. split.
      * intros (a & b & -> & Hd). exists [], x, a, b. split_and!; [done..| |done]. by intros y ?%not_elem_of_nil.
      * intros ([|y before] & m & between & rest & [= <- ->] & Hm & Hb & Hd); [by exists between, rest|].
        exfalso. eapply (Hb x); [by constructor|done].
    + rewrite IH. split.
      * intros (before & m & between & rest & -> & Hm & Hb & Hd). exists (Ch x :: before), m, between, rest.
        split_and!; [done..| |done]. intros y [[= ->]|?]%elem_of_cons; [done|by apply Hb].
      * intros ([|y before] & m & between & rest & [= <- ->] & Hm & Hb & Hd); [done|]. exists before, m, between, rest.
        split_and!; [done..| |done]. intros y Hy. apply Hb. by constructor.
Qed.

(** C29: A capture holds typed text exactly when on some line of it, after the line's first
    prompt marker, there stands a character that is not blank, not a part of the frame and
    not greyed.  A character is greyed when the last colour sequence before it on its line
    that sets the foreground -- one without codes, or whose first code is 0, 2 or 30 to 39 --
    is the dim attribute alone, a palette grey (232 to 250), or an RGB colour whose parts
    are at most 205 and differ by at most 20.  So the code that restores the normal
    intensity, 22, ends no grey. *)
Theorem is_typed_iff data :
  is_typed data default_rules = true ↔
  ∃ line before m between c rest, line ∈ split_char lf data ∧
    Line (chars line) (app before (Ch m :: app between (Ch c :: rest))) ∧
    m ∈ MARKERS ∧ (∀ x, Ch x ∈ before → x ∉ MARKERS) ∧
    c ∉ STRIP ∧ ¬ greyed (sequences (app before between)).
Proof.
  rewrite is_typed_shown. unfold shown. setoid_rewrite after_marker_lit. setoid_rewrite line_toks.
  setoid_rewrite <-foldl_greyed. setoid_rewrite not_true_iff_false. split.
  - intros (line & c & Hin & (before & m & between & rest & Heq & Hm & Hb & Hd) & Hc).
    by exists line, before, m, between, c, rest.
  - intros (line & before & m & between & c & rest & Hin & Heq & Hm & Hb & Hc & Hd).
    exists line, c. split_and!; [done| |done]. by exists before, m, between, rest.
Qed.

(** The sequence that ends a dim run by restoring the intensity is not one the code
    knows: what is typed after it is taken for a greyed suggestion. *)
Lemma normal_intensity_reads_dim :
  is_typed ("❯ " +:+ esc +:+ "[2mghost" +:+ esc +:+ "[22m typed text") default_rules = false.
Proof. vm_compute. reflexivity. Qed.
