(* ===== verification/BeadHolder.v ===== *)
(** * Which agent holds a bead, and is that agent alive (bead-holder)

    Model of bead-holder/src/lib.rs: the grammar of an assignee, the bindings the
    acknowledgements of a bead establish, the illegal claim states, and the verdict on
    who holds a bead.  Sets are sorted lists; the liveness of a pane is a function. *)

From stdpp Require Import base numbers list option strings sorting.
From Stdlib Require Import NArith Ascii Lia.
From S2P Require Import Prelude RustStr Order Json.

Definition LIVENESS_SOURCE : string := "tick-monitor".

Inductive IdentityRefusal :=
  | Empty | DeadPidShape (raw : string) | PaneLabelShape (raw : string) | PaneIdShape (raw : string)
  | DefaultAuthor (raw : string) | Unregistered (raw : string).

Definition refusal_display (r : IdentityRefusal) : string :=
  match r with
  | Empty => "ASSIGNEE_REFUSED reason=EMPTY next_action=claim-with-an-agent-identity"
  | DeadPidShape raw => "ASSIGNEE_REFUSED reason=PID_SHAPE raw=" +:+ raw +:+ " detail=" +:+ dquote
      +:+ "a pid is not an identity; it is reused and names no one after it exits" +:+ dquote
      +:+ " next_action=claim-with-an-agent-identity"
  | PaneLabelShape raw => "ASSIGNEE_REFUSED reason=PANE_LABEL raw=" +:+ raw +:+ " detail=" +:+ dquote
      +:+ "pane indices shift and panes are recycled" +:+ dquote +:+ " next_action=claim-with-an-agent-identity"
  | PaneIdShape raw => "ASSIGNEE_REFUSED reason=PANE_ID raw=" +:+ raw +:+ " detail=" +:+ dquote
      +:+ "one pane hosted two agent names within one hour" +:+ dquote +:+ " next_action=claim-with-an-agent-identity"
  | DefaultAuthor raw => "ASSIGNEE_REFUSED reason=DEFAULT_AUTHOR raw=" +:+ raw +:+ " detail=" +:+ dquote
      +:+ "this is the git/$USER identity br writes when --actor is omitted, not an agent" +:+ dquote
      +:+ " next_action=pass---actor"
  | Unregistered raw => "ASSIGNEE_REFUSED reason=UNREGISTERED raw=" +:+ raw +:+ " detail=" +:+ dquote
      +:+ "no ACK row anywhere in the tracker attributes work to this name" +:+ dquote
      +:+ " next_action=ack-from-a-pane-first"
  end.

(** [rest] is digits to its end, after a prefix that was stripped. *)
Definition digits_after (prefix s : string) : bool :=
  match strip_prefix prefix s with
  | Some rest => negb (is_empty rest) && all_bytes is_ascii_digit rest
  | None => false
  end.

Section Holder.
Context `{Unicode}.

Definition AgentIdentity_parse (raw : string) (roster defaults : list string) : result IdentityRefusal string :=
  let trimmed := trim raw in
  if is_empty trimmed then Err Empty
  else if bool_decide (to_lowercase trimmed ∈ defaults) then Err (DefaultAuthor trimmed)
  else if digits_after "supervisor:" trimmed then Err (DeadPidShape trimmed)
  else if digits_after "%" trimmed then Err (PaneIdShape trimmed)
  else if digits_after "pane" trimmed then Err (PaneLabelShape trimmed)
  else if bool_decide (trimmed ∈ roster) then Ok trimmed
  else Err (Unregistered trimmed).

(** ** The bindings of a bead's acknowledgements. *)

Record AckBinding := MkBinding { bd_bead : string; bd_pane : string; bd_agent : string }.

Definition pane_char (ch : string) : bool :=
  match ch with String c EmptyString => Ascii.eqb c "%" || is_ascii_digit c | _ => false end.

(** The loose form of an acknowledgement: its token and its pane. *)
Definition parse_ack (text : string) : option (string * string) :=
  rest ← strip_prefix "ACK " (trim_start text);
  '(token, rest) ← split_once " on " rest;
  if is_empty (trim token) then None
  else let pane := concat_chars (take_while pane_char (chars (trim_start rest))) in
       if (String.length pane <? 2)%nat || negb (starts_with pane "%") then None
       else Some (trim token, pane).

Definition binding_of (defaults : list string) (c : string * string) : option (string * string) :=
  let author := trim c.1 in
  if is_empty author || bool_decide (to_lowercase author ∈ defaults) then None
  else '(_, pane) ← parse_ack c.2; Some (pane, author).

(** [derive_bindings]: a set of rows of one bead, in the order of their panes and agents. *)
Definition derive_bindings (bead : string) (comments : list (string * string)) (defaults : list string)
    : list AckBinding :=
  map (λ pa, MkBinding bead pa.1 pa.2) (pair_set (omap (binding_of defaults) comments)).

Definition roster_from (bindings : list AckBinding) : list string := btree_set (map bd_agent bindings).

(** One binding entering the map from panes to agents. *)
Definition pane_entry (m : list (string * list string)) (b : AckBinding) : list (string * list string) :=
  bt_insert (bd_pane b) (btree_set (bd_agent b :: default [] (bt_get (bd_pane b) m))) m.
Definition pane_map (bindings : list AckBinding) : list (string * list string) :=
  foldl pane_entry [] bindings.
End Holder.

(** ** The claim state of a bead. *)

Inductive StateFinding := HalfClaim (bead assignee : string) | OrphanClaim (bead : string).

Definition finding_display (f : StateFinding) : string :=
  match f with
  | HalfClaim b a => "ILLEGAL_STATE bead=" +:+ b +:+ " kind=HALF_CLAIM status=open assignee=" +:+ a
      +:+ " detail=" +:+ dquote +:+ "advertises availability while naming a holder; refuses every dispatch" +:+ dquote
      +:+ " next_action=br-update---status-in_progress---assignee-" +:+ a
  | OrphanClaim b => "ILLEGAL_STATE bead=" +:+ b +:+ " kind=ORPHAN_CLAIM status=in_progress assignee=<none> detail="
      +:+ dquote +:+ "in-flight work no agent owns; no follow-up detector can see it" +:+ dquote
      +:+ " next_action=br-update---status-open"
  end.

Definition classify_state (bead status assignee : string) : option StateFinding :=
  let assigned := negb (is_empty (trim assignee)) in
  if bool_decide (trim status = "open") && assigned then Some (HalfClaim bead (trim assignee))
  else if bool_decide (trim status = "in_progress") && negb assigned then Some (OrphanClaim bead)
  else None.

(** ** Who holds a bead. *)

Record BeadRow := MkBeadRow {
  br_id : string; br_status : string; br_assignee : string; br_comments : list (string * string) }.
Record Liveness := MkLiveness { lv_state : string; lv_source : string }.

Inductive HolderVerdict :=
  | Bound (bead agent pane : string) (liveness : Liveness)
  | Ambiguous (bead : string) (candidates : list (string * string))
  | NoPaneEvidence (bead assignee : string)
  | AssigneeRefused (bead : string) (refusal : IdentityRefusal)
  | Illegal (f : StateFinding)
  | LivenessUnavailable (bead agent pane detail : string).

Definition is_answered (v : HolderVerdict) : bool := match v with Bound _ _ _ _ => true | _ => false end.
Definition holder_label (v : HolderVerdict) : string :=
  match v with
  | Bound _ _ _ _ => "bound" | Ambiguous _ _ => "ambiguous" | NoPaneEvidence _ _ => "no_pane_evidence"
  | AssigneeRefused _ _ => "assignee_refused" | Illegal _ => "illegal_state"
  | LivenessUnavailable _ _ _ _ => "liveness_unavailable"
  end.
Definition holder_display (v : HolderVerdict) : string :=
  match v with
  | Bound b a p l => "HOLDER bead=" +:+ b +:+ " agent=" +:+ a +:+ " pane=" +:+ p +:+ " liveness="
      +:+ lv_state l +:+ " source=" +:+ lv_source l
  | Ambiguous b cs => "HOLDER_AMBIGUOUS bead=" +:+ b +:+ " candidates=["
      +:+ join ", " (map (λ pa, pa.2 +:+ "@" +:+ pa.1) cs) +:+ "] detail=" +:+ dquote
      +:+ "two bindings; naming both rather than guessing" +:+ dquote
  | NoPaneEvidence b a => "HOLDER_NO_PANE bead=" +:+ b +:+ " assignee=" +:+ a +:+ " detail=" +:+ dquote
      +:+ "no ACK row binds this bead to a pane, so liveness is unreachable" +:+ dquote +:+ " next_action=ack-on-your-pane"
  | AssigneeRefused b r => "bead=" +:+ b +:+ " " +:+ refusal_display r
  | Illegal f => finding_display f
  | LivenessUnavailable b a p d => "HOLDER_LIVENESS_UNAVAILABLE bead=" +:+ b +:+ " agent=" +:+ a +:+ " pane=" +:+ p
      +:+ " detail=" +:+ dquote +:+ d +:+ dquote +:+ " next_action=consult-" +:+ LIVENESS_SOURCE
  end.

Section Resolve.
Context `{Unicode}.
(** [Debug] of a string. *)
Context (debug : string → string).

Definition resolve (bead : BeadRow) (roster defaults : list string) (liveness_of : string → option Liveness)
    : HolderVerdict :=
  match classify_state (br_id bead) (br_status bead) (br_assignee bead) with
  | Some f => Illegal f
  | None =>
  match AgentIdentity_parse (br_assignee bead) roster defaults with
  | Err r => AssigneeRefused (br_id bead) r
  | Ok agent =>
  match pair_set (map (λ b, (bd_pane b, bd_agent b)) (derive_bindings (br_id bead) (br_comments bead) defaults)) with
  | [] => NoPaneEvidence (br_id bead) agent
  | [(pane, ack_agent)] =>
      if negb (bool_decide (ack_agent = agent))
      then Ambiguous (br_id bead) [(pane, ack_agent); ("<assignee-field>", agent)]
      else match liveness_of pane with
           | Some l =>
               if bool_decide (lv_source l = LIVENESS_SOURCE) then Bound (br_id bead) agent pane l
               else LivenessUnavailable (br_id bead) agent pane
                      ("liveness came from " +:+ debug (lv_source l) +:+ ", and only " +:+ LIVENESS_SOURCE
                       +:+ " is accepted; a roster last_active was measured 15h wrong on a committing agent")
           | None => LivenessUnavailable (br_id bead) agent pane "tick-monitor reported nothing for this pane"
           end
  | candidates => Ambiguous (br_id bead) candidates
  end end end.

(** ** The audit of every bead in flight. *)

Inductive AuditError := EmptyScan.
Definition audit_error_display (e : AuditError) : string :=
  "HOLDER_AUDIT_ERROR reason=EMPTY_SCAN detail=" +:+ dquote
  +:+ "zero in-flight beads is indistinguishable from a broken query, so it is not a pass" +:+ dquote
  +:+ " next_action=check-br-list--a---json".

Definition in_flight (b : BeadRow) : bool :=
  bool_decide (trim (br_status b) = "in_progress")
  || bool_decide (is_Some (classify_state (br_id b) (br_status b) (br_assignee b))).

Definition audit (beads : list BeadRow) (roster defaults : list string) (liveness_of : string → option Liveness)
    : result AuditError (list HolderVerdict) :=
  match List.filter in_flight beads with
  | [] => Err EmptyScan
  | subject => Ok (map (λ b, resolve b roster defaults liveness_of) subject)
  end.
Definition answered (vs : list HolderVerdict) : nat := length (List.filter is_answered vs).
Definition by_label (vs : list HolderVerdict) : list (string * nat) :=
  foldl (λ m v, bt_insert (holder_label v) (S (default 0%nat (bt_get (holder_label v) m))) m) [] vs.

(** The exit code of the audit command (bead-holder/src/main.rs). *)
Definition audit_exit (r : result AuditError (list HolderVerdict)) : N :=
  match r with
  | Err _ => 2
  | Ok vs => if bool_decide (answered vs = 0%nat) then 2
             else if bool_decide (answered vs = length vs) then 0 else 1
  end.

(** What the comments of the bead bind. *)
Definition bound_by (defaults : list string) (bead : BeadRow) : list (string * string) :=
  omap (binding_of defaults) (br_comments bead).

Lemma bindings_pairs bead defaults x :
  x ∈ map (λ b, (bd_pane b, bd_agent b)) (derive_bindings (br_id bead) (br_comments bead) defaults)
  ↔ x ∈ bound_by defaults bead.
Proof.
  unfold derive_bindings. rewrite map_map. cbn. rewrite map_ext with (g := id) by (by intros []).
  rewrite map_id. apply elem_of_pair_set.
Qed.

(** A bead has a holder exactly when its claim state is legal, its assignee is an agent
    known from the acknowledgements, every acknowledgement of the bead binds that agent
    to one pane, there is one, and the liveness of the pane comes from the monitor. *)
Theorem bound_iff bead roster defaults liveness_of b agent pane l :
  resolve bead roster defaults liveness_of = Bound b agent pane l ↔
  b = br_id bead ∧ classify_state (br_id bead) (br_status bead) (br_assignee bead) = None ∧
  AgentIdentity_parse (br_assignee bead) roster defaults = Ok agent ∧
  bound_by defaults bead ≠ [] ∧ (∀ x, x ∈ bound_by defaults bead → x = (pane, agent)) ∧
  liveness_of pane = Some l ∧ lv_source l = LIVENESS_SOURCE.
Proof.
  unfold resolve. destruct (classify_state _ _ _); [naive_solver|].
  destruct (AgentIdentity_parse _ _ _) as [who|]; [|naive_solver].
  set (pairs := map _ (derive_bindings _ _ _)).
  assert (∀ x, x ∈ pairs ↔ x ∈ bound_by defaults bead) as He by apply bindings_pairs.
  assert (bound_by defaults bead = [] ↔ pairs = []) as Hnil.
  { split; intros Heq; apply elem_of_nil_inv; intros x Hx; apply He in Hx; rewrite Heq in Hx; by apply not_elem_of_nil in Hx. }
  pose proof (pair_set_cases pairs) as Hc. destruct (pair_set pairs) as [|[p a] [|y t]].
  - apply Hnil in Hc. naive_solver.
  - destruct Hc as [Hne Hall].
    assert ((p, a) ∈ bound_by defaults bead) as Hin.
    { destruct pairs as [|z ps]; [done|]. apply He. rewrite <- (Hall z); apply list_elem_of_here. }
    case_bool_decide as Ha; cbn [negb].
    + subst a. destruct (liveness_of p) as [lv|] eqn:Hl.
      * case_bool_decide as Hs; split.
        -- intros [= <- <- <- <-]. split_and!; [done..|by rewrite Hnil| |done|done]. intros x Hx%He. by apply Hall.
        -- intros (-> & _ & [= ->] & _ & Hp & Hlv & _). apply Hp in Hin. by simplify_eq.
        -- done.
        -- intros (-> & _ & [= ->] & _ & Hp & Hlv & ?). apply Hp in Hin. by simplify_eq.
      * split; [done|]. intros (-> & _ & [= ->] & _ & Hp & Hlv & _). apply Hp in Hin. by simplify_eq.
    + split; [done|]. intros (-> & _ & [= ->] & _ & Hp & _). apply Hp in Hin. by simplify_eq.
  - destruct Hc as (H1 & H2 & Hne). split; [done|]. intros (_ & _ & _ & _ & Hp & _).
    apply He, Hp in H1. apply He, Hp in H2. congruence.
Qed.
End Resolve.

(** A claim is either legal or one of two findings, which exclude each other. *)
Lemma claim_state_legal bead st who :
  classify_state bead st who = None ↔
  (trim st = "open" → trim who = "") ∧ (trim st = "in_progress" → trim who ≠ "").
Proof.
  unfold classify_state. destruct (trim who) as [|c s] eqn:Hw; cbn [is_empty negb andb].
  - rewrite andb_false_r. case_bool_decide as Hi; cbn; [|naive_solver]. split; [done|]. intros [_ Hx]. by specialize (Hx Hi).
  - rewrite andb_false_r, andb_true_r. case_bool_decide as Ho; cbn; [|naive_solver].
    split; [done|]. intros [Hx _]. by specialize (Hx Ho).
Qed.

(** ** The tracker's export and the monitor's report, as the command reads them. *)

Section Inputs.
Context `{SerdeJson, Unicode}.

(** [default_authors]: the names of git and of the environment, where there are any. *)
Definition default_authors (git_name user : option string) : list string :=
  btree_set (omap (λ o, let name := to_lowercase (trim (default "" o)) in
                        if is_empty name then None else Some name) [git_name; user]).

Definition merge_row (m : list (string * list (string * Json))) (line : string) : list (string * list (string * Json)) :=
  let line := trim line in
  if is_empty line then m
  else match from_str line with
       | Some (JObject row) =>
           match json_get "id" (JObject row) ≫= as_str with
           | Some id => bt_insert id (bt_extend row (default [] (bt_get id m))) m
           | None => m
           end
       | _ => m
       end.

Definition comment_of (c : Json) : option (string * string) :=
  text ← json_get "text" c ≫= as_str;
  Some (default "" (json_get "author" c ≫= as_str), text).
Definition bead_row (id : string) (row : list (string * Json)) : BeadRow :=
  let v := JObject row in
  MkBeadRow id (default "" (json_get "status" v ≫= as_str)) (default "" (json_get "assignee" v ≫= as_str))
    (match json_get "comments" v ≫= as_array with Some rows => omap comment_of rows | None => [] end).

Definition read_tracker (text : string) : list BeadRow :=
  map (λ ir, bead_row ir.1 ir.2) (foldl merge_row [] (lines text)).

Definition live_row (row : Json) : option (string * Liveness) :=
  pane ← json_get "pane" row ≫= as_str;
  l ← json_get "liveness" row ≫= as_str;
  Some (pane, MkLiveness l LIVENESS_SOURCE).
(** [live_panes]: nothing when the monitor failed; the last row of a pane counts. *)
Definition live_panes (report : option string) : list (string * Liveness) :=
  match (report ≫= from_str) ≫= (λ v, (json_get "omp_lifecycle" v ≫= json_get "panes") ≫= as_array) with
  | Some rows => foldl (λ m pl, bt_insert pl.1 pl.2 m) [] (omap live_row rows)
  | None => []
  end.
End Inputs.

(** The audit is green exactly when something is in flight and all of it has a holder. *)
Lemma audit_green_iff `{Unicode} debug beads roster defaults liveness_of :
  audit_exit (audit debug beads roster defaults liveness_of) = 0%N ↔
  List.filter in_flight beads ≠ [] ∧
  ∀ b, b ∈ beads → in_flight b = true → is_answered (resolve debug b roster defaults liveness_of) = true.
Proof.
  unfold audit. set (res := λ b, resolve debug b roster defaults liveness_of).
  assert (∀ l, length (List.filter is_answered (map res l)) = length (map res l) ↔
    ∀ b, b ∈ l → is_answered (res b) = true) as Hall.
  { induction l as [|b l IH]; cbn; [split; [|done]; intros _ b Hb; by apply not_elem_of_nil in Hb|].
    assert (length (List.filter is_answered (map res l)) <= length (map res l))%nat as Hle by apply List.filter_length_le.
    destruct (is_answered (res b)) eqn:Hb; cbn.
    - split; [intros [= Hl]|intros Hx; f_equal; apply IH; intros c Hc; apply Hx; by apply list_elem_of_further].
      intros c [->|Hc]%elem_of_cons; [done|]. by apply IH.
    - split; [lia|]. intros Hx. rewrite Hx in Hb by apply list_elem_of_here. done. }
  assert (∀ b, b ∈ List.filter in_flight beads ↔ b ∈ beads ∧ in_flight b = true) as Hf.
  { intros b. by rewrite !list_elem_of_In, filter_In. }
  destruct (List.filter in_flight beads) as [|b l] eqn:Hfl.
  { split; [done|]. by intros []. }
  cbn [audit_exit]. unfold answered. case_bool_decide as Hz; [|case_bool_decide as Hl].
  - split; [done|]. intros [_ Hx]. assert (∀ c, c ∈ b :: l → is_answered (res c) = true) as Hy by (intros c Hc%Hf; naive_solver).
    apply Hall in Hy. fold res in Hz. rewrite Hz in Hy. done.
  - split; [|done]. intros _. split; [done|]. intros c Hc Hi. by apply (proj1 (Hall _) Hl), Hf.
  - split; [done|]. intros [_ Hx]. destruct Hl. apply Hall. intros c Hc%Hf. naive_solver.
Qed.
