(* ===== verification/SilenceWatch.v ===== *)
(** * Did the dispatched work produce a verdict? (dispatch-silence-watch)

    Model of dispatch-silence-watch/src/lib.rs and of the decision its command line
    makes (src/main.rs): the comments of a bead are read back, the bead's identifier is
    resolved to its canonical form, and the state after the dispatch is classified.
    The outcome of each bounded run of the tracker is an argument. *)

From stdpp Require Import base numbers list option strings pretty.
From Stdlib Require Import NArith ZArith Ascii Lia.
From S2P Require Import Prelude RustStr Json.

Inductive SilenceVerdict := VerdictPosted | SilentPastDeadline | Reassigned | TrackerError.
#[global] Instance SilenceVerdict_eq_dec : EqDecision SilenceVerdict.
Proof. solve_decision. Defined.

Definition detector (v : SilenceVerdict) : string :=
  match v with
  | VerdictPosted => "VERDICT_POSTED" | SilentPastDeadline => "SILENT_PAST_DEADLINE"
  | Reassigned => "REASSIGNED" | TrackerError => "TRACKER_ERROR"
  end.

(** [[Author] at 2...]: one line of the comment list that attributes a comment. *)
Definition attribution_line (line : string) : bool :=
  match strip_prefix "[" (trim_start line) with
  | None => false
  | Some rest =>
      match split_once "]" rest with
      | None => false
      | Some (author, after) =>
          if is_empty author || contains author " " then false
          else match strip_prefix "at " (trim_start after) with
               | Some date => match trim_start date with
                              | String c _ => is_ascii_digit c
                              | EmptyString => false
                              end
               | None => false
               end
      end
  end.
Definition has_posted_verdict (comments_output : string) : bool := existsb attribution_line (lines comments_output).

(** [i64] subtraction wraps in a release build. *)
Definition wrap_i64 (z : Z) : Z := ((z + 2 ^ 63) mod 2 ^ 64 - 2 ^ 63)%Z.

Definition classify (comments_output current_assignee dispatch_assignee : string)
    (dispatch_epoch now_epoch deadline_secs : Z) : SilenceVerdict :=
  if is_empty (trim comments_output) then TrackerError
  else if negb (bool_decide (current_assignee = dispatch_assignee)) then Reassigned
  else if has_posted_verdict comments_output then VerdictPosted
  else if (deadline_secs <=? wrap_i64 (now_epoch - dispatch_epoch))%Z then SilentPastDeadline
  else SilentPastDeadline.

Definition clears_pending_dispatch_intent (v : SilenceVerdict) : bool :=
  match v with VerdictPosted | TrackerError => true | _ => false end.

(** ** The tracker, read. *)

(** A bounded run: it exited with a code or by a signal, ran out of time, or never ran. *)
Inductive BoundedOutcome := Completed (code : option Z) (stdout : string) | TimedOut | Unspawned.
Inductive TrackerRead := Read (text : string) | ReadError (reason : string).

Definition tracker_read_from (o : BoundedOutcome) : TrackerRead :=
  match o with
  | Completed (Some 0%Z) out => Read out
  | Completed None _ => ReadError "br exited by signal"
  | Completed _ _ => ReadError "br exited nonzero"
  | TimedOut => ReadError "br read exceeded deadline; group killed"
  | Unspawned => ReadError "br could not be spawned"
  end.

Definition classify_from_read (r : TrackerRead) (current_assignee dispatch_assignee : string)
    (dispatch_epoch now_epoch deadline_secs : Z) : SilenceVerdict :=
  match r with
  | ReadError _ => TrackerError
  | Read text => classify text current_assignee dispatch_assignee dispatch_epoch now_epoch deadline_secs
  end.

(** ** The canonical identifier of a bead. *)

Inductive BeadIdMatchKind := Exact | Suffix.
#[global] Instance BeadIdMatchKind_eq_dec : EqDecision BeadIdMatchKind.
Proof. solve_decision. Defined.
Definition match_debug (k : BeadIdMatchKind) : string := match k with Exact => "Exact" | Suffix => "Suffix" end.
Record CanonicalBeadId := MkCanonical { requested_id : string; canonical_id : string; match_kind : BeadIdMatchKind }.

Inductive BeadIdResolutionError :=
  | EmptyRequestedId | InvalidJson | EmptyResult (requested : string) | UnresolvedShortId (requested : string)
  | IdAmbiguous (requested : string) (matches : list string) | MissingCanonicalId (requested : string)
  | UnexpectedCanonicalId (requested canonical : string) | IdTrackerError (requested code : string).

Definition id_error_display (e : BeadIdResolutionError) : string :=
  match e with
  | EmptyRequestedId => "EMPTY-BEAD-ID"
  | InvalidJson => "INVALID-BR-ID-RESPONSE"
  | EmptyResult r => "EMPTY-BEAD-ID-RESULT requested=" +:+ r
  | UnresolvedShortId r => "UNRESOLVED-SHORT-ID requested=" +:+ r
  | IdAmbiguous r ms => "AMBIGUOUS-BEAD-ID requested=" +:+ r +:+ " matches=" +:+ join "," ms
  | MissingCanonicalId r => "MISSING-CANONICAL-ID requested=" +:+ r
  | UnexpectedCanonicalId r c => "UNEXPECTED-CANONICAL-ID requested=" +:+ r +:+ " canonical=" +:+ c
  | IdTrackerError r c => "BR-ID-ERROR requested=" +:+ r +:+ " code=" +:+ c
  end.

Section Silence.
Context `{SerdeJson}.

(** The object the tracker answers when it found no single bead. *)
Definition error_answer (object : Json) (requested : string) : BeadIdResolutionError :=
  let error := match json_get "error" object with Some (JObject o) => Some (JObject o) | _ => None end in
  let code := default "UNKNOWN" ((error ≫= json_get "code") ≫= as_str) in
  if bool_decide (code = "AMBIGUOUS_ID") then
    IdAmbiguous requested
      (match ((error ≫= json_get "context") ≫= json_get "matches") ≫= as_array with
       | Some vs => omap as_str vs | None => [] end)
  else if bool_decide (code = "ISSUE_NOT_FOUND") && negb (starts_with requested "omp-orchestrator-")
  then UnresolvedShortId requested
  else IdTrackerError requested code.

Definition answer_rows (value : Json) (requested : string) : result BeadIdResolutionError (list Json) :=
  match value with
  | JArray rows => Ok rows
  | JObject _ => match json_get "error" value with
                 | Some _ => Err (error_answer value requested)
                 | None => Ok [value]
                 end
  | _ => Err InvalidJson
  end.

Definition resolve_br_id (text requested : string) : result BeadIdResolutionError CanonicalBeadId :=
  if is_empty (trim requested) then Err EmptyRequestedId else
  value ← ok_or (from_str text) InvalidJson;
  rows ← answer_rows value requested;
  row ← match rows with
        | [] => Err (EmptyResult requested)
        | [row] => Ok row
        | rows => Err (IdAmbiguous requested (omap (λ r, json_get "id" r ≫= as_str) rows))
        end;
  canonical ← ok_or (json_get "id" row ≫= as_str) (MissingCanonicalId requested);
  if bool_decide (canonical = requested) then Ok (MkCanonical requested canonical Exact)
  else if ends_with canonical ("-" +:+ requested) then Ok (MkCanonical requested canonical Suffix)
  else Err (UnexpectedCanonicalId requested canonical).

Definition parse_bead_assignee (text expected : string) : result BeadIdResolutionError (option string) :=
  r ← resolve_br_id text expected;
  if negb (bool_decide (match_kind r = Exact)) then Err (UnresolvedShortId expected) else
  value ← ok_or (from_str text) InvalidJson;
  row ← match value with
        | JArray [] => Err (EmptyResult expected)
        | JArray (row :: _) => Ok row
        | JObject _ => Ok value
        | _ => Err InvalidJson
        end;
  Ok (match trim <$> (json_get "assignee" row ≫= as_str) with
      | Some v => if is_empty v || bool_decide (v = "none") then None else Some v
      | None => None
      end).

(** What the command prints and its exit code, given the two reads of the tracker. *)
Definition watch (bead dispatch_assignee : string) (dispatch_epoch now deadline : Z)
    (comments show : BoundedOutcome) : N * string :=
  match tracker_read_from comments with
  | ReadError _ => (3, "")%N
  | Read _ as comments_read =>
      match tracker_read_from show with
      | ReadError _ => (3, "")%N
      | Read text =>
          match resolve_br_id text bead with
          | Err _ => (3, "")%N
          | Ok r =>
              match parse_bead_assignee text (canonical_id r) with
              | Err _ => (3, "")%N
              | Ok who =>
                  let v := classify_from_read comments_read (default "" who) dispatch_assignee dispatch_epoch now deadline in
                  (0%N, "bead=" +:+ bead +:+ " canonical_bead_id=" +:+ canonical_id r +:+ " id_resolution="
                        +:+ match_debug (match_kind r) +:+ " verdict=" +:+ detector v +:+ " detector=" +:+ detector v +:+ lf_str
                        +:+ if bool_decide (v = SilentPastDeadline)
                            then "action=re-dispatch or escalate; dispatch_assignee=" +:+ dispatch_assignee
                                 +:+ " dispatch_epoch=" +:+ pretty dispatch_epoch +:+ " deadline_secs=" +:+ pretty deadline +:+ lf_str
                            else "")
              end
          end
      end
  end.

(** ** Lemmas and properties. *)

(** A resolved identifier is the tracker's own, of the only row it answered, and the
    one asked for is that identifier or its ending after a dash. *)
Theorem resolved_id_is_canonical text requested r :
  resolve_br_id text requested = Ok r ↔
  trim requested ≠ "" ∧ requested_id r = requested ∧
  ∃ row, (from_str text = Some (JArray [row])
          ∨ from_str text = Some row ∧ (∃ o, row = JObject o) ∧ json_get "error" row = None) ∧
    (json_get "id" row ≫= as_str) = Some (canonical_id r) ∧
    (match_kind r = Exact ∧ canonical_id r = requested ∨
     match_kind r = Suffix ∧ canonical_id r ≠ requested ∧ ends_with (canonical_id r) ("-" +:+ requested) = true).
Proof.
  unfold resolve_br_id. split.
  - destruct (is_empty (trim requested)) eqn:He; [done|].
    assert (trim requested ≠ "") as Hne by (by destruct (trim requested)).
    destruct (from_str text) as [value|]; [|done]. cbn [ok_or mbind result_bind].
    assert (∀ row, match ok_or (json_get "id" row ≫= as_str) (MissingCanonicalId requested) with
        | Ok canonical => if bool_decide (canonical = requested) then Ok (MkCanonical requested canonical Exact)
            else if ends_with canonical ("-" +:+ requested) then Ok (MkCanonical requested canonical Suffix)
            else Err (UnexpectedCanonicalId requested canonical)
        | Err e => Err e end = Ok r →
      requested_id r = requested ∧ (json_get "id" row ≫= as_str) = Some (canonical_id r) ∧
      (match_kind r = Exact ∧ canonical_id r = requested ∨
       match_kind r = Suffix ∧ canonical_id r ≠ requested ∧ ends_with (canonical_id r) ("-" +:+ requested) = true)) as Hrow.
    { intros row. destruct (json_get "id" row ≫= as_str) as [c|]; [|done]. cbn. case_bool_decide; [intros [= <-]; naive_solver|].
      destruct (ends_with c _) eqn:Hs; [intros [= <-]; naive_solver|done]. }
    destruct value as [| | | |rows|o]; cbn [answer_rows]; try done.
    + destruct rows as [|row [|]]; cbn [mbind result_bind]; try done. intros Hr%Hrow. naive_solver.
    + destruct (json_get "error" (JObject o)) eqn:Her; [done|]. cbn [mbind result_bind]. intros Hr%Hrow.
      split_and!; [done|naive_solver|]. exists (JObject o). naive_solver.
  - intros (Hne & Hreq & row & Hjson & Hid & Hk).
    destruct (is_empty (trim requested)) eqn:He; [by destruct (trim requested)|].
    assert (∃ value, from_str text = Some value ∧ answer_rows value requested = Ok [row]) as (value & -> & Hv).
    { destruct Hjson as [->|(-> & (o & ->) & Her)]; eexists; (split; [done|]); cbn [answer_rows]; by rewrite ?Her. }
    cbn [ok_or mbind result_bind]. rewrite Hv. cbn [mbind result_bind]. rewrite Hid. cbn [ok_or mbind result_bind].
    destruct r as [rq c k]; cbn in *. subst rq.
    destruct Hk as [[-> ->]|(-> & Hc & Hs)]; [by rewrite bool_decide_eq_true_2|]. by rewrite bool_decide_eq_false_2, Hs.
Qed.

(** The verdict, exactly; the deadline plays no part in it. *)
Theorem silence_verdict_iff r who dispatched e now d v :
  classify_from_read r who dispatched e now d = v ↔
  match r with
  | ReadError _ => v = TrackerError
  | Read text =>
      (v = TrackerError ∧ trim text = "") ∨
      (v = Reassigned ∧ trim text ≠ "" ∧ who ≠ dispatched) ∨
      (v = VerdictPosted ∧ trim text ≠ "" ∧ who = dispatched ∧ has_posted_verdict text = true) ∨
      (v = SilentPastDeadline ∧ trim text ≠ "" ∧ who = dispatched ∧ has_posted_verdict text = false)
  end.
Proof.
  destruct r as [text|]; cbn [classify_from_read]; [|naive_solver]. unfold classify.
  destruct (trim text) as [|c s]; cbn [is_empty]; [naive_solver|].
  case_bool_decide; cbn [negb]; [|naive_solver]. destruct (has_posted_verdict text); [naive_solver|].
  destruct (_ <=? _)%Z; naive_solver.
Qed.
End Silence.

(** A bead is called silent past its deadline before the deadline. *)
Lemma silent_before_the_deadline text who e now d :
  trim text ≠ "" → has_posted_verdict text = false → (now - e < d)%Z →
  classify text who who e now d = SilentPastDeadline.
Proof.
  intros Ht Hv _. unfold classify. rewrite bool_decide_eq_true_2, Hv by done. cbn.
  destruct (trim text); [done|]. cbn. by destruct (_ <=? _)%Z.
Qed.

Example ex_attribution : has_posted_verdict ("Comments for b-1:" +:+ lf_str +:+ "  [GreenFrog] at 2026-09-02 10:00 UTC") = true.
Proof. vm_compute. reflexivity. Qed.
