(* ===== verification/PaneFence.v ===== *)
(** * Pane incarnation lease (crates/pane-dispatch-fence/src/lib.rs)

    A pane id is reused; an incarnation is not.  [admit_at_send] is the last
    check before a packet is sent, on the live occupancy. *)

From stdpp Require Import base numbers list option relations strings.
From Stdlib Require Import NArith Lia.
From S2P Require Import Prelude RustStr.

Open Scope N_scope.

(** ** Data. *)

(** [PaneIncarnation(NonZeroU64)]. *)
Record PaneIncarnation := MkIncarnation { get : N }.

#[global] Instance PaneIncarnation_eq_dec : EqDecision PaneIncarnation.
Proof. solve_decision. Defined.

(** [PaneIncarnation::new]. *)
Definition PaneIncarnation_new (value : N) : option PaneIncarnation :=
  if value =? 0 then None else Some (MkIncarnation value).

(** [IncarnationMint]: the atomic counter. *)
Record IncarnationMint := MkMint { next : N }.

Definition IncarnationMint_new : IncarnationMint := MkMint 1.

(** [mint]: the counter moves by a wrapping [fetch_add], and [None] is the panic
    of [expect] on the value zero. *)
Definition mint (m : IncarnationMint) : IncarnationMint * option PaneIncarnation :=
  (MkMint (wrap_add64 (next m) 1), PaneIncarnation_new (next m)).

#[global] Arguments mint : simpl never.

Inductive Lease := Admitting | Draining | Revoked.

#[global] Instance Lease_eq_dec : EqDecision Lease.
Proof. solve_decision. Defined.

(** [self as u8]. *)
Definition lease_to_u8 (l : Lease) : N :=
  match l with Admitting => 0 | Draining => 1 | Revoked => 2 end.

Definition from_u8 (value : N) : option Lease :=
  if value =? 0 then Some Admitting
  else if value =? 1 then Some Draining
  else if value =? 2 then Some Revoked
  else None.

Definition successor (l : Lease) : option Lease :=
  match l with
  | Admitting => Some Draining
  | Draining => Some Revoked
  | Revoked => None
  end.

Inductive LeaseRefusal :=
  | NotMonotone (from to : Lease)
  | CasMismatch (expected : Lease) (observed : option Lease).

(** [Occupancy]; the lease is the raw byte of the [AtomicU8]. *)
Record Occupancy := MkOccupancy {
  session : string;
  pane : string;
  current : option PaneIncarnation;
  lease_byte : N;
  owner_pid : option N
}.

Definition unminted (s p : string) : Occupancy :=
  MkOccupancy s p None (lease_to_u8 Revoked) None.

(** [Occupancy::occupy]; a panic of the mint unwinds before the occupancy is
    written. *)
Definition occupy (o : Occupancy) (m : IncarnationMint) (pid : N) :
    IncarnationMint * option (Occupancy * PaneIncarnation) :=
  match mint m with
  | (m', Some i) =>
      (m', Some (MkOccupancy (session o) (pane o) (Some i)
                   (lease_to_u8 Admitting) (Some pid), i))
  | (m', None) => (m', None)
  end.

Record Presented := MkPresented {
  p_session : string;
  p_pane : string;
  p_incarnation : option PaneIncarnation;
  marker_pid : option N
}.

Inductive AdmissionRefusal :=
  | StaleIncarnation (presented curr : PaneIncarnation)
  | ForeignSession (presented_session current_session pane : string)
  | DeadOwner (marker live_supervisor : N) (pane : string)
  | LeaseNotAdmitting (lease : Lease)
  | UnknownIncarnation
  | Unmintable.

Record Admission := MkAdmission { incarnation : PaneIncarnation }.

(** [Occupancy::lease]. *)
Definition lease (o : Occupancy) : result AdmissionRefusal Lease :=
  ok_or (from_u8 (lease_byte o)) UnknownIncarnation.

(** [Occupancy::advance_lease]: the compare-exchange on the byte. *)
Definition advance_lease (o : Occupancy) (from to : Lease) :
    Occupancy * result LeaseRefusal unit :=
  if bool_decide (successor from = Some to) then
    if lease_byte o =? lease_to_u8 from then
      (MkOccupancy (session o) (pane o) (current o) (lease_to_u8 to) (owner_pid o), Ok tt)
    else (o, Err (CasMismatch from (from_u8 (lease_byte o))))
  else (o, Err (NotMonotone from to)).

Definition pid_matches (marker : option N) (live : N) : bool :=
  match marker with Some pid => pid =? live | None => true end.

(** [admit_at_send], guard by guard. *)
Definition admit_at_send (o : Occupancy) (p : Presented) (live_supervisor : N) :
    result AdmissionRefusal Admission :=
  match current o with
  | None => Err UnknownIncarnation
  | Some curr =>
  match p_incarnation p with
  | None => Err Unmintable
  | Some presented_inc =>
  if negb (bool_decide (p_session p = session o)) then
    Err (ForeignSession (p_session p) (session o) (p_pane p))
  else if negb (bool_decide (presented_inc = curr)) then
    Err (StaleIncarnation presented_inc curr)
  else
  match lease o with
  | Err refusal => Err refusal
  | Ok l =>
  if negb (bool_decide (l = Admitting)) then Err (LeaseNotAdmitting l)
  else
  let last_check :=
    if bool_decide (presented_inc = curr) && bool_decide (l = Admitting)
       && bool_decide (p_session p = session o) && bool_decide (p_pane p = pane o)
       && pid_matches (marker_pid p) live_supervisor
    then Ok (MkAdmission curr)
    else Err UnknownIncarnation in
  match marker_pid p with
  | Some pid =>
      if negb (pid =? live_supervisor) then
        Err (DeadOwner pid live_supervisor (p_pane p))
      else last_check
  | None => last_check
  end end end end.

(** ** The fence at run time: one occupancy and the mint it shares with others.

    [FOther] is another occupancy taking an incarnation from the same mint; a
    panic of the mint ends the run ([None]). *)
Inductive FenceOp :=
  | FOccupy (pid : N)
  | FAdvance (from to : Lease)
  | FOther.

Record Fence := MkFence { f_mint : IncarnationMint; f_occ : Occupancy }.

Definition fence_new (s p : string) : Fence := MkFence IncarnationMint_new (unminted s p).

Definition fence_step (f : Fence) (op : FenceOp) : option Fence :=
  match op with
  | FOccupy pid =>
      match occupy (f_occ f) (f_mint f) pid with
      | (m, Some (o, _)) => Some (MkFence m o)
      | (_, None) => None
      end
  | FAdvance from to => Some (MkFence (f_mint f) (advance_lease (f_occ f) from to).1)
  | FOther =>
      match mint (f_mint f) with
      | (m, Some _) => Some (MkFence m (f_occ f))
      | (_, None) => None
      end
  end.

Fixpoint fence_run (f : Fence) (ops : list FenceOp) : option Fence :=
  match ops with
  | [] => Some f
  | op :: ops' => fence_step f op ≫= λ f', fence_run f' ops'
  end.

(** Everything issued so far is below the counter, or the counter has just
    wrapped to zero and the next mint panics. *)
Definition issued_below (f : Fence) (i : PaneIncarnation) : Prop :=
  get i < next (f_mint f) ∨ next (f_mint f) = 0.

(** The admission rule as a plain conjunction. *)
Definition admissible (o : Occupancy) (p : Presented) (live : N) : Prop :=
  current o ≠ None ∧ p_incarnation p = current o ∧
  p_session p = session o ∧ p_pane p = pane o ∧
  lease_byte o = lease_to_u8 Admitting ∧
  (∀ pid, marker_pid p = Some pid → pid = live).

(** ** Lemmas. *)

Lemma from_u8_to_u8 l : from_u8 (lease_to_u8 l) = Some l.
Proof. by destruct l. Qed.

Lemma from_u8_Some b l : from_u8 b = Some l → b = lease_to_u8 l.
Proof. unfold from_u8. intros H. split_cases; unbool; done. Qed.

Lemma lease_Ok o l : lease o = Ok l ↔ lease_byte o = lease_to_u8 l.
Proof.
  unfold lease, ok_or. split.
  - destruct (from_u8 _) as [l'|] eqn:H; [|done]. intros [= ->].
    by apply from_u8_Some.
  - intros ->. by rewrite from_u8_to_u8.
Qed.

Lemma successor_up a b : successor a = Some b → lease_to_u8 a < lease_to_u8 b.
Proof. destruct a; simpl; intros [= <-]; simpl; lia. Qed.

Lemma advance_lease_same o from to :
  let o' := (advance_lease o from to).1 in
  current o' = current o ∧ session o' = session o ∧ pane o' = pane o ∧
  lease_byte o <= lease_byte o'.
Proof.
  unfold advance_lease. simpl. repeat case_match; simpl; unbool; split_and!; try lia; try done.
  match goal with H : successor _ = Some _ |- _ => apply successor_up in H end. lia.
Qed.

Lemma mint_next m m' i :
  next m < u64_modulus → mint m = (m', Some i) →
  get i = next m ∧ next m ≠ 0 ∧ next m' < u64_modulus ∧
  (next m < next m' ∨ next m' = 0).
Proof.
  unfold mint, PaneIncarnation_new. intros Hm H. split_cases. unbool. split_and!; [done..| |].
  - unfold wrap_add64. apply N.mod_lt. done.
  - unfold wrap_add64. destruct (decide (next m + 1 < u64_modulus)) as [Hlt|Hge].
    + rewrite N.mod_small by done. lia.
    + assert (next m + 1 = u64_modulus) as -> by lia. right. by vm_compute.
Qed.

(** One step keeps the counter in range, keeps what was issued issued, and
    either leaves the occupancy in place with a lease no lower, or starts an
    occupancy newer than every incarnation issued before. *)
Lemma fence_step_progress f op f' :
  next (f_mint f) < u64_modulus → fence_step f op = Some f' →
  next (f_mint f') < u64_modulus ∧
  (∀ i, issued_below f i → issued_below f' i) ∧
  ((current (f_occ f') = current (f_occ f) ∧
    lease_byte (f_occ f) <= lease_byte (f_occ f')) ∨
   (∃ j, current (f_occ f') = Some j ∧ ∀ i, issued_below f i → get i < get j)).
Proof.
  intros Hm H. unfold issued_below. destruct op as [pid|from to|]; cbn [fence_step] in H.
  - unfold occupy in H. destruct (mint (f_mint f)) as [m [i|]] eqn:Hmint; [|done].
    injection H as <-. simpl. apply mint_next in Hmint; [|done].
    split_and!; [lia..|]. right. exists i. split; [done|lia].
  - injection H as <-. simpl. split_and!; [done..|]. left.
    destruct (advance_lease_same (f_occ f) from to) as (-> & _ & _ & ?). done.
  - destruct (mint (f_mint f)) as [m [i|]] eqn:Hmint; [|done].
    injection H as <-. simpl. apply mint_next in Hmint; [|done].
    split_and!; [lia..|]. left. split; [done|lia].
Qed.

Lemma fence_run_progress f ops f' :
  next (f_mint f) < u64_modulus → fence_run f ops = Some f' →
  next (f_mint f') < u64_modulus ∧
  (∀ i, issued_below f i → issued_below f' i) ∧
  ((current (f_occ f') = current (f_occ f) ∧
    lease_byte (f_occ f) <= lease_byte (f_occ f')) ∨
   (∃ j, current (f_occ f') = Some j ∧ ∀ i, issued_below f i → get i < get j)).
Proof.
  revert f. induction ops as [|op ops IH]; simpl; intros f Hm H.
  { injection H as <-. split_and!; [done..|]. left. split; [done|lia]. }
  apply bind_Some in H as (f1 & H1 & H2).
  destruct (fence_step_progress _ _ _ Hm H1) as (Hm1 & Hi1 & Hp1).
  destruct (IH _ Hm1 H2) as (Hm2 & Hi2 & Hp2).
  split_and!; [done|eauto|].
  destruct Hp2 as [[Hc2 Hl2]|(j & Hj & Hnew)].
  - destruct Hp1 as [[Hc1 Hl1]|(j & Hj & Hnew)].
    + left. split; [congruence|lia].
    + right. exists j. rewrite Hc2. eauto.
  - right. eauto.
Qed.

Lemma fence_run_app f ops1 ops2 :
  fence_run f (ops1 ++ ops2) = fence_run f ops1 ≫= λ f', fence_run f' ops2.
Proof.
  revert f. induction ops1 as [|op ops1 IH]; intros f; [done|]. simpl.
  destruct (fence_step f op) as [f'|]; [apply IH|done].
Qed.

(** The current occupancy's incarnation has been issued by the mint. *)
Lemma fence_current_issued s p ops f i :
  fence_run (fence_new s p) ops = Some f → current (f_occ f) = Some i → issued_below f i.
Proof.
  assert (∀ g, next (f_mint g) < u64_modulus →
    (∀ k, current (f_occ g) = Some k → issued_below g k) →
    fence_run g ops = Some f → ∀ k, current (f_occ f) = Some k → issued_below f k) as Hgen.
  { clear. induction ops as [|op ops IH]; simpl; intros g Hm Hg H k Hk.
    - injection H as <-. auto.
    - apply bind_Some in H as (g1 & H1 & H2).
      destruct (fence_step_progress _ _ _ Hm H1) as (Hm1 & Hi1 & _).
      apply (IH g1); [done| |done..]. clear k Hk. intros k Hk.
      destruct op as [pid|from to|]; cbn [fence_step] in H1.
      + unfold occupy in H1. destruct (mint (f_mint g)) as [m [j|]] eqn:Hmint; [|done].
        injection H1 as <-. simpl in *. injection Hk as ->.
        apply mint_next in Hmint; [|done]. unfold issued_below. simpl. lia.
      + injection H1 as <-. apply Hi1, Hg. simpl in Hk.
        destruct (advance_lease_same (f_occ g) from to) as (<- & _). done.
      + destruct (mint (f_mint g)) as [m [j|]] eqn:Hmint; [|done].
        injection H1 as <-. apply Hi1, Hg. done. }
  intros H Hi. by apply (Hgen (fence_new s p)).
Qed.

Lemma admit_at_send_admissible o p live a :
  admit_at_send o p live = Ok a → admissible o p live ∧ current o = Some (incarnation a).
Proof.
  unfold admit_at_send, admissible. intros H.
  destruct (current o) as [c|] eqn:Hc; [|done].
  destruct (p_incarnation p) as [i|] eqn:Hi; [|done].
  destruct (bool_decide (p_session p = session o)) eqn:Hs; [|done].
  destruct (bool_decide (i = c)) eqn:Hic; [|done]. cbn [negb] in H.
  destruct (lease o) as [l|] eqn:Hl; [|done].
  destruct (bool_decide (l = Admitting)) eqn:Hla; [|done].
  unbool. subst. apply lease_Ok in Hl. cbn [negb] in H. cbv zeta in H.
  destruct (marker_pid p) as [pid|] eqn:Hpid.
  - destruct (pid =? live) eqn:Hlive; [|done]. cbn [negb] in H.
    split_cases. unbool. split_and!; naive_solver.
  - split_cases. unbool. split_and!; naive_solver.
Qed.

(** ** Properties. *)

(** C6: the send-time admission says yes exactly when the occupancy is minted, the
    presented incarnation, session and pane are the occupancy's own, the lease
    byte is Admitting and any marker pid is the live supervisor's; what it
    admits is the current incarnation. *)
Theorem admit_at_send_iff o p live a :
  admit_at_send o p live = Ok a ↔
  admissible o p live ∧ current o = Some (incarnation a).
Proof.
  split; [apply admit_at_send_admissible|].
  intros [(Hc & Hi & Hs & Hp & Hl & Hpid) Ha]. destruct a as [c]. simpl in Ha.
  unfold admit_at_send. rewrite Hi, Ha, (bool_decide_eq_true_2 _ Hs). cbn [negb].
  rewrite bool_decide_eq_true_2 by done. cbn [negb].
  rewrite (proj2 (lease_Ok o Admitting) Hl), (bool_decide_eq_true_2 _ Hp). cbn.
  destruct (marker_pid p) as [pid|] eqn:Hm; [|done].
  rewrite (Hpid pid eq_refl). cbn. by rewrite N.eqb_refl.
Qed.

(** every refusal is the truth about the presented packet: a stale
    incarnation differs from the current one in the same session, a foreign
    session differs, a dead owner's pid is not the live supervisor's on an
    admitting lease, a lease refusal names the byte's own value, and the
    residual UnknownIncarnation is an unminted occupancy, an unreadable lease
    byte or a different pane. *)
Theorem admit_refusal_reason o p live r :
  admit_at_send o p live = Err r →
  match r with
  | StaleIncarnation i c =>
      p_incarnation p = Some i ∧ current o = Some c ∧ i ≠ c ∧ p_session p = session o
  | ForeignSession ps cs pn =>
      ps = p_session p ∧ cs = session o ∧ ps ≠ cs ∧ pn = p_pane p
  | DeadOwner m l pn =>
      marker_pid p = Some m ∧ l = live ∧ m ≠ live ∧
      lease_byte o = lease_to_u8 Admitting ∧ p_incarnation p = current o
  | LeaseNotAdmitting l =>
      lease_byte o = lease_to_u8 l ∧ l ≠ Admitting ∧ p_incarnation p = current o
  | UnknownIncarnation =>
      current o = None ∨ from_u8 (lease_byte o) = None ∨ p_pane p ≠ pane o
  | Unmintable => p_incarnation p = None
  end.
Proof.
  unfold admit_at_send. intros H.
  destruct (current o) as [c|] eqn:Hc; [|simplify_eq; auto].
  destruct (p_incarnation p) as [i|] eqn:Hi; [|by simplify_eq].
  destruct (bool_decide (p_session p = session o)) eqn:Hs; [|simplify_eq/=; by unbool].
  destruct (bool_decide (i = c)) eqn:Hic; [|simplify_eq/=; by unbool]. cbn [negb] in H.
  unfold lease, ok_or in H.
  destruct (from_u8 (lease_byte o)) as [l|] eqn:Hl; [|simplify_eq; auto].
  apply from_u8_Some in Hl. unbool. subst.
  destruct (bool_decide (l = Admitting)) eqn:Hla; [|simplify_eq/=; by unbool].
  unbool. subst. cbn [negb] in H. cbv zeta in H.
  destruct (bool_decide (p_pane p = pane o)) eqn:Hpane; unbool;
  destruct (marker_pid p) as [pid|] eqn:Hm; cbn in H;
    try destruct (pid =? live) eqn:Hlive; cbn in H; unbool; simplify_eq; auto.
Qed.

Example admit_refusal_reason_witness :
  admit_at_send (MkOccupancy "s" "%7" (Some (MkIncarnation 2)) 0 (Some 43048))
    (MkPresented "s" "%7" (Some (MkIncarnation 1)) (Some 43048)) 43048
  = Err (StaleIncarnation (MkIncarnation 1) (MkIncarnation 2)) ∧
  MkIncarnation 1 ≠ MkIncarnation 2.
Proof.
  split; [reflexivity|].
  exact (proj1 (proj2 (proj2 (admit_refusal_reason
    (MkOccupancy "s" "%7" (Some (MkIncarnation 2)) 0 (Some 43048))
    (MkPresented "s" "%7" (Some (MkIncarnation 1)) (Some 43048)) 43048
    (StaleIncarnation (MkIncarnation 1) (MkIncarnation 2)) eq_refl)))).
Defined.

(** no incarnation outlives its occupancy.  Take any run of the fence from
    its creation in which the mint does not panic; once the pane has been
    occupied again, whatever else happens on the occupancy or the shared mint
    before and after, a packet that presents the earlier incarnation is never
    admitted. *)
Theorem stale_incarnation_refused s p ops1 f1 i ops2 pid ops3 f2 pres live a :
  fence_run (fence_new s p) ops1 = Some f1 →
  current (f_occ f1) = Some i →
  fence_run f1 (ops2 ++ FOccupy pid :: ops3) = Some f2 →
  p_incarnation pres = Some i →
  admit_at_send (f_occ f2) pres live ≠ Ok a.
Proof.
  intros H1 Hcur H2 Hpres Hok.
  apply admit_at_send_admissible in Hok as [(_ & Hinc & _) _].
  pose proof (fence_current_issued _ _ _ _ _ H1 Hcur) as Hiss.
  destruct (fence_run_progress (fence_new s p) _ _ eq_refl H1) as (Hm1 & _).
  rewrite fence_run_app in H2. apply bind_Some in H2 as (g & Hg & H2).
  destruct (fence_run_progress _ _ _ Hm1 Hg) as (Hmg & Hig & _).
  cbn [fence_run] in H2. apply bind_Some in H2 as (h & Hh & H2).
  destruct (fence_step_progress _ _ _ Hmg Hh) as (Hmh & Hih & _).
  destruct (fence_run_progress _ _ _ Hmh H2) as (_ & _ & Hp).
  cbn [fence_step] in Hh. unfold occupy in Hh.
  destruct (mint (f_mint g)) as [m [j|]] eqn:Hmint; [|done].
  injection Hh as <-. apply mint_next in Hmint; [|done]. cbn in *.
  assert (get i < get j) as Hij.
  { apply Hig in Hiss. unfold issued_below in Hiss. lia. }
  destruct Hp as [[Hc _]|(k & Hk & Hnew)].
  - assert (j = i) by congruence. subst. lia.
  - assert (k = i) as -> by congruence. apply Hig, Hih, Hnew in Hiss. lia.
Qed.

Example stale_incarnation_refused_witness :
  let pres := MkPresented "s" "%7" (Some (MkIncarnation 1)) None in
  let f2 := MkFence (MkMint 3) (MkOccupancy "s" "%7" (Some (MkIncarnation 2)) 0 (Some 8)) in
  fence_run (fence_new "s" "%7") [FOccupy 7; FAdvance Admitting Draining; FOccupy 8] = Some f2
  ∧ admit_at_send (f_occ f2) pres 8 ≠ Ok (MkAdmission (MkIncarnation 1)).
Proof.
  split; [reflexivity|].
  apply (stale_incarnation_refused "s" "%7" [FOccupy 7]
    (MkFence (MkMint 2) (MkOccupancy "s" "%7" (Some (MkIncarnation 1)) 0 (Some 7)))
    (MkIncarnation 1) [FAdvance Admitting Draining] 8 []); reflexivity.
Defined.

(** the lease only closes.  Once the lease of an occupancy has left Admitting,
    no sequence of lease advances and occupancies, in any order, admits that
    occupancy's incarnation again. *)
Theorem drained_incarnation_refused s p ops1 f1 i ops2 f2 pres live a :
  fence_run (fence_new s p) ops1 = Some f1 →
  current (f_occ f1) = Some i →
  lease_byte (f_occ f1) ≠ lease_to_u8 Admitting →
  fence_run f1 ops2 = Some f2 →
  p_incarnation pres = Some i →
  admit_at_send (f_occ f2) pres live ≠ Ok a.
Proof.
  intros H1 Hcur Hl H2 Hpres Hok.
  apply admit_at_send_admissible in Hok as [(_ & Hinc & _ & _ & Hadm & _) _].
  pose proof (fence_current_issued _ _ _ _ _ H1 Hcur) as Hiss.
  destruct (fence_run_progress (fence_new s p) _ _ eq_refl H1) as (Hm1 & _).
  destruct (fence_run_progress _ _ _ Hm1 H2) as (_ & _ & [[Hc Hmono]|(j & Hj & Hnew)]).
  - rewrite Hadm in Hmono. simpl in Hl, Hmono. lia.
  - assert (j = i) as -> by congruence. apply Hnew in Hiss. lia.
Qed.

Example drained_incarnation_refused_witness :
  let f1 := MkFence (MkMint 2) (MkOccupancy "s" "%7" (Some (MkIncarnation 1)) 1 (Some 7)) in
  let f2 := MkFence (MkMint 3) (MkOccupancy "s" "%7" (Some (MkIncarnation 1)) 2 (Some 7)) in
  admit_at_send (f_occ f2) (MkPresented "s" "%7" (Some (MkIncarnation 1)) None) 7
    ≠ Ok (MkAdmission (MkIncarnation 1)).
Proof.
  intros f1 f2.
  apply (drained_incarnation_refused "s" "%7" [FOccupy 7; FAdvance Admitting Draining] f1
    (MkIncarnation 1) [FAdvance Admitting Draining; FOther; FAdvance Draining Revoked] f2);
    [reflexivity|reflexivity|discriminate|reflexivity|reflexivity].
Defined.
