(* ===== verification/Saga.v ===== *)
(** * The dispatch saga (crates/dispatch-saga/src/lib.rs)

    Claim, send, ack and close of one dispatch key.  The send goes through a
    [Transport]; crashes surface as [Unknown] and are resolved by reading. *)

From stdpp Require Import base numbers list option relations strings gmap.
From Stdlib Require Import NArith Ascii Lia.
From S2P Require Import Prelude RustStr PaneFence.

Open Scope N_scope.
Open Scope string_scope.

(** ** Data. *)

Inductive ClaimState := CPending | Claiming | Claimed | CFailed | CUnknown.
Inductive DispatchState := DPending | Sending | Sent | DFailed | DUnknown.
Inductive AckState := APending | Awaiting | Acked | Silent | AUnknown.
Inductive CloseState := Open | Graded | Closed | CloseReconciled | CloseUnreconciled.

#[global] Instance ClaimState_eq_dec : EqDecision ClaimState.
Proof. solve_decision. Defined.
#[global] Instance DispatchState_eq_dec : EqDecision DispatchState.
Proof. solve_decision. Defined.
#[global] Instance AckState_eq_dec : EqDecision AckState.
Proof. solve_decision. Defined.
#[global] Instance CloseState_eq_dec : EqDecision CloseState.
Proof. solve_decision. Defined.

(** [omp_types::ChildOutcome]. *)
Inductive ChildOutcome :=
  | Completed (code : option Z) (stdout stderr : string)
  | TimedOut (after_ms : N) (group_killed : bool)
  | SpawnFailed (message : string).

Record DispatchKey := MkKey { bead_id : string; key_incarnation : N; attempt : N }.

#[global] Instance DispatchKey_eq_dec : EqDecision DispatchKey.
Proof. solve_decision. Defined.

Inductive UnmintableKey := MkUnmintableKey.

(** [DispatchKey::mint]: no empty bead id and no zero attempt. *)
Definition key_mint (bead : string) (i : PaneIncarnation) (att : N) :
    result UnmintableKey DispatchKey :=
  if is_empty bead then Err MkUnmintableKey
  else if (att =? 0)%N then Err MkUnmintableKey
  else Ok (MkKey bead (get i) att).

Definition as_canonical (k : DispatchKey) : string :=
  bead_id k +:+ "|" +:+ show_N (key_incarnation k) +:+ "|" +:+ show_N (attempt k).

Record Saga := MkSaga {
  key : DispatchKey;
  claim : ClaimState;
  dispatch : DispatchState;
  ack : AckState;
  close_state : CloseState
}.

Definition fresh (k : DispatchKey) : Saga := MkSaga k CPending DPending APending Open.

Definition set_claim (c : ClaimState) (s : Saga) : Saga :=
  MkSaga (key s) c (dispatch s) (ack s) (close_state s).
Definition set_dispatch (d : DispatchState) (s : Saga) : Saga :=
  MkSaga (key s) (claim s) d (ack s) (close_state s).
Definition set_ack (a : AckState) (s : Saga) : Saga :=
  MkSaga (key s) (claim s) (dispatch s) a (close_state s).
Definition set_close (c : CloseState) (s : Saga) : Saga :=
  MkSaga (key s) (claim s) (dispatch s) (ack s) c.

Definition begin_claim (s : Saga) : Saga :=
  if bool_decide (claim s = CPending) then set_claim Claiming s else s.

Definition finish_claim (s : Saga) : Saga :=
  if bool_decide (claim s = Claiming) then set_claim Claimed s else s.

Inductive CrashPoint := AfterClaiming | AfterSending | AfterSentBeforeAck.

(** [surface_crash]: an incomplete phase becomes [Unknown]. *)
Definition surface_crash (s : Saga) (p : CrashPoint) : Saga :=
  match p with
  | AfterClaiming =>
      if bool_decide (claim s = Claiming) then set_claim CUnknown s else s
  | AfterSending =>
      if bool_decide (dispatch s = Sending) then set_dispatch DUnknown s else s
  | AfterSentBeforeAck =>
      if bool_decide (dispatch s = Sent) && bool_decide (ack s = Awaiting)
      then set_ack AUnknown s else s
  end.

(** [trait Transport]: an implementation with its own state. *)
Class Transport (T : Type) := send : T → DispatchKey → T * ChildOutcome.

Record SagaReceipt := MkReceipt { r_key : DispatchKey; child : ChildOutcome }.

Inductive ExecuteError :=
  | ClaimSkipped (k : DispatchKey)
  | TerminalAssignmentAttempt (k : DispatchKey)
  | OutcomeUnknown (k : DispatchKey)
  | ExecuteUnmintableKey.

(** [execute]: one send under the key, and only from [Pending]. *)
Definition execute {T} `{Transport T} (s : Saga) (t : T) :
    Saga * T * result ExecuteError SagaReceipt :=
  if negb (bool_decide (claim s = Claimed)) then (s, t, Err (ClaimSkipped (key s)))
  else if bool_decide (dispatch s = DPending) then
    let s1 := set_dispatch Sending s in
    let '(t', c) := send t (key s1) in
    let s2 := set_dispatch Sent s1 in
    let s3 := set_ack Awaiting s2 in
    (s3, t', Ok (MkReceipt (key s3) c))
  else if bool_decide (dispatch s = Sending) || bool_decide (dispatch s = DUnknown) then
    (s, t, Err (OutcomeUnknown (key s)))
  else if bool_decide (dispatch s = Sent) || bool_decide (dispatch s = DFailed) then
    (s, t, Err (TerminalAssignmentAttempt (key s)))
  else (s, t, Err (OutcomeUnknown (key s))).

(** [execute] stopped by a crash after its first [n] effects: the write of
    [Sending], the send, the write of [Sent] and the write of [Awaiting]. *)
Definition execute_until {T} `{Transport T} (n : nat) (s : Saga) (t : T) : Saga * T :=
  if bool_decide (claim s = Claimed) && bool_decide (dispatch s = DPending) then
    match n with
    | O => (s, t)
    | 1%nat => (set_dispatch Sending s, t)
    | 2%nat => (set_dispatch Sending s, (send t (key s)).1)
    | 3%nat => (set_dispatch Sent s, (send t (key s)).1)
    | _ => (set_ack Awaiting (set_dispatch Sent s), (send t (key s)).1)
    end
  else (s, t).

Record Observation := MkObservation {
  bead_claimed : bool; pane_saw_packet : bool; ack_present : bool }.

Inductive Reconcile :=
  | Reconciled (evidence : string)
  | StillUnknown (next_read_at : N).

Definition reconcile_evidence (k : DispatchKey) : string :=
  "CLOSE_RECONCILED { k=" +:+ as_canonical k +:+ ", read }".

(** The three phases of [reconcile]; [None] is its early return. *)
Definition reconcile_claim (s : Saga) (o : Observation) : Saga * bool :=
  if bool_decide (claim s = CUnknown) then
    if bead_claimed o then (set_claim Claimed s, true) else (s, false)
  else (s, true).

Definition reconcile_dispatch (s : Saga) (o : Observation) : Saga * bool :=
  if bool_decide (dispatch s = DUnknown) then
    if pane_saw_packet o then
      let s1 := set_dispatch Sent s in
      (if bool_decide (ack s1 = APending) then set_ack Awaiting s1 else s1, true)
    else (s, false)
  else (s, true).

Definition reconcile_ack (s : Saga) (o : Observation) : Saga * bool :=
  if bool_decide (ack s = AUnknown) then
    if ack_present o then (set_ack Acked s, true) else (s, false)
  else (s, true).

(** [reconcile]: resolve [Unknown] by reading. *)
Definition reconcile (s : Saga) (o : Observation) (now : N) : Saga * Reconcile :=
  let unknown := StillUnknown (sat_add64 now 1) in
  let '(s1, go1) := reconcile_claim s o in
  if negb go1 then (s1, unknown) else
  let '(s2, go2) := reconcile_dispatch s1 o in
  if negb go2 then (s2, unknown) else
  let '(s3, go3) := reconcile_ack s2 o in
  if negb go3 then (s3, unknown) else
  if bool_decide (dispatch s3 = Sent) && bool_decide (ack s3 = Acked)
  then (s3, Reconciled (reconcile_evidence (key s3)))
  else if bool_decide (dispatch s3 = DUnknown) || bool_decide (ack s3 = AUnknown)
          || bool_decide (claim s3 = CUnknown)
  then (s3, unknown)
  else (s3, unknown).

Inductive CloseRefusal := Unreconciled (k : DispatchKey) (last : DispatchState).

(** [close]; [CloseEvidence] is its row. *)
Definition close (s : Saga) (evidence : option string) :
    Saga * result CloseRefusal unit :=
  let last := dispatch s in
  let refuse := (set_close CloseUnreconciled s, Err (Unreconciled (key s) last)) in
  if bool_decide (last = DUnknown) || bool_decide (last = DFailed) then
    match evidence with
    | Some row =>
        if starts_with row "CLOSE_RECONCILED" then (set_close CloseReconciled s, Ok tt)
        else refuse
    | None => refuse
    end
  else if bool_decide (last = Sent) && bool_decide (ack s = Acked) then
    (set_close Closed s, Ok tt)
  else refuse.

Inductive SagaLedgerError := SingleWriterViolation (held_by attempted : string).

(** [DispatchLedger]: one owner and the rows by canonical key. *)
Record DispatchLedger := MkLedger { owner : string; rows : gmap string Saga }.

Definition ledger_new (o : string) : DispatchLedger := MkLedger o ∅.

Definition ledger_write (l : DispatchLedger) (who : string) (s : Saga) :
    DispatchLedger * result SagaLedgerError unit :=
  if negb (bool_decide (who = owner l)) then (l, Err (SingleWriterViolation (owner l) who))
  else (MkLedger (owner l) (<[as_canonical (key s) := s]> (rows l)), Ok tt).

(** ** The saga at run time, crashes included. *)
Inductive SagaOp :=
  | OpBeginClaim
  | OpFinishClaim
  | OpExecute
  | OpCrashInExecute (n : nat)
  | OpSurfaceCrash (p : CrashPoint)
  | OpReconcile (o : Observation) (now : N)
  | OpClose (evidence : option string).

Definition saga_step {T} `{Transport T} (st : Saga * T) (op : SagaOp) : Saga * T :=
  let '(s, t) := st in
  match op with
  | OpBeginClaim => (begin_claim s, t)
  | OpFinishClaim => (finish_claim s, t)
  | OpExecute => (execute s t).1
  | OpCrashInExecute n => execute_until n s t
  | OpSurfaceCrash p => (surface_crash s p, t)
  | OpReconcile o now => ((reconcile s o now).1, t)
  | OpClose ev => ((close s ev).1, t)
  end.

Definition saga_run {T} `{Transport T} (st : Saga * T) (ops : list SagaOp) : Saga * T :=
  fold_left saga_step ops st.

(** A transport that remembers the keys it was asked to send. *)
#[global] Instance recording (out : DispatchKey → ChildOutcome) : Transport (list DispatchKey) :=
  λ t k, (app t [k], out k).

(** The reachable states of a saga: nothing is sent without a claim, and
    nothing is acked that was not sent. *)
Definition saga_wf (s : Saga) : Prop :=
  (dispatch s ≠ DPending → claim s = Claimed) ∧
  (ack s ≠ APending → dispatch s = Sent) ∧
  dispatch s ≠ DFailed ∧ ack s ≠ Silent ∧ claim s ≠ CFailed ∧
  (close_state s = Closed → dispatch s = Sent ∧ ack s = Acked).

Definition surfaces_crash (op : SagaOp) : bool :=
  match op with OpSurfaceCrash _ => true | _ => false end.

(** The writes of a ledger, in order. *)
Definition ledger_run (l : DispatchLedger) (ws : list (string * Saga)) : DispatchLedger :=
  fold_left (λ l w, (ledger_write l w.1 w.2).1) ws l.

(** ** Lemmas. *)

#[global] Arguments send : simpl never.

Ltac saga_cases :=
  repeat match goal with
  | |- context [bool_decide ?P] => destruct (bool_decide P) eqn:?; unbool; cbn
  | |- context [if ?b then _ else _] => is_var b; destruct b; cbn
  end.

Lemma app_sep_inj c a1 b1 a2 b2 :
  all_bytes (λ d, negb (bool_decide (c = d))) b1 = true →
  all_bytes (λ d, negb (bool_decide (c = d))) b2 = true →
  a1 +:+ String c b1 = a2 +:+ String c b2 → a1 = a2 ∧ b1 = b2.
Proof.
  intros H1 H2 Heq. apply (rsplit_once_char c a1) in H1.
  apply (rsplit_once_char c a2) in H2. rewrite Heq, H2 in H1. by injection H1.
Qed.

Lemma show_N_no_bar n : all_bytes (λ d, negb (bool_decide ("|"%char = d))) (show_N n) = true.
Proof. apply digits_avoid; [done|]. apply show_N_digits. Qed.

Lemma as_canonical_inj k1 k2 : as_canonical k1 = as_canonical k2 → k1 = k2.
Proof.
  destruct k1 as [b1 i1 a1], k2 as [b2 i2 a2]. unfold as_canonical. simpl. intros H.
  rewrite !(str_app_assoc _ "|" (_ +:+ _)), !(str_app_assoc _ _ ("|" +:+ _)) in H.
  apply app_sep_inj in H as [H Ha]; [|apply show_N_no_bar..].
  rewrite <- !str_app_assoc in H.
  apply app_sep_inj in H as [-> Hi]; [|apply show_N_no_bar..].
  apply show_N_inj in Hi as ->. apply show_N_inj in Ha as ->. done.
Qed.

(** What every reading phase keeps, and the well-formedness it preserves. *)
Lemma reconcile_phases_wf s o :
  saga_wf s →
  saga_wf (reconcile_claim s o).1 ∧ saga_wf (reconcile_dispatch s o).1 ∧
  saga_wf (reconcile_ack s o).1.
Proof.
  destruct s as [k c d a cl], o as [bc ps ap];
    unfold saga_wf, reconcile_claim, reconcile_dispatch, reconcile_ack; cbn;
    saga_cases; naive_solver.
Qed.

Lemma reconcile_wf s o now : saga_wf s → saga_wf (reconcile s o now).1.
Proof.
  intros Hs. unfold reconcile.
  destruct (reconcile_claim s o) as [s1 go1] eqn:H1.
  pose proof (proj1 (reconcile_phases_wf s o Hs)) as Hs1. rewrite H1 in Hs1.
  destruct go1; [|done]. cbn.
  destruct (reconcile_dispatch s1 o) as [s2 go2] eqn:H2.
  pose proof (proj1 (proj2 (reconcile_phases_wf s1 o Hs1))) as Hs2. rewrite H2 in Hs2.
  destruct go2; [|done]. cbn.
  destruct (reconcile_ack s2 o) as [s3 go3] eqn:H3.
  pose proof (proj2 (proj2 (reconcile_phases_wf s2 o Hs2))) as Hs3. rewrite H3 in Hs3.
  destruct go3; [|done]. cbn. by saga_cases.
Qed.

(** What [reconcile] can change, field by field: [Unknown] only, except that an
    ack starts waiting when its send is seen. *)
Lemma reconcile_changes s o now (s' := (reconcile s o now).1) :
  key s' = key s ∧ close_state s' = close_state s ∧
  (claim s' = claim s ∨ (claim s = CUnknown ∧ claim s' = Claimed)) ∧
  (dispatch s' = dispatch s ∨ (dispatch s = DUnknown ∧ dispatch s' = Sent)) ∧
  (ack s' = ack s ∨ (ack s = AUnknown ∧ ack s' = Acked) ∨
   (dispatch s = DUnknown ∧ ack s = APending ∧ ack s' = Awaiting)).
Proof.
  subst s'. destruct s as [k c d a cl], o as [bc ps ap];
    unfold reconcile, reconcile_claim, reconcile_dispatch, reconcile_ack; cbn;
    saga_cases; simplify_eq; auto 10.
Qed.

Lemma saga_step_wf {T} `{Transport T} st op : saga_wf st.1 → saga_wf (saga_step st op).1.
Proof.
  destruct st as [s t]. cbn [fst]. intros Hs. destruct op as [| | |n|p|o now|ev].
  6: by apply reconcile_wf.
  all: destruct s as [k c d a cl]; revert Hs;
    unfold saga_step, saga_wf, begin_claim, finish_claim, execute, execute_until,
      surface_crash, close; cbn.
  - saga_cases; naive_solver.
  - saga_cases; naive_solver.
  - destruct (send t k) as [t' ch]. saga_cases; naive_solver.
  - destruct n as [|[|[|[|n]]]]; saga_cases; naive_solver.
  - destruct p; saga_cases; naive_solver.
  - destruct ev as [row|]; [destruct (starts_with row "CLOSE_RECONCILED")|];
      saga_cases; naive_solver.
Qed.

Lemma saga_run_wf {T} `{Transport T} st ops : saga_wf st.1 → saga_wf (saga_run st ops).1.
Proof.
  unfold saga_run. revert st. induction ops as [|op ops IH]; intros st Hst; [done|].
  cbn. by apply IH, saga_step_wf.
Qed.

Lemma fresh_wf k : saga_wf (fresh k).
Proof. unfold saga_wf. cbn. naive_solver. Qed.

(** The send of a step: only from [Pending], only once, only of the saga's key. *)
Lemma saga_step_send {T} `{Transport T} (t0 : T) k st op :
  key st.1 = k → (st.2 = t0 ∨ (dispatch st.1 ≠ DPending ∧ st.2 = (send t0 k).1)) →
  let st' := saga_step st op in
  key st'.1 = k ∧ (st'.2 = t0 ∨ (dispatch st'.1 ≠ DPending ∧ st'.2 = (send t0 k).1)).
Proof.
  destruct st as [s t]. cbn [fst snd]. intros Hk Hst.
  destruct op as [| | |n|p|o now|ev]; cbn -[reconcile close].
  - unfold begin_claim. saga_cases; naive_solver.
  - unfold finish_claim. saga_cases; naive_solver.
  - unfold execute. saga_cases; try naive_solver.
    destruct (send t (key s)) as [t' ch] eqn:Hsend. cbn. subst k.
    destruct Hst as [->|[? _]]; [|done]. split; [done|]. right. by rewrite Hsend.
  - unfold execute_until. destruct n as [|[|[|[|n]]]]; saga_cases; naive_solver.
  - destruct p; cbn; saga_cases; naive_solver.
  - destruct (reconcile_changes s o now) as (Hkey & _ & _ & Hd & _).
    rewrite Hkey. split; [done|]. destruct Hst as [->|[Hne ->]]; [by left|right].
    split; [|done]. cbn in Hne. destruct Hd as [->|[_ ->]]; done.
  - unfold close. destruct ev as [row|]; [destruct (starts_with row "CLOSE_RECONCILED")|];
      saga_cases; naive_solver.
Qed.

(** Without a surfaced crash nothing ever becomes [Unknown]. *)
Definition crash_free (s : Saga) : Prop :=
  claim s ≠ CUnknown ∧ (dispatch s = DPending ∨ dispatch s = Sending ∨ dispatch s = Sent) ∧
  (ack s = APending ∨ ack s = Awaiting).

Lemma saga_step_crash_free {T} `{Transport T} st op :
  surfaces_crash op = false → crash_free st.1 → crash_free (saga_step st op).1.
Proof.
  destruct st as [s t]. intros Hop Hs. destruct op as [| | |n|p|o now|ev]; try done.
  5: { destruct (reconcile_changes s o now) as (_ & _ & Hc & Hd & Ha).
       unfold crash_free in *. cbn in *. intuition congruence. }
  all: destruct s as [k c d a cl]; revert Hs;
    unfold saga_step, crash_free, begin_claim, finish_claim, execute, execute_until, close;
    cbn.
  - saga_cases; naive_solver.
  - saga_cases; naive_solver.
  - destruct (send t k) as [t' ch]. saga_cases; naive_solver.
  - destruct n as [|[|[|[|n]]]]; saga_cases; naive_solver.
  - destruct ev as [row|]; [destruct (starts_with row "CLOSE_RECONCILED")|];
      saga_cases; naive_solver.
Qed.

Lemma saga_run_crash_free {T} `{Transport T} st ops :
  Forall (λ op, surfaces_crash op = false) ops → crash_free st.1 →
  crash_free (saga_run st ops).1.
Proof.
  unfold saga_run. intros Hops. revert st.
  induction Hops as [|op ops Hop _ IH]; intros st Hst; [done|].
  cbn. by apply IH, saga_step_crash_free.
Qed.

Lemma ledger_run_owner l ws : owner (ledger_run l ws) = owner l.
Proof.
  unfold ledger_run. revert l. induction ws as [|[who s] ws IH]; intros l; [done|].
  cbn. rewrite IH. unfold ledger_write. cbn. by case_bool_decide.
Qed.

Lemma ledger_run_snoc l ws w :
  ledger_run l (app ws [w]) = (ledger_write (ledger_run l ws) w.1 w.2).1.
Proof. unfold ledger_run. by rewrite fold_left_app. Qed.

(** ** Properties. *)

(** C2: at most one send per key.  Whatever the transport, in every run of a fresh
    saga (any operations in any order, crashes inside execute after each of its
    effects included) the transport is either where it started or has received
    exactly one send, of the saga's own key. *)
Theorem saga_sends_at_most_once {T} `{Transport T} (k : DispatchKey) (t0 : T) ops :
  (saga_run (fresh k, t0) ops).2 = t0 ∨ (saga_run (fresh k, t0) ops).2 = (send t0 k).1.
Proof.
  assert (∀ st, key st.1 = k →
    (st.2 = t0 ∨ (dispatch st.1 ≠ DPending ∧ st.2 = (send t0 k).1)) →
    (saga_run st ops).2 = t0 ∨ (saga_run st ops).2 = (send t0 k).1) as Hgen.
  { unfold saga_run. induction ops as [|op ops IH]; intros st Hk Hst; cbn; [naive_solver|].
    destruct (saga_step_send t0 k st op Hk Hst) as [Hk' Hst']. by apply IH. }
  apply Hgen; [done|by left].
Qed.

(** execute, on every branch.  It sends exactly when the claim is held and the
    dispatch is pending, and then leaves Sent and Awaiting with the transport's
    own answer; otherwise the saga and the transport are untouched and the error
    names the reason, a missing claim before anything else. *)
Theorem execute_spec {T} `{Transport T} (s : Saga) (t : T) :
  execute s t =
  if decide (claim s = Claimed) then
    match dispatch s with
    | DPending => (set_ack Awaiting (set_dispatch Sent s), (send t (key s)).1,
                   Ok (MkReceipt (key s) (send t (key s)).2))
    | Sending | DUnknown => (s, t, Err (OutcomeUnknown (key s)))
    | Sent | DFailed => (s, t, Err (TerminalAssignmentAttempt (key s)))
    end
  else (s, t, Err (ClaimSkipped (key s))).
Proof.
  unfold execute. destruct (decide (claim s = Claimed)) as [Hc|Hc].
  - rewrite bool_decide_eq_true_2 by done. destruct s as [k c d a cl]. cbn.
    destruct d; cbn; [|done..]. by destruct (send t k).
  - by rewrite bool_decide_eq_false_2.
Qed.

(** every reachable saga is well formed: a dispatch that left Pending holds its
    claim, an ack phase exists only after Sent, Closed means sent and acked, and
    the Failed and Silent states the types offer are never entered. *)
Theorem saga_reachable_wf {T} `{Transport T} k (t0 : T) ops :
  saga_wf (saga_run (fresh k, t0) ops).1.
Proof. apply saga_run_wf, fresh_wf. Qed.

(** Closed is final: once a run has closed a saga, every continuation leaves it
    Closed, sent, acked, and without a further send. *)
Theorem saga_closed_final {T} `{Transport T} k (t0 : T) ops ops' :
  close_state (saga_run (fresh k, t0) ops).1 = Closed →
  saga_run (fresh k, t0) (app ops ops') = saga_run (fresh k, t0) ops.
Proof.
  pose proof (saga_run_wf (fresh k, t0) ops (fresh_wf k)) as Hwf.
  unfold saga_run in *. rewrite fold_left_app. intros Hcl. revert Hcl Hwf. generalize (fold_left saga_step ops (fresh k, t0)).
  induction ops' as [|op ops' IH]; intros st Hcl Hwf; [done|]. cbn.
  assert (saga_step st op = st) as ->; [|by apply IH].
  destruct st as [[k' c d a cl] t]. cbn in Hcl. subst cl.
  unfold saga_wf in Hwf. cbn in Hwf.
  destruct Hwf as (Hc & _ & _ & _ & _ & Hcls). destruct (Hcls eq_refl) as [-> ->].
  rewrite (Hc ltac:(done)). by destruct op as [| | |[|[|[|[|n]]]]|[]|[[] [] []] now|[row|]].
Qed.

Example saga_closed_final_witness :
  let ops := [OpBeginClaim; OpFinishClaim; OpExecute; OpSurfaceCrash AfterSentBeforeAck;
              OpReconcile (MkObservation true true true) 10; OpClose None] in
  let k := MkKey "bead" 3 1 in
  let H := recording (λ _, Completed (Some 0%Z) "" "") in
  (saga_run (fresh k, []) ops).1 = MkSaga k Claimed Sent Acked Closed ∧
  (saga_run (fresh k, []) (app ops [OpExecute; OpCrashInExecute 2])).2 = [k].
Proof.
  split; [reflexivity|].
  rewrite (@saga_closed_final _ (recording (λ _, Completed (Some 0%Z) "" "")) (MkKey "bead" 3 1) [] [OpBeginClaim; OpFinishClaim;
    OpExecute; OpSurfaceCrash AfterSentBeforeAck;
    OpReconcile (MkObservation true true true) 10; OpClose None]
    [OpExecute; OpCrashInExecute 2] eq_refl).
  reflexivity.
Defined.

(** reconcile reports success exactly when every phase is settled by the reading:
    a claim that is not in doubt or is seen, a send that is recorded or seen, and
    an ack that is recorded, or is in doubt and seen. *)
Theorem reconcile_iff s o now :
  (∃ e, (reconcile s o now).2 = Reconciled e) ↔
  (claim s ≠ CUnknown ∨ bead_claimed o = true) ∧
  (dispatch s = Sent ∨ (dispatch s = DUnknown ∧ pane_saw_packet o = true)) ∧
  (ack s = Acked ∨ (ack s = AUnknown ∧ ack_present o = true)).
Proof.
  destruct s as [k c d a cl], o as [bc ps ap];
    unfold reconcile, reconcile_claim, reconcile_dispatch, reconcile_ack; cbn;
    saga_cases; simplify_eq; naive_solver.
Qed.

(** a saga that never surfaces a crash is never acked and can never be closed,
    whatever is read and whatever evidence is offered: only the reconciliation of
    an ack in doubt records one. *)
Theorem no_close_without_crash {T} `{Transport T} k (t0 : T) ops ev :
  Forall (λ op, surfaces_crash op = false) ops →
  let s := (saga_run (fresh k, t0) ops).1 in
  ack s ≠ Acked ∧ (close s ev).2 = Err (Unreconciled k (dispatch s)).
Proof.
  intros Hops s. assert (crash_free s) as (Hc & Hd & Ha).
  { subst s. apply saga_run_crash_free; [done|]. unfold crash_free. cbn. naive_solver. }
  assert (key s = k) as Hk.
  { subst s. destruct (saga_run (fresh k, t0) ops) as [s t] eqn:Hrun. cbn.
    assert (∀ st, key st.1 = k → key (saga_run st ops).1 = k) as Hkey.
    { unfold saga_run. clear. induction ops as [|op ops IH]; intros st Hst; [done|].
      cbn. apply IH, (saga_step_send st.2 k); auto. }
    specialize (Hkey (fresh k, t0) eq_refl). by rewrite Hrun in Hkey. }
  split; [by destruct Ha as [->| ->]|]. unfold close. rewrite Hk.
  destruct Hd as [->|[->| ->]], Ha as [->| ->]; done.
Qed.

Example no_close_without_crash_witness :
  let ops := [OpBeginClaim; OpFinishClaim; OpExecute;
              OpReconcile (MkObservation true true true) 10] in
  let k := MkKey "bead" 3 1 in
  let H := recording (λ _, Completed (Some 0%Z) "" "") in
  (saga_run (fresh k, []) ops).1 = MkSaga k Claimed Sent Awaiting Open ∧
  (close (saga_run (fresh k, []) ops).1 (Some (reconcile_evidence k))).2
    = Err (Unreconciled k Sent).
Proof.
  split; [reflexivity|].
  refine (proj2 (no_close_without_crash (MkKey "bead" 3 1) [] [OpBeginClaim; OpFinishClaim;
    OpExecute; OpReconcile (MkObservation true true true) 10] _ _)).
  repeat constructor.
Defined.

(** the canonical form of a dispatch key determines it, for every bead id, those
    that hold the separator included. *)
Theorem as_canonical_injective k1 k2 : as_canonical k1 = as_canonical k2 ↔ k1 = k2.
Proof. split; [apply as_canonical_inj|by intros ->]. Qed.

(** The dispatch ledger has one writer and no collisions: after any sequence of
    writes, the row of a key is the last saga of that key the owner wrote, and a
    write by anyone else is refused and changes nothing. *)
Theorem ledger_lookup o ws k :
  rows (ledger_run (ledger_new o) ws) !! as_canonical k =
  last (omap (λ w, if decide (w.1 = o ∧ key w.2 = k) then Some w.2 else None) ws).
Proof.
  induction ws as [|[who s] ws IH] using rev_ind; [done|].
  rewrite ledger_run_snoc, omap_app. cbn [fst snd].
  unfold ledger_write. rewrite ledger_run_owner. cbn [owner ledger_new omap list_omap fst snd].
  destruct (decide (who = o ∧ key s = k)) as [[-> <-]|Hne].
  - rewrite bool_decide_eq_true_2 by done. cbn. rewrite lookup_insert_eq.
    cbn. by rewrite last_snoc.
  - cbn. rewrite List.app_nil_r. destruct (bool_decide (who = o)) eqn:Hwho; cbn; [|done].
    unbool. rewrite lookup_insert_ne; [done|].
    intros Heq%as_canonical_inj. naive_solver.
Qed.
