(* ===== verification/GraderGate.v ===== *)
(** * Grader attribution (crates/grader-attribution-gate/src/lib.rs)

    A close is attributable when the tracker names an actor who is neither the
    shared default identity nor the implementer, and whom the close reason does
    not contradict.  The provenance and correction ledgers are read fail-closed. *)

From stdpp Require Import base numbers list option strings.
From Stdlib Require Import NArith Ascii Lia.
From S2P Require Import Prelude RustStr Json.

Open Scope N_scope.
Open Scope string_scope.

Definition DEFAULT_AUTHORS : list string := ["josh"].
Definition ACTOR_PROVENANCE_CUTOFF : string := "2026-09-07T18:42:29Z".
Definition ACTOR_PROVENANCE_EXIT_OK : N := 0.
Definition ACTOR_PROVENANCE_EXIT_VIOLATION : N := 1.
Definition ACTOR_PROVENANCE_EXIT_EMPTY : N := 2.
Definition ACTOR_PROVENANCE_EXIT_INVALID : N := 3.
Definition UNATTRIBUTED_CLOSE_CEILING : nat := 37.
Definition CORRECTION_TITLE_PREFIX : string := "CORRECTION: ".

(** ** Actor provenance. *)

Record ActorProvenanceRow := MkProvenanceRow {
  ap_id : string; created_at : string; created_by : option string }.

Record ActorProvenanceViolation := MkProvenanceViolation {
  apv_bead_id : string; apv_field : string; apv_value : option string }.

Inductive ActorProvenanceError :=
  | ApEmptyScan
  | ApMalformedLine (line : N)
  | ApMissingField (line : N) (field : string)
  | ApInvalidTimestamp (line : N) (value : string).

Definition exit_code (e : ActorProvenanceError) : N :=
  match e with
  | ApEmptyScan => ACTOR_PROVENANCE_EXIT_EMPTY
  | _ => ACTOR_PROVENANCE_EXIT_INVALID
  end.

Definition digit_or_sep (a b : nat) (i : nat) (c : ascii) : bool :=
  Nat.eqb i a || Nat.eqb i b || is_ascii_digit c.

Fixpoint zeros (n : nat) : string :=
  match n with O => "" | S n' => String "048" (zeros n') end.

Definition canonical_utc_timestamp (value : string) : option string :=
  match split_once "T" value with
  | None => None
  | Some (date, time_with_zone) =>
  if negb (Nat.eqb (String.length date) 10)
     || negb (byte_at_is 4 "-" date) || negb (byte_at_is 7 "-" date)
     || negb (all_bytes_at (digit_or_sep 4 7) 0 date)
  then None else
  match strip_suffix "Z" time_with_zone with
  | None => None
  | Some time =>
  let '(clock, fraction) :=
    match split_once "." time with Some cf => cf | None => (time, "") end in
  if negb (Nat.eqb (String.length clock) 8)
     || negb (byte_at_is 2 ":" clock) || negb (byte_at_is 5 ":" clock)
     || negb (all_bytes_at (digit_or_sep 2 5) 0 clock)
     || Nat.ltb 9 (String.length fraction)
     || negb (is_empty fraction) && negb (all_bytes is_ascii_digit fraction)
  then None
  else Some (date +:+ "T" +:+ clock +:+ "." +:+ fraction
             +:+ zeros (9 - String.length fraction) +:+ "Z")
  end end.

Definition is_utc_timestamp (value : string) : bool :=
  match canonical_utc_timestamp value with Some _ => true | None => false end.

Definition timestamp_after_cutoff (value : string) : bool :=
  match canonical_utc_timestamp value with
  | None => false
  | Some curr =>
      match canonical_utc_timestamp ACTOR_PROVENANCE_CUTOFF with
      | None => false
      | Some cutoff => String.ltb cutoff curr
      end
  end.

(** [object.get(field).and_then(as_str).map(str::trim).filter(not empty)]. *)
Definition text_field (field : string) (o : list (string * Json)) : option string :=
  trimmed_nonempty (map_get field o ≫= as_str).

(** One row of [parse_actor_provenance]'s loop. *)
Definition provenance_row `{SerdeJson} (n : N) (line : string) :
    result ActorProvenanceError ActorProvenanceRow :=
  value ← ok_or (from_str line) (ApMalformedLine n);
  object ← ok_or (as_object value) (ApMalformedLine n);
  id ← ok_or (text_field "id" object) (ApMissingField n "id");
  at_ ← ok_or (text_field "created_at" object) (ApMissingField n "created_at");
  if negb (is_utc_timestamp at_) then Err (ApInvalidTimestamp n at_)
  else Ok (MkProvenanceRow id at_ (text_field "created_by" object)).

(** The loop's [EmptyScan] when no row was read. *)
Definition nonempty_rows {E R} (e : E) (r : result E (list R)) : result E (list R) :=
  match r with Ok [] => Err e | r => r end.

Definition parse_actor_provenance `{SerdeJson} (jsonl : string) :
    result ActorProvenanceError (list ActorProvenanceRow) :=
  nonempty_rows ApEmptyScan (parse_rows provenance_row 1 (lines jsonl)).

(** ** Close attribution. *)

Record CloseAttempt := MkCloseAttempt {
  ca_bead_id : string;
  implementer : option string;
  actor : option string;
  close_reason : string;
  comment_authors : list string;
  tmux_pane : option string
}.

Inductive AttributionRefusal :=
  | ActorAbsent (pane : option string)
  | SelfGrade (actor implementer : string)
  | GraderProseMismatch (prose_name actor : string).

Inductive AttributionVerdict :=
  | Pass (actor : string)
  | Refused (r : AttributionRefusal).

Definition is_default_author `{Unicode} (name : string) (defaults : list string) : bool :=
  let folded := to_lowercase (trim name) in
  existsb (λ d, eq_ignore_ascii_case d folded) defaults.

(** The token separators of [prose_grader]. *)
Definition prose_sep (ch : string) : bool :=
  is_whitespace ch || bool_decide (ch = "(") || bool_decide (ch = ",")
  || bool_decide (ch = ";").

Definition is_ascii_uppercase_char (ch : string) : bool :=
  match ch with
  | String c EmptyString => let n := N_of_ascii c in ((65 <=? n) && (n <=? 90))%N
  | _ => false
  end.

(** One needle of [prose_grader]'s loop. *)
Definition prose_after (reason needle : string) (skip : nat) : option string :=
  match split_once needle (to_ascii_lowercase reason) with
  | None => None
  | Some (before, _) =>
      let rest := trim_start (str_drop (String.length before + skip) reason) in
      let token := default "" (head (split_chars prose_sep (chars rest))) in
      let upper := match head (chars token) with
                   | Some ch => is_ascii_uppercase_char ch | None => false end in
      if upper && Nat.ltb 2 (String.length token) then Some token else None
  end.

Definition prose_grader (reason : string) : option string :=
  match prose_after reason "grader " 7 with
  | Some t => Some t
  | None => prose_after reason "by " 3
  end.

Definition attribution_hits `{Unicode} (authors : list string) (reason : string)
    (defaults : list string) : list string :=
  let hits := List.filter (λ a, negb (is_default_author a defaults)) authors in
  match prose_grader reason with
  | Some prose =>
      if existsb (λ h, eq_ignore_ascii_case h prose) hits then hits
      else app hits [prose]
  | None => hits
  end.

Definition assess_close `{Unicode} (input : CloseAttempt) (defaults : list string) :
    AttributionVerdict :=
  match trimmed_nonempty (actor input) with
  | None => Refused (ActorAbsent (tmux_pane input))
  | Some name =>
  if is_default_author name defaults then Refused (ActorAbsent (tmux_pane input)) else
  let prose_check :=
    match prose_grader (close_reason input) with
    | Some prose =>
        if negb (is_default_author prose defaults) && negb (eq_ignore_ascii_case prose name)
        then Refused (GraderProseMismatch prose name)
        else Pass name
    | None => Pass name
    end in
  match trimmed_nonempty (implementer input) with
  | Some impl =>
      if eq_ignore_ascii_case name impl then Refused (SelfGrade name impl) else prose_check
  | None => prose_check
  end end.

Inductive EmptyScan := MkEmptyScan.

Definition scan_closes `{Unicode} (attempts : list CloseAttempt) (defaults : list string) :
    result EmptyScan (list AttributionVerdict) :=
  match attempts with
  | [] => Err MkEmptyScan
  | _ => Ok (map (λ row, assess_close row defaults) attempts)
  end.

(** [actor_provenance_violations]: post-cutoff rows without an explicit actor. *)
Definition unattributed_row `{Unicode} (row : ActorProvenanceRow) : bool :=
  timestamp_after_cutoff (created_at row) &&
  match created_by row with
  | Some author => is_default_author author DEFAULT_AUTHORS
  | None => true
  end.

Definition actor_provenance_violations `{Unicode} (rows : list ActorProvenanceRow) :
    result ActorProvenanceError (list ActorProvenanceViolation) :=
  match rows with
  | [] => Err ApEmptyScan
  | _ => Ok (map (λ row, MkProvenanceViolation (ap_id row) "created_by" (created_by row))
               (List.filter unattributed_row rows))
  end.

Definition actor_provenance_gate_exit (vs : list ActorProvenanceViolation) : N :=
  match vs with [] => ACTOR_PROVENANCE_EXIT_OK | _ => ACTOR_PROVENANCE_EXIT_VIOLATION end.

(** ** The closed-bead ledger and its shrinking ceiling. *)

Record ClosedBead := MkClosedBead {
  cb_id : string; closed_at : string; cb_close_reason : string;
  cb_comment_authors : list string }.

Definition str_or_empty (field : string) (v : Json) : string :=
  default "" (json_get field v ≫= as_str).

(** One line of [parse_closed_beads]; [None] is a [continue]. *)
Definition closed_bead_of_line `{SerdeJson} (line : string) : option ClosedBead :=
  if is_empty (trim line) then None else
  match from_str line with
  | None => None
  | Some value =>
  if negb (bool_decide (json_get "status" value ≫= as_str = Some "closed")) then None else
  let id := str_or_empty "id" value in
  if is_empty id then None else
  let authors :=
    match json_get "comments" value ≫= as_array with
    | Some comments => omap (λ c, json_get "author" c ≫= as_str) comments
    | None => []
    end in
  Some (MkClosedBead id (str_or_empty "closed_at" value)
          (str_or_empty "close_reason" value) authors)
  end.

Definition parse_closed_beads `{SerdeJson} (jsonl : string) :
    result EmptyScan (list ClosedBead) :=
  nonempty_rows MkEmptyScan (Ok (omap closed_bead_of_line (lines jsonl))).

Definition unattributed_close_ids `{Unicode} (rows : list ClosedBead)
    (defaults : list string) : list string :=
  map cb_id (List.filter (λ row,
    negb (existsb (λ a, negb (is_default_author a defaults)) (cb_comment_authors row))) rows).

Inductive CeilingVerdict :=
  | Exact (live : nat)
  | Slack (live ceiling : nat)
  | Breached (live ceiling : nat).

Definition from_counts (live ceiling : nat) : CeilingVerdict :=
  if Nat.ltb ceiling live then Breached live ceiling
  else if Nat.ltb live ceiling then Slack live ceiling
  else Exact live.

Definition refuses (v : CeilingVerdict) : bool :=
  match v with Breached _ _ => true | _ => false end.

Definition ledger_gate_exit (unattributed : list string) : N :=
  if refuses (from_counts (length unattributed) UNATTRIBUTED_CLOSE_CEILING) then 1 else 0.

(** ** Correction obligations. *)

Record CorrectionRow := MkCorrectionRow {
  cr_id : string; cr_title : string; cr_status : string; cr_assignee : option string }.

Record CorrectionObligation := MkCorrectionObligation {
  co_bead_id : string; co_title : string; co_assignee : option string }.

Inductive CorrectionQueryError :=
  | CqEmptyScan
  | CqMalformedLine (line : N)
  | CqMissingField (line : N) (field : string).

Definition correction_row `{SerdeJson} (n : N) (line : string) :
    result CorrectionQueryError CorrectionRow :=
  value ← ok_or (from_str line) (CqMalformedLine n);
  object ← ok_or (as_object value) (CqMalformedLine n);
  let required := λ field, ok_or (text_field field object) (CqMissingField n field) in
  id ← required "id";
  title ← required "title";
  status ← required "status";
  Ok (MkCorrectionRow id title status (text_field "assignee" object)).

Definition parse_correction_rows `{SerdeJson} (jsonl : string) :
    result CorrectionQueryError (list CorrectionRow) :=
  nonempty_rows CqEmptyScan (parse_rows correction_row 1 (lines jsonl)).

Definition outstanding_corrections (rows : list CorrectionRow) : list CorrectionObligation :=
  map (λ row, MkCorrectionObligation (cr_id row) (cr_title row) (cr_assignee row))
    (List.filter (λ row, negb (bool_decide (cr_status row = "closed")))
      (List.filter (λ row, starts_with (cr_title row) CORRECTION_TITLE_PREFIX) rows)).

(** ** The attribution rule, declaratively. *)
Definition attributable `{Unicode} (input : CloseAttempt) (defaults : list string)
    (name : string) : Prop :=
  trimmed_nonempty (actor input) = Some name ∧
  is_default_author name defaults = false ∧
  (∀ impl, trimmed_nonempty (implementer input) = Some impl →
    eq_ignore_ascii_case name impl = false) ∧
  (∀ prose, prose_grader (close_reason input) = Some prose →
    is_default_author prose defaults = true ∨ eq_ignore_ascii_case prose name = true).

(** ** Lemmas. *)

Lemma eq_ignore_ascii_case_refl a : eq_ignore_ascii_case a a = true.
Proof. by apply bool_decide_eq_true_2. Qed.

Lemma nonempty_rows_Ok {E R} (e : E) r (rs : list R) :
  nonempty_rows e r = Ok rs ↔ r = Ok rs ∧ rs ≠ [].
Proof. destruct r as [[|x l]|]; simpl; naive_solver. Qed.

Lemma assess_close_attributable `{Unicode} input defaults name :
  assess_close input defaults = Pass name ↔ attributable input defaults name.
Proof.
  unfold assess_close, attributable.
  destruct (trimmed_nonempty (actor input)) as [a|]; [|naive_solver].
  destruct (is_default_author a defaults) eqn:Hd; [naive_solver congruence|].
  destruct (trimmed_nonempty (implementer input)) as [impl|];
    [destruct (eq_ignore_ascii_case a impl) eqn:Hi|];
    destruct (prose_grader (close_reason input)) as [prose|];
    try destruct (is_default_author prose defaults) eqn:Hp;
    try destruct (eq_ignore_ascii_case prose a) eqn:Hpa; simpl;
    (split; [intros [= <-]|intros ([= <-] & H2 & H3 & H4)]); naive_solver congruence.
Qed.

(** ** Properties. *)

(** a close passes attribution exactly when its trimmed actor is present, is not
    a default author, is not the implementer up to ASCII case, and is not
    contradicted by a non-default grader named in the close reason. *)
Theorem assess_close_pass_iff `{Unicode} input defaults name :
  assess_close input defaults = Pass name ↔ attributable input defaults name.
Proof. apply assess_close_attributable. Qed.

(** The provenance ledger is read fail-closed: it yields rows exactly when there
    is at least one line that is not blank and every such line, in order, is a row
    with an id, a valid UTC timestamp and its trimmed author; no line is skipped. *)
Theorem parse_actor_provenance_iff `{SerdeJson} jsonl rs :
  parse_actor_provenance jsonl = Ok rs ↔
  rs ≠ [] ∧ Forall2 (λ nl r, ∃ o,
      from_str nl.2 = Some (JObject o) ∧ text_field "id" o = Some (ap_id r) ∧
      text_field "created_at" o = Some (created_at r) ∧
      is_utc_timestamp (created_at r) = true ∧
      created_by r = text_field "created_by" o)
    (numbered 1 (lines jsonl)) rs.
Proof.
  unfold parse_actor_provenance. rewrite nonempty_rows_Ok, parse_rows_Ok.
  rewrite (and_comm _ (rs ≠ [])).
  assert (∀ nl r, provenance_row nl.1 nl.2 = Ok r ↔ ∃ o,
      from_str nl.2 = Some (JObject o) ∧ text_field "id" o = Some (ap_id r) ∧
      text_field "created_at" o = Some (created_at r) ∧
      is_utc_timestamp (created_at r) = true ∧
      created_by r = text_field "created_by" o) as Hrow.
  { intros [n l] r. unfold provenance_row. cbn.
    destruct (from_str l) as [[]|]; cbn; try naive_solver.
    destruct (text_field "id" fields) as [i|] eqn:Hi; cbn; [|naive_solver congruence].
    destruct (text_field "created_at" fields) as [t|] eqn:Ht; cbn; [|naive_solver congruence].
    destruct (is_utc_timestamp t) eqn:Hu; cbn; [|naive_solver congruence].
    destruct r as [ri rt rb]. cbn. naive_solver congruence. }
  split; intros [H1 H2]; (split; [done|]); eapply Forall2_impl; eauto;
    intros x y Hxy; by apply Hrow.
Qed.
