(* ===== verification/Grading.v ===== *)
(** * IMPL to GRADING and the cross-lineage route
    (crates/dispatch-saga/src/grading.rs and m2.rs)

    Both modules decide and never send.  The identity check is the attribution
    gate's [assess_close]. *)

From stdpp Require Import base numbers list option strings.
From Stdlib Require Import NArith Lia.
From S2P Require Import Prelude RustStr Json GraderGate.

Open Scope string_scope.

(** [blocker_taxonomy::ReportError]. *)
Inductive ReportError := VacuousWhileBaselineNonzero.

(** ** grading.rs *)
Module Grading.

Definition HAND_MOVED_TWELVE : list string :=
  ["omp-orchestrator-s0-audit-detached-spawn-w21v";
   "omp-orchestrator-subprocess-contract-groupkill-reap-failures-chj5";
   "omp-orchestrator-tick-monitor-unbounded-reader-join-znwo";
   "omp-orchestrator-kill-group-missing-double-dash-o3eb";
   "omp-orchestrator-exit-const-collision-cas";
   "omp-orchestrator-plan-04-7wn9.5";
   "omp-orchestrator-typed-blocker-taxonomy-report-redispatch-zey6";
   "omp-orchestrator-wire-blocker-taxonomy-into-selector-jphd";
   "omp-orchestrator-s0-dag-pagerank-legibility-xbcl";
   "omp-orchestrator-s0-audit-spawn-census-falsifier-eoqd";
   "omp-orchestrator-s0-audit-budget-outcome-reach-yt9l";
   "omp-orchestrator-s0-audit-checkpoint-density-xv5r"].

Record GradingCandidate := MkCandidate {
  id : string; status : string; implementer : string; landed_commit : bool }.

Inductive GradingDecision :=
  | Transition (bead grader : string) (br_update : list string)
  | RefuseSelfGrade (bead implementer : string)
  | RefuseNoCommit (bead : string).

Definition is_transition (d : GradingDecision) : bool :=
  match d with Transition _ _ _ => true | _ => false end.

Definition is_hand_moved_twelve (i : string) : bool :=
  existsb (λ known, bool_decide (known = i)) HAND_MOVED_TWELVE.

Definition ready (c : GradingCandidate) : bool :=
  bool_decide (status c = "in_progress") && landed_commit c.

Definition detect (cs : list GradingCandidate) : result ReportError (list GradingCandidate) :=
  match cs with
  | [] => Err VacuousWhileBaselineNonzero
  | _ => Ok (List.filter ready cs)
  end.

Definition reject_self_grade `{Unicode} (bead impl proposed_grader : string) :
    result AttributionRefusal string :=
  let attempt := MkCloseAttempt bead (Some impl) (Some proposed_grader)
                   "IMPL_TO_GRADING" [] None in
  match assess_close attempt DEFAULT_AUTHORS with
  | Pass a => Ok a
  | Refused r => Err r
  end.

Definition br_update_argv (bead grader : string) : list string :=
  ["br"; "update"; bead; "--status"; "grading"; "--actor"; grader].

(** The loop of [decide] over the eligible graders; the last refusal is carried
    and dropped, as in the source. *)
Fixpoint decide_loop `{Unicode} (c : GradingCandidate) (gs : list string)
    (last_refusal : option AttributionRefusal) : GradingDecision :=
  match gs with
  | [] => RefuseSelfGrade (id c) (implementer c)
  | g :: gs' =>
      match reject_self_grade (id c) (implementer c) g with
      | Ok g' => Transition (id c) g' (br_update_argv (id c) g')
      | Err r => decide_loop c gs' (Some r)
      end
  end.

Definition decide `{Unicode} (c : GradingCandidate) (eligible : list string) :
    GradingDecision :=
  if negb (landed_commit c) then RefuseNoCommit (id c)
  else if negb (bool_decide (status c = "in_progress")) then RefuseNoCommit (id c)
  else decide_loop c eligible None.

Definition decide_all `{Unicode} (cs : list GradingCandidate) (eligible : list string) :
    result ReportError (list GradingDecision) :=
  detected ← detect cs;
  Ok (map (λ c, decide c eligible) detected).

(** Who may grade work of [impl]: a named, non-default identity that is not it. *)
Definition may_grade `{Unicode} (impl g : string) : bool :=
  negb (is_empty (trim g)) && negb (is_default_author (trim g) DEFAULT_AUTHORS)
  && match trimmed_nonempty (Some impl) with
     | Some i => negb (eq_ignore_ascii_case (trim g) i)
     | None => true
     end.

End Grading.

(** ** m2.rs *)
Module M2.

Inductive ModelLineage := Grok | Codex | Claude.

#[global] Instance ModelLineage_eq_dec : EqDecision ModelLineage.
Proof. solve_decision. Defined.

Definition lineage_as_str (l : ModelLineage) : string :=
  match l with Grok => "grok" | Codex => "codex" | Claude => "claude" end.

Definition parse_profile (s : string) : option ModelLineage :=
  let t := to_ascii_lowercase (trim s) in
  if bool_decide (t = "grok") then Some Grok
  else if bool_decide (t = "codex") then Some Codex
  else if bool_decide (t = "claude") then Some Claude
  else None.

(** The token loop of [lineage_from_argv]: the first profile token decides. *)
Fixpoint lineage_of_tokens (toks : list string) : option ModelLineage :=
  match toks with
  | [] => None
  | tok :: rest =>
      if bool_decide (tok = "--profile") then head rest ≫= parse_profile
      else match strip_prefix "--profile=" tok with
           | Some v => parse_profile v
           | None => lineage_of_tokens rest
           end
  end.

Definition lineage_from_argv (argv : string) : option ModelLineage :=
  lineage_of_tokens (split_whitespace argv).

Definition lineage_eligible (author grader : ModelLineage) : bool :=
  negb (bool_decide (author = grader)).

Record Pane := MkPane {
  pane : string; argv : string; idle : bool; safe_to_dispatch : bool }.

Record GradingBead := MkGradingBead {
  bead_id : string; bead_status : string;
  implementer_pane : string; implementer_profile : ModelLineage }.

Inductive RouteDecision :=
  | Route (bead grader_pane : string) (grader_profile : ModelLineage)
      (ntm_send : list string)
  | RouteRefuseSelfGrade (bead pane : string)
  | RefuseSameLineage (bead : string) (implementer_profile : ModelLineage)
      (other_pane : string) (other_profile : ModelLineage)
  | RefuseNotGrading (bead : string).

Definition reject_same_lineage (author grader : ModelLineage) :
    result (ModelLineage * ModelLineage) unit :=
  if lineage_eligible author grader then Ok tt else Err (author, grader).

Definition ntm_send_argv (p : string) : list string :=
  ["ntm"; "--robot-send=omp-orchestrator";
   "--panes=" +:+ trim_start_matches (λ ch, bool_decide (ch = "%")) p].

(** The loop of [route] with its two remembered refusals, and its end. *)
Fixpoint route_loop `{Unicode} (b : GradingBead) (panes : list Pane)
    (same_lineage : option (string * ModelLineage)) (self_grade : option string) :
    result ReportError RouteDecision :=
  match panes with
  | [] =>
      match same_lineage with
      | Some (op, opr) => Ok (RefuseSameLineage (bead_id b) (implementer_profile b) op opr)
      | None =>
          match self_grade with
          | Some p => Ok (RouteRefuseSelfGrade (bead_id b) p)
          | None => Err VacuousWhileBaselineNonzero
          end
      end
  | p :: ps =>
      if negb (idle p && safe_to_dispatch p) then route_loop b ps same_lineage self_grade
      else
      match lineage_from_argv (argv p) with
      | None => route_loop b ps same_lineage self_grade
      | Some profile =>
          if bool_decide (pane p = implementer_pane b) then
            route_loop b ps same_lineage (Some (pane p))
          else
          match reject_same_lineage (implementer_profile b) profile with
          | Err (_, other) => route_loop b ps (Some (pane p, other)) self_grade
          | Ok _ =>
              match Grading.reject_self_grade (bead_id b)
                      (lineage_as_str (implementer_profile b)) (lineage_as_str profile) with
              | Ok _ => Ok (Route (bead_id b) (pane p) profile (ntm_send_argv (pane p)))
              | Err _ => route_loop b ps same_lineage (Some (pane p))
              end
          end
      end
  end.

Definition route `{Unicode} (b : GradingBead) (panes : list Pane) :
    result ReportError RouteDecision :=
  match panes with
  | [] => Err VacuousWhileBaselineNonzero
  | _ =>
      if negb (bool_decide (bead_status b = "grading")) then
        Ok (RefuseNotGrading (bead_id b))
      else route_loop b panes None None
  end.

(** The lineage of a pane that could take work now. *)
Definition candidate (p : Pane) : option ModelLineage :=
  if idle p && safe_to_dispatch p then lineage_from_argv (argv p) else None.

(** An eligible pane: free, of known lineage, another pane and another lineage. *)
Definition eligible (b : GradingBead) (p : Pane) : option (string * ModelLineage) :=
  match candidate p with
  | Some l =>
      if negb (bool_decide (pane p = implementer_pane b))
         && negb (bool_decide (implementer_profile b = l)) then Some (pane p, l) else None
  | None => None
  end.

(** A free pane of the implementer's own lineage, and the implementer's own pane. *)
Definition same_lineage_pane (b : GradingBead) (p : Pane) : option (string * ModelLineage) :=
  match candidate p with
  | Some l =>
      if negb (bool_decide (pane p = implementer_pane b))
         && bool_decide (implementer_profile b = l) then Some (pane p, l) else None
  | None => None
  end.

Definition own_pane (b : GradingBead) (p : Pane) : option string :=
  match candidate p with
  | Some _ => if bool_decide (pane p = implementer_pane b) then Some (pane p) else None
  | None => None
  end.

End M2.

(** ** Lemmas. *)

(** The close reason of the transition names no grader. *)
Lemma transition_reason_names_nobody : prose_grader "IMPL_TO_GRADING" = None.
Proof. reflexivity. Qed.

Lemma reject_self_grade_eq `{Unicode} bead impl g :
  Grading.may_grade impl g = true → Grading.reject_self_grade bead impl g = Ok (trim g).
Proof.
  intros Hm. unfold Grading.reject_self_grade.
  assert (assess_close (MkCloseAttempt bead (Some impl) (Some g) "IMPL_TO_GRADING" [] None)
            DEFAULT_AUTHORS = Pass (trim g)) as ->; [|done].
  apply assess_close_attributable. unfold attributable. cbn [actor implementer close_reason].
  unfold Grading.may_grade in Hm. unbool.
  rewrite transition_reason_names_nobody. split_and!; [|done| |done].
  - unfold trimmed_nonempty. by rewrite H0.
  - intros i Hi. rewrite Hi in H1. by apply negb_true_iff.
Qed.

Lemma reject_self_grade_err `{Unicode} bead impl g :
  Grading.may_grade impl g = false →
  ∃ r, Grading.reject_self_grade bead impl g = Err r.
Proof.
  intros Hm. unfold Grading.reject_self_grade.
  destruct (assess_close _ _) as [a|r] eqn:Ha; [exfalso|by eexists].
  apply assess_close_attributable in Ha as (Hact & Hdef & Himpl & _).
  cbn [actor implementer] in *. unfold trimmed_nonempty in Hact.
  destruct (is_empty (trim g)) eqn:He; [done|]. injection Hact as <-.
  unfold Grading.may_grade in Hm. rewrite He, Hdef in Hm. cbn in Hm.
  unfold trimmed_nonempty in *.
  destruct (if is_empty (trim impl) then None else Some (trim impl)) as [i|]; [|done].
  by rewrite (Himpl i eq_refl) in Hm.
Qed.

Lemma decide_loop_eq `{Unicode} c gs r :
  Grading.decide_loop c gs r =
  match find_first (Grading.may_grade (Grading.implementer c)) gs with
  | Some g => Grading.Transition (Grading.id c) (trim g)
                (Grading.br_update_argv (Grading.id c) (trim g))
  | None => Grading.RefuseSelfGrade (Grading.id c) (Grading.implementer c)
  end.
Proof.
  revert r. induction gs as [|g gs IH]; intros r; [done|]. simpl.
  destruct (Grading.may_grade (Grading.implementer c) g) eqn:Hm.
  - by rewrite (reject_self_grade_eq _ _ _ Hm).
  - destruct (reject_self_grade_err (Grading.id c) _ _ Hm) as [r' ->]. apply IH.
Qed.

(** Two different lineages never look like one identity to the attribution gate. *)
Lemma lineages_pass_attribution `{Unicode} bead l1 l2 :
  l1 ≠ l2 →
  ∃ a, Grading.reject_self_grade bead (M2.lineage_as_str l1) (M2.lineage_as_str l2) = Ok a.
Proof. intros Hne. destruct l1, l2; try done; eexists; vm_compute; reflexivity. Qed.

(** The later of two memories. *)
Definition latest {A} (new : list A) (old : option A) : option A :=
  match last new with Some x => Some x | None => old end.

Lemma latest_cons {A} (x : A) l o : latest (x :: l) o = latest l (Some x).
Proof. unfold latest. rewrite last_cons. by destruct (last l). Qed.

Lemma route_loop_eq `{Unicode} b panes sl sg :
  M2.route_loop b panes sl sg =
  match find_map (M2.eligible b) panes with
  | Some (p, l) => Ok (M2.Route (M2.bead_id b) p l (M2.ntm_send_argv p))
  | None =>
      match latest (omap (M2.same_lineage_pane b) panes) sl,
            latest (omap (M2.own_pane b) panes) sg with
      | Some (op, ol), _ =>
          Ok (M2.RefuseSameLineage (M2.bead_id b) (M2.implementer_profile b) op ol)
      | None, Some p => Ok (M2.RouteRefuseSelfGrade (M2.bead_id b) p)
      | None, None => Err VacuousWhileBaselineNonzero
      end
  end.
Proof.
  revert sl sg. induction panes as [|p ps IH]; intros sl sg.
  { destruct sl as [[op ol]|]; [done|]. by destruct sg. }
  cbn [M2.route_loop find_map omap list_omap].
  unfold M2.eligible at 1, M2.same_lineage_pane at 1, M2.own_pane at 1, M2.candidate.
  destruct (M2.idle p && M2.safe_to_dispatch p); cbn [negb]; [|apply IH].
  destruct (M2.lineage_from_argv (M2.argv p)) as [l|]; [|apply IH].
  destruct (bool_decide (M2.pane p = M2.implementer_pane b)) eqn:Hown; cbn [negb andb].
  { rewrite latest_cons. apply IH. }
  unfold M2.reject_same_lineage, M2.lineage_eligible.
  destruct (bool_decide (M2.implementer_profile b = l)) eqn:Hl; cbn [negb andb].
  { rewrite latest_cons. apply IH. }
  unbool. by destruct (lineages_pass_attribution (M2.bead_id b) _ _ Hl) as [a ->].
Qed.

(** ** Properties. *)

(** The grading transition picks the first eligible identity that is named, is
    not a default author and is not the implementer; it proposes the update for
    that identity, refuses when there is none, and never considers a bead that is
    not in progress with a landed commit. *)
Theorem grading_decide_spec `{Unicode} c gs :
  Grading.decide c gs =
  if Grading.ready c then
    match find_first (Grading.may_grade (Grading.implementer c)) gs with
    | Some g => Grading.Transition (Grading.id c) (trim g)
                  (Grading.br_update_argv (Grading.id c) (trim g))
    | None => Grading.RefuseSelfGrade (Grading.id c) (Grading.implementer c)
    end
  else Grading.RefuseNoCommit (Grading.id c).
Proof.
  unfold Grading.decide, Grading.ready. rewrite decide_loop_eq.
  by destruct (Grading.landed_commit c), (bool_decide (Grading.status c = "in_progress")).
Qed.

(** no pane grades its own work: every transition a batch decides is for a bead
    of the batch that is in progress with a landed commit, and its grader, one of
    the eligible names trimmed, differs from the implementer up to ASCII case and is
    not a default author. *)
Theorem grading_never_self `{Unicode} cs gs ds bead g up :
  Grading.decide_all cs gs = Ok ds →
  Grading.Transition bead g up ∈ ds →
  ∃ c g0, c ∈ cs ∧ g0 ∈ gs ∧ g = trim g0 ∧ bead = Grading.id c ∧
    Grading.status c = "in_progress" ∧ Grading.landed_commit c = true ∧
    is_default_author g DEFAULT_AUTHORS = false ∧
    (trim (Grading.implementer c) ≠ "" →
     eq_ignore_ascii_case g (trim (Grading.implementer c)) = false).
Proof.
  unfold Grading.decide_all, Grading.detect. intros H1 H2.
  destruct cs as [|c0 cs0]; [done|]. revert H1. generalize (c0 :: cs0). intros cs Hds.
  cbn in Hds. injection Hds as <-.
  apply list_elem_of_In, in_map_iff in H2 as (c & Hdec & Hc).
  apply filter_In in Hc as [Hc Hready]. apply list_elem_of_In in Hc.
  unfold Grading.decide in Hdec. unfold Grading.ready in Hready. unbool.
  rewrite H1 in Hdec. cbn [negb] in Hdec.
  rewrite bool_decide_eq_true_2, decide_loop_eq in Hdec by done. cbn [negb] in Hdec.
  destruct (find_first _ gs) as [g0|] eqn:Hf; [|done]. injection Hdec as <- <- _.
  apply find_first_Some in Hf as (l1 & l2 & -> & Hm & _).
  exists c, g0. unfold Grading.may_grade, trimmed_nonempty in Hm. unbool.
  split_and!; try done; [apply elem_of_app; right; left|].
  intros Hne. destruct (trim (Grading.implementer c)); [done|]. cbn in *. by unbool.
Qed.

Example grading_never_self_witness :
  let H := ascii_only in
  let c := Grading.MkCandidate "b1" "in_progress" "AmberGate" true in
  let gs := ["josh"; "ambergate "; " WildStone"] in
  Grading.decide_all [c] gs =
    Ok [Grading.Transition "b1" "WildStone" (Grading.br_update_argv "b1" "WildStone")] ∧
  eq_ignore_ascii_case "WildStone" "AmberGate" = false.
Proof.
  split; [vm_compute; reflexivity|].
  destruct (@grading_never_self ascii_only
    [Grading.MkCandidate "b1" "in_progress" "AmberGate" true] ["josh"; "ambergate "; " WildStone"]
    [Grading.Transition "b1" "WildStone" (Grading.br_update_argv "b1" "WildStone")]
    "b1" "WildStone" (Grading.br_update_argv "b1" "WildStone"))
    as (c & g0 & Hc & _ & _ & _ & _ & _ & _ & Hne).
  - vm_compute. reflexivity.
  - apply list_elem_of_here.
  - reflexivity.
Defined.

(** the grading route against its reference: for a bead in grading the first
    pane that is idle, safe, of known lineage, not the implementer's pane and not
    the implementer's lineage is chosen; failing that, the last free pane of the
    implementer's lineage is reported, then the implementer's own pane, and a scan
    in which no free pane has a lineage is an error.  The attribution check on the
    chosen pane never refuses. *)
Theorem route_spec `{Unicode} b panes :
  M2.route b panes =
  if decide (panes = []) then Err VacuousWhileBaselineNonzero
  else if decide (M2.bead_status b = "grading") then
    match find_map (M2.eligible b) panes with
    | Some (p, l) => Ok (M2.Route (M2.bead_id b) p l (M2.ntm_send_argv p))
    | None =>
        match last (omap (M2.same_lineage_pane b) panes), last (omap (M2.own_pane b) panes) with
        | Some (op, ol), _ =>
            Ok (M2.RefuseSameLineage (M2.bead_id b) (M2.implementer_profile b) op ol)
        | None, Some p => Ok (M2.RouteRefuseSelfGrade (M2.bead_id b) p)
        | None, None => Err VacuousWhileBaselineNonzero
        end
    end
  else Ok (M2.RefuseNotGrading (M2.bead_id b)).
Proof.
  unfold M2.route. destruct panes as [|p ps]; [done|].
  destruct (decide (p :: ps = [])) as [|_]; [done|].
  destruct (decide (M2.bead_status b = "grading")) as [Hs|Hs].
  - rewrite bool_decide_eq_true_2 by done. cbn [negb]. rewrite route_loop_eq.
    unfold latest.
    destruct (find_map _ _) as [[? ?]|]; [done|].
    destruct (last (omap (M2.same_lineage_pane b) (p :: ps))) as [[? ?]|];
      destruct (last (omap (M2.own_pane b) (p :: ps))); done.
  - by rewrite bool_decide_eq_false_2.
Qed.
