(* ===== verification/ClaimFence.v ===== *)
(** * The claim fence (crates/dispatch-claim-fence/src/lib.rs)

    A bead packet is authorized only from a tracker snapshot that says the bead is
    in progress and held by the receiver; the receiver's name is resolved against
    two identity registries. *)

From stdpp Require Import base numbers list option strings gmap sorting.
From Stdlib Require Import NArith Lia.
From S2P Require Import Prelude RustStr Json.

Open Scope string_scope.

(** ** Tracker snapshots. *)

Inductive BeadStatus :=
  | Open | InProgress | Closed | Blocked | Deferred | Unknown (value : string).

#[global] Instance BeadStatus_eq_dec : EqDecision BeadStatus.
Proof. solve_decision. Defined.

Definition status_parse (value : string) : BeadStatus :=
  let t := trim value in
  if bool_decide (t = "open") then Open
  else if bool_decide (t = "in_progress") then InProgress
  else if bool_decide (t = "closed") then Closed
  else if bool_decide (t = "blocked") then Blocked
  else if bool_decide (t = "deferred") then Deferred
  else Unknown t.

Definition label (s : BeadStatus) : string :=
  match s with
  | Open => "open" | InProgress => "in_progress" | Closed => "closed"
  | Blocked => "blocked" | Deferred => "deferred" | Unknown v => v
  end.

Record BeadSnapshot := MkSnapshot {
  id : string; title : string; description : string; acceptance_criteria : string;
  status : BeadStatus; assignee : option string }.

Definition normalize_optional (value : option string) : option string :=
  trimmed_nonempty value.

Definition new_with_acceptance (i t d acc st : string) (who : option string) : BeadSnapshot :=
  MkSnapshot (trim i) t d acc (status_parse st) (normalize_optional who).

Definition snapshot_new (i t d st : string) (who : option string) : BeadSnapshot :=
  new_with_acceptance i t d "" st who.

Definition status_label (s : BeadSnapshot) : string := label (status s).

(** ** Identities. *)

Inductive IdentityNamespace := AgentMail | Subagent.

#[global] Instance IdentityNamespace_eq_dec : EqDecision IdentityNamespace.
Proof. solve_decision. Defined.

Definition namespace_display (n : IdentityNamespace) : string :=
  match n with AgentMail => "agent_mail" | Subagent => "subagents" end.

Record IdentityRecord := MkIdentity {
  namespace : IdentityNamespace; name : string; actor_id : string }.

Definition identity_new (ns : IdentityNamespace) (n a : string) : IdentityRecord :=
  MkIdentity ns (trim n) (trim a).
Definition agent_mail_record (n a : string) : IdentityRecord := identity_new AgentMail n a.
Definition subagent_record (n a : string) : IdentityRecord := identity_new Subagent n a.

Record ResolvedIdentity := MkResolved {
  ri_assignee : string; ri_actor_id : string; ri_namespaces : list IdentityNamespace }.

Record DuplicateAlias := MkAlias { da_actor_id : string; da_names : list string }.

Inductive AssigneeIdentityError :=
  | RegistryUnavailable (missing : list IdentityNamespace)
  | UnknownAssignee (assignee : string) (agent_mail subagents : list string)
  | AmbiguousAssignee (assignee : string) (matches : list ResolvedIdentity).

Definition identity_error_code (e : AssigneeIdentityError) : string :=
  match e with
  | RegistryUnavailable _ => "IDENTITY_REGISTRY_UNAVAILABLE"
  | UnknownAssignee _ _ _ => "ASSIGNEE_NOT_REGISTERED"
  | AmbiguousAssignee _ _ => "ASSIGNEE_AMBIGUOUS"
  end.

Definition identity_error_display (e : AssigneeIdentityError) : string :=
  match e with
  | RegistryUnavailable missing =>
      "ASSIGNEE_IDENTITY_ERROR reason=identity_registry_unavailable missing="
      +:+ join "," (map namespace_display missing) +:+ " checked=agent_mail,subagents"
  | UnknownAssignee a am sa =>
      "ASSIGNEE_IDENTITY_REFUSED assignee=" +:+ a
      +:+ " reason=unknown_assignee checked=agent_mail names=[" +:+ join "," am
      +:+ "] checked=subagents names=[" +:+ join "," sa +:+ "]"
  | AmbiguousAssignee a matches =>
      "ASSIGNEE_IDENTITY_ERROR assignee=" +:+ a +:+ " reason=ambiguous_assignee matches="
      +:+ join "," (map (λ i, ri_actor_id i +:+ ":"
            +:+ join "+" (map namespace_display (ri_namespaces i))) matches)
  end.

Record IdentityRegistries := MkRegistries {
  agent_mail : list IdentityRecord; subagents : list IdentityRecord }.

(** [namespaces.sort_unstable(); namespaces.dedup()] on the two namespaces. *)
Definition ns_le (a b : IdentityNamespace) : Prop := a = AgentMail ∨ b = Subagent.
#[global] Instance ns_le_dec a b : Decision (ns_le a b).
Proof. unfold ns_le. apply _. Defined.
Definition sort_namespaces (l : list IdentityNamespace) : list IdentityNamespace :=
  dedup (merge_sort ns_le l).

Definition missing_registries (r : IdentityRegistries) : list IdentityNamespace :=
  app (match agent_mail r with [] => [AgentMail] | _ => [] end)
      (match subagents r with [] => [Subagent] | _ => [] end).

(** The records of both registries with the trimmed name. *)
Definition matches (r : IdentityRegistries) (who : string) : list IdentityRecord :=
  List.filter (λ rec, bool_decide (name rec = who)) (app (agent_mail r) (subagents r)).

Definition resolve (r : IdentityRegistries) (who0 : string) :
    result AssigneeIdentityError ResolvedIdentity :=
  match missing_registries r with
  | [] =>
      let who := trim who0 in
      let ms := matches r who in
      match btree_set (map actor_id ms) with
      | [] => Err (UnknownAssignee who (sort_strings (map name (agent_mail r)))
                     (sort_strings (map name (subagents r))))
      | [a] => Ok (MkResolved who a (sort_namespaces (map namespace ms)))
      | _ => Err (AmbiguousAssignee who
                    (map (λ m, MkResolved (name m) (actor_id m) [namespace m]) ms))
      end
  | missing => Err (RegistryUnavailable missing)
  end.

(** One record entering [names_by_actor]. *)
Definition add_name (m : gmap string (gset string)) (rec : IdentityRecord) :
    gmap string (gset string) :=
  if negb (is_empty (actor_id rec)) && negb (is_empty (name rec)) then
    <[actor_id rec := {[name rec]} ∪ default ∅ (m !! actor_id rec)]> m
  else m.

Definition names_by_actor (r : IdentityRegistries) : gmap string (gset string) :=
  fold_left add_name (app (agent_mail r) (subagents r)) ∅.

(** [duplicate_aliases]: the map's keys in their order, with more than one name. *)
Definition duplicate_aliases (r : IdentityRegistries) : list DuplicateAlias :=
  let m := names_by_actor r in
  omap (λ a,
    let names := default ∅ (m !! a) in
    if Nat.ltb 1 (size names) then Some (MkAlias a (sort_strings (elements names)))
    else None)
    (sort_strings (elements (dom m))).

(** ** Intents, permits and refusals. *)

Inductive DispatchIntent :=
  | Bead (bead_id receiver_agent : string)
  | Broadcast (operation receiver_agent : string)
  | Correction (operation receiver_agent : string).

Definition bead_intent (b r : string) : DispatchIntent := Bead (trim b) (trim r).
Definition broadcast_intent (o r : string) : DispatchIntent := Broadcast (trim o) (trim r).
Definition correction_intent (o r : string) : DispatchIntent := Correction (trim o) (trim r).

Inductive DispatchPermit :=
  | PBead (bead_id receiver_agent : string)
  | PBroadcast (operation receiver_agent : string)
  | PCorrection (operation receiver_agent : string).

Inductive DispatchLedgerEvidence := Present | Absent | Unavailable (reason : string).

Definition evidence_display (e : DispatchLedgerEvidence) : string :=
  match e with
  | Present => "PRESENT" | Absent => "ABSENT"
  | Unavailable reason => "UNAVAILABLE reason=" +:+ reason
  end.

Inductive ClaimRemedy := CompleteClaim | ReleaseFully | EvidenceUnavailable.

Definition remedy_display (r : ClaimRemedy) : string :=
  match r with
  | CompleteClaim => "COMPLETE_CLAIM" | ReleaseFully => "RELEASE_FULLY"
  | EvidenceUnavailable => "EVIDENCE_UNAVAILABLE"
  end.

Record ClaimRequiredAdvice := MkAdvice {
  adv_bead_id : string; adv_assignee : string; evidence : DispatchLedgerEvidence;
  remedy : ClaimRemedy; adv_claim_command : string; adv_release_command : string }.

Definition advice_display (a : ClaimRequiredAdvice) : string :=
  "CLAIM_REQUIRED_ACTIONABLE bead=" +:+ adv_bead_id a +:+ " assignee=" +:+ adv_assignee a
  +:+ " dispatch_ledger=" +:+ evidence_display (evidence a)
  +:+ " remedy=" +:+ remedy_display (remedy a)
  +:+ " mutually_exclusive=true complete_claim=" +:+ adv_claim_command a
  +:+ " release_fully=" +:+ adv_release_command a +:+ " next_action="
  +:+ match remedy a with
      | CompleteClaim => "complete_claim" | ReleaseFully => "release_fully"
      | EvidenceUnavailable => "inspect_dispatch_ledger"
      end.

Inductive ClaimFenceError :=
  | MissingBeadId
  | MissingReceiverAgent
  | MissingOperation
  | MissingSnapshot (bead_id : string)
  | SnapshotIdMismatch (requested observed : string)
  | ClaimRequired (bead_id actual_status : string) (actual_assignee : option string)
      (expected_agent command : string)
  | AssignedElsewhere (bead_id actual_status actual_assignee expected_agent command : string)
  | UnknownStatus (bead_id actual_status : string)
  | AssigneeIdentity (e : AssigneeIdentityError).

Definition claim_command (b r : string) : string :=
  "br update " +:+ b +:+ " --assignee " +:+ r +:+ " --status in_progress".
Definition release_command (b : string) : string :=
  "br update " +:+ b +:+ " --assignee " +:+ dquote +:+ dquote +:+ " --status open".
Definition claim_required_unavailable_command (b r : string) : string :=
  "evidence=UNAVAILABLE mutually_exclusive=true complete_claim=" +:+ claim_command b r
  +:+ " release_fully=" +:+ release_command b +:+ " next_action=inspect_dispatch_ledger".

Definition command (e : ClaimFenceError) : option string :=
  match e with
  | ClaimRequired _ _ _ _ c => Some c
  | AssignedElsewhere _ _ _ _ c => Some c
  | _ => None
  end.

Definition claim_required_advice (e : ClaimFenceError) (ev : DispatchLedgerEvidence) :
    option ClaimRequiredAdvice :=
  match e with
  | ClaimRequired b _ who expected _ =>
      let r := match ev with
               | Present => CompleteClaim
               | Absent => ReleaseFully
               | Unavailable _ => EvidenceUnavailable
               end in
      Some (MkAdvice b (default "unassigned" who) ev r (claim_command b expected)
              (release_command b))
  | _ => None
  end.

Definition code (e : ClaimFenceError) : string :=
  match e with
  | MissingBeadId => "MISSING_BEAD_ID"
  | MissingReceiverAgent => "MISSING_RECEIVER_AGENT"
  | MissingOperation => "MISSING_OPERATION"
  | MissingSnapshot _ => "MISSING_SNAPSHOT"
  | SnapshotIdMismatch _ _ => "SNAPSHOT_ID_MISMATCH"
  | ClaimRequired _ _ _ _ _ => "CLAIM_REQUIRED"
  | AssignedElsewhere _ _ _ _ _ => "ASSIGNED_ELSEWHERE"
  | UnknownStatus _ _ => "UNKNOWN_STATUS"
  | AssigneeIdentity e => identity_error_code e
  end.

Definition error_display (e : ClaimFenceError) : string :=
  match e with
  | MissingBeadId =>
      "DISPATCH_ERROR bead id is missing; use a named broadcast or correction operation"
  | MissingReceiverAgent => "DISPATCH_BLOCKED receiver agent is missing"
  | MissingOperation => "DISPATCH_ERROR named operation is missing"
  | MissingSnapshot b => "DISPATCH_BLOCKED bead=" +:+ b +:+ " tracker snapshot is missing"
  | SnapshotIdMismatch r o =>
      "DISPATCH_BLOCKED requested bead=" +:+ r +:+ " but tracker returned bead=" +:+ o
  | ClaimRequired b st who expected c =>
      "DISPATCH_BLOCKED bead=" +:+ b +:+ " status=" +:+ st +:+ " assignee="
      +:+ default "unassigned" who +:+ " receiver=" +:+ expected
      +:+ "; choose one mutually exclusive remedy after inspecting dispatch ledger: " +:+ c
  | AssignedElsewhere b st who expected c =>
      "DISPATCH_BLOCKED bead=" +:+ b +:+ " status=" +:+ st +:+ " assignee=" +:+ who
      +:+ " receiver=" +:+ expected +:+ "; claim it first: " +:+ c
  | UnknownStatus b st =>
      "DISPATCH_BLOCKED bead=" +:+ b +:+ " tracker status=" +:+ st +:+ " is not recognized"
  | AssigneeIdentity e => identity_error_display e
  end.

(** ** Authorization. *)

Definition is_unknown (s : BeadStatus) : bool :=
  match s with Unknown _ => true | _ => false end.

Definition require_named_operation (op receiver : string) : result ClaimFenceError unit :=
  if is_empty (trim op) then Err MissingOperation
  else if is_empty (trim receiver) then Err MissingReceiverAgent
  else Ok tt.

Definition authorize (intent : DispatchIntent) (snapshot : option BeadSnapshot) :
    result ClaimFenceError DispatchPermit :=
  match intent with
  | Bead b r =>
      if is_empty (trim b) then Err MissingBeadId
      else if is_empty (trim r) then Err MissingReceiverAgent
      else
      s ← ok_or snapshot (MissingSnapshot b);
      if negb (bool_decide (id s = b)) then Err (SnapshotIdMismatch b (id s))
      else if is_unknown (status s) then Err (UnknownStatus b (status_label s))
      else if negb (bool_decide (status s = InProgress)) then
        Err (ClaimRequired b (status_label s) (assignee s) r
               (claim_required_unavailable_command b r))
      else
      match assignee s with
      | Some actual =>
          if bool_decide (actual = r) then Ok (PBead b r)
          else Err (AssignedElsewhere b (status_label s) actual r (claim_command b r))
      | None => Err (ClaimRequired b (status_label s) None r
                       (claim_required_unavailable_command b r))
      end
  | Broadcast op r =>
      _ ← require_named_operation op r;
      Ok (PBroadcast op r)
  | Correction op r =>
      _ ← require_named_operation op r;
      Ok (PCorrection op r)
  end.

Definition authorize_with_identities (intent : DispatchIntent)
    (snapshot : option BeadSnapshot) (ids : IdentityRegistries) :
    result ClaimFenceError DispatchPermit :=
  permit ← authorize intent snapshot;
  match intent with
  | Bead _ r => _ ← map_err AssigneeIdentity (resolve ids r); Ok permit
  | _ => Ok permit
  end.

(** ** Tracker output. *)

Record BrShowRow := MkBrShowRow {
  br_id : string; br_title : string; br_description : string;
  br_acceptance_criteria : option string; br_status : string;
  br_assignee : option string }.

Inductive BrShowPayload :=
  | Rows (rows : list BrShowRow)
  | Row (row : BrShowRow)
  | Envelope (issues : list BrShowRow).

Inductive SnapshotParseError :=
  | Malformed (detail : string)
  | Empty
  | MissingField (field : string).

Definition parse_error_display (e : SnapshotParseError) : string :=
  match e with
  | Malformed d => "malformed br show JSON: " +:+ d
  | Empty => "br show returned no bead row"
  | MissingField f => "br show row is missing " +:+ f
  end.

(** [serde_json::from_slice::<BrShowPayload>], the derived decoder. *)
Class BrShowDecode := br_show_from_slice : string → result string BrShowPayload.

Definition parse_br_show_json `{BrShowDecode} (bytes : string) :
    result SnapshotParseError BeadSnapshot :=
  payload ← map_err Malformed (br_show_from_slice bytes);
  row ← ok_or (match payload with
               | Rows rows => head rows
               | Row row => Some row
               | Envelope issues => head issues
               end) Empty;
  if is_empty (trim (br_id row)) then Err (MissingField "id")
  else if is_empty (trim (br_status row)) then Err (MissingField "status")
  else Ok (new_with_acceptance (br_id row) (br_title row) (br_description row)
             (default "" (br_acceptance_criteria row)) (br_status row) (br_assignee row)).

(** ** Lemmas. *)

Lemma ok_or_Ok {E A} (o : option A) (e : E) a : ok_or o e = Ok a ↔ o = Some a.
Proof. destruct o; simpl; naive_solver. Qed.

Lemma bind_Ok {E A B} (r : result E A) (f : A → result E B) b :
  (r ≫= f) = Ok b ↔ ∃ a, r = Ok a ∧ f a = Ok b.
Proof. destruct r; unfold mbind, result_bind; naive_solver. Qed.

(** The trimmed status text is what a snapshot shows back. *)
Lemma label_parse v : label (status_parse v) = trim v.
Proof. unfold status_parse. cbv zeta. repeat case_bool_decide; cbn; congruence. Qed.

Lemma authorize_bead_Ok b r snap permit :
  authorize (Bead b r) snap = Ok permit ↔
  permit = PBead b r ∧ trim b ≠ "" ∧ trim r ≠ "" ∧
  ∃ s, snap = Some s ∧ id s = b ∧ status s = InProgress ∧ assignee s = Some r.
Proof.
  unfold authorize.
  destruct (trim b) as [|cb tb] eqn:Hb; cbn [is_empty]; [naive_solver|].
  destruct (trim r) as [|cr tr] eqn:Hr; cbn [is_empty]; [naive_solver|].
  rewrite bind_Ok. setoid_rewrite ok_or_Ok. split.
  - intros (s & -> & H). repeat case_bool_decide; cbn in H; try done.
    all: destruct (is_unknown (status s)) eqn:Hu; cbn in H; try done.
    destruct (assignee s) as [a|] eqn:Ha; [|done].
    case_bool_decide; [|done]. subst. naive_solver.
  - intros (-> & _ & _ & s & -> & <- & Hs & Ha). exists s. split; [done|].
    rewrite bool_decide_eq_true_2 by done. cbn [negb]. rewrite Hs. cbn.
    rewrite Ha, !bool_decide_eq_true_2 by done. done.
Qed.

Lemma btree_set_nil l : btree_set l = [] ↔ l = [].
Proof.
  split.
  - intros H. destruct l as [|x l]; [done|].
    assert (x ∈ btree_set (x :: l)) as Hx by (apply elem_of_btree_set; left).
    rewrite H in Hx. by apply not_elem_of_nil in Hx.
  - by intros ->.
Qed.

Lemma btree_set_single l a : btree_set l = [a] ↔ l ≠ [] ∧ ∀ x, x ∈ l → x = a.
Proof.
  split.
  - intros H. split.
    + intros ->. done.
    + intros x Hx. apply elem_of_btree_set in Hx. rewrite H in Hx.
      by apply list_elem_of_singleton in Hx.
  - intros [Hne Hall]. pose proof (btree_set_NoDup l) as Hnd.
    assert (∀ x, x ∈ btree_set l → x = a) as Hall' by (intros x; rewrite elem_of_btree_set; auto).
    destruct (btree_set l) as [|x [|y t]] eqn:Hl.
    + by rewrite btree_set_nil in Hl.
    + f_equal. apply Hall'. left.
    + assert (x = a) as -> by (apply Hall'; left).
      assert (y = a) as -> by (apply Hall'; right; left).
      inversion Hnd as [|? ? Hx _]. destruct Hx. left.
Qed.

Lemma missing_registries_nil r : missing_registries r = [] ↔ agent_mail r ≠ [] ∧ subagents r ≠ [].
Proof. unfold missing_registries. destruct (agent_mail r), (subagents r); naive_solver. Qed.

Lemma elem_of_sort_namespaces n l : n ∈ sort_namespaces l ↔ n ∈ l.
Proof. unfold sort_namespaces. by rewrite elem_of_dedup, merge_sort_Permutation. Qed.

Lemma resolve_Ok r who ri :
  resolve r who = Ok ri ↔
  agent_mail r ≠ [] ∧ subagents r ≠ [] ∧ matches r (trim who) ≠ [] ∧
  (∀ m, m ∈ matches r (trim who) → actor_id m = ri_actor_id ri) ∧
  ri_assignee ri = trim who ∧
  ri_namespaces ri = sort_namespaces (map namespace (matches r (trim who))).
Proof.
  unfold resolve. destruct (missing_registries r) as [|m ms] eqn:Hmiss.
  2: { assert (¬ (agent_mail r ≠ [] ∧ subagents r ≠ [])) as Hno.
       { rewrite <- missing_registries_nil, Hmiss. done. } naive_solver. }
  apply missing_registries_nil in Hmiss as [Ha Hs].
  set (ms := matches r (trim who)).
  assert (∀ a, btree_set (map actor_id ms) = [a] ↔
            ms ≠ [] ∧ ∀ m, m ∈ ms → actor_id m = a) as Hone.
  { intros a. rewrite btree_set_single. split; intros [H1 H2]; (split; [by destruct ms|]).
    - intros m Hm. apply H2, list_elem_of_In, in_map, list_elem_of_In, Hm.
    - intros x Hx. apply list_elem_of_In, in_map_iff in Hx as (m & <- & Hm).
      apply H2, list_elem_of_In, Hm. }
  cbv zeta. fold ms. split.
  - intros H. destruct (btree_set (map actor_id ms)) as [|a [|? ?]] eqn:Hb; [done| |done].
    injection H as <-. simpl. destruct (proj1 (Hone a) eq_refl). naive_solver.
  - intros (_ & _ & Hne & Hall & Hwho & Hns). destruct ri as [w a ns]. simpl in *.
    rewrite (proj2 (Hone a) (conj Hne Hall)). by subst.
Qed.

(** The map of names by actor: exactly the named records with an actor. *)
Lemma names_by_actor_spec r a n :
  n ∈ default ∅ (names_by_actor r !! a) ↔
  ∃ rec, rec ∈ app (agent_mail r) (subagents r) ∧ actor_id rec = a ∧ name rec = n ∧
    a ≠ "" ∧ n ≠ "".
Proof.
  unfold names_by_actor.
  assert (∀ recs m, n ∈ default ∅ (fold_left add_name recs m !! a) ↔
    n ∈ default ∅ (m !! a) ∨
    ∃ rec, rec ∈ recs ∧ actor_id rec = a ∧ name rec = n ∧ a ≠ "" ∧ n ≠ "") as Hgen.
  { clear. induction recs as [|rec recs IH]; intros m; cbn [fold_left].
    - split; [by left|]. intros [H|(rec & Hin & _)]; [done|].
      by apply not_elem_of_nil in Hin.
    - rewrite IH. setoid_rewrite elem_of_cons.
      assert (n ∈ default ∅ (add_name m rec !! a) ↔
        n ∈ default ∅ (m !! a) ∨ (actor_id rec = a ∧ name rec = n ∧ a ≠ "" ∧ n ≠ "")) as ->.
      { unfold add_name. destruct (actor_id rec) as [|ca ta] eqn:Ha; [cbn; naive_solver|].
        destruct (name rec) as [|cn tn] eqn:Hn; [cbn; naive_solver|].
        cbn [is_empty negb andb]. destruct (decide (a = String ca ta)) as [->|Hne].
        - rewrite lookup_insert_eq. cbn. set_solver.
        - rewrite lookup_insert_ne by done. naive_solver. }
      naive_solver. }
  rewrite Hgen, lookup_empty. cbn. set_solver.
Qed.

(** ** Properties. *)

(** C11: a bead packet is authorized exactly for a bead and a receiver that are named,
    from a snapshot of that bead which is in progress and assigned to that receiver,
    character for character. *)
Theorem authorize_bead_iff b r snap permit :
  authorize (Bead b r) snap = Ok permit ↔
  permit = PBead b r ∧ trim b ≠ "" ∧ trim r ≠ "" ∧
  ∃ s, snap = Some s ∧ id s = b ∧ status s = InProgress ∧ assignee s = Some r.
Proof. apply authorize_bead_Ok. Qed.

(** the advised claim is enough.  When the fence asks for a claim, or finds the
    bead held elsewhere, the tracker state its claim command writes (in progress,
    assigned to the receiver, everything else unchanged) is authorized. *)
Theorem claim_advice_sufficient b r s e t d acc :
  authorize (bead_intent b r) (Some s) = Err e →
  command e ≠ None →
  authorize (bead_intent b r)
    (Some (new_with_acceptance (id s) t d acc "in_progress" (Some (trim r)))) =
    Ok (PBead (trim b) (trim r)).
Proof.
  intros He Hc. unfold bead_intent in *.
  assert (trim (trim b) ≠ "" ∧ trim (trim r) ≠ "" ∧ id s = trim b) as (Hb & Hr & Hid).
  { unfold authorize in He.
    destruct (trim (trim b)) eqn:Hb; cbn [is_empty] in He; [by simplify_eq|].
    destruct (trim (trim r)) eqn:Hr; cbn [is_empty] in He; [by simplify_eq|].
    cbn in He. case_bool_decide; cbn in He; [done|by simplify_eq]. }
  apply authorize_bead_Ok. split_and!; [done..|].
  eexists. split; [done|]. unfold new_with_acceptance. cbn. split_and!.
  - by rewrite Hid, trim_idem.
  - reflexivity.
  - unfold normalize_optional, trimmed_nonempty. destruct (trim (trim r)) eqn:Hrr; [done|].
    cbn. by rewrite <- Hrr, trim_idem.
Qed.

Example claim_advice_sufficient_witness :
  authorize (bead_intent "b-1" " WildStone")
    (Some (new_with_acceptance "b-1" "t" "d" "a" "in_progress" (Some "WildStone"))) =
    Ok (PBead "b-1" "WildStone").
Proof.
  apply (claim_advice_sufficient "b-1" " WildStone"
    (snapshot_new "b-1" "t" "d" "open" (Some "AmberGate"))
    (ClaimRequired "b-1" "open" (Some "AmberGate") "WildStone"
      (claim_required_unavailable_command "b-1" "WildStone"))); [reflexivity|discriminate].
Defined.

(** the receiver resolves exactly when both registries have entries and all the
    records of its trimmed name, in either registry, belong to one actor; the
    namespaces reported are those it was found in. *)
Theorem resolve_iff r who ri :
  resolve r who = Ok ri ↔
  agent_mail r ≠ [] ∧ subagents r ≠ [] ∧ matches r (trim who) ≠ [] ∧
  (∀ m, m ∈ matches r (trim who) → actor_id m = ri_actor_id ri) ∧
  ri_assignee ri = trim who ∧
  ri_namespaces ri = sort_namespaces (map namespace (matches r (trim who))).
Proof. apply resolve_Ok. Qed.

(** one registry suffices: a receiver known to Agent Mail alone is authorized as
    soon as the subagent registry is not empty, although no subagent has its name. *)
Theorem single_registry_authorizes b r s rec other :
  authorize (Bead b r) (Some s) = Ok (PBead b r) →
  name rec = trim r →
  authorize_with_identities (Bead b r) (Some s) (MkRegistries [rec] [other]) =
    Ok (PBead b r) ↔ name other ≠ trim r ∨ actor_id other = actor_id rec.
Proof.
  intros Hauth Hrec. unfold authorize_with_identities. rewrite Hauth.
  change (Ok (PBead b r) ≫= ?f) with (f (PBead b r)). cbn beta.
  assert (is_ok (resolve (MkRegistries [rec] [other]) r) = true ↔
          name other ≠ trim r ∨ actor_id other = actor_id rec) as <-.
  { unfold resolve. cbn [missing_registries agent_mail subagents app]. cbv zeta.
    unfold matches. cbn [agent_mail subagents app List.filter].
    rewrite (bool_decide_eq_true_2 (name rec = trim r)) by done.
    destruct (bool_decide (name other = trim r)) eqn:Ho; unbool; cbn [map].
    - destruct (decide (actor_id other = actor_id rec)) as [Heq|Hne].
      + rewrite (proj2 (btree_set_single [actor_id rec; actor_id other] (actor_id rec))).
        * cbn. naive_solver.
        * split; [done|]. set_solver.
      + destruct (btree_set [actor_id rec; actor_id other]) as [|a [|a' l]] eqn:Hb.
        * by rewrite btree_set_nil in Hb.
        * apply btree_set_single in Hb as [_ Hall]. exfalso. apply Hne.
          rewrite (Hall (actor_id rec)), (Hall (actor_id other)); set_solver.
        * cbn. naive_solver.
    - rewrite (proj2 (btree_set_single [actor_id rec] (actor_id rec))); [cbn; naive_solver|].
      split; [done|]. set_solver. }
  destruct (resolve _ r); cbn; naive_solver.
Qed.

Example single_registry_authorizes_witness :
  let s := snapshot_new "b-1" "t" "d" "in_progress" (Some "WildStone") in
  authorize_with_identities (Bead "b-1" "WildStone") (Some s)
    (MkRegistries [agent_mail_record "WildStone" "a1"] [subagent_record "Other" "a2"])
  = Ok (PBead "b-1" "WildStone").
Proof.
  cbv zeta. apply (single_registry_authorizes "b-1" "WildStone"
    (snapshot_new "b-1" "t" "d" "in_progress" (Some "WildStone"))); [reflexivity..|].
  left. discriminate.
Defined.

(** An alias group is reported exactly for each actor with two distinct names
    among the records that have both, whichever registry they come from, and it
    lists all of that actor's names. *)
Theorem duplicate_aliases_spec r a :
  (∃ names, MkAlias a names ∈ duplicate_aliases r ∧
     ∀ n, n ∈ names ↔ n ∈ default ∅ (names_by_actor r !! a)) ↔
  ∃ r1 r2, r1 ∈ app (agent_mail r) (subagents r) ∧ r2 ∈ app (agent_mail r) (subagents r) ∧
    actor_id r1 = a ∧ actor_id r2 = a ∧ a ≠ "" ∧ name r1 ≠ "" ∧ name r2 ≠ "" ∧
    name r1 ≠ name r2.
Proof.
  set (S := default ∅ (names_by_actor r !! a)).
  assert ((∃ r1 r2, r1 ∈ app (agent_mail r) (subagents r) ∧
    r2 ∈ app (agent_mail r) (subagents r) ∧
    actor_id r1 = a ∧ actor_id r2 = a ∧ a ≠ "" ∧ name r1 ≠ "" ∧ name r2 ≠ "" ∧
    name r1 ≠ name r2) ↔ ∃ n1 n2, n1 ∈ S ∧ n2 ∈ S ∧ n1 ≠ n2) as ->.
  { unfold S. setoid_rewrite names_by_actor_spec. split.
    - intros (r1 & r2 & Hr1 & Hr2 & Ha1 & Ha2 & Ha & Hn1 & Hn2 & Hne).
      exists (name r1), (name r2). split_and!; [by exists r1|by exists r2|done].
    - intros (n1 & n2 & (r1 & Hr1 & Ha1 & <- & Ha & Hn1) & (r2 & Hr2 & Ha2 & <- & _ & Hn2) & Hne).
      by exists r1, r2. }
  assert ((∃ n1 n2, n1 ∈ S ∧ n2 ∈ S ∧ n1 ≠ n2) ↔ 1 < size S) as ->.
  { split.
    - intros (n1 & n2 & H1 & H2 & Hne).
      assert ({[n1; n2]} ⊆ S) as Hsub by set_solver.
      apply subseteq_size in Hsub. rewrite size_union in Hsub by set_solver.
      rewrite !size_singleton in Hsub. lia.
    - intros Hsz. destruct (size_pos_elem_of S ltac:(lia)) as [n1 H1].
      destruct (size_pos_elem_of (S ∖ {[n1]})) as [n2 H2].
      { rewrite size_difference by set_solver. rewrite size_singleton. lia. }
      exists n1, n2. set_solver. }
  unfold duplicate_aliases. split.
  - intros (names & Hin & _). apply list_elem_of_omap in Hin as (a' & _ & Ha').
    destruct (Nat.ltb 1 _) eqn:Hlt; [|done]. injection Ha' as -> _.
    by apply Nat.ltb_lt in Hlt.
  - intros Hsz. exists (sort_strings (elements S)). split.
    + apply list_elem_of_omap. exists a. split.
      * rewrite elem_of_sort_strings, elem_of_elements, elem_of_dom.
        unfold S in Hsz. destruct (names_by_actor r !! a); [done|].
        cbn in Hsz. rewrite size_empty in Hsz. lia.
      * fold S. by rewrite (proj2 (Nat.ltb_lt _ _) Hsz).
    + intros n. by rewrite elem_of_sort_strings, elem_of_elements.
Qed.
