(* ===== verification/TickMonitor.v ===== *)
(** * Pane truth across ticks (crates/tick-monitor/src/lib.rs)

    One capture is classified from its last status line; two captures give a
    liveness verdict; only a confirmed idle proof that is still fresh makes a pane
    dispatchable. *)

From stdpp Require Import base numbers list option strings.
From Stdlib Require Import NArith Ascii Lia.
From S2P Require Import Prelude RustStr Json.

Open Scope N_scope.
Open Scope string_scope.

(** ** Classifying one capture. *)

Inductive PaneState :=
  | Working (timer_secs : N)
  | Idle
  | Wedged
  | Dialog (timer_secs : N)
  | ProviderError402
  | Unproven.

#[global] Instance PaneState_eq_dec : EqDecision PaneState.
Proof. solve_decision. Defined.

Definition state_label (s : PaneState) : string :=
  match s with
  | Working _ => "WORKING" | Idle => "IDLE" | Wedged => "WEDGED" | Dialog _ => "DIALOG"
  | ProviderError402 => "PROVIDER_ERROR_402" | Unproven => "UNPROVEN"
  end.

Definition state_why (s : PaneState) : string :=
  match s with ProviderError402 => "provider_error_402" | _ => "" end.

(** U+2800..U+28FF: lead byte E2, then A0..A3. *)
Definition is_braille (ch : string) : bool :=
  match ch with
  | String a (String b (String _ EmptyString)) =>
      (N_of_ascii a =? 226)%N && ((160 <=? N_of_ascii b) && (N_of_ascii b <=? 163))%N
  | _ => false
  end.

Definition is_digit_char (ch : string) : bool :=
  match ch with String c EmptyString => is_ascii_digit c | _ => false end.

Definition wrap_mul64 (a b : N) : N := ((a * b) mod u64_modulus)%N.

Section Classify.
Context `{Unicode}.

(** [parse_timer] as an automaton over the characters: [digits] is the run of
    digits just read.  A run that no unit follows is dropped and the scan goes on;
    a run too long for [u64] ends it ([?]). *)
Fixpoint timer_scan (digits : string) (cs : list string) : option N :=
  match cs with
  | [] => None
  | c :: rest =>
      if is_digit_char c then timer_scan (digits +:+ c) rest
      else if is_empty digits then timer_scan "" rest
      else
        let after_ok :=
          match rest with [] => true | d :: _ => negb (is_alphanumeric d) end in
        if after_ok then
          match parse_u64 digits with
          | None => None
          | Some n =>
              if bool_decide (c = "s") then Some n
              else if bool_decide (c = "m") then Some (wrap_mul64 n 60)
              else if bool_decide (c = "h") then Some (wrap_mul64 n 3600)
              else timer_scan "" rest
          end
        else timer_scan "" rest
  end.

Definition parse_timer (line : string) : option N := timer_scan "" (chars line).

Definition is_decoration (ch : string) : bool :=
  existsb (λ d, bool_decide (ch = d)) ["-"; "="; "_"; "─"; "╰"; "│"; "╭"].

Definition is_status_candidate (l : string) : bool :=
  let t := trim l in
  negb (is_empty t) && negb (forallb is_decoration (chars t)).

Definition last_status_line (capture : string) : string :=
  default "" (find_first is_status_candidate (map trim_end (rev (lines capture)))).

Definition MODEL_MARKERS : list string := ["Opus 5"; "GLM 5.3"; "GPT-5.6"; "GPT-5.5"].
Definition DIALOG_FOOTER : list string := ["Enter select"; "Esc cancel"; "↑/↓ move"].

(** [rposition]: the index of the last element that satisfies [p]. *)
Definition rposition {A} (p : A → bool) (l : list A) : option nat :=
  let fix go (i : nat) (l : list A) (acc : option nat) : option nat :=
    match l with
    | [] => acc
    | x :: l' => go (S i) l' (if p x then Some i else acc)
    end in
  go O l None.

Definition dialog_open (capture : string) : bool :=
  let nb := List.filter (λ l, negb (is_empty (trim l))) (map trim_end (lines capture)) in
  match rposition (λ l, existsb (contains l) MODEL_MARKERS) nb with
  | None => false
  | Some status_ix =>
      let lo := (status_ix - 3)%nat in
      existsb (λ l, let t := trim l in
                 starts_with t "│" && existsb (contains t) DIALOG_FOOTER)
        (take (status_ix - lo) (drop lo nb))
  end.

Definition PROVIDER_ERROR_402_ERROR_PREFIX : string :=
  "Error: 402 This request requires more credits, or fewer max_tokens".
Definition PROVIDER_ERROR_402_CROSS_PREFIX : string :=
  "✘ 402 This request requires more credits, or fewer max_tokens".

Definition provider_error_402 (capture : string) : bool :=
  existsb (λ line, let l := trim_start line in
             starts_with l PROVIDER_ERROR_402_ERROR_PREFIX
             || starts_with l PROVIDER_ERROR_402_CROSS_PREFIX) (lines capture).

Definition classify (capture : string) : PaneState :=
  if provider_error_402 capture then ProviderError402
  else if contains capture "Press up to edit queued messages"
          || contains capture "Messages to be submitted after next tool call" then Wedged
  else if dialog_open capture then
    Dialog (default 0%N (parse_timer (last_status_line capture)))
  else
    let line := last_status_line capture in
    let spinner := existsb is_braille (chars line) in
    match spinner, parse_timer line with
    | true, Some secs => Working secs
    | _, _ => if contains line "π" then Idle else Unproven
    end.

(** The text [stable_hash] hashes: spinner frames, the prompt glyph and the timer
    tokens removed.  The hash function itself is a parameter. *)
Definition is_animation (ch : string) : bool := is_braille ch || bool_decide (ch = "π").

Definition stable_text (capture : string) : string :=
  let cleaned := concat_chars (List.filter (λ ch, negb (is_animation ch)) (chars capture)) in
  join " " (List.filter (λ tok, match parse_timer tok with None => true | Some _ => false end)
              (split_whitespace cleaned)).

Definition stable_hash (hasher : string → N) (capture : string) : N :=
  hasher (stable_text capture).

End Classify.

(** ** Liveness from two captures. *)

Inductive Liveness :=
  | Live
  | ConfirmedIdle
  | NewlyIdle
  | Frozen
  | LDialog (timer_secs : N)
  | LProviderError402
  | Obscured
  | LWedged
  | LUnproven (why : string).

#[global] Instance Liveness_eq_dec : EqDecision Liveness.
Proof. solve_decision. Defined.

Definition liveness_label (l : Liveness) : string :=
  match l with
  | Live => "LIVE" | ConfirmedIdle => "CONFIRMED_IDLE" | NewlyIdle => "NEWLY_IDLE"
  | Frozen => "FROZEN" | LWedged => "WEDGED" | LDialog _ => "DIALOG"
  | LProviderError402 => "PROVIDER_ERROR_402" | Obscured => "OBSCURED"
  | LUnproven _ => "UNPROVEN"
  end.

Definition liveness_why (l : Liveness) : string :=
  match l with
  | LProviderError402 => "provider_error_402" | LUnproven why => why | _ => ""
  end.

Definition is_dispatchable (l : Liveness) : bool :=
  match l with ConfirmedIdle => true | _ => false end.
Definition needs_answer (l : Liveness) : bool :=
  match l with LDialog _ => true | _ => false end.
Definition needs_attention (l : Liveness) : bool :=
  match l with LDialog _ | LProviderError402 | Obscured => true | _ => false end.

Definition MIN_GAP_SECS : N := 75.
Definition DISPATCHABLE_VALIDITY_SECS : N := MIN_GAP_SECS * 2.

Record Observation := MkObs {
  pane_id : string; state : PaneState; hash : N; at_ : N;
  epoch : string; sequence : N; changed_at : string }.

Definition liveness (prev : option Observation) (now : Observation) : Liveness :=
  match state now with
  | Wedged => LWedged
  | ProviderError402 => LProviderError402
  | Dialog t => LDialog t
  | _ =>
  match prev with
  | None => LUnproven "no_prior_capture"
  | Some p =>
  if negb (bool_decide (pane_id p = pane_id now)) then LUnproven "pane_id_mismatch"
  else
  match state now with
  | Unproven =>
      match state p with
      | Working _ | Idle | Dialog _ | ProviderError402 => Obscured
      | Wedged | Unproven => LUnproven "capture_unrecognised"
      end
  | _ =>
  let gap := sat_sub (at_ now) (at_ p) in
  let moved :=
    match state p, state now with
    | Working before, Working after =>
        (before <? after)%N || negb (hash p =? hash now)%N
    | _, _ => false
    end in
  if moved then Live
  else if (gap <? MIN_GAP_SECS)%N then LUnproven "gap_too_short"
  else
  match state p, state now with
  | Working a, Working b =>
      if (a <? b)%N || negb (hash p =? hash now)%N then Live else Frozen
  | Idle, Idle => ConfirmedIdle
  | Working _, Idle => NewlyIdle
  | Idle, Working _ => Live
  | ProviderError402, _ => LUnproven "prior_provider_error_402"
  | Wedged, _ | Unproven, _ => LUnproven "prior_capture_unusable"
  | Dialog _, _ => LUnproven "prior_awaiting_answer"
  | _, _ => LUnproven "capture_unrecognised"
  end end end end.

(** ** The dispatch proof and the capacity views. *)

Record DispatchableEvidence := MkEvidence { proven_at : N; valid_until : N }.

#[global] Instance DispatchableEvidence_eq_dec : EqDecision DispatchableEvidence.
Proof. solve_decision. Defined.

Definition is_fresh_at (e : DispatchableEvidence) (now : N) : bool :=
  ((proven_at e <=? now) && (now <? valid_until e))%N.

Definition is_idle (s : PaneState) : bool := match s with Idle => true | _ => false end.

Definition derive_dispatchable_evidence (previous : option Observation)
    (current_state : PaneState) (current_liveness : Liveness)
    (retained : option DispatchableEvidence) (now : N) : option DispatchableEvidence :=
  if is_dispatchable current_liveness then
    Some (MkEvidence (default now (at_ <$> previous)) (sat_add64 now DISPATCHABLE_VALIDITY_SECS))
  else if is_idle current_state
          && match previous with Some p => is_idle (state p) | None => false end then
    match retained with
    | Some e => if is_fresh_at e now then Some e else None
    | None => None
    end
  else None.

Record CapacityObservation := MkCapacity {
  co_pane_id : string; co_state : PaneState; co_liveness : Liveness;
  co_evidence : option DispatchableEvidence }.

Definition is_dispatchable_at (o : CapacityObservation) (now : N) : bool :=
  is_idle (co_state o) &&
  match co_evidence o with Some e => is_fresh_at e now | None => false end.

Definition is_free_capacity (o : CapacityObservation) : bool := is_idle (co_state o).

Definition not_yet_provable_reason (o : CapacityObservation) (now : N) : option string :=
  if is_dispatchable_at o now || negb (is_free_capacity o) then None
  else Some (match co_liveness o with
             | NewlyIdle => "newly_idle"
             | LUnproven why => why
             | _ => "idle_not_confirmed"
             end).

Inductive CapacityState := Dispatchable | NotYetProvable | NoCapacity.

Definition capacity_label (s : CapacityState) : string :=
  match s with
  | Dispatchable => "DISPATCHABLE" | NotYetProvable => "NOT_YET_PROVABLE"
  | NoCapacity => "NO_CAPACITY"
  end.

Record CapacityReport := MkReport {
  dispatchable : list string;
  dispatchable_evidence : list (string * DispatchableEvidence);
  free_capacity : list string;
  not_yet_provable : list (string * string);
  capacity_state : CapacityState
}.

Inductive MonitorBlind := MkMonitorBlind.

(** One row of [partition_capacity]'s loop. *)
Definition capacity_row (excluded : list string) (now : N) (r : CapacityReport)
    (o : CapacityObservation) : CapacityReport :=
  if existsb (λ x, bool_decide (x = co_pane_id o)) excluded then r
  else
  let r1 :=
    if is_dispatchable_at o now then
      MkReport (app (dispatchable r) [co_pane_id o])
        (match co_evidence o with
         | Some e => app (dispatchable_evidence r) [(co_pane_id o, e)]
         | None => dispatchable_evidence r
         end) (free_capacity r) (not_yet_provable r) (capacity_state r)
    else
      match not_yet_provable_reason o now with
      | Some reason =>
          MkReport (dispatchable r) (dispatchable_evidence r) (free_capacity r)
            (app (not_yet_provable r) [(co_pane_id o, reason)]) (capacity_state r)
      | None => r
      end in
  if is_free_capacity o then
    MkReport (dispatchable r1) (dispatchable_evidence r1)
      (app (free_capacity r1) [co_pane_id o]) (not_yet_provable r1) (capacity_state r1)
  else r1.

Definition partition_capacity (rows : list CapacityObservation) (excluded : list string)
    (now : N) : result MonitorBlind CapacityReport :=
  match rows with
  | [] => Err MkMonitorBlind
  | _ =>
      let r := fold_left (capacity_row excluded now) rows (MkReport [] [] [] [] NoCapacity) in
      Ok (MkReport (dispatchable r) (dispatchable_evidence r) (free_capacity r)
            (not_yet_provable r)
            (match dispatchable r with
             | [] => match not_yet_provable r with [] => NoCapacity | _ => NotYetProvable end
             | _ => Dispatchable
             end))
  end.

(** ** Producer identity. *)

Inductive ObservationIdentityError :=
  | EmptyObservationSet
  | MissingEpoch (pane : string)
  | PaneMismatch (expected observed : string)
  | SequenceRegression (e : string) (previous current : N).

Inductive SequenceRelation := First | Same | Advance | Restart.

Definition validate_identity (o : Observation) : result ObservationIdentityError unit :=
  if is_empty (epoch o) then Err (MissingEpoch (pane_id o)) else Ok tt.

Definition same_observation (a b : Observation) : bool :=
  bool_decide (pane_id a = pane_id b) && bool_decide (epoch a = epoch b)
  && (sequence a =? sequence b)%N.

Definition sequence_relation (previous curr : Observation) :
    result ObservationIdentityError SequenceRelation :=
  _ ← validate_identity previous;
  _ ← validate_identity curr;
  if negb (bool_decide (pane_id previous = pane_id curr)) then
    Err (PaneMismatch (pane_id previous) (pane_id curr))
  else if negb (bool_decide (epoch previous = epoch curr)) then Ok Restart
  else match (sequence curr ?= sequence previous)%N with
       | Lt => Err (SequenceRegression (epoch curr) (sequence previous) (sequence curr))
       | Eq => Ok Same
       | Gt => Ok Advance
       end.

(** The loop of [deduplicate_observations] with the set built so far. *)
Fixpoint dedup_loop (unique obs : list Observation) :
    result ObservationIdentityError (list Observation) :=
  match obs with
  | [] => Ok unique
  | o :: obs' =>
      _ ← validate_identity o;
      if existsb (λ prior, same_observation prior o) unique then dedup_loop unique obs'
      else dedup_loop (app unique [o]) obs'
  end.

Definition deduplicate_observations (obs : list Observation) :
    result ObservationIdentityError (list Observation) :=
  match obs with [] => Err EmptyObservationSet | _ => dedup_loop [] obs end.

(** ** One pane through the observe loop (crates/tick-monitor/src/main.rs).

    The memory is what the state file carries for the pane: its last observation
    and its retained proof.  A capture that failed leaves neither. *)
Section PaneTick.
Context `{Unicode} (hasher : string → N) (id ep : string) (excluded : bool).

Record PaneMemory := MkMemory {
  m_prev : option Observation; m_retained : option DispatchableEvidence }.

Record PaneTick := MkTick { t_capture : option string; t_now : N; t_seq : N }.

Definition pane_tick (m : PaneMemory) (t : PaneTick) :
    PaneMemory * option CapacityObservation :=
  match t_capture t with
  | None => (MkMemory None None, None)
  | Some cap =>
      let st := classify cap in
      let o := MkObs id st (stable_hash hasher cap) (t_now t) ep (t_seq t)
                 (show_N (t_now t)) in
      let live := liveness (m_prev m) o in
      let ev := derive_dispatchable_evidence (m_prev m) st live (m_retained m) (t_now t) in
      (MkMemory (Some o) (if excluded then None else ev), Some (MkCapacity id st live ev))
  end.

Definition pane_run (ts : list PaneTick) : PaneMemory :=
  fold_left (λ m t, (pane_tick m t).1) ts (MkMemory None None).

Definition idle_tick (t : PaneTick) : Prop :=
  ∃ cap, t_capture t = Some cap ∧ classify cap = Idle.

(** Two consecutive idle captures at least the minimum gap apart, and nothing but
    idle captures since. *)
Definition idle_proof (ts : list PaneTick) (e : DispatchableEvidence) : Prop :=
  ∃ l1 t1 t2 l2, ts = app l1 (t1 :: t2 :: l2) ∧
    idle_tick t1 ∧ idle_tick t2 ∧ Forall idle_tick l2 ∧
    (t_now t1 + MIN_GAP_SECS <= t_now t2)%N ∧
    e = MkEvidence (t_now t1) (sat_add64 (t_now t2) DISPATCHABLE_VALIDITY_SECS).

End PaneTick.

(** ** Lemmas. *)

(** Walk down the guards of [liveness] in a hypothesis, keeping the branches that
    can give its verdict. *)
Ltac live_cases H :=
  repeat (match type of H with
  | context [match state ?o with _ => _ end] => destruct (state o) eqn:?
  | context [match ?o with Some _ => _ | None => _ end] =>
      is_var o; destruct o as [p|]
  | context [if ?x then _ else _] => destruct x eqn:?
  end; try discriminate H).

Lemma is_idle_true s : is_idle s = true ↔ s = Idle.
Proof. by destruct s. Qed.

Lemma liveness_ConfirmedIdle prev now :
  liveness prev now = ConfirmedIdle ↔
  ∃ p, prev = Some p ∧ pane_id p = pane_id now ∧ state p = Idle ∧ state now = Idle ∧
    (MIN_GAP_SECS <= at_ now - at_ p)%N.
Proof.
  unfold liveness, sat_sub. split.
  - destruct (state now) as [t| | |t| |] eqn:Hn; try done; destruct prev as [p|]; try done;
      destruct (bool_decide (pane_id p = pane_id now)) eqn:Hid; try done; cbn [negb];
      destruct (state p) as [b| | |b| |] eqn:Hp; try done; cbn zeta beta iota;
      repeat match goal with |- context [if ?b then _ else _] => destruct b eqn:? end; try done.
    intros _. unbool. eauto 10.
  - intros (p & -> & Hid & -> & -> & Hgap). rewrite bool_decide_eq_true_2 by done. cbn.
    rewrite (proj2 (N.ltb_ge _ _)); done.
Qed.

Lemma chars_app_head a b :
  match head (chars b) with Some h => starts_char h | None => true end = true →
  chars (a +:+ b) = app (chars a) (chars b).
Proof.
  intros Hb. rewrite <- (concat_chars_chars a) at 1.
  destruct (chars_well a) as [Hw Hs]. revert Hw Hs. generalize (chars a).
  induction l as [|ch l IH]; intros Hw Hs; [done|].
  inversion Hw as [|? ? Hch Hl]; subst.
  change (concat_chars (ch :: l) +:+ b) with ((ch +:+ concat_chars l) +:+ b).
  rewrite <- str_app_assoc. cbn in Hs.
  assert (chars (concat_chars l +:+ b) = app l (chars b)) as Heq.
  { apply IH; [done|]. destruct l; [done|]. by inversion Hs. }
  rewrite chars_cons_char; [by rewrite Heq|done|].
  rewrite Heq. destruct l as [|h l]; [done|]. cbn. by inversion Hs.
Qed.

Section PaneTickLemmas.
Context `{Unicode} (hasher : string → N) (id ep : string) (excluded : bool).

Lemma pane_run_snoc ts t :
  pane_run hasher id ep excluded (app ts [t]) =
  (pane_tick hasher id ep excluded (pane_run hasher id ep excluded ts) t).1.
Proof. unfold pane_run. by rewrite fold_left_app. Qed.

Lemma idle_proof_snoc ts t e :
  idle_tick t → idle_proof ts e → idle_proof (app ts [t]) e.
Proof.
  intros Ht (l1 & t1 & t2 & l2 & -> & H1 & H2 & Hl2 & Hgap & He).
  exists l1, t1, t2, (app l2 [t]). rewrite <- List.app_assoc. cbn. split_and!; try done.
  apply Forall_app. split; [done|]. by repeat constructor.
Qed.

(** What the memory of a run says about the captures it came from. *)
Definition memory_ok (ts : list PaneTick) (m : PaneMemory) : Prop :=
  (∀ p, m_prev m = Some p → pane_id p = id ∧
     ∃ ts' t cap, ts = app ts' [t] ∧ t_capture t = Some cap ∧ state p = classify cap ∧
       at_ p = t_now t) ∧
  (∀ e, m_retained m = Some e → idle_proof ts e).

(** Any proof derived on one more tick is an idle proof of the longer history. *)
Lemma derived_proof ts m t cap o e :
  memory_ok ts m → t_capture t = Some cap → state o = classify cap → at_ o = t_now t →
  derive_dispatchable_evidence (m_prev m) (classify cap) (liveness (m_prev m) o)
    (m_retained m) (t_now t) = Some e →
  idle_proof (app ts [t]) e.
Proof.
  intros [IHp IHe] Hcap Hso Hao He. unfold derive_dispatchable_evidence in He.
  destruct (is_dispatchable _) eqn:Hd.
  - destruct (liveness (m_prev m) o) eqn:Hlive; try done.
    apply liveness_ConfirmedIdle in Hlive as (p & Hp & _ & Hpi & Hni & Hgap).
    destruct (IHp p Hp) as (_ & ts' & t' & cap' & -> & Hcap' & Hst & Hat).
    rewrite Hp in He. cbn in He. injection He as <-.
    exists ts', t', t, []. rewrite <- List.app_assoc. cbn. rewrite <- Hat.
    split_and!; try done.
    + exists cap'. by rewrite <- Hst.
    + exists cap. by rewrite <- Hso.
    + unfold MIN_GAP_SECS in *. lia.
  - destruct (is_idle (classify cap)) eqn:Hi; cbn in He; [|done].
    destruct (match m_prev m with Some p => is_idle (state p) | None => false end); [|done].
    destruct (m_retained m) as [e'|] eqn:Hret; [|done].
    destruct (is_fresh_at e' (t_now t)); [|done]. injection He as <-.
    apply idle_proof_snoc; [|by apply IHe]. exists cap. split; [done|by apply is_idle_true].
Qed.

Lemma pane_run_memory ts : memory_ok ts (pane_run hasher id ep excluded ts).
Proof.
  induction ts as [|t ts IH] using rev_ind; [done|].
  rewrite pane_run_snoc. revert IH. generalize (pane_run hasher id ep excluded ts) as m.
  intros m IH. unfold pane_tick. destruct (t_capture t) as [cap|] eqn:Hcap; [|done].
  split; cbn.
  { intros p [= <-]. cbn. split; [done|]. by exists ts, t, cap. }
  intros e He. destruct excluded; [done|].
  by eapply derived_proof; [exact IH|exact Hcap|..|exact He].
Qed.

End PaneTickLemmas.

(** The capacity loop, collected. *)
Lemma capacity_loop excluded now rows r :
  let keep := List.filter (λ o, negb (existsb (λ x, bool_decide (x = co_pane_id o)) excluded))
                rows in
  fold_left (capacity_row excluded now) rows r =
  MkReport
    (app (dispatchable r) (map co_pane_id (List.filter (λ o, is_dispatchable_at o now) keep)))
    (app (dispatchable_evidence r)
       (omap (λ o, if is_dispatchable_at o now then pair (co_pane_id o) <$> co_evidence o
                   else None) keep))
    (app (free_capacity r) (map co_pane_id (List.filter is_free_capacity keep)))
    (app (not_yet_provable r)
       (omap (λ o, pair (co_pane_id o) <$> not_yet_provable_reason o now) keep))
    (capacity_state r).
Proof.
  revert r. induction rows as [|o rows IH]; intros r; cbn zeta.
  { cbn. rewrite !List.app_nil_r. by destruct r. }
  cbn [fold_left List.filter]. rewrite IH. unfold capacity_row.
  destruct (existsb _ excluded); cbn [negb]; [done|]. cbn [List.filter omap list_omap].
  unfold not_yet_provable_reason.
  destruct (is_dispatchable_at o now) eqn:Hd, (is_free_capacity o) eqn:Hf; cbn.
  - unfold is_dispatchable_at in Hd. destruct (co_evidence o) as [e|];
      [|by rewrite andb_false_r in Hd]. cbn. by rewrite <- !List.app_assoc.
  - unfold is_dispatchable_at, is_free_capacity in *. by rewrite Hf in Hd.
  - by rewrite <- !List.app_assoc.
  - done.
Qed.

(** A run of digits is collected whole. *)
Lemma timer_scan_digits `{Unicode} s digits rest :
  all_bytes is_ascii_digit s = true →
  timer_scan digits (app (bytes_of s) rest) = timer_scan (digits +:+ s) rest.
Proof.
  revert digits. induction s as [|c s IH]; intros digits.
  - intros _. by rewrite str_app_nil_r.
  - cbn [all_bytes bytes_of app]. intros [Hc Hs]%andb_true_iff.
    cbn [timer_scan].
    cbn [is_digit_char]. rewrite Hc, IH by done. by rewrite <- str_app_assoc.
Qed.

Lemma digits_ascii s :
  all_bytes is_ascii_digit s = true → all_bytes (λ c, (N_of_ascii c <? 128)%N) s = true.
Proof.
  apply all_bytes_impl. intros c Hc. unfold is_ascii_digit in Hc. unbool.
  apply N.ltb_lt. lia.
Qed.

Lemma bytes_of_app a b : bytes_of (a +:+ b) = app (bytes_of a) (bytes_of b).
Proof. induction a as [|c a IH]; [done|]. rewrite str_app_cons. cbn. by rewrite IH. Qed.

(** ** Properties. *)

(** Two captures confirm an idle pane exactly when the earlier one is of the same
    pane, both read idle, and they are at least the minimum gap apart. *)
Theorem liveness_confirmed_iff prev now :
  liveness prev now = ConfirmedIdle ↔
  ∃ p, prev = Some p ∧ pane_id p = pane_id now ∧ state p = Idle ∧ state now = Idle ∧
    (MIN_GAP_SECS <= at_ now - at_ p)%N.
Proof. apply liveness_ConfirmedIdle. Qed.

(** motion is never called frozen and is believed at any gap.  Frozen needs two
    working captures of one pane, at least the minimum gap apart, whose timer did
    not advance and whose stable hash is the same; two working captures in which
    either moved are live whatever the gap. *)
Theorem liveness_motion prev now :
  (liveness prev now = Frozen ↔
   ∃ p a b, prev = Some p ∧ pane_id p = pane_id now ∧ state p = Working a ∧
     state now = Working b ∧ (b <= a)%N ∧ hash p = hash now ∧
     (MIN_GAP_SECS <= at_ now - at_ p)%N) ∧
  (liveness prev now = Live ↔
   ∃ p b, prev = Some p ∧ pane_id p = pane_id now ∧ state now = Working b ∧
     ((∃ a, state p = Working a ∧ ((a < b)%N ∨ hash p ≠ hash now)) ∨
      (state p = Idle ∧ (MIN_GAP_SECS <= at_ now - at_ p)%N))).
Proof.
  split; split.
  - unfold liveness, sat_sub. intros Hl. live_cases Hl. unbool.
    eexists p, _, _. split_and!; eauto; lia.
  - intros (p & a & b & -> & Hid & Hp & Hn & Hba & Hh & Hgap).
    unfold liveness, sat_sub. rewrite Hn, Hp, (bool_decide_eq_true_2 _ Hid). cbn.
    rewrite (proj2 (N.ltb_ge a b)) by done. rewrite Hh, N.eqb_refl. cbn.
    by rewrite (proj2 (N.ltb_ge _ _)).
  - unfold liveness, sat_sub. intros Hl. live_cases Hl; unbool.
    + eexists p, _. split_and!; eauto. left. eexists. split; [done|].
      destruct Heqb0 as [?|?]; unbool; auto.
    + eexists p, _. split_and!; eauto.
  - intros (p & b & -> & Hid & Hn & [(a & Hp & Hmove)|[Hp Hgap]]);
      unfold liveness, sat_sub; rewrite Hn, Hp, (bool_decide_eq_true_2 _ Hid); cbn.
    + destruct Hmove as [Hlt|Hne].
      * by rewrite (proj2 (N.ltb_lt a b) Hlt).
      * rewrite (proj2 (N.eqb_neq _ _) Hne). by rewrite orb_true_r.
    + by rewrite (proj2 (N.ltb_ge _ _)).
Qed.

(** C30: dispatch authority is earned.  After any history of a pane's captures, failed
    ones included, if the latest row is dispatchable then some two consecutive
    captures, the minimum gap or more apart, were both idle, every capture since
    succeeded and was idle, and less than the validity window has passed since.  The state
    each tick leaves is assumed to be the one the next tick loads: it is saved every time. *)
Theorem dispatchable_is_proven `{Unicode} hasher id ep excluded ts t m o :
  pane_tick hasher id ep excluded (pane_run hasher id ep excluded ts) t = (m, Some o) →
  is_dispatchable_at o (t_now t) = true →
  ∃ l1 t1 t2 l2, app ts [t] = app l1 (t1 :: t2 :: l2) ∧
    idle_tick t1 ∧ idle_tick t2 ∧ Forall idle_tick l2 ∧
    (t_now t1 + MIN_GAP_SECS <= t_now t2)%N ∧
    (t_now t1 <= t_now t)%N ∧ (t_now t < t_now t2 + DISPATCHABLE_VALIDITY_SECS)%N.
Proof.
  pose proof (pane_run_memory hasher id ep excluded ts) as Hm. revert Hm.
  generalize (pane_run hasher id ep excluded ts). intros m0 Hm Ht Hd.
  unfold pane_tick in Ht. destruct (t_capture t) as [cap|] eqn:Hcap; [|done].
  injection Ht as _ <-. unfold is_dispatchable_at in Hd. cbn [co_state co_evidence] in Hd.
  apply andb_true_iff in Hd as [Hi Hd].
  destruct (derive_dispatchable_evidence _ _ _ _ _) as [e|] eqn:He; [|done].
  assert (idle_proof (app ts [t]) e) as (l1 & t1 & t2 & l2 & Hts & H1 & H2 & Hl2 & Hgap & ->).
  { by eapply derived_proof; [exact Hm|exact Hcap|..|exact He]. }
  exists l1, t1, t2, l2. unfold is_fresh_at in Hd. cbn in Hd. unbool.
  split_and!; try done. unfold sat_add64 in *. lia.
Qed.

Example dispatchable_is_proven_witness :
  let H := ascii_only in
  let tick := λ n, MkTick (Some "Opus 5 π") n 1 in
  is_dispatchable_at (MkCapacity "%7" Idle (LUnproven "gap_too_short")
    (Some (MkEvidence 100 330))) 240 = true ∧
  ∃ l1 t1 t2 l2, [tick 100; tick 180; tick 240] = app l1 (t1 :: t2 :: l2) ∧
    idle_tick t1 ∧ idle_tick t2 ∧ Forall idle_tick l2 ∧
    (t_now t1 + MIN_GAP_SECS <= t_now t2)%N ∧
    (t_now t1 <= 240)%N ∧ (240 < t_now t2 + DISPATCHABLE_VALIDITY_SECS)%N.
Proof.
  split; [reflexivity|].
  apply (@dispatchable_is_proven ascii_only (λ _, 0%N) "%7" "e" false
    [MkTick (Some "Opus 5 π") 100 1; MkTick (Some "Opus 5 π") 180 1]
    (MkTick (Some "Opus 5 π") 240 1)
    (MkMemory (Some (MkObs "%7" Idle 0 240 "e" 1 "240")) (Some (MkEvidence 100 330)))
    (MkCapacity "%7" Idle (LUnproven "gap_too_short") (Some (MkEvidence 100 330))));
    vm_compute; reflexivity.
Defined.

(** the capacity report against its reference: over the rows that are not
    excluded, in order, the dispatchable panes are those with a fresh proof, the
    free ones those that read idle, the rest of the free ones are reported as not
    yet provable with their reason, and the verdict names the first list that is
    not empty; no rows at all is an error. *)
Theorem partition_capacity_spec rows excluded now :
  let keep := List.filter (λ o, negb (existsb (λ x, bool_decide (x = co_pane_id o)) excluded))
                rows in
  partition_capacity rows excluded now =
  if decide (rows = []) then Err MkMonitorBlind else
  let d := List.filter (λ o, is_dispatchable_at o now) keep in
  let ny := List.filter (λ o, is_free_capacity o && negb (is_dispatchable_at o now)) keep in
  Ok (MkReport (map co_pane_id d)
        (omap (λ o, pair (co_pane_id o) <$> co_evidence o) d)
        (map co_pane_id (List.filter is_free_capacity keep))
        (omap (λ o, pair (co_pane_id o) <$> not_yet_provable_reason o now) ny)
        (if decide (d = []) then if decide (ny = []) then NoCapacity else NotYetProvable
         else Dispatchable)).
Proof.
  cbn zeta. unfold partition_capacity. destruct rows as [|o rows]; [done|].
  destruct (decide (o :: rows = [])) as [|_]; [done|].
  rewrite capacity_loop. cbn [app dispatchable dispatchable_evidence free_capacity
    not_yet_provable].
  generalize (List.filter (λ o, negb (existsb (λ x, bool_decide (x = co_pane_id o)) excluded))
                (o :: rows)). clear. intros keep.
  assert (omap (λ o, if is_dispatchable_at o now then pair (co_pane_id o) <$> co_evidence o
                     else None) keep =
          omap (λ o, pair (co_pane_id o) <$> co_evidence o)
            (List.filter (λ o, is_dispatchable_at o now) keep)) as ->.
  { induction keep as [|o keep IH]; [done|]. cbn.
    destruct (is_dispatchable_at o now); cbn; [by rewrite IH|done]. }
  assert (omap (λ o, pair (co_pane_id o) <$> not_yet_provable_reason o now) keep =
          omap (λ o, pair (co_pane_id o) <$> not_yet_provable_reason o now)
            (List.filter (λ o, is_free_capacity o && negb (is_dispatchable_at o now)) keep))
    as ->.
  { induction keep as [|o keep IH]; [done|]. cbn. rewrite IH.
    unfold not_yet_provable_reason.
    destruct (is_dispatchable_at o now) eqn:?, (is_free_capacity o) eqn:?; cbn; try done.
    unfold not_yet_provable_reason. by rewrite Heqb, Heqb0. }
  do 2 f_equal.
  set (d := List.filter (λ o, is_dispatchable_at o now) keep).
  set (ny := List.filter (λ o, is_free_capacity o && negb (is_dispatchable_at o now)) keep).
  destruct d; cbn; [|done].
  assert (Forall (λ o, is_free_capacity o && negb (is_dispatchable_at o now) = true) ny) as Hny.
  { apply List.Forall_forall. intros x Hx. unfold ny in Hx.
    apply filter_In in Hx as [_ Hx]. exact Hx. }
  clearbody ny. destruct ny as [|x ny]; cbn; [done|]. inversion Hny as [|? ? Hx _]; subst.
  unfold not_yet_provable_reason. unbool. by rewrite H, H0.
Qed.

(** the stable hash ignores animation: inserting a spinner frame or the prompt
    glyph anywhere in a capture, at a character boundary, does not change it, so an
    advancing spinner alone is never motion. *)
Theorem stable_hash_ignores_animation `{Unicode} hasher a ch c :
  chars ch = [ch] → is_animation ch = true →
  match head (chars c) with Some h => starts_char h | None => true end = true →
  stable_hash hasher (a +:+ ch +:+ c) = stable_hash hasher (a +:+ c).
Proof.
  intros Hch Hanim Hc. unfold stable_hash, stable_text. do 5 f_equal.
  assert (starts_char ch = true) as Hstart.
  { unfold is_animation, is_braille in Hanim. unbool.
    destruct Hanim as [Hb|Hpi]; [|unbool; by subst ch].
    destruct ch as [|x [|y [|z [|? ?]]]]; try done. unbool. cbn. unfold is_cont.
    apply negb_true_iff. rewrite H0. done. }
  assert (chars (ch +:+ c) = ch :: chars c) as Hcc by (rewrite chars_app_head, Hch; done).
  rewrite (chars_app_head a (ch +:+ c)) by (by rewrite Hcc).
  rewrite (chars_app_head a c), Hcc by done. rewrite !List.filter_app. cbn. rewrite Hanim. done.
Qed.

Example stable_hash_ignores_animation_witness :
  let H := ascii_only in
  stable_hash (λ s, N.of_nat (String.length s)) ("Opus 5 " +:+ "⠋" +:+ " 27s") =
  stable_hash (λ s, N.of_nat (String.length s)) ("Opus 5 " +:+ " 27s").
Proof.
  apply (@stable_hash_ignores_animation ascii_only); vm_compute; reflexivity.
Defined.

(** timers on the status line are read back in seconds, and minutes are
    multiplied without a check: at 64 bits the product wraps. *)
Theorem parse_timer_units `{Unicode} n :
  (n < u64_modulus)%N →
  parse_timer (show_N n +:+ "s") = Some n ∧
  parse_timer (show_N n +:+ "m") = Some ((n * 60) mod u64_modulus)%N ∧
  parse_timer (show_N n +:+ "h") = Some ((n * 3600) mod u64_modulus)%N.
Proof.
  intros Hn. destruct (show_N_digits n) as (Hd & _ & Hne).
  assert (∀ u, all_bytes (λ c, (N_of_ascii c <? 128)%N) u = true →
    parse_timer (show_N n +:+ u) = timer_scan (show_N n) (bytes_of u)) as Hscan.
  { intros u Hu. unfold parse_timer. rewrite chars_ascii, bytes_of_app, timer_scan_digits.
    - done.
    - done.
    - rewrite all_bytes_app, Hu, digits_ascii; done. }
  rewrite !Hscan by done. cbn.
  unfold parse_u64. rewrite parse_below_show by done.
  destruct (show_N n) as [|c s]; [done|]. done.
Qed.

Example parse_timer_units_witness :
  let H := ascii_only in
  parse_timer "12m" = Some 720%N ∧
  parse_timer "307445734561825861m" = Some 44%N.
Proof.
  split.
  - exact (proj1 (proj2 (@parse_timer_units ascii_only 12 eq_refl))).
  - exact (proj1 (proj2 (@parse_timer_units ascii_only 307445734561825861 eq_refl))).
Defined.
