(* ===== verification/TickState.v ===== *)
(** * The tick guard, the idle-capacity alarm and the state file
    (crates/tick-monitor/src/lib.rs)

    What a tick may say, how long it may stay blocked, and what survives from one
    invocation of the monitor to the next. *)

From stdpp Require Import base numbers list option strings.
From Stdlib Require Import NArith Ascii Lia.
From S2P Require Import Prelude RustStr Json TickMonitor.

Open Scope N_scope.
Open Scope string_scope.

(** ** The guard. *)
Module Guard.

Definition MODES : list string :=
  ["DISPATCH"; "RESEARCH"; "PLANNING"; "BEAD_POLISH"; "PRD_TO_BEADS"; "L1_REMEDIATION";
   "L2_REMEDIATION"; "L3_REMEDIATION"; "HOLD_ESCALATED"; "BLOCKED"].
Definition FORBIDDEN : list string :=
  ["standing by"; "queue empty"; "blocked on josh"; "wait_josh"; "no state change";
   "session done"].
Definition BLOCKER_CLASSES : list string :=
  ["upstream"; "dependency"; "external-service"; "credential"; "data"; "rate-limit";
   "infrastructure"; "joshua-decision"].
Definition REMEDIATION : list string :=
  ["L1_REMEDIATION"; "L2_REMEDIATION"; "L3_REMEDIATION"; "HOLD_ESCALATED"].

Inductive Reject :=
  | UnknownMode (m : string)
  | ForbiddenPhrase (p : string)
  | MissingBlocker
  | BadBlockerClass (c : string)
  | BlockerNameTooShort
  | JoshuaDecisionNeedsBead
  | NoEscalationArtifact
  | EscalationRequired (blocker : string) (streak : N).

Definition code (r : Reject) : N :=
  match r with
  | UnknownMode _ => 4
  | ForbiddenPhrase _ => 5
  | EscalationRequired _ _ => 7
  | _ => 6
  end.

Record Tick := MkGuardTick {
  mode : string; verdict : string; external_blocker : option string;
  escalation_action : option string; auto_filed_bead : option string; note : string }.

Definition mem (x : string) (l : list string) : bool := existsb (λ y, bool_decide (y = x)) l.

Definition with_text (s : string) (o : option string) : string :=
  match o with Some v => s +:+ " " +:+ v | None => s end.

Definition all_text `{Unicode} (t : Tick) : string :=
  to_lowercase (fold_left with_text
    [external_blocker t; escalation_action t; auto_filed_bead t]
    (mode t +:+ " " +:+ verdict t +:+ " " +:+ note t)).

Definition nonblank (o : option string) : bool :=
  match o with Some s => negb (is_empty (trim s)) | None => false end.

Definition has_escalation (t : Tick) : bool :=
  nonblank (escalation_action t) || nonblank (auto_filed_bead t) || mem (mode t) REMEDIATION.

(** The checks of a blocked tick; [None] is the way on. *)
Definition blocked_refusal (t : Tick) (blocker : string) : option Reject :=
  if is_empty (trim blocker) then Some MissingBlocker
  else
  match split_once ":" blocker with
  | None => Some MissingBlocker
  | Some (class, name) =>
      if negb (mem class BLOCKER_CLASSES) then Some (BadBlockerClass class)
      else if Nat.ltb (String.length (trim name)) 3 then Some BlockerNameTooShort
      else if bool_decide (class = "joshua-decision") && negb (contains name "-") then
        Some JoshuaDecisionNeedsBead
      else if negb (has_escalation t) then Some NoEscalationArtifact
      else None
  end.

Definition wrap_add32 (a b : N) : N := ((a + b) mod u32_modulus)%N.

Definition next_streak (blocker prior_blocker : string) (prior_streak : N) : N :=
  if negb (is_empty blocker) && bool_decide (blocker = prior_blocker)
  then wrap_add32 prior_streak 1
  else if is_empty blocker then 0 else 1.

Definition validate `{Unicode} (t : Tick) (prior_blocker : string) (prior_streak : N) :
    result Reject N :=
  if negb (mem (mode t) MODES) then Err (UnknownMode (mode t))
  else
  match find_first (contains (all_text t)) FORBIDDEN with
  | Some phrase => Err (ForbiddenPhrase phrase)
  | None =>
  let blocked := eq_ignore_ascii_case (verdict t) "BLOCKED"
                 || bool_decide (mode t = "BLOCKED") in
  let blocker := default "" (external_blocker t) in
  match (if blocked then blocked_refusal t blocker else None) with
  | Some r => Err r
  | None =>
  let streak := next_streak blocker prior_blocker prior_streak in
  if (3 <=? streak)%N && negb (has_escalation t)
  then Err (EscalationRequired blocker streak)
  else Ok streak
  end end.

End Guard.

(** ** The idle-capacity alarm. *)
Module Alarm.

Inductive CapacityAlarmEvent :=
  | None_ (consecutive_ticks : N)
  | Fire (consecutive_ticks : N).

Record CapacityAlarm := MkAlarm {
  threshold : N; consecutive_free_ticks : N; fired : bool }.

Definition new (t : N) : CapacityAlarm := MkAlarm (N.max t 1) 0 false.

Definition observe (a : CapacityAlarm) (free : bool) : CapacityAlarm * CapacityAlarmEvent :=
  if negb free then (MkAlarm (threshold a) 0 false, None_ 0)
  else
    let n := sat_add32 (consecutive_free_ticks a) 1 in
    if negb (fired a) && (threshold a <=? n)%N
    then (MkAlarm (threshold a) n true, Fire n)
    else (MkAlarm (threshold a) n (fired a), None_ n).

(** The events of a sequence of observations. *)
Fixpoint events (a : CapacityAlarm) (obs : list bool) : list CapacityAlarmEvent :=
  match obs with
  | [] => []
  | b :: obs' => let '(a', e) := observe a b in e :: events a' obs'
  end.

Definition is_fire (e : CapacityAlarmEvent) : bool :=
  match e with Fire _ => true | None_ _ => false end.

End Alarm.

(** ** The state file. *)
Module StateFile.

Record State := MkState {
  last_tick : N; last_blocker : string; blocker_streak : N; red_streak : N;
  panes : list Observation; previous_panes : list Observation;
  commits : list (string * string); owner_pid : N;
  observation_epoch : string; next_observation_sequence : N;
  evidence : list (string * DispatchableEvidence)
}.

(** [State::default()]. *)
Definition default_state : State := MkState 0 "" 0 0 [] [] [] 0 "" 0 [].

Definition dispatchable_evidence_for (st : State) (pane : string) :
    option DispatchableEvidence :=
  snd <$> find_first (λ pe, bool_decide (pe.1 = pane)) (evidence st).

Definition tab : ascii := "009".
Definition tab_str : string := String tab EmptyString.

Definition unwrap0 (o : option N) : N := default 0 o.

Definition parse_label (label timer : string) : PaneState :=
  if bool_decide (label = "WORKING") then Working (unwrap0 (parse_u64 timer))
  else if bool_decide (label = "IDLE") then Idle
  else if bool_decide (label = "WEDGED") then Wedged
  else if bool_decide (label = "DIALOG") then Dialog (unwrap0 (parse_u64 timer))
  else if bool_decide (label = "PROVIDER_ERROR_402") then ProviderError402
  else Unproven.

Definition parse_observation_record (fields : list string) : option Observation :=
  match fields with
  | [_; i; label; timer; h; t; ep; sq; ch] =>
      match parse_u64 sq with
      | None => None
      | Some n => Some (MkObs i (parse_label label timer) (unwrap0 (parse_u64 h))
                          (unwrap0 (parse_u64 t)) ep n ch)
      end
  | _ => None
  end.

Definition push_evidence (st : State) (pane a b : string) : State :=
  match parse_u64 a, parse_u64 b with
  | Some p, Some v =>
      if (p <? v)%N then
        MkState (last_tick st) (last_blocker st) (blocker_streak st) (red_streak st)
          (panes st) (previous_panes st) (commits st) (owner_pid st) (observation_epoch st)
          (next_observation_sequence st) (app (evidence st) [(pane, MkEvidence p v)])
      else st
  | _, _ => st
  end.

Definition push_previous (st : State) (o : Observation) : State :=
  MkState (last_tick st) (last_blocker st) (blocker_streak st) (red_streak st)
    (panes st) (app (previous_panes st) [o]) (commits st) (owner_pid st)
    (observation_epoch st) (next_observation_sequence st) (evidence st).

Definition push_pane (st : State) (o : Observation) : State :=
  MkState (last_tick st) (last_blocker st) (blocker_streak st) (red_streak st)
    (app (panes st) [o]) (previous_panes st) (commits st) (owner_pid st)
    (observation_epoch st) (next_observation_sequence st) (evidence st).

Definition push_commit (st : State) (repo sha : string) : State :=
  MkState (last_tick st) (last_blocker st) (blocker_streak st) (red_streak st)
    (panes st) (previous_panes st) (app (commits st) [(repo, sha)]) (owner_pid st)
    (observation_epoch st) (next_observation_sequence st) (evidence st).

(** The two-field records. *)
Definition set_field (st : State) (tag v : string) : State :=
  let s := λ lt lb bs rs op oe nos,
    MkState lt lb bs rs (panes st) (previous_panes st) (commits st) op oe nos (evidence st) in
  let lt := last_tick st in let lb := last_blocker st in let bs := blocker_streak st in
  let rs := red_streak st in let op := owner_pid st in let oe := observation_epoch st in
  let nos := next_observation_sequence st in
  if bool_decide (tag = "last_tick") then s (unwrap0 (parse_u64 v)) lb bs rs op oe nos
  else if bool_decide (tag = "owner_pid") then s lt lb bs rs (unwrap0 (parse_u32 v)) oe nos
  else if bool_decide (tag = "observation_epoch") then s lt lb bs rs op v nos
  else if bool_decide (tag = "next_observation_sequence") then
    s lt lb bs rs op oe (unwrap0 (parse_u64 v))
  else if bool_decide (tag = "last_blocker") then s lt v bs rs op oe nos
  else if bool_decide (tag = "blocker_streak") then
    s lt lb (unwrap0 (parse_u32 v)) rs op oe nos
  else if bool_decide (tag = "red_streak") then
    s lt lb bs (unwrap0 (parse_u32 v)) op oe nos
  else st.

(** One line of [load], split at tabs. *)
Definition load_fields (st : State) (f : list string) : State :=
  match f with
  | [tag; v] => set_field st tag v
  | [tag; a; b] => if bool_decide (tag = "commit") then push_commit st a b else st
  | [tag; i; a; b] =>
      if bool_decide (tag = "dispatchable") then push_evidence st i a b else st
  | tag :: _ =>
      if bool_decide (tag = "previous_pane") then
        match parse_observation_record f with Some o => push_previous st o | None => st end
      else if bool_decide (tag = "pane") then
        match parse_observation_record f with Some o => push_pane st o | None => st end
      else st
  | [] => st
  end.

(** [load] on the text of the file; [None] is a file that cannot be read. *)
Definition load (text : option string) : State :=
  match text with
  | None => default_state
  | Some t => fold_left (λ st l, load_fields st (split_char tab l)) (lines t) default_state
  end.

Definition observation_timer (s : PaneState) : N :=
  match s with Working t => t | Dialog t => t | _ => 0 end.

(** [append_observation_record]: the fields of one record. *)
Definition observation_fields (tag : string) (o : Observation) : list string :=
  [tag; pane_id o; state_label (state o); show_N (observation_timer (state o));
   show_N (hash o); show_N (at_ o); epoch o; show_N (sequence o); changed_at o].

(** The records [save] writes, in order. *)
Definition save_records (st : State) : list (list string) :=
  app [["owner_pid"; show_N (owner_pid st)];
       ["observation_epoch"; observation_epoch st];
       ["next_observation_sequence"; show_N (next_observation_sequence st)];
       ["last_tick"; show_N (last_tick st)];
       ["last_blocker"; last_blocker st];
       ["blocker_streak"; show_N (blocker_streak st)];
       ["red_streak"; show_N (red_streak st)]]
  (app (map (λ ie, ["dispatchable"; ie.1; show_N (proven_at ie.2); show_N (valid_until ie.2)])
         (evidence st))
  (app (map (λ rs, ["commit"; rs.1; rs.2]) (commits st))
  (app (map (observation_fields "previous_pane") (previous_panes st))
       (map (observation_fields "pane") (panes st))))).

(** [save]: the text written (then renamed into place). *)
Definition save (st : State) : string :=
  foldr (λ r acc, join tab_str r +:+ lf_str +:+ acc) "" (save_records st).

(** [check_ownership], on the loaded owner, with the process probe as a parameter. *)
Definition check_ownership (pid_is_live : N → bool) (path : string) (text : option string)
    (my_pid : N) : result string unit :=
  let existing := owner_pid (load text) in
  if (existing =? 0)%N || (existing =? my_pid)%N || negb (pid_is_live existing) then Ok tt
  else Err ("TICK_MONITOR_STATE_OWNER_COLLISION LEDGER CONTENDED: " +:+ path
            +:+ " is owned by live pid " +:+ show_N existing +:+ ", not this process ("
            +:+ show_N my_pid +:+ ")." +:+ lf_str
            +:+ "Two watchers on one ledger make `last_tick` advance on the wrong cadence, "
            +:+ "and the resulting gap decay disables the two-capture liveness rule silently "
            +:+ "— it reports gap_too_short, never an error. Stop the other watcher or give "
            +:+ "this one its own --state path.").

(** [vanished]: panes of the previous tick that are not in the live list. *)
Definition vanished (prior : list Observation) (live_ids : list string) : list string :=
  match live_ids with
  | [] => []
  | _ => List.filter (λ i, negb (existsb (λ l, bool_decide (l = i)) live_ids))
           (map pane_id prior)
  end.

(** The directory name of a session in [state_path]. *)
Definition path_char (ch : string) : string :=
  match ch with
  | String c EmptyString =>
      if is_ascii_alnum c || bool_decide (ch = ".") || bool_decide (ch = "_")
         || bool_decide (ch = "-") then ch else "_"
  | _ => "_"
  end.

Definition is_dot (c : ascii) : bool := Ascii.eqb c ".".

(** [str::replace(two dots, two underscores)]: left to right, not overlapping. *)
Fixpoint replace_dots (s : string) : string :=
  match s with
  | EmptyString => EmptyString
  | String c s' =>
      match s' with
      | String d rest =>
          if is_dot c && is_dot d then String "_" (String "_" (replace_dots rest))
          else String c (replace_dots s')
      | EmptyString => String c EmptyString
      end
  end.

Definition safe_segment (session : string) : string :=
  let safe := concat_chars (map path_char (chars session)) in
  if is_empty safe || all_bytes is_dot safe then "unnamed" else replace_dots safe.

(** A field the format can carry: no tab, no line end. *)
Definition plain_byte (c : ascii) : bool :=
  negb (Ascii.eqb c tab) && negb (Ascii.eqb c lf) && negb (Ascii.eqb c cr).
Definition plain (s : string) : Prop := all_bytes plain_byte s = true.

Definition plain_observation (o : Observation) : Prop :=
  plain (pane_id o) ∧ plain (epoch o) ∧ plain (changed_at o) ∧
  observation_timer (state o) < u64_modulus ∧ hash o < u64_modulus ∧
  at_ o < u64_modulus ∧ sequence o < u64_modulus.

(** A state at the widths of its fields whose texts the format can carry. *)
Definition state_wf (st : State) : Prop :=
  owner_pid st < u32_modulus ∧ blocker_streak st < u32_modulus ∧
  red_streak st < u32_modulus ∧ last_tick st < u64_modulus ∧
  next_observation_sequence st < u64_modulus ∧
  plain (observation_epoch st) ∧ plain (last_blocker st) ∧
  Forall (λ ie, plain ie.1 ∧ proven_at ie.2 < valid_until ie.2 ∧
            valid_until ie.2 < u64_modulus) (evidence st) ∧
  Forall (λ rs, plain rs.1 ∧ plain rs.2) (commits st) ∧
  Forall plain_observation (previous_panes st) ∧ Forall plain_observation (panes st).

End StateFile.

(** ** Lemmas. *)

(** ** The choke point (crates/tick-monitor/src/main.rs): one tick, through the files. *)
Module Emit.
Import StateFile.

Definition hex_digit (n : N) : ascii := ascii_of_N (if (n <? 10)%N then n + 48 else n + 87).

(** [esc]: JSON escapes; every escaped character is one byte. *)
Definition esc_byte (c : ascii) : string :=
  let n := N_of_ascii c in
  if (n =? 34)%N then String "\" dquote
  else if (n =? 92)%N then "\\"
  else if (n =? 10)%N then "\n"
  else if (n =? 13)%N then "\r"
  else if (n =? 9)%N then "\t"
  else if (n <? 32)%N then "\u00" +:+ String (hex_digit (n / 16)) (String (hex_digit (n mod 16)) "")
  else String c "".
Fixpoint esc (s : string) : string :=
  match s with EmptyString => "" | String c s' => esc_byte c +:+ esc s' end.

Definition ascii_upper (c : ascii) : ascii :=
  let n := N_of_ascii c in
  if ((97 <=? n) && (n <=? 122))%N then ascii_of_N (n - 32) else c.
Fixpoint to_ascii_uppercase (s : string) : string :=
  match s with EmptyString => "" | String c s' => String (ascii_upper c) (to_ascii_uppercase s') end.

(** A RED verdict counts, a GREEN one resets, any other is transparent. *)
Definition next_red (verdict : string) (red : N) : N :=
  let v := to_ascii_uppercase verdict in
  if bool_decide (v = "RED") then Guard.wrap_add32 red 1
  else if bool_decide (v = "GREEN") then 0 else red.

Definition ledger_line (now : N) (t : Guard.Tick) (streak red : N) : string :=
  let key k := dquote +:+ k +:+ dquote +:+ ":" in
  let text v := dquote +:+ esc v +:+ dquote in
  "{" +:+ key "ts" +:+ show_N now
  +:+ "," +:+ key "mode" +:+ text (Guard.mode t)
  +:+ "," +:+ key "verdict" +:+ text (to_ascii_uppercase (Guard.verdict t))
  +:+ "," +:+ key "external_blocker" +:+ text (default "" (Guard.external_blocker t))
  +:+ "," +:+ key "escalation_action" +:+ text (default "" (Guard.escalation_action t))
  +:+ "," +:+ key "auto_filed_bead" +:+ text (default "" (Guard.auto_filed_bead t))
  +:+ "," +:+ key "blocker_streak" +:+ show_N streak
  +:+ "," +:+ key "red_streak" +:+ show_N red
  +:+ "," +:+ key "note" +:+ text (Guard.note t) +:+ "}".

(** The clock, and whether the ledger append and the state write succeed. *)
Record EmitEnv := MkEmitEnv { now : N; ledger_ok : bool; save_ok : bool }.

(** The state file and the ledger's lines. *)
Record Files := MkFiles { state_file : option string; ledger : list string }.

Definition with_tick (st : State) (blocker : string) (streak red : N) : State :=
  MkState (last_tick st) blocker streak red (panes st) (previous_panes st) (commits st)
    (owner_pid st) (observation_epoch st) (next_observation_sequence st) (evidence st).

(** [emit_tick]: the new files and the exit code.  A failed state write is ignored. *)
Definition emit_tick `{Unicode} (e : EmitEnv) (f : Files) (t : Guard.Tick) : Files * N :=
  let prior := load (state_file f) in
  match Guard.validate t (last_blocker prior) (blocker_streak prior) with
  | Err r => (f, Guard.code r)
  | Ok streak =>
      let red := next_red (Guard.verdict t) (red_streak prior) in
      let line := ledger_line (now e) t streak red in
      if negb (ledger_ok e) then (f, 8)
      else
      let st := with_tick prior (default "" (Guard.external_blocker t)) streak red in
      (MkFiles (if save_ok e then Some (save st) else state_file f) (app (ledger f) [line]), 0)
  end.

(** Ticks in a row: the files at the end and every exit code. *)
Fixpoint emit_ticks `{Unicode} (f : Files) (ts : list (EmitEnv * Guard.Tick)) :
    Files * list N :=
  match ts with
  | [] => (f, [])
  | (e, t) :: ts' =>
      let '(f1, c) := emit_tick e f t in
      let '(f2, cs) := emit_ticks f1 ts' in (f2, c :: cs)
  end.

End Emit.

Module AlarmLemmas.
Import Alarm.

(** The event of the [c]-th free tick in a row under threshold [t]. *)
Definition event_at (t c : N) : CapacityAlarmEvent := if (c =? t)%N then Fire c else None_ c.

Lemma events_free t k n :
  (1 <= t)%N → (k + N.of_nat n <= u32_max)%N →
  events (MkAlarm t k (t <=? k)%N) (replicate n true) =
  map (λ i, event_at t (k + N.of_nat i)%N) (seq 1 n).
Proof.
  intros Ht. revert k. induction n as [|n IH]; intros k Hk; [done|].
  cbn [replicate events]. unfold observe. cbn [negb consecutive_free_ticks threshold fired].
  assert (sat_add32 k 1 = (k + 1)%N) as -> by (unfold sat_add32; lia).
  assert (map (λ i, event_at t (k + N.of_nat i)%N) (seq 1 (S n)) =
          event_at t (k + 1)%N :: map (λ i, event_at t (k + 1 + N.of_nat i)%N) (seq 1 n)) as ->.
  { cbn [seq map]. f_equal. rewrite <- (seq_shift n 1), map_map. apply map_ext. intros i.
    f_equal. lia. }
  rewrite <- IH by lia. unfold event_at.
  destruct (N.leb_spec t k), (N.leb_spec t (k + 1)), (N.eqb_spec (k + 1) t);
    cbn [negb andb]; try lia; done.
Qed.

End AlarmLemmas.

Module StateFileLemmas.
Import StateFile.

Lemma plain_no_byte s c :
  plain s → c = tab ∨ c = lf ∨ c = cr → no_byte c s.
Proof.
  unfold plain, no_byte. intros Hs Hc. revert Hs. apply all_bytes_impl. intros d Hd.
  unfold plain_byte in Hd. unbool. apply negb_true_iff.
  destruct Hc as [->|[->| ->]]; done.
Qed.

Lemma plain_show n : plain (show_N n).
Proof.
  unfold plain. eapply all_bytes_impl; [|apply show_N_digits]. intros c Hc.
  unfold plain_byte. rewrite !andb_true_iff, !negb_true_iff, !Ascii.eqb_neq.
  split_and!; intros ->; done.
Qed.

Lemma plain_label s : plain (state_label s).
Proof. by destruct s. Qed.

Lemma load_records rs st :
  Forall (λ r, r ≠ [] ∧ Forall plain r) rs →
  fold_left (λ st l, load_fields st (split_char tab l))
    (lines (foldr (λ r acc, join tab_str r +:+ lf_str +:+ acc) "" rs)) st =
  fold_left load_fields rs st.
Proof.
  intros Hrs. revert st. induction Hrs as [|r rs [Hne Hr] Hrs IH]; intros st; [done|].
  cbn [foldr fold_left].
  assert (∀ c, c = tab ∨ c = lf ∨ c = cr → Forall (no_byte c) r) as Hr'.
  { intros c Hc. eapply Forall_impl; [exact Hr|]. intros x Hx. by apply plain_no_byte. }
  rewrite lines_line.
  - cbn [fold_left]. rewrite split_join by auto. apply IH.
  - apply no_byte_join; [done|auto].
  - apply no_byte_join; [done|auto].
Qed.

Lemma parse_u64_show n : n < u64_modulus → parse_u64 (show_N n) = Some n.
Proof. apply parse_below_show. Qed.

Lemma parse_u32_show n : n < u32_modulus → parse_u32 (show_N n) = Some n.
Proof. apply parse_below_show. Qed.

Lemma parse_label_back s :
  observation_timer s < u64_modulus →
  parse_label (state_label s) (show_N (observation_timer s)) = s.
Proof.
  intros Hs. destruct s; try done; unfold parse_label; cbn in *;
    by rewrite parse_u64_show.
Qed.

Lemma parse_record_back tag o :
  plain_observation o → parse_observation_record (observation_fields tag o) = Some o.
Proof.
  intros (_ & _ & _ & Ht & Hh & Ha & Hs). unfold parse_observation_record, observation_fields.
  rewrite !parse_u64_show, parse_label_back by done. by destruct o.
Qed.

(** What each header record writes, on a state given by its fields. *)
Lemma set_field_header lt lb bs rs ps pp cs op oe nos ev v
    (st := MkState lt lb bs rs ps pp cs op oe nos ev) :
  set_field st "owner_pid" v = MkState lt lb bs rs ps pp cs (unwrap0 (parse_u32 v)) oe nos ev ∧
  set_field st "observation_epoch" v = MkState lt lb bs rs ps pp cs op v nos ev ∧
  set_field st "next_observation_sequence" v =
    MkState lt lb bs rs ps pp cs op oe (unwrap0 (parse_u64 v)) ev ∧
  set_field st "last_tick" v = MkState (unwrap0 (parse_u64 v)) lb bs rs ps pp cs op oe nos ev ∧
  set_field st "last_blocker" v = MkState lt v bs rs ps pp cs op oe nos ev ∧
  set_field st "blocker_streak" v =
    MkState lt lb (unwrap0 (parse_u32 v)) rs ps pp cs op oe nos ev ∧
  set_field st "red_streak" v = MkState lt lb bs (unwrap0 (parse_u32 v)) ps pp cs op oe nos ev.
Proof. split_and!; reflexivity. Qed.

(** The seven header records, on a state with everything else empty. *)
Lemma load_header op oe nos lt lb bs rs :
  op < u32_modulus → bs < u32_modulus → rs < u32_modulus →
  lt < u64_modulus → nos < u64_modulus →
  fold_left load_fields
    [["owner_pid"; show_N op]; ["observation_epoch"; oe];
     ["next_observation_sequence"; show_N nos]; ["last_tick"; show_N lt];
     ["last_blocker"; lb]; ["blocker_streak"; show_N bs]; ["red_streak"; show_N rs]]
    default_state = MkState lt lb bs rs [] [] [] op oe nos [].
Proof.
  intros Hop Hbs Hrs Hlt Hnos.
  cbn [fold_left load_fields]. unfold default_state.
  do 7 (match goal with
        | |- context [set_field (MkState ?a ?b ?c ?d ?e ?f ?g ?h ?i ?j ?k) _ ?v] =>
          destruct (set_field_header a b c d e f g h i j k v) as (H1&H2&H3&H4&H5&H6&H7);
          first [rewrite H1|rewrite H2|rewrite H3|rewrite H4|rewrite H5|rewrite H6|rewrite H7];
          clear H1 H2 H3 H4 H5 H6 H7
        end).
  by rewrite !parse_u64_show, !parse_u32_show.
Qed.

Lemma load_evidence es st :
  Forall (λ ie, plain ie.1 ∧ proven_at ie.2 < valid_until ie.2 ∧
            valid_until ie.2 < u64_modulus) es →
  fold_left load_fields
    (map (λ ie, ["dispatchable"; ie.1; show_N (proven_at ie.2); show_N (valid_until ie.2)]) es)
    st =
  MkState (last_tick st) (last_blocker st) (blocker_streak st) (red_streak st) (panes st)
    (previous_panes st) (commits st) (owner_pid st) (observation_epoch st)
    (next_observation_sequence st) (app (evidence st) es).
Proof.
  intros Hes. revert st. induction Hes as [|[i [a b]] es (_ & Hlt & Hb) Hes IH]; intros st.
  { cbn. rewrite List.app_nil_r. by destruct st. }
  cbn [map fold_left fst snd] in *. rewrite IH.
  change (load_fields st ["dispatchable"; i; show_N (proven_at (MkEvidence a b));
            show_N (valid_until (MkEvidence a b))])
    with (push_evidence st i (show_N a) (show_N b)).
  cbn [proven_at valid_until] in *. unfold push_evidence.
  rewrite !parse_u64_show by lia. rewrite (proj2 (N.ltb_lt a b) Hlt). cbn.
  by rewrite <- List.app_assoc.
Qed.

Lemma load_commits cs st :
  fold_left load_fields (map (λ rs, ["commit"; rs.1; rs.2]) cs) st =
  MkState (last_tick st) (last_blocker st) (blocker_streak st) (red_streak st) (panes st)
    (previous_panes st) (app (commits st) cs) (owner_pid st) (observation_epoch st)
    (next_observation_sequence st) (evidence st).
Proof.
  revert st. induction cs as [|[r s] cs IH]; intros st.
  { cbn. rewrite List.app_nil_r. by destruct st. }
  cbn [map fold_left fst snd]. rewrite IH.
  change (load_fields st ["commit"; r; s]) with (push_commit st r s).
  cbn. by rewrite <- List.app_assoc.
Qed.

Lemma load_observation_fields st tag o :
  plain_observation o →
  load_fields st (observation_fields tag o) =
  if bool_decide (tag = "previous_pane") then push_previous st o
  else if bool_decide (tag = "pane") then push_pane st o else st.
Proof.
  intros Ho. pose proof (parse_record_back tag o Ho) as Hp.
  unfold observation_fields in *. cbn [load_fields]. by rewrite Hp.
Qed.

Lemma load_previous os st :
  Forall plain_observation os →
  fold_left load_fields (map (observation_fields "previous_pane") os) st =
  MkState (last_tick st) (last_blocker st) (blocker_streak st) (red_streak st) (panes st)
    (app (previous_panes st) os) (commits st) (owner_pid st) (observation_epoch st)
    (next_observation_sequence st) (evidence st).
Proof.
  intros Hos. revert st. induction Hos as [|o os Ho Hos IH]; intros st.
  { cbn. rewrite List.app_nil_r. by destruct st. }
  cbn [map fold_left]. rewrite IH, load_observation_fields by done.
  change (bool_decide ("previous_pane" = "previous_pane")) with true.
  cbn. by rewrite <- List.app_assoc.
Qed.

Lemma load_panes os st :
  Forall plain_observation os →
  fold_left load_fields (map (observation_fields "pane") os) st =
  MkState (last_tick st) (last_blocker st) (blocker_streak st) (red_streak st)
    (app (panes st) os) (previous_panes st) (commits st) (owner_pid st)
    (observation_epoch st) (next_observation_sequence st) (evidence st).
Proof.
  intros Hos. revert st. induction Hos as [|o os Ho Hos IH]; intros st.
  { cbn. rewrite List.app_nil_r. by destruct st. }
  cbn [map fold_left]. rewrite IH, load_observation_fields by done.
  change (bool_decide ("pane" = "previous_pane")) with false.
  change (bool_decide ("pane" = "pane")) with true.
  cbn. by rewrite <- List.app_assoc.
Qed.

Lemma plain_observation_fields tag o :
  plain tag → plain_observation o → Forall plain (observation_fields tag o).
Proof.
  intros Ht (Hi & He & Hc & _). unfold observation_fields.
  repeat constructor; auto using plain_show, plain_label.
Qed.

Lemma save_records_plain st :
  state_wf st → Forall (λ r, r ≠ [] ∧ Forall plain r) (save_records st).
Proof.
  intros (_ & _ & _ & _ & _ & Hep & Hlb & Hev & Hco & Hpp & Hpa). unfold save_records.
  rewrite !Forall_app, !Forall_map. split_and!.
  - repeat constructor; auto using plain_show; done.
  - eapply Forall_impl; [exact Hev|]. intros [i e] (Hi & _). cbn in *.
    split; [done|]. repeat constructor; auto using plain_show.
  - eapply Forall_impl; [exact Hco|]. intros [r s] [Hr Hs]. cbn in *.
    split; [done|]. repeat constructor; auto.
  - eapply Forall_impl; [exact Hpp|]. intros o Ho.
    split; [done|]. by apply plain_observation_fields.
  - eapply Forall_impl; [exact Hpa|]. intros o Ho.
    split; [done|]. by apply plain_observation_fields.
Qed.

End StateFileLemmas.

Module SegmentLemmas.
Import StateFile.

Definition segment_byte (c : ascii) : bool :=
  is_ascii_alnum c || Ascii.eqb c "." || Ascii.eqb c "_" || Ascii.eqb c "-".

Lemma path_char_bytes ch : all_bytes segment_byte (path_char ch) = true ∧ path_char ch ≠ "".
Proof.
  unfold path_char. destruct ch as [|c [|d w]]; [done| |done].
  destruct (is_ascii_alnum c) eqn:Ha; cbn.
  { unfold segment_byte. by rewrite Ha. }
  repeat case_bool_decide; cbn; split; try done; unfold segment_byte; cbn; simplify_eq; done.
Qed.

Lemma segment_bytes l : all_bytes segment_byte (concat_chars (map path_char l)) = true.
Proof.
  induction l as [|ch l IH]; [done|]. unfold concat_chars in *. cbn [map foldr].
  by rewrite all_bytes_app, (proj1 (path_char_bytes ch)), IH.
Qed.

(** The two-dot case of the replacement, and its way on. *)
Lemma replace_dots_step c s :
  replace_dots (String c s) =
  match s with
  | String d rest =>
      if is_dot c && is_dot d then String "_" (String "_" (replace_dots rest))
      else String c (replace_dots s)
  | EmptyString => String c EmptyString
  end.
Proof. done. Qed.

Lemma replace_dots_bytes s :
  all_bytes segment_byte s = true → all_bytes segment_byte (replace_dots s) = true.
Proof.
  remember (String.length s) as n eqn:Hn. revert s Hn.
  induction (lt_wf n) as [n _ IH]. intros s -> Hs.
  destruct s as [|c s]; [done|]. rewrite replace_dots_step.
  cbn [all_bytes] in Hs. apply andb_true_iff in Hs as [Hc Hs].
  destruct s as [|d rest]; [cbn; by rewrite Hc|].
  destruct (is_dot c && is_dot d).
  - cbn [all_bytes] in Hs. apply andb_true_iff in Hs as [_ Hs].
    cbn. eapply IH; [|done|done]. cbn. lia.
  - cbn [all_bytes]. rewrite Hc. eapply IH; [|done|done]. cbn. lia.
Qed.

(** After the replacement no two dots are next to each other, and a dot in front
    was a lone dot in front. *)
Lemma replace_dots_none s a b : replace_dots s ≠ a +:+ ".." +:+ b.
Proof.
  remember (String.length s) as n eqn:Hn. revert s Hn a b.
  induction (lt_wf n) as [n _ IH]. intros s -> a b.
  destruct s as [|c s]; [by destruct a|]. rewrite replace_dots_step.
  destruct s as [|d rest]; [by destruct a as [|? [|? ?]]|].
  destruct (is_dot c && is_dot d) eqn:Hdots.
  - destruct a as [|x [|y a]]; [done|done|].
    intros [= _ _ Heq]. refine (IH _ _ rest eq_refl a b Heq). cbn. lia.
  - destruct a as [|x a].
    + intros [= -> Heq]. cbn in Hdots. destruct rest as [|e rest]; cbn in Heq.
      * by injection Heq as -> _.
      * destruct (is_dot d && is_dot e); [done|]. by injection Heq as -> _.
    + intros [= -> Heq]. refine (IH _ _ (String d rest) eq_refl a b Heq). cbn. lia.
Qed.

End SegmentLemmas.

(** ** Properties. *)

(** Loading what was saved. *)
Lemma load_save st :
  StateFile.state_wf st → StateFile.load (Some (StateFile.save st)) = st.
Proof.
  intros Hwf. unfold StateFile.load, StateFile.save.
  rewrite StateFileLemmas.load_records by by apply StateFileLemmas.save_records_plain.
  destruct Hwf as (Hop & Hbs & Hrs & Hlt & Hns & _ & _ & Hev & _ & Hpp & Hpa).
  unfold StateFile.save_records. rewrite !fold_left_app.
  rewrite StateFileLemmas.load_header, StateFileLemmas.load_panes,
    StateFileLemmas.load_previous, StateFileLemmas.load_commits,
    StateFileLemmas.load_evidence by done.
  by destruct st.
Qed.

(** What one accepted tick leaves behind. *)
Lemma emit_tick_accepted `{Unicode} e f t b f' :
  Emit.emit_tick e f t = (f', 0%N) → Guard.external_blocker t = Some b →
  let prior := StateFile.load (Emit.state_file f) in
  let streak := Guard.next_streak b (StateFile.last_blocker prior) (StateFile.blocker_streak prior) in
  (Emit.save_ok e = true → Emit.state_file f' = Some (StateFile.save (Emit.with_tick prior b streak
     (Emit.next_red (Guard.verdict t) (StateFile.red_streak prior))))) ∧
  ((3 <= streak)%N → Guard.has_escalation t = true).
Proof.
  intros He Hb prior streak. unfold Emit.emit_tick in He. fold prior in He.
  destruct (Guard.validate t _ _) as [n|r] eqn:Hv; [|by destruct r].
  assert (n = streak ∧ ((3 <= streak)%N → Guard.has_escalation t = true)) as [-> Hesc].
  { unfold Guard.validate in Hv. rewrite Hb in Hv.
    change (default "" (Some b)) with b in Hv. cbv zeta in Hv. fold streak in Hv.
    destruct (negb _); [done|]. destruct (find_first _ _); [done|].
    destruct (if _ || _ then _ else _); [done|].
    destruct ((3 <=? streak)%N && negb (Guard.has_escalation t)) eqn:Hesc; [done|].
    injection Hv as <-. split; [done|]. intros Hge%N.leb_le. rewrite Hge in Hesc.
    by apply negb_false_iff. }
  split; [|done]. intros Hs. rewrite Hs, Hb in He.
  destruct (Emit.ledger_ok e); [|done]. cbn in He. by injection He as <-.
Qed.

Lemma next_red_width v r : (r < u32_modulus)%N → (Emit.next_red v r < u32_modulus)%N.
Proof.
  intros Hr. unfold Emit.next_red, Guard.wrap_add32. repeat case_match; [|done..].
  apply N.mod_lt. discriminate.
Qed.

Lemma with_tick_wf st b n r :
  StateFile.state_wf st → StateFile.plain b → (n < u32_modulus)%N → (r < u32_modulus)%N →
  StateFile.state_wf (Emit.with_tick st b n r).
Proof. unfold StateFile.state_wf. cbn. naive_solver. Qed.

(** One accepted tick of blocker [b], saved and loaded again. *)
Lemma emit_tick_streak `{Unicode} e f t b f' :
  Emit.emit_tick e f t = (f', 0%N) → Guard.external_blocker t = Some b → Emit.save_ok e = true →
  StateFile.plain b → b ≠ "" →
  let prior := StateFile.load (Emit.state_file f) in
  let next := StateFile.load (Emit.state_file f') in
  StateFile.state_wf prior → (StateFile.blocker_streak prior + 1 < u32_modulus)%N →
  StateFile.state_wf next ∧ StateFile.last_blocker next = b ∧
  StateFile.blocker_streak next =
    if bool_decide (b = StateFile.last_blocker prior)
    then (StateFile.blocker_streak prior + 1)%N else 1%N.
Proof.
  intros He Hb Hs Hp Hne prior next Hwf Hlt.
  destruct (emit_tick_accepted e f t b f' He Hb) as [Hf _]. fold prior in Hf.
  assert (Guard.next_streak b (StateFile.last_blocker prior) (StateFile.blocker_streak prior) =
    if bool_decide (b = StateFile.last_blocker prior)
    then (StateFile.blocker_streak prior + 1)%N else 1%N) as Hn.
  { unfold Guard.next_streak, Guard.wrap_add32. destruct b; [done|]. cbn [is_empty negb andb].
    case_bool_decide; [|done]. by apply N.mod_small. }
  unfold next. rewrite Hf by done. rewrite load_save; rewrite Hn.
  - split; [|done]. apply with_tick_wf; [done..| |].
    + case_bool_decide; [done|by vm_compute].
    + apply next_red_width. apply Hwf.
  - apply with_tick_wf; [done..| |].
    + case_bool_decide; [done|by vm_compute].
    + apply next_red_width. apply Hwf.
Qed.

(** a repeated block is a bead.  Of three accepted ticks in a row that name the
    same blocker, through the state file and whatever their verdicts and whatever came
    before, the third carries an escalation or a remediation mode: for a blocker the
    file's lines can carry, a file whose state is well formed, state writes that succeed
    and a streak below the 32-bit range. *)
Theorem third_block_escalates `{Unicode} f e1 t1 e2 t2 e3 t3 f' b :
  Emit.emit_ticks f [(e1, t1); (e2, t2); (e3, t3)] = (f', [0; 0; 0]%N) →
  StateFile.plain b → b ≠ "" →
  Guard.external_blocker t1 = Some b → Guard.external_blocker t2 = Some b →
  Guard.external_blocker t3 = Some b →
  Emit.save_ok e1 = true → Emit.save_ok e2 = true →
  StateFile.state_wf (StateFile.load (Emit.state_file f)) →
  (StateFile.blocker_streak (StateFile.load (Emit.state_file f)) + 3 < u32_modulus)%N →
  Guard.has_escalation t3 = true.
Proof.
  intros Hrun Hp Hne Hb1 Hb2 Hb3 Hs1 Hs2 Hwf Hlt. cbn [Emit.emit_ticks] in Hrun.
  destruct (Emit.emit_tick e1 f t1) as [f1 c1] eqn:H1.
  destruct (Emit.emit_tick e2 f1 t2) as [f2 c2] eqn:H2.
  destruct (Emit.emit_tick e3 f2 t3) as [f3 c3] eqn:H3.
  injection Hrun as _ -> -> ->.
  apply (emit_tick_streak _ _ _ b) in H1 as (Hwf1 & Hl1 & Hn1); try done; [|lia].
  set (s1 := StateFile.blocker_streak (StateFile.load (Emit.state_file f1))) in *.
  assert (1 <= s1 ∧ s1 + 2 < u32_modulus)%N as [Hlo Hhi].
  { rewrite Hn1. case_bool_decide; [lia|by vm_compute]. }
  apply (emit_tick_streak _ _ _ b) in H2 as (Hwf2 & Hl2 & Hn2); try done; [|fold s1; lia].
  rewrite Hl1, bool_decide_true in Hn2 by done. fold s1 in Hn2.
  apply (emit_tick_accepted _ _ _ b) in H3 as [_ Hesc]; [|done]. apply Hesc.
  unfold Guard.next_streak, Guard.wrap_add32. rewrite Hl2, Hn2, bool_decide_true by done.
  destruct b; [done|]. cbn [is_empty negb andb]. rewrite N.mod_small by lia. lia.
Qed.

Example third_block_escalates_witness :
  let t3 := Guard.MkGuardTick "DISPATCH" "RED" (Some "infrastructure:rch") (Some "filed") None "" in
  Guard.has_escalation t3 = true.
Proof.
  apply (@third_block_escalates ascii_only (Emit.MkFiles None [])
    (Emit.MkEmitEnv 5 true true) (Guard.MkGuardTick "DISPATCH" "RED" (Some "infrastructure:rch") None None "")
    (Emit.MkEmitEnv 6 true true) (Guard.MkGuardTick "DISPATCH" "RED" (Some "infrastructure:rch") None None "")
    (Emit.MkEmitEnv 7 true false) _
    (@Emit.emit_ticks ascii_only (Emit.MkFiles None [])
      [(Emit.MkEmitEnv 5 true true, Guard.MkGuardTick "DISPATCH" "RED" (Some "infrastructure:rch") None None "");
       (Emit.MkEmitEnv 6 true true, Guard.MkGuardTick "DISPATCH" "RED" (Some "infrastructure:rch") None None "");
       (Emit.MkEmitEnv 7 true false,
        Guard.MkGuardTick "DISPATCH" "RED" (Some "infrastructure:rch") (Some "filed") None "")]).1
    "infrastructure:rch");
    [vm_compute; reflexivity|reflexivity|discriminate|reflexivity|reflexivity|reflexivity|reflexivity
    |reflexivity|repeat split; by constructor|reflexivity].
Defined.

(** A blocker with a tab in its name is not carried by the file's lines: its streak is
    lost, and three unescalated ticks are all accepted. *)
Example tabbed_blocker_never_escalates :
  let t := Guard.MkGuardTick "DISPATCH" "RED" (Some ("infrastructure:r" +:+ StateFile.tab_str +:+ "h"))
             None None "" in
  let e := Emit.MkEmitEnv 5 true true in
  (@Emit.emit_ticks ascii_only (Emit.MkFiles None []) [(e, t); (e, t); (e, t); (e, t)]).2
    = [0; 0; 0; 0]%N.
Proof. vm_compute. reflexivity. Qed.

(** the idle-capacity alarm fires once per idle stretch, exactly on the tick that
    completes the threshold: from a fresh alarm, or after any tick without free
    capacity, the events of [n] free ticks are counted from one and only the one at
    the threshold (at least one) is a firing. *)
Theorem alarm_fires_once t a n :
  (N.of_nat n <= u32_max)%N →
  Alarm.threshold a = N.max t 1 →
  Alarm.events (Alarm.observe a false).1 (replicate n true) =
    map (λ i, AlarmLemmas.event_at (N.max t 1) (N.of_nat i)) (seq 1 n) ∧
  (Alarm.observe a false).1 = Alarm.new t.
Proof.
  intros Hn Ht. cbn. rewrite Ht. split; [|done].
  rewrite (map_ext (λ i, AlarmLemmas.event_at (N.max t 1) (N.of_nat i))
    (λ i, AlarmLemmas.event_at (N.max t 1) (0 + N.of_nat i)%N)) by done.
  rewrite <- AlarmLemmas.events_free by lia.
  by rewrite (proj2 (N.leb_gt (N.max t 1) 0)) by lia.
Qed.

Example alarm_fires_once_witness :
  Alarm.events (Alarm.new 3) [true; true; true; true] =
  [Alarm.None_ 1; Alarm.None_ 2; Alarm.Fire 3; Alarm.None_ 4].
Proof.
  refine (proj1 (alarm_fires_once 3 (Alarm.MkAlarm 3 2 false) 4 _ eq_refl)).
  by vm_compute.
Defined.

(** C24: what the monitor saves is what it loads: for every state at the widths of its
    fields, with texts free of tabs and line ends and proofs that expire after they
    begin, loading the saved text gives the state back, every pane, proof, commit
    and streak included. *)
Theorem state_roundtrip st :
  StateFile.state_wf st → StateFile.load (Some (StateFile.save st)) = st.
Proof. apply load_save. Qed.

Example state_roundtrip_witness :
  let st := StateFile.MkState 1000 "infrastructure:rch" 2 1
    [MkObs "%7" (Working 27) 12345 990 "tick-monitor:x:1" 4 "990"]
    [MkObs "%7" Idle 99 900 "tick-monitor:x:1" 3 "900"]
    [("/repo", "abc123")] 43048 "tick-monitor:x:1" 5 [("%8", MkEvidence 800 950)] in
  StateFile.load (Some (StateFile.save st)) = st.
Proof.
  apply state_roundtrip. unfold StateFile.state_wf. split_and!.
  all: repeat match goal with
  | |- Forall _ _ => constructor
  | |- _ ∧ _ => split
  | |- StateFile.plain_observation _ => unfold StateFile.plain_observation
  end.
  all: reflexivity.
Defined.

(** a session name cannot leave the state directory: its segment is never empty,
    holds only letters, digits, dots, underscores and hyphens, and no two adjacent
    dots.  But two sessions can share one: the segment of a name with a slash is the
    segment of the name with an underscore in its place. *)
Theorem safe_segment_contained session :
  StateFile.safe_segment session ≠ "" ∧
  all_bytes SegmentLemmas.segment_byte (StateFile.safe_segment session) = true ∧
  (∀ a b, StateFile.safe_segment session ≠ a +:+ ".." +:+ b) ∧
  StateFile.safe_segment "a/b" = StateFile.safe_segment "a_b".
Proof.
  unfold StateFile.safe_segment.
  pose proof (SegmentLemmas.segment_bytes (chars session)) as Hb. revert Hb.
  generalize (concat_chars (map StateFile.path_char (chars session))). intros safe Hb.
  split_and!; [| | |reflexivity].
  - destruct safe as [|c s]; [done|]. cbn [is_empty orb].
    destruct (all_bytes StateFile.is_dot _); [discriminate|].
    rewrite SegmentLemmas.replace_dots_step.
    destruct s; [discriminate|]. destruct (_ && _); discriminate.
  - destruct (is_empty safe || _); [done|]. by apply SegmentLemmas.replace_dots_bytes.
  - intros a b. destruct (is_empty safe || _).
    + intros Heq. assert (contains "unnamed" ".." = true) as Hc.
      { apply contains_spec. eauto. } done.
    + apply SegmentLemmas.replace_dots_none.
Qed.
