(* ===== verification/Receipt.v ===== *)
(** * Receiver receipts (crates/receiver-receipt/src/lib.rs and irc_delivery.rs)

    Whether a packet reached its pane is read from the receiver: two observations
    of the pane, one before and one after the send. *)

From stdpp Require Import base numbers list option strings.
From Stdlib Require Import NArith Lia.
From S2P Require Import Prelude RustStr Json TickMonitor.

Open Scope N_scope.
Open Scope string_scope.

(** ** Data. *)

Inductive PanePresence := PresPresent | PresAbsent | PresEmptyPaneList.

Inductive PostSendObservation :=
  | PostPresent (o : Observation)
  | PostAbsent
  | PostEmptyPaneList
  | PostMissing.

Inductive ReceiptReason :=
  | MissingPostObservation
  | PaneIdMismatch (expected observed : string)
  | DialogOpen
  | WedgedUnsubmitted
  | EmptyPaneListNoDeathClaim
  | ObservationNotWorking (side state : string)
  | StableContentUnchanged
  | UnprovenTransport (transport : string)
  | AckReadbackMissing
  | AckPaneMismatch (expected got : string)
  | IdleUnchanged
  | PostBecameIdle
  | TimerDidNotReset (before_secs after_secs : N)
  | TimerResetButStableContentUnchanged
  | TimerTooLargeAfterIdle (after_secs max_secs : N)
  | ObservationWindowTooShort (span_secs floor_secs : N).

Definition reason_display (r : ReceiptReason) : string :=
  match r with
  | MissingPostObservation => "missing_post_observation"
  | PaneIdMismatch e o => "pane_id_mismatch expected=" +:+ e +:+ " observed=" +:+ o
  | DialogOpen => "dialog_open"
  | WedgedUnsubmitted => "WEDGED_UNSUBMITTED"
  | EmptyPaneListNoDeathClaim => "NOBODY_DEAD empty_pane_list"
  | ObservationNotWorking side st => side +:+ "_observation_not_working state=" +:+ st
  | StableContentUnchanged => "stable_content_unchanged"
  | UnprovenTransport t => "unproven_transport transport=" +:+ t
  | AckReadbackMissing => "ack_readback_missing"
  | AckPaneMismatch e g => "ACK_PANE_MISMATCH expected=" +:+ e +:+ " got=" +:+ g
  | IdleUnchanged => "idle_unchanged"
  | PostBecameIdle => "post_became_idle"
  | TimerDidNotReset b a =>
      "timer_did_not_reset before_secs=" +:+ show_N b +:+ " after_secs=" +:+ show_N a
  | TimerResetButStableContentUnchanged => "timer_reset_but_stable_content_unchanged"
  | TimerTooLargeAfterIdle a m =>
      "timer_too_large_after_idle after_secs=" +:+ show_N a +:+ " max_secs=" +:+ show_N m
  | ObservationWindowTooShort s f =>
      "OBSERVATION_WINDOW_TOO_SHORT span_secs=" +:+ show_N s +:+ " floor_secs=" +:+ show_N f
      +:+ " -- motion is not observable in this window, so neither delivery nor "
      +:+ "non-delivery is derivable"
  end.

Inductive ReceiptVerdict :=
  | ReceiptConfirmed (pane : string) (timer_before : option N) (timer_after : N)
      (stable_content_changed : bool)
  | AckConfirmed (pane comment : string)
  | NoReceipt (pane : string) (reason : ReceiptReason)
  | Dead (pane : string)
  | Indeterminate (pane : string) (reason : ReceiptReason).

Definition verdict_label (v : ReceiptVerdict) : string :=
  match v with
  | ReceiptConfirmed _ _ _ _ | AckConfirmed _ _ => "RECEIPT_CONFIRMED"
  | NoReceipt _ _ => "NO_RECEIPT"
  | Indeterminate _ _ => "INDETERMINATE"
  | Dead _ => "DEAD"
  end.

Definition verdict_reason (v : ReceiptVerdict) : option ReceiptReason :=
  match v with
  | ReceiptConfirmed _ _ _ _ | AckConfirmed _ _ | Dead _ => None
  | NoReceipt _ r | Indeterminate _ r => Some r
  end.

Definition verdict_owes_a_human (v : ReceiptVerdict) : bool :=
  match v with Indeterminate _ DialogOpen => true | _ => false end.

Definition IDLE_TO_WORKING_TIMER_TOLERANCE_SECS : N := 30.
Definition OBSERVATION_WINDOW_MIN_SECS : N := 75.

(** ** Waiting for an acknowledgement. *)

Inductive AckWaitVerdict :=
  | BusyStillWorking (timer_from timer_to span_secs : N)
  | Unreachable (reason : string)
  | WaitIndeterminate (reason : string).

Definition wait_owes_a_human (v : AckWaitVerdict) : bool :=
  match v with Unreachable _ => true | _ => false end.

Definition wait_label (v : AckWaitVerdict) : string :=
  match v with
  | BusyStillWorking _ _ _ => "ACK_PENDING_WORKER_BUSY"
  | Unreachable _ => "ACK_READBACK_MISSING"
  | WaitIndeterminate _ => "ACK_WAIT_INDETERMINATE"
  end.

Definition next_action (v : AckWaitVerdict) : string :=
  match v with
  | BusyStillWorking _ _ _ => "retry-next-tick"
  | Unreachable _ => "inspect-pane-or-redispatch"
  | WaitIndeterminate _ => "re-observe-past-the-window-floor"
  end.

Definition reason_or_empty (v : AckWaitVerdict) : string :=
  match v with
  | BusyStillWorking _ _ _ => ""
  | Unreachable reason | WaitIndeterminate reason => reason
  end.

Definition classify_ack_wait (first last : Observation) : AckWaitVerdict :=
  if negb (bool_decide (pane_id first = pane_id last)) then
    WaitIndeterminate "PANE_ID_MISMATCH"
  else if (at_ last <? at_ first)%N then WaitIndeterminate "CAPTURES_OUT_OF_ORDER"
  else
  let span_secs := (at_ last - at_ first)%N in
  match state first, state last with
  | Working from, Working to =>
      if (span_secs <? OBSERVATION_WINDOW_MIN_SECS)%N then
        WaitIndeterminate "WINDOW_BELOW_FLOOR"
      else if (from <? to)%N then BusyStillWorking from to span_secs
      else Unreachable "TIMER_DID_NOT_ADVANCE_ACROSS_THE_FLOOR"
  | _, Dialog _ => Unreachable "PANE_IS_BLOCKED_ON_A_DIALOG"
  | _, Wedged => Unreachable "PANE_IS_WEDGED"
  | _, Idle => Unreachable "PANE_IDLE_WITH_NO_ACK"
  | _, Working _ => WaitIndeterminate "NO_PRIOR_WORKING_CAPTURE_TO_COMPARE"
  | _, ProviderError402 => Unreachable "PANE_HALTED_ON_PROVIDER_402"
  | _, Unproven => WaitIndeterminate "PANE_STATE_UNPROVEN"
  end.

(** [observe_capture], with the identity's three fields. *)
Definition observe_capture `{Unicode} (hasher : string → N) (pane capture : string) (t : N)
    (ep : string) (sq : N) (ch : string) : Observation :=
  MkObs pane (classify capture) (stable_hash hasher capture) t ep sq ch.

(** ** Escalating a send that was not received. *)

Inductive ComposerEvidence := Typed | Free.
Inductive NonDeliveryEscalation := ResendDirect | SubmitParked | KeepPolling.

Definition escalation_label (e : NonDeliveryEscalation) : string :=
  match e with
  | ResendDirect => "RESEND_DIRECT" | SubmitParked => "SUBMIT_PARKED"
  | KeepPolling => "KEEP_POLLING"
  end.

Definition escalate_non_delivery (post_state : PaneState) (composer : ComposerEvidence) :
    NonDeliveryEscalation :=
  match post_state, composer with
  | Idle, Free => ResendDirect
  | Idle, Typed => SubmitParked
  | _, _ => KeepPolling
  end.

(** ** The receipt. *)

(** [Debug] of a pane state. *)
Definition state_debug (s : PaneState) : string :=
  match s with
  | Working t => "Working { timer_secs: " +:+ show_N t +:+ " }"
  | Idle => "Idle"
  | Wedged => "Wedged"
  | Dialog t => "Dialog { timer_secs: " +:+ show_N t +:+ " }"
  | ProviderError402 => "ProviderError402"
  | Unproven => "Unproven"
  end.

Definition is_dialog (s : PaneState) : bool := match s with Dialog _ => true | _ => false end.
Definition is_wedged (s : PaneState) : bool := match s with Wedged => true | _ => false end.

Definition assess_receiver_receipt (pane : string) (pre : Observation)
    (post_send : PostSendObservation) : ReceiptVerdict :=
  if negb (bool_decide (pane_id pre = pane)) then
    Indeterminate pane (PaneIdMismatch pane (pane_id pre))
  else
  match post_send with
  | PostMissing => Indeterminate pane MissingPostObservation
  | PostAbsent => Dead pane
  | PostEmptyPaneList => Indeterminate pane EmptyPaneListNoDeathClaim
  | PostPresent post =>
  if negb (bool_decide (pane_id post = pane)) then
    Indeterminate pane (PaneIdMismatch pane (pane_id post))
  else if is_dialog (state pre) || is_dialog (state post) then Indeterminate pane DialogOpen
  else if is_wedged (state post) then NoReceipt pane WedgedUnsubmitted
  else
  let span_secs := sat_sub (at_ post) (at_ pre) in
  if (at_ post <? at_ pre)%N then
    Indeterminate pane (ObservationWindowTooShort span_secs OBSERVATION_WINDOW_MIN_SECS)
  else
  match state pre, state post with
  | Idle, Working timer =>
      let max_secs := sat_add64 span_secs IDLE_TO_WORKING_TIMER_TOLERANCE_SECS in
      if (max_secs <? timer)%N then Indeterminate pane (TimerTooLargeAfterIdle timer max_secs)
      else if (hash pre =? hash post)%N then NoReceipt pane StableContentUnchanged
      else ReceiptConfirmed pane None timer true
  | Idle, Idle => NoReceipt pane IdleUnchanged
  | Working before, Working after =>
      if (before <=? after)%N then NoReceipt pane (TimerDidNotReset before after)
      else if (hash pre =? hash post)%N then
        NoReceipt pane TimerResetButStableContentUnchanged
      else ReceiptConfirmed pane (Some before) after true
  | Working _, Idle => NoReceipt pane PostBecameIdle
  | a, b => Indeterminate pane (ObservationNotWorking "pre_or_post"
              ("pre=" +:+ state_debug a +:+ " post=" +:+ state_debug b))
  end end.

(** ** The IRC plane, which a pane send cannot use. *)

Inductive IrcDeliveryOutcome := Injected | Woken | Revived | IrcFailed.

Definition irc_as_str (o : IrcDeliveryOutcome) : string :=
  match o with
  | Injected => "injected" | Woken => "woken" | Revived => "revived" | IrcFailed => "failed"
  end.

Record IrcDeliveryReceipt := MkIrcReceipt {
  irc_to : string; irc_outcome : IrcDeliveryOutcome; irc_error : option string }.

Record HubReceiverEvidence := MkHubEvidence { hub_receipt : IrcDeliveryReceipt }.

Inductive PaneIrcRefusal :=
  PaneTransportHasNoIrcReceipt (transport : string) (sender_exit : Z).

Definition record_hub_irc_receipt (r : IrcDeliveryReceipt) : HubReceiverEvidence :=
  MkHubEvidence r.

Definition pane_transport_cannot_use_irc_receipt (transport : string) (sender_exit : Z) :
    result PaneIrcRefusal IrcDeliveryReceipt :=
  Err (PaneTransportHasNoIrcReceipt transport sender_exit).

(** [maps_sender_exit_onto_irc_receipt]; [code_only] is the text-structure crate's. *)
Definition maps_sender_exit_onto_irc_receipt (code_only : string → string) (text : string) :
    bool :=
  let code := code_only text in
  contains code "IrcDeliveryReceipt"
  && (contains code "sender_exit" || contains code "sender.exit"
      || contains code "status.success()")
  && contains code "IrcDeliveryOutcome"
  && negb (contains code "PANE_TRANSPORT_HAS_NO_IRC_RECEIPT").

(** ** Properties. *)

(** a receipt is confirmed exactly when both captures are of the pane, the later is
    not stamped before the earlier, the stable content changed, and the pane either
    left idle for work that is no older than the wait plus the tolerance, or kept
    working with its timer reset; it is dead exactly when the pane is absent from a
    census that was taken. *)
Theorem receipt_confirmed_iff p pre post_send :
  (∀ tb ta ch, assess_receiver_receipt p pre post_send = ReceiptConfirmed p tb ta ch ↔
    ch = true ∧ pane_id pre = p ∧ ∃ post, post_send = PostPresent post ∧ pane_id post = p ∧
      (at_ pre <= at_ post)%N ∧ hash pre ≠ hash post ∧ state post = Working ta ∧
      ((tb = None ∧ state pre = Idle ∧
        (ta <= sat_add64 (at_ post - at_ pre) IDLE_TO_WORKING_TIMER_TOLERANCE_SECS)%N) ∨
       (∃ b, tb = Some b ∧ state pre = Working b ∧ (ta < b)%N))) ∧
  (assess_receiver_receipt p pre post_send = Dead p ↔
    pane_id pre = p ∧ post_send = PostAbsent).
Proof.
  unfold assess_receiver_receipt, sat_sub.
  destruct (bool_decide (pane_id pre = p)) eqn:Hpre; unbool; cbn [negb]; [|naive_solver].
  destruct post_send as [post| | |]; [|naive_solver..].
  destruct (bool_decide (pane_id post = p)) eqn:Hpost; unbool; cbn [negb]; [|naive_solver].
  destruct (state pre) as [b| | |b| |] eqn:Hs1, (state post) as [a| | |a| |] eqn:Hs2;
    cbn [is_dialog is_wedged orb]; cbv zeta;
    destruct (at_ post <? at_ pre)%N eqn:Hat; unbool;
    try (split; [intros tb ta ch|]; (split; [done|]); naive_solver lia).
  all: repeat match goal with |- context [if ?x then _ else _] => destruct x eqn:? end; unbool.
  all: split; [intros tb ta ch; split|naive_solver].
  all: try done.
  all: try (intros [= <- <- <-]; split_and!; try done; exists post; naive_solver).
  all: intros (-> & _ & post' & [= <-] & _ & _ & Hh & Hst &
         [(Htb & Hs & Hle)|(b' & Htb & Hs & Hlt)]); rewrite ?Hs2 in Hst; simplify_eq;
         try done; exfalso; lia.
Qed.

(** waiting for an ack owes a human exactly when two ordered captures of one pane
    end in a state that will not answer by itself (idle, wedged, a dialog, a provider
    refusal) or show a working timer that did not advance over the observation
    window; a worker is reported busy exactly when it did advance. *)
Theorem ack_wait_debt a b :
  (wait_owes_a_human (classify_ack_wait a b) = true ↔
    pane_id a = pane_id b ∧ (at_ a <= at_ b)%N ∧
    (state b = Idle ∨ state b = Wedged ∨ state b = ProviderError402 ∨
     (∃ t, state b = Dialog t) ∨
     (∃ t u, state a = Working t ∧ state b = Working u ∧ (u <= t)%N ∧
        (OBSERVATION_WINDOW_MIN_SECS <= at_ b - at_ a)%N))) ∧
  (∀ t u s, classify_ack_wait a b = BusyStillWorking t u s ↔
    pane_id a = pane_id b ∧ (at_ a <= at_ b)%N ∧ s = (at_ b - at_ a)%N ∧
    (OBSERVATION_WINDOW_MIN_SECS <= s)%N ∧
    state a = Working t ∧ state b = Working u ∧ (t < u)%N).
Proof.
  unfold classify_ack_wait.
  destruct (bool_decide (pane_id a = pane_id b)) eqn:Hp; unbool; cbn [negb];
    [|split; [|intros t u s]; (split; [done|naive_solver])].
  destruct (at_ b <? at_ a)%N eqn:Hat; unbool;
    [split; [|intros t u s]; (split; [done|intros (_ & ? & _); lia])|].
  destruct (state a) as [t0| | |t0| |], (state b) as [u0| | |u0| |]; cbv zeta.
  all: repeat match goal with |- context [if ?x then _ else _] => destruct x eqn:? end; unbool.
  all: split; [|intros t u s]; split; try discriminate.
  all: try (intros _; split_and!; [done|done|solve [eauto 10]]).
  all: try (intros [= <- <- <-]; split_and!; solve [done | lia]).
  all: naive_solver lia.
Qed.
