(* ===== verification/AckStage.v ===== *)
(** * The ack stage (crates/ack-stage/src/lib.rs)

    One dispatch's transport receipt, receiver receipt and tracker read-back are
    assessed together; the result chooses one follow-up action and one published
    verdict. *)

From stdpp Require Import base numbers list option strings.
From Stdlib Require Import NArith ZArith Ascii Lia.
From S2P Require Import Prelude RustStr Json Grading TickMonitor Receipt.

Open Scope N_scope.
Open Scope string_scope.

Definition MAX_RETRY_ATTEMPTS : N := 3.

(** The beat after an ACK: decide the grading moves, never close. *)
Definition impl_to_grading_after_ack `{Unicode} (candidates : list Grading.GradingCandidate)
    (eligible_graders : list string) : result ReportError (list Grading.GradingDecision) :=
  Grading.decide_all candidates eligible_graders.

(** ** Transports. *)

Inductive TransportKind := KNtmRobotSend | KTmuxSendKeysLiteral.

Definition kind_label (k : TransportKind) : string :=
  match k with
  | KNtmRobotSend => "ntm_robot_send" | KTmuxSendKeysLiteral => "tmux_send_keys_literal"
  end.

Definition kind_supports_delivery_claim (k : TransportKind) : bool :=
  match k with KNtmRobotSend => true | KTmuxSendKeysLiteral => false end.

Record NtmRobotSendReceipt := MkNtm {
  ntm_raw_json : string; targets : list string; successful : list string;
  failed : list string; blocked : bool }.

Record TmuxSendKeysMeasurement := MkTmux {
  tmux_raw_json : string; tmux_command : string; tmux_stdout : string;
  tmux_stderr : string; tmux_exit_code : option Z }.

Inductive TransportReceipt :=
  | NtmRobotSend (r : NtmRobotSendReceipt)
  | TmuxSendKeysLiteral (m : TmuxSendKeysMeasurement).

Definition kind (t : TransportReceipt) : TransportKind :=
  match t with NtmRobotSend _ => KNtmRobotSend | TmuxSendKeysLiteral _ => KTmuxSendKeysLiteral end.

Definition raw_json (t : TransportReceipt) : string :=
  match t with NtmRobotSend r => ntm_raw_json r | TmuxSendKeysLiteral m => tmux_raw_json m end.

Definition supports_delivery_claim (t : TransportReceipt) : bool :=
  kind_supports_delivery_claim (kind t).

Inductive TransportReceiptError :=
  | InvalidUtf8
  | InvalidJson (error : string)
  | NotAnObject
  | MissingField (field : string)
  | WrongFieldType (field : string).

Definition transport_error_display (e : TransportReceiptError) : string :=
  match e with
  | InvalidUtf8 => "transport stdout is not UTF-8"
  | InvalidJson e => "transport stdout is invalid JSON: " +:+ e
  | NotAnObject => "transport receipt is not a JSON object"
  | MissingField f => "transport receipt missing field " +:+ f
  | WrongFieldType f => "transport receipt field " +:+ f +:+ " has the wrong type"
  end.

(** Collecting fallible items: the first error wins. *)
Fixpoint collect {E A B} (f : A → result E B) (l : list A) : result E (list B) :=
  match l with
  | [] => Ok []
  | x :: l' => y ← f x; ys ← collect f l'; Ok (y :: ys)
  end.


Definition string_array (object : list (string * Json)) (field : string) :
    result TransportReceiptError (list string) :=
  v ← ok_or (map_get field object) (MissingField field);
  values ← ok_or (as_array v) (WrongFieldType field);
  collect (λ value, ok_or (as_str value) (WrongFieldType field)) values.

(** [capture_ntm]; UTF-8 validation and the parser's error text are parameters. *)
Definition capture_ntm `{SerdeJson} (utf8_valid : string → bool) (json_error : string → string)
    (stdout : string) : result TransportReceiptError TransportReceipt :=
  if negb (utf8_valid stdout) then Err InvalidUtf8 else
  value ← ok_or (from_str stdout) (InvalidJson (json_error stdout));
  object ← ok_or (as_object value) NotAnObject;
  b ← ok_or (map_get "blocked" object) (MissingField "blocked");
  blk ← ok_or (as_bool b) (WrongFieldType "blocked");
  t ← string_array object "targets";
  s ← string_array object "successful";
  f ← string_array object "failed";
  Ok (NtmRobotSend (MkNtm stdout t s f blk)).

(** [capture_codex]; the lossy text of bytes and serde_json's rendering of the five-field
    object are parameters. *)
Definition capture_codex (utf8_lossy : string → string)
    (object_text : string → string → string → string → option Z → string)
    (command stdout stderr : string) (exit_code : option Z) : TransportReceipt :=
  let out := utf8_lossy stdout in
  let err := utf8_lossy stderr in
  TmuxSendKeysLiteral (MkTmux (object_text (kind_label KTmuxSendKeysLiteral) command out err exit_code)
    command out err exit_code).

(** ** Human debts. *)

Inductive HumanRequiredReason :=
  | MoneySpending | IrreversibleAction | CredentialsOrApiKeys | ScopeOrTaste
  | CrossRepoConflict | PaneDialog | PaneUnreachable.

Definition from_receipt_verdict (v : ReceiptVerdict) : option HumanRequiredReason :=
  if negb (verdict_owes_a_human v) then None
  else match v with
       | Indeterminate _ r => match r with DialogOpen => Some PaneDialog | _ => None end
       | _ => None
       end.

Definition from_ack_wait (v : AckWaitVerdict) : option HumanRequiredReason :=
  if wait_owes_a_human v then Some PaneUnreachable else None.

Definition human_label (h : HumanRequiredReason) : string :=
  match h with
  | MoneySpending => "MONEY_SPENDING" | IrreversibleAction => "IRREVERSIBLE_ACTION"
  | CredentialsOrApiKeys => "CREDENTIALS_OR_API_KEYS" | ScopeOrTaste => "SCOPE_OR_TASTE"
  | CrossRepoConflict => "CROSS_REPO_CONFLICT" | PaneDialog => "PANE_DIALOG"
  | PaneUnreachable => "PANE_UNREACHABLE"
  end.

(** ** Comment times. *)

Open Scope Z_scope.

Definition i64_checked (z : Z) : option Z :=
  if (- 9223372036854775808 <=? z) && (z <=? 9223372036854775807) then Some z else None.

(** [unix_from_civil], on a year in the range of [i32]. *)
Definition unix_from_civil (y0 : Z) (m d hh mm ss : N) : option N :=
  if negb ((1 <=? m)%N && (m <=? 12)%N) || (d =? 0)%N || (31 <? d)%N || (23 <? hh)%N
     || (59 <? mm)%N || (60 <? ss)%N
  then None
  else
  let y := if (m <=? 2)%N then y0 - 1 else y0 in
  let era := y / 400 in
  let yoe := y - era * 400 in
  let mp := if (2 <? m)%N then Z.of_N m - 3 else Z.of_N m + 9 in
  let doy := (153 * mp + 2) / 5 + Z.of_N d - 1 in
  let doe := yoe * 365 + yoe / 4 - yoe / 100 + doy in
  let days := era * 146097 + doe - 719468 in
  a ← i64_checked (days * 86400);
  b ← i64_checked (a + Z.of_N hh * 3600);
  c ← i64_checked (b + Z.of_N mm * 60);
  secs ← i64_checked (c + Z.of_N ss);
  if secs <? 0 then None else Some (Z.to_N secs).

Close Scope Z_scope.

Definition i32_modulus : N := 2147483648.

Definition parse_rfc3339_z (s0 : string) : option N :=
  s ← strip_suffix "Z" s0;
  '(date, time) ← split_once "T" s;
  match split_char "-" date with
  | [ys; ms; ds] =>
      y ← parse_below i32_modulus ys;
      m ← parse_u32 ms;
      d ← parse_u32 ds;
      match split_char ":" (default "" (head (split_char "." time))) with
      | [hs; mis; ss] =>
          hh ← parse_u32 hs;
          mm ← parse_u32 mis;
          sec ← parse_u32 ss;
          unix_from_civil (Z.of_N y) m d hh mm sec
      | _ => None
      end
  | _ => None
  end.

Definition parse_comment_created_at (v : Json) : option N :=
  match as_u64 v with
  | Some n => Some n
  | None => as_str v ≫= parse_rfc3339_z
  end.

(** ** Tracker read-back. *)

Record AckComment := MkComment { text : string; created_at : option N }.

Record AckReadback := MkReadback {
  rb_bead_id : string; rb_pane_id : string; comments : list AckComment;
  dispatch_issued_at : option N }.

Inductive AckReadbackError :=
  | RbInvalidJson (error : string)
  | NotAnArray
  | MissingText (index : N)
  | WrongTextType (index : N)
  | EmptyAckCensus.

Definition readback_error_display (e : AckReadbackError) : string :=
  match e with
  | RbInvalidJson e => "comments JSON is invalid: " +:+ e
  | NotAnArray => "comments JSON is not an array"
  | MissingText i => "comment row " +:+ show_N i +:+ " has no text"
  | WrongTextType i => "comment row " +:+ show_N i +:+ " text is not a string"
  | EmptyAckCensus => "ACK_CENSUS_EMPTY"
  end.

Definition ack_token (bead_id : string) : string :=
  match rsplit_once "-" bead_id with Some (_, t) => t | None => bead_id end.

Definition ack_prefix (bead_id pane : string) : string :=
  "ACK " +:+ ack_token bead_id +:+ " on " +:+ pane +:+ " -- ".

Definition ack_instruction (bead_id : string) : string :=
  "br comments add " +:+ bead_id +:+ " --actor " +:+ dquote
  +:+ "$(agent name you resolve yourself)" +:+ dquote +:+ " " +:+ dquote +:+ "ACK "
  +:+ ack_token bead_id +:+ " on $TMUX_PANE -- agent=<same name> title=$(tmux display-message -p -t "
  +:+ dquote +:+ "$TMUX_PANE" +:+ dquote +:+ " '#{pane_title}')" +:+ dquote.

Inductive AckReadbackVerdict :=
  | Matched (comment : string)
  | AckMissing
  | PaneMismatch_ (expected got : string).

Definition readback_label (v : AckReadbackVerdict) : string :=
  match v with
  | Matched _ => "ACK_MATCHED" | AckMissing => "ACK_MISSING"
  | PaneMismatch_ _ _ => "ACK_PANE_MISMATCH"
  end.

Definition readback_display (v : AckReadbackVerdict) : string :=
  match v with
  | Matched c => "ACK_MATCHED comment=" +:+ c
  | AckMissing => "ACK_MISSING"
  | PaneMismatch_ e g => "ACK_PANE_MISMATCH expected=" +:+ e +:+ " got=" +:+ g
  end.

(** One row of [from_comments_json]. *)
Definition comment_row (index : N) (row : Json) : result AckReadbackError AckComment :=
  t ← ok_or (json_get "text" row) (MissingText index);
  s ← ok_or (as_str t) (WrongTextType index);
  Ok (MkComment s (json_get "created_at" row ≫= parse_comment_created_at)).

Fixpoint comment_rows (index : N) (rows : list Json) :
    result AckReadbackError (list AckComment) :=
  match rows with
  | [] => Ok []
  | r :: rows' => c ← comment_row index r; cs ← comment_rows (index + 1) rows'; Ok (c :: cs)
  end.

Definition from_comments_json `{SerdeJson} (json_error : string → string)
    (bead pane bytes : string) : result AckReadbackError AckReadback :=
  value ← ok_or (from_str bytes) (RbInvalidJson (json_error bytes));
  rows ← ok_or (as_array value) NotAnArray;
  match rows with
  | [] => Err EmptyAckCensus
  | _ => cs ← comment_rows 0 rows; Ok (MkReadback bead pane cs None)
  end.

Definition from_comments_json_pending `{SerdeJson} (json_error : string → string)
    (bead pane bytes : string) : result AckReadbackError AckReadback :=
  match from_comments_json json_error bead pane bytes with
  | Err EmptyAckCensus => Ok (MkReadback bead pane [] None)
  | other => other
  end.

Definition with_dispatch_issued_at (r : AckReadback) (issued_at : N) : AckReadback :=
  MkReadback (rb_bead_id r) (rb_pane_id r) (comments r) (Some issued_at).

Definition is_fresh (r : AckReadback) (created : option N) : bool :=
  match dispatch_issued_at r with
  | None => true
  | Some issued => match created with Some t => (issued <? t)%N | None => false end
  end.

(** The pane a comment acknowledges, when it is a fresh ACK from the session. *)
Definition ack_of (r : AckReadback) (bead pane : string) (session : list string)
    (c : AckComment) : option string :=
  rest ← strip_prefix ("ACK " +:+ ack_token bead +:+ " on ") (text c);
  '(got, _) ← split_once " -- " rest;
  if negb (is_fresh r (created_at c)) then None
  else if bool_decide (got = pane) || existsb (λ i, bool_decide (i = got)) session
  then Some got else None.

(** One comment of the newest-wins loop: the time, index, pane and text kept. *)
Definition newest_step (r : AckReadback) (bead pane : string) (session : list string)
    (newest : option (N * N * string * string)) (ic : N * AckComment) :
    option (N * N * string * string) :=
  match ack_of r bead pane session ic.2 with
  | None => newest
  | Some got =>
      let ts := default 0 (created_at ic.2) in
      let take :=
        match newest with
        | None => true
        | Some (prev_ts, prev_index, _, _) =>
            (prev_ts <? ts)%N || (ts =? prev_ts)%N && (prev_index <? ic.1)%N
        end in
      if take then Some (ts, ic.1, got, text ic.2) else newest
  end.

(** [Iterator::enumerate]. *)
Fixpoint enumerate {A} (i : N) (l : list A) : list (N * A) :=
  match l with [] => [] | x :: l' => (i, x) :: enumerate (i + 1) l' end.

Definition match_verdict_in_session (r : AckReadback) (bead pane : string)
    (session : list string) : AckReadbackVerdict :=
  if negb (bool_decide (rb_bead_id r = bead)) then AckMissing
  else
  match fold_left (newest_step r bead pane session) (enumerate 0 (comments r)) None with
  | None => AckMissing
  | Some (_, _, got, t) =>
      if bool_decide (got = pane) then Matched t else PaneMismatch_ pane got
  end.

Definition match_verdict_for (r : AckReadback) (bead pane : string) : AckReadbackVerdict :=
  match_verdict_in_session r bead pane [].

Definition matching_comment_for (r : AckReadback) (bead pane : string) : option string :=
  if negb (bool_decide (rb_bead_id r = bead)) || negb (bool_decide (rb_pane_id r = pane))
  then None
  else text <$> find_first (λ c, starts_with (text c) (ack_prefix bead pane)
                                && is_fresh r (created_at c)) (comments r).

Definition matching_comment (r : AckReadback) : option string :=
  matching_comment_for r (rb_bead_id r) (rb_pane_id r).

(** ** Assessing a dispatch. *)

Record AckStageInput := MkInput {
  in_bead_id : string; in_pane_id : string; in_transport : TransportReceipt;
  pre_send : Observation; post_send : PostSendObservation; ack : AckReadback;
  attempts_so_far : N; session_pane_ids : list string }.

Inductive AckAction :=
  | RecordReceipt (pane : string)
  | Retry (pane : string) (attempt max_attempts : N)
  | Unstick (pane : string) (reason : ReceiptReason)
  | AwaitHuman (pane : string) (reason : HumanRequiredReason)
  | AbandonDeadPane (pane : string)
  | RetryExhausted (pane : string) (attempts : N).

Definition action_label (a : AckAction) : string :=
  match a with
  | RecordReceipt _ => "RECORD_RECEIPT" | Retry _ _ _ => "RETRY" | Unstick _ _ => "UNSTICK"
  | AwaitHuman _ _ => "AWAIT_HUMAN" | AbandonDeadPane _ => "ABANDON_DEAD_PANE"
  | RetryExhausted _ _ => "RETRY_EXHAUSTED"
  end.

Definition is_retry (a : AckAction) : bool := match a with Retry _ _ _ => true | _ => false end.

Definition decide_remeasure (pane : string) (attempts : N) : AckAction :=
  if (attempts <? MAX_RETRY_ATTEMPTS)%N then Retry pane (attempts + 1) MAX_RETRY_ATTEMPTS
  else RetryExhausted pane attempts.

Definition decide (v : ReceiptVerdict) (attempts : N) : AckAction :=
  match v with
  | ReceiptConfirmed p _ _ _ => RecordReceipt p
  | AckConfirmed p _ => RecordReceipt p
  | Dead p => AbandonDeadPane p
  | Indeterminate p _ =>
      match from_receipt_verdict v with
      | Some h => AwaitHuman p h
      | None => decide_remeasure p attempts
      end
  | NoReceipt p reason =>
      match reason with
      | WedgedUnsubmitted => Unstick p reason
      | _ => decide_remeasure p attempts
      end
  end.

Record AckStageResult := MkResult {
  action : AckAction; delivery : ReceiptVerdict; transport : TransportReceipt;
  ack_comment : option string; ack_verdict : AckReadbackVerdict }.

Definition is_receipt_confirmed (v : ReceiptVerdict) : bool :=
  match v with ReceiptConfirmed _ _ _ _ => true | _ => false end.

Definition is_confirmed (r : AckStageResult) : bool :=
  match action r with RecordReceipt _ => true | _ => false end
  && match ack_comment r with Some _ => true | None => false end
  && match delivery r with
     | ReceiptConfirmed _ _ _ _ | AckConfirmed _ _ => true
     | _ => false
     end
  && supports_delivery_claim (transport r).

(** The receiver's verdict after the transport's own limit. *)
Definition limited_delivery (t : TransportReceipt) (receiver : ReceiptVerdict) : ReceiptVerdict :=
  match receiver with
  | ReceiptConfirmed p _ _ _ =>
      if negb (supports_delivery_claim t)
      then Indeterminate p (UnprovenTransport (kind_label (kind t)))
      else receiver
  | _ => receiver
  end.

Definition assess (i : AckStageInput) : AckStageResult :=
  let receiver := assess_receiver_receipt (in_pane_id i) (pre_send i) (post_send i) in
  let delivery0 := limited_delivery (in_transport i) receiver in
  let verdict := match_verdict_in_session (ack i) (in_bead_id i) (in_pane_id i)
                   (session_pane_ids i) in
  let comment := match verdict with Matched c => Some c | _ => None end in
  let delivery1 :=
    match verdict with
    | PaneMismatch_ e g => Indeterminate e (AckPaneMismatch e g)
    | _ =>
        match comment with
        | Some c =>
            if supports_delivery_claim (in_transport i) then AckConfirmed (in_pane_id i) c
            else delivery0
        | None =>
            if is_receipt_confirmed delivery0 then Indeterminate (in_pane_id i) AckReadbackMissing
            else delivery0
        end
    end in
  MkResult (decide delivery1 (attempts_so_far i)) delivery1 (in_transport i) comment verdict.

(** ** The published verdict. *)

Inductive DispatchVerdict :=
  | Delivered (r : AckStageResult)
  | VIndeterminate (reason : string) (t : TransportKind)
  | AckPending (after_secs : N) (discriminator : string)
  | Failed (detail : string).

Definition status_word (v : DispatchVerdict) : string :=
  match v with
  | Delivered _ => "DISPATCH_DELIVERED" | VIndeterminate _ _ => "DISPATCH_INDETERMINATE"
  | AckPending _ _ => "ACK_PENDING" | Failed _ => "DISPATCH_FAILED"
  end.

Definition is_failure (v : DispatchVerdict) : bool :=
  match v with Failed _ => true | _ => false end.

Definition packet_is_with_the_receiver (v : DispatchVerdict) : bool :=
  match v with Delivered _ | AckPending _ _ => true | _ => false end.

Definition detail (v : DispatchVerdict) : string :=
  match v with
  | Delivered r => "action=" +:+ action_label (action r) +:+ " verdict="
      +:+ verdict_label (delivery r) +:+ " transport=" +:+ kind_label (kind (transport r))
  | VIndeterminate reason t => "reason=" +:+ reason +:+ " transport=" +:+ kind_label t
  | AckPending s d => "after=" +:+ show_N s +:+ "s " +:+ d
  | Failed d => d
  end.

(** [Debug] of a human debt: its constructor. *)
Definition human_debug (h : HumanRequiredReason) : string :=
  match h with
  | MoneySpending => "MoneySpending" | IrreversibleAction => "IrreversibleAction"
  | CredentialsOrApiKeys => "CredentialsOrApiKeys" | ScopeOrTaste => "ScopeOrTaste"
  | CrossRepoConflict => "CrossRepoConflict" | PaneDialog => "PaneDialog"
  | PaneUnreachable => "PaneUnreachable"
  end.

(** [classify_dispatch]; [reason_debug] is the derived [Debug] of a receipt reason. *)
Definition classify_dispatch (reason_debug : ReceiptReason → string) (r : AckStageResult)
    (window_secs : N) : DispatchVerdict :=
  if is_confirmed r then Delivered r
  else if negb (supports_delivery_claim (transport r)) then
    VIndeterminate (verdict_label (delivery r)) (kind (transport r))
  else
  match action r with
  | Retry _ a _ => AckPending window_secs ("attempt=" +:+ show_N a)
  | RetryExhausted _ a => AckPending window_secs ("attempts=" +:+ show_N a)
  | RecordReceipt _ => VIndeterminate (verdict_label (delivery r)) (kind (transport r))
  | Unstick _ reason =>
      Failed ("action=" +:+ action_label (action r) +:+ " reason=" +:+ reason_debug reason)
  | AwaitHuman _ h =>
      Failed ("action=" +:+ action_label (action r) +:+ " reason=" +:+ human_debug h)
  | AbandonDeadPane p => Failed ("action=abandon_dead_pane pane=" +:+ p)
  end.

(** ** The Gregorian calendar, as a reference: days of years and months counted one
    by one from 1970. *)
Definition is_leap (y : Z) : bool :=
  ((y mod 4 =? 0) && negb (y mod 100 =? 0) || (y mod 400 =? 0))%Z.

Definition month_days (y : Z) (m : N) : Z :=
  if (m =? 2)%N then if is_leap y then 29 else 28
  else if existsb (N.eqb m) [4; 6; 9; 11]%N then 30 else 31.

(** Days from 1970-01-01 to the first of January, [n] years later. *)
Fixpoint days_of_years (n : nat) : Z :=
  match n with
  | O => 0
  | S n' => days_of_years n' + (if is_leap (1970 + Z.of_nat n') then 366 else 365)
  end%Z.

(** Days from the first of January to the first day of month [k + 1]. *)
Fixpoint days_of_months (y : Z) (k : nat) : Z :=
  match k with
  | O => 0
  | S k' => days_of_months y k' + month_days y (N.of_nat k)
  end%Z.

(** The better of two candidates: a later time, then a later row. *)
Definition newer (a b : N * N) : Prop := (a.1 < b.1 ∨ (a.1 = b.1 ∧ a.2 < b.2))%N.

(** ** Lemmas. *)

Open Scope Z_scope.

(** The first of January [n] years after 1970, by the closed form. *)
Lemma days_of_years_closed n :
  let y := 1970 + Z.of_nat n - 1 in
  days_of_years n = 365 * y + y / 4 - y / 100 + y / 400 - 719162.
Proof.
  cbv zeta. induction n as [|n IH]; [reflexivity|].
  cbn [days_of_years]. rewrite IH. unfold is_leap.
  replace (1970 + Z.of_nat (S n) - 1) with (1970 + Z.of_nat n) by lia.
  set (y := 1970 + Z.of_nat n). clearbody y. clear IH.
  destruct (Z.eqb_spec (y mod 4) 0), (Z.eqb_spec (y mod 100) 0), (Z.eqb_spec (y mod 400) 0);
    cbn [andb orb negb]; Z.to_euclidean_division_equations; lia.
Qed.

Lemma i64_checked_small z : - 1000000000000000000 <= z <= 1000000000000000000 →
  i64_checked z = Some z.
Proof.
  intros Hz. unfold i64_checked.
  rewrite (proj2 (Z.leb_le _ z)), (proj2 (Z.leb_le z _)) by lia. done.
Qed.

Definition year_day (y : Z) : Z := 365 * y + y / 4 - y / 100 + y / 400.

Lemma year_day_step y : year_day y = year_day (y - 1) + (if is_leap y then 366 else 365).
Proof.
  unfold year_day, is_leap.
  destruct (Z.eqb_spec (y mod 4) 0), (Z.eqb_spec (y mod 100) 0), (Z.eqb_spec (y mod 400) 0);
    cbn [andb orb negb]; Z.to_euclidean_division_equations; lia.
Qed.

(** The source's era arithmetic is the same count of days. *)
Lemma era_days y :
  let era := y / 400 in let yoe := y - era * 400 in
  era * 146097 + (yoe * 365 + yoe / 4 - yoe / 100) = year_day y.
Proof. cbv zeta. unfold year_day. Z.to_euclidean_division_equations; lia. Qed.

(** Days from 1 March of the source's shifted year to the month, against the
    month-by-month count. *)
Lemma month_days_closed y m :
  (1 <= m <= 12)%N →
  let y' := if (m <=? 2)%N then y - 1 else y in
  let mp := if (2 <? m)%N then Z.of_N m - 3 else Z.of_N m + 9 in
  year_day y' + (153 * mp + 2) / 5 - 719468 =
  year_day (y - 1) - 719162 + days_of_months y (N.to_nat m - 1).
Proof.
  intros Hm. cbv zeta. pose proof (year_day_step y) as Hy.
  assert (m ∈ [1;2;3;4;5;6;7;8;9;10;11;12]%N) as Hin.
  { rewrite !elem_of_cons. lia. }
  rewrite !elem_of_cons, elem_of_nil in Hin.
  repeat destruct Hin as [->|Hin]; [..|done].
  all: match goal with |- context [days_of_months _ ?n] =>
         let v := eval vm_compute in n in change n with v end.
  all: match goal with |- context [?a / 5] =>
         let v := eval vm_compute in (a / 5) in change (a / 5) with v end.
  all: cbn -[year_day is_leap Z.sub Z.add].
  all: repeat match goal with |- context [N.of_nat ?n] =>
         let v := eval vm_compute in (N.of_nat n) in change (N.of_nat n) with v end.
  all: unfold month_days; cbn -[year_day is_leap Z.sub Z.add].
  all: rewrite ?Hy; destruct (is_leap y); lia.
Qed.

Lemma days_of_years_bound n : 0 <= days_of_years n <= 366 * Z.of_nat n.
Proof. induction n as [|n IH]; cbn [days_of_years]; [lia|]. destruct (is_leap _); lia. Qed.

Lemma days_of_months_bound y k : 0 <= days_of_months y k <= 31 * Z.of_nat k.
Proof.
  induction k as [|k IH]; cbn [days_of_months]; [lia|].
  unfold month_days. repeat case_match; lia.
Qed.

(** The fields the source accepts. *)
Definition civil_fields (m d hh mm ss : N) : Prop :=
  (1 <= m <= 12 ∧ 1 <= d <= 31 ∧ hh <= 23 ∧ mm <= 59 ∧ ss <= 60)%N.

(** Seconds of a civil time, counted day by day from 1970. *)
Definition civil_secs (n : nat) (m d hh mm ss : N) : Z :=
  (days_of_years n + days_of_months (1970 + Z.of_nat n) (N.to_nat m - 1) + Z.of_N d - 1) * 86400
  + Z.of_N hh * 3600 + Z.of_N mm * 60 + Z.of_N ss.

(** The source's day number, with its era arithmetic. *)
Lemma civil_days n m d : (1 <= m <= 12)%N →
  let y0 := 1970 + Z.of_nat n in
  let y := if (m <=? 2)%N then y0 - 1 else y0 in
  let era := y / 400 in
  let yoe := y - era * 400 in
  let mp := if (2 <? m)%N then Z.of_N m - 3 else Z.of_N m + 9 in
  let doy := (153 * mp + 2) / 5 + Z.of_N d - 1 in
  let doe := yoe * 365 + yoe / 4 - yoe / 100 + doy in
  era * 146097 + doe - 719468
  = days_of_years n + days_of_months y0 (N.to_nat m - 1) + Z.of_N d - 1.
Proof.
  intros Hm. cbv zeta.
  pose proof (days_of_years_closed n) as Hy. cbv zeta in Hy.
  pose proof (month_days_closed (1970 + Z.of_nat n) m Hm) as Hmd. cbv zeta in Hmd.
  set (y := if (m <=? 2)%N then _ else _) in *.
  pose proof (era_days y) as He. cbv zeta in He.
  unfold year_day in *. lia.
Qed.

Lemma civil_guard m d hh mm ss :
  negb ((1 <=? m)%N && (m <=? 12)%N) || (d =? 0)%N || (31 <? d)%N || (23 <? hh)%N
     || (59 <? mm)%N || (60 <? ss)%N = false ↔ civil_fields m d hh mm ss.
Proof.
  unfold civil_fields.
  rewrite !orb_false_iff, negb_false_iff, andb_true_iff, !N.leb_le, N.eqb_neq, !N.ltb_ge. lia.
Qed.

(** from 1970 on, [unix_from_civil] accepts exactly the fields of month 1-12, day
    1-31, hour up to 23, minute up to 59 and second up to 60, and then returns the
    seconds counted year by year and month by month in the Gregorian calendar (a day
    past the month's end runs into the next month); it never overflows for a year of
    32 bits. *)
Theorem unix_from_civil_gregorian n m d hh mm ss t :
  Z.of_nat n <= 2147483647 →
  unix_from_civil (1970 + Z.of_nat n) m d hh mm ss = Some t ↔
    civil_fields m d hh mm ss ∧ Z.of_N t = civil_secs n m d hh mm ss.
Proof.
  intros Hn. unfold unix_from_civil.
  destruct (negb _ || _ || _ || _ || _ || _) eqn:Hg.
  { split; [done|]. intros [Hf%civil_guard _]. congruence. }
  apply civil_guard in Hg. pose proof Hg as (Hm & Hd & Hhh & Hmm & Hss).
  pose proof (civil_days n m d Hm) as Hdays. cbv zeta in Hdays |- *. rewrite Hdays.
  pose proof (days_of_years_bound n).
  pose proof (days_of_months_bound (1970 + Z.of_nat n) (N.to_nat m - 1)).
  unfold civil_secs. set (D := days_of_years n + _ + _ - 1) in *.
  assert (0 <= D <= 800000000000) by lia.
  do 4 (rewrite i64_checked_small by lia; cbn [mbind option_bind]).
  rewrite (proj2 (Z.ltb_ge _ 0)) by lia. split.
  - intros [= <-]. split; [done|]. lia.
  - intros [_ Ht]. f_equal. lia.
Qed.

(** A leap day of 2024, and a 31 February that is 2 March. *)
Lemma unix_from_civil_gregorian_witness :
  Z.of_nat 54 <= 2147483647 ∧
  (unix_from_civil 2024 2 31 0 0 60 = Some 1709337660%N).
Proof.
  split; [lia|].
  apply (proj2 (unix_from_civil_gregorian 54 2 31 0 0 60 1709337660 ltac:(lia))).
  split; [unfold civil_fields; lia | vm_compute; reflexivity].
Defined.

Close Scope Z_scope.

(** ** The newest acknowledgement. *)

Lemma enumerate_app {A} (l k : list A) i :
  enumerate i (l ++ k) = (enumerate i l ++ enumerate (i + N.of_nat (length l)) k)%list.
Proof.
  revert i. induction l as [|x l IH]; intros i; cbn [app enumerate length].
  - by rewrite N.add_0_r.
  - rewrite IH. do 3 f_equal. lia.
Qed.

(** The key of a comment: its time (0 when it has none) and its row. *)
Definition ack_key (j : nat) (c : AckComment) : N * N := (default 0 (created_at c), N.of_nat j).

(** A comment acknowledges the pane [got] for a bead: it starts with the bead's
    acknowledgement, the pane is what stands before the first dash, that pane is the asked
    one or one of the session, and when the time of the dispatch is known the comment is
    dated after it. *)
Definition acknowledges (r : AckReadback) (bead pane : string) (session : list string)
    (c : AckComment) (got : string) : Prop :=
  (∃ rest tail, text c = "ACK " +:+ ack_token bead +:+ " on " +:+ rest ∧ split_once " -- " rest = Some (got, tail)) ∧
  (got = pane ∨ got ∈ session) ∧
  match dispatch_issued_at r with
  | Some issued => ∃ t, created_at c = Some t ∧ (issued < t)%N
  | None => True
  end.

Lemma ack_of_iff r bead pane session c got :
  ack_of r bead pane session c = Some got ↔ acknowledges r bead pane session c got.
Proof.
  assert (is_fresh r (created_at c) = true ↔
    match dispatch_issued_at r with Some issued => ∃ t, created_at c = Some t ∧ (issued < t)%N | None => True end) as Hfresh.
  { unfold is_fresh. destruct (dispatch_issued_at r); [|done]. destruct (created_at c); [rewrite N.ltb_lt|]; naive_solver. }
  assert (∀ g, bool_decide (g = pane) || existsb (λ i, bool_decide (i = g)) session = true ↔ g = pane ∨ g ∈ session) as Hsession.
  { intros g. rewrite orb_true_iff, bool_decide_eq_true, existsb_exists. f_equiv.
    split; [intros (x & Hx & ->%bool_decide_eq_true); by apply list_elem_of_In|].
    intros Hg. exists g. split; [by apply list_elem_of_In|by apply bool_decide_eq_true]. }
  unfold acknowledges, ack_of. rewrite <-Hfresh. split.
    intros (rest & Hrest & Hr)%bind_Some. revert Hr. intros ([g tail] & Hs & Hr)%bind_Some.
    destruct (is_fresh _ _); [|done]. destruct (_ || _) eqn:Hg; [|done]. injection Hr as <-.
    split_and!; [|by apply Hsession|done]. exists rest, tail. split; [|done]. apply strip_prefix_Some in Hrest as ->. by rewrite !str_app_assoc.
  - intros ((rest & tail & -> & Hs) & Hg%Hsession & Hf). rewrite !str_app_assoc, strip_prefix_app. cbn.
    rewrite Hs. cbn. by rewrite Hf, Hg.
Qed.

(** Comment [i] acknowledges [got], and every other acknowledging comment is older. *)
Definition newest_ack (r : AckReadback) (bead pane : string) (session : list string)
    (i : nat) (c : AckComment) (got : string) : Prop :=
  comments r !! i = Some c ∧ acknowledges r bead pane session c got ∧
  ∀ j c' got', comments r !! j = Some c' → acknowledges r bead pane session c' got' →
    j ≠ i → newer (ack_key j c') (ack_key i c).

Lemma newest_fold r bead pane session l :
  match fold_left (newest_step r bead pane session) (enumerate 0 l) None with
  | None => ∀ j c, l !! j = Some c → ack_of r bead pane session c = None
  | Some (ts, ix, got, t) => ∃ i c, l !! i = Some c ∧ (ts, ix) = ack_key i c ∧ t = text c ∧
      ack_of r bead pane session c = Some got ∧
      ∀ j c' got', l !! j = Some c' → ack_of r bead pane session c' = Some got' →
        j ≠ i → newer (ack_key j c') (ack_key i c)
  end.
Proof.
  induction l as [|x l IH] using rev_ind; [done|].
  rewrite enumerate_app, fold_left_app. cbn [enumerate fold_left].
  rewrite N.add_0_l. unfold newest_step at 1. cbn [fst snd].
  assert (Hlast : ∀ j c, (l ++ [x])%list !! j = Some c → l !! j = Some c ∨
            (j = length l ∧ c = x)).
  { intros j c [Hl|[Hj Hx]]%lookup_app_Some; [by left|right].
    apply list_lookup_singleton_Some in Hx as [? ->]. split; [lia|done]. }
  assert (Hlen : ∀ j c, l !! j = Some c → (j < length l)%nat)
    by (intros j c Hj; by apply lookup_lt_Some in Hj).
  destruct (ack_of r bead pane session x) as [gx|] eqn:Hx;
    destruct (fold_left _ _ None) as [[[[ts ix] got] t]|].
  - destruct IH as (i & c & Hi & [= -> ->] & -> & Hc & Hall).
    destruct (_ || _) eqn:Htake; unfold ack_key, newer in *; cbn [fst snd] in *.
    + rewrite orb_true_iff, andb_true_iff, !N.ltb_lt, N.eqb_eq in Htake.
      exists (length l), x. rewrite lookup_app_r, Nat.sub_diag by lia.
      split_and!; try done.
      intros j c' g' [Hj|[-> _]]%Hlast Hg Hne; [|done].
      destruct (base.decide (j = i)) as [->|Hji].
      * assert (c' = c) as -> by congruence. lia.
      * pose proof (Hall _ _ _ Hj Hg Hji). lia.
    + rewrite orb_false_iff, andb_false_iff, !N.ltb_ge, N.eqb_neq in Htake.
      exists i, c. rewrite lookup_app_l by eauto. split_and!; try done.
      intros j c' g' [Hj|[-> ->]]%Hlast Hg Hne; [eauto|].
      pose proof (Hlen _ _ Hi). lia.
  - exists (length l), x. rewrite lookup_app_r, Nat.sub_diag by lia. split_and!; try done.
    intros j c' g' [Hj|[-> _]]%Hlast Hg Hne; [|done]. by rewrite (IH _ _ Hj) in Hg.
  - destruct IH as (i & c & Hi & Hk & -> & Hc & Hall). exists i, c.
    rewrite lookup_app_l by eauto. split_and!; try done.
    intros j c' g' [Hj|[-> ->]]%Hlast Hg Hne; [eauto|congruence].
  - intros j c [Hj|[-> ->]]%Hlast; eauto.
Qed.

Lemma newer_asym a b : newer a b → newer b a → False.
Proof. unfold newer. lia. Qed.

Lemma newest_ack_unique r bead pane session i c got i' c' got' :
  newest_ack r bead pane session i c got → newest_ack r bead pane session i' c' got' →
  i = i' ∧ c = c' ∧ got = got'.
Proof.
  intros (Hi & Hc & Hall) (Hi' & Hc' & Hall').
  destruct (base.decide (i = i')) as [->|Hne].
  { assert (c = c') as -> by congruence. apply ack_of_iff in Hc, Hc'. split_and!; congruence. }
  exfalso. eapply newer_asym; [eapply Hall'|eapply Hall]; eauto.
Qed.

(** Either nothing acknowledges, or one comment is the newest that does. *)
Lemma match_verdict_cases r bead pane session : rb_bead_id r = bead →
  (match_verdict_in_session r bead pane session = AckMissing ∧
   ∀ c got, c ∈ comments r → ¬ acknowledges r bead pane session c got) ∨
  (∃ i c got, newest_ack r bead pane session i c got ∧
   match_verdict_in_session r bead pane session =
     if bool_decide (got = pane) then Matched (text c) else PaneMismatch_ pane got).
Proof.
  intros Hb. unfold match_verdict_in_session. rewrite bool_decide_true by done. cbn [negb].
  pose proof (newest_fold r bead pane session (comments r)) as Hf.
  destruct (fold_left _ _ None) as [[[[ts ix] got] t]|].
  - right. destruct Hf as (i & c & Hi & _ & -> & Hc & Hall).
    exists i, c, got. split; [|done]. split; [done|]. split; [by apply ack_of_iff|].
    intros j c' got' Hj Ha%ack_of_iff. by eapply Hall.
  - left. split; [done|]. intros c got [j Hj]%list_elem_of_lookup Ha%ack_of_iff. by rewrite (Hf _ _ Hj) in Ha.
Qed.

(** the read-back of a bead is decided by the newest comment (by time, then by row)
    that acknowledges it, after the dispatch, on the pane or another pane of the
    session: it is matched when that comment names the pane, a mismatch when it names
    another, and missing exactly when the bead differs or no comment acknowledges. *)
Theorem newest_ack_wins r bead pane session :
  (∀ t, match_verdict_in_session r bead pane session = Matched t ↔
     rb_bead_id r = bead ∧ ∃ i c, newest_ack r bead pane session i c pane ∧ text c = t) ∧
  (∀ e g, match_verdict_in_session r bead pane session = PaneMismatch_ e g ↔
     rb_bead_id r = bead ∧ e = pane ∧ g ≠ pane ∧
     ∃ i c, newest_ack r bead pane session i c g) ∧
  (match_verdict_in_session r bead pane session = AckMissing ↔
     (rb_bead_id r = bead → ∀ c got, c ∈ comments r → ¬ acknowledges r bead pane session c got)).
Proof.
  destruct (base.decide (rb_bead_id r = bead)) as [Hb|Hb].
  2: { unfold match_verdict_in_session. rewrite bool_decide_false by done. naive_solver. }
  destruct (match_verdict_cases r bead pane session Hb)
    as [[-> Hnone]|(i & c & got & Hnew & ->)].
  - assert (∀ i c g, newest_ack r bead pane session i c g → False) as Hno.
    { intros i c g (Hi & Hg & _). apply list_elem_of_lookup_2 in Hi. by eapply Hnone. }
    naive_solver.
  - assert (∃ c g, c ∈ comments r ∧ acknowledges r bead pane session c g) as (c0 & g0 & Hc0 & Hn0).
    { destruct Hnew as (Hi & Hg & _). exists c, got. split; [by eapply list_elem_of_lookup_2|done]. }
    assert (∀ i' c' g', newest_ack r bead pane session i' c' g' → c' = c ∧ g' = got) as Hu.
    { intros i' c' g' H'. by destruct (newest_ack_unique _ _ _ _ _ _ _ _ _ _ H' Hnew)
        as (-> & -> & ->). }
    destruct (bool_decide (got = pane)) eqn:Hg; unbool; [subst got|];
      (split; [|split; [|split; [done|intros Hall; by destruct (Hall Hb _ _ Hc0 Hn0)]]]).
    + intros t. split; [intros [= <-]; eauto|].
      intros (_ & i' & c' & [-> _]%Hu & <-). done.
    + intros e g. split; [done|]. intros (_ & _ & Hne & i' & c' & [_ ->]%Hu). done.
    + intros t. split; [done|]. intros (_ & i' & c' & [_ ->]%Hu & _). done.
    + intros e g. split; [intros [= <- <-]; eauto 10|].
      intros (_ & -> & _ & i' & c' & [_ ->]%Hu). done.
Qed.

(** ** The published verdict. *)

Section Published.

Context (i : AckStageInput).

Let match_v := match_verdict_in_session (ack i) (in_bead_id i) (in_pane_id i) (session_pane_ids i).
Let receiver := assess_receiver_receipt (in_pane_id i) (pre_send i) (post_send i).
Let ntm := supports_delivery_claim (in_transport i).

(** The receiver states that end a dispatch: nothing more is sent. *)
Definition terminal_receiver (v : ReceiptVerdict) : Prop :=
  (∃ p, v = Dead p) ∨ (∃ p, v = Indeterminate p DialogOpen) ∨
  (∃ p, v = NoReceipt p WedgedUnsubmitted).

Lemma assess_confirmed :
  is_confirmed (assess i) = true ↔ ntm = true ∧ ∃ c, match_v = Matched c.
Proof.
  unfold is_confirmed, assess. fold receiver match_v ntm. cbn [action delivery transport ack_comment].
  destruct match_v as [c| |e g]; cbn; fold ntm.
  - destruct ntm eqn:Hn; cbn; [naive_solver|].
    rewrite andb_false_r. naive_solver.
  - rewrite andb_false_r. naive_solver.
  - rewrite !andb_false_r. naive_solver.
Qed.

Lemma assess_transport : transport (assess i) = in_transport i.
Proof. done. Qed.

Lemma assess_retry_bound p a m :
  action (assess i) = Retry p a m →
  m = MAX_RETRY_ATTEMPTS ∧ (attempts_so_far i < m)%N ∧ a = (attempts_so_far i + 1)%N.
Proof.
  unfold assess. cbn [action]. generalize (delivery (assess i)). intros _.
  match goal with |- decide ?d _ = _ → _ => generalize d end. intros d.
  unfold decide, decide_remeasure.
  destruct d as [| |? []| |? []]; cbn; repeat case_match; unbool; naive_solver.
Qed.

(** Without a match, the transport's limit and the missing ack only turn a confirmed
    receipt into one to measure again; every other receiver verdict is acted on. *)
Lemma assess_action_missing : match_v = AckMissing →
  action (assess i) =
    match receiver with
    | ReceiptConfirmed p _ _ _ => decide_remeasure (if ntm then in_pane_id i else p) (attempts_so_far i)
    | v => decide v (attempts_so_far i)
    end.
Proof.
  intros Hm. unfold assess. fold receiver match_v. rewrite Hm. cbn [action].
  unfold limited_delivery. fold ntm. destruct receiver; try done. by destruct ntm.
Qed.

Lemma receiver_never_acked p c : receiver ≠ AckConfirmed p c.
Proof.
  unfold receiver, assess_receiver_receipt. repeat case_match; try done; cbv zeta; repeat case_match; done.
Qed.

End Published.

Lemma decide_remeasure_cases p a :
  (∃ n m, decide_remeasure p a = Retry p n m) ∨ (∃ n, decide_remeasure p a = RetryExhausted p n).
Proof. unfold decide_remeasure. case_match; eauto. Qed.

(** The verdict, told by the verdict on the read-back comments. *)
Lemma verdict_of_match dbg i w :
  let m := match_verdict_in_session (ack i) (in_bead_id i) (in_pane_id i) (session_pane_ids i) in
  let ntm := supports_delivery_claim (in_transport i) in
  let receiver := assess_receiver_receipt (in_pane_id i) (pre_send i) (post_send i) in
  let v := classify_dispatch dbg (assess i) w in
  (v = Delivered (assess i) ↔ ntm = true ∧ ∃ c, m = Matched c) ∧
  ((∃ s k, v = VIndeterminate s k) ↔ ntm = false) ∧
  (is_failure v = true ↔ ntm = true ∧ m = AckMissing ∧ terminal_receiver receiver) ∧
  ((∃ d, v = AckPending w d) ↔
     ntm = true ∧ (∀ c, m ≠ Matched c) ∧ ¬ (m = AckMissing ∧ terminal_receiver receiver)).
Proof.
  cbv zeta. unfold terminal_receiver.
  pose proof (assess_confirmed i) as Hconf. pose proof (assess_action_missing i) as Hmiss.
  pose proof (receiver_never_acked i) as Hna.
  unfold classify_dispatch. rewrite assess_transport.
  set (rv := assess_receiver_receipt _ _ _) in *.
  destruct (supports_delivery_claim (in_transport i)) eqn:Hn; cbn [negb].
  2: { destruct (is_confirmed (assess i)); [naive_solver|]. naive_solver. }
  destruct (match_verdict_in_session _ _ _ _) as [c| |e g] eqn:Hm.
  - rewrite (proj2 Hconf) by eauto. naive_solver.
  - assert (is_confirmed (assess i) = false) as ->.
    { apply not_true_is_false. naive_solver. }
    rewrite Hmiss by done. clear Hconf Hmiss.
    destruct rv as [p ? ? ?|p c|p r|p|p r]; [| naive_solver | | naive_solver |].
    + destruct (decide_remeasure_cases (in_pane_id i) (attempts_so_far i)) as [(n & x & ->)|(n & ->)];
        naive_solver.
    + cbn [decide]. destruct (decide_remeasure_cases p (attempts_so_far i)) as [(n & x & Hd)|(n & Hd)];
        destruct r; rewrite ?Hd; naive_solver.
    + cbn [decide]. destruct (decide_remeasure_cases p (attempts_so_far i)) as [(n & x & Hd)|(n & Hd)];
        destruct r; cbn [from_receipt_verdict verdict_owes_a_human negb]; rewrite ?Hd; naive_solver.
  - assert (is_confirmed (assess i) = false) as ->.
    { apply not_true_is_false. naive_solver. }
    unfold assess. rewrite Hm. cbn [action decide from_receipt_verdict verdict_owes_a_human negb].
    destruct (decide_remeasure_cases e (attempts_so_far i)) as [(n & x & ->)|(n & ->)]; naive_solver.
Qed.

(** The newest acknowledgement of the bead is the pane's own, with this text. *)
Definition own_ack (i : AckStageInput) (t : string) : Prop :=
  rb_bead_id (ack i) = in_bead_id i ∧
  ∃ k c, newest_ack (ack i) (in_bead_id i) (in_pane_id i) (session_pane_ids i) k c (in_pane_id i) ∧ text c = t.
(** No comment acknowledges the bead from any pane of the session. *)
Definition no_ack (i : AckStageInput) : Prop :=
  rb_bead_id (ack i) = in_bead_id i →
  ∀ c got, c ∈ comments (ack i) → ¬ acknowledges (ack i) (in_bead_id i) (in_pane_id i) (session_pane_ids i) c got.

(** C13: the published verdict of a dispatch.  A comment acknowledges the bead when it
    starts with the acknowledgement's text naming the pane or another pane of the session,
    and is dated after the dispatch where the dispatch's time is known; the newest one is
    the latest by time, then by row.  The verdict is delivered exactly when the packet went
    over ntm and the newest acknowledgement is the pane's own, whatever the receiver's timer
    shows, and then it keeps that comment; indeterminate exactly for any other transport;
    failed exactly when ntm has no acknowledgement at all and the receiver is dead, blocked
    on a dialog or wedged; pending in every other case, even one where the receiver saw
    nothing arrive. *)
Theorem published_verdict dbg i w :
  let ntm := kind (in_transport i) = KNtmRobotSend in
  let receiver := assess_receiver_receipt (in_pane_id i) (pre_send i) (post_send i) in
  let v := classify_dispatch dbg (assess i) w in
  (v = Delivered (assess i) ↔ ntm ∧ ∃ t, own_ack i t) ∧
  (∀ t, own_ack i t → ack_comment (assess i) = Some t) ∧
  ((∃ s k, v = VIndeterminate s k) ↔ ¬ ntm) ∧
  (is_failure v = true ↔ ntm ∧ no_ack i ∧ terminal_receiver receiver) ∧
  ((∃ d, v = AckPending w d) ↔
     ntm ∧ ¬ (∃ t, own_ack i t) ∧ ¬ (no_ack i ∧ terminal_receiver receiver)).
Proof.
  pose proof (newest_ack_wins (ack i) (in_bead_id i) (in_pane_id i) (session_pane_ids i)) as (Hown & _ & Hnone).
  pose proof (verdict_of_match dbg i w) as (Hd & Hi & Hf & Hp). fold (no_ack i) in Hnone.
  assert (∀ t, match_verdict_in_session (ack i) (in_bead_id i) (in_pane_id i) (session_pane_ids i) = Matched t ↔ own_ack i t)
    as Hown' by apply Hown.
  assert (supports_delivery_claim (in_transport i) = true ↔ kind (in_transport i) = KNtmRobotSend) as Hntm
    by (unfold supports_delivery_claim; by destruct (kind (in_transport i))).
  assert ((∃ t, match_verdict_in_session (ack i) (in_bead_id i) (in_pane_id i) (session_pane_ids i) = Matched t) ↔
          ∃ t, own_ack i t) as Hex by (split; intros [t Ht]; exists t; by apply Hown').
  assert ((∀ t, match_verdict_in_session (ack i) (in_bead_id i) (in_pane_id i) (session_pane_ids i) ≠ Matched t) ↔
          ¬ ∃ t, own_ack i t) as Hall by (rewrite <-Hex; split; [intros Hn [t Ht]; by apply (Hn t)|eauto]).
  cbv zeta. rewrite Hd, Hi, Hf, Hp, Hex, Hall, Hnone, <-Hntm, not_true_iff_false. split_and!; try done.
  intros t Ht%Hown'. cbn [assess ack_comment]. by rewrite Ht.
Qed.
