(* ===== verification/AckSpine.v ===== *)
(** * The ack spine (crates/ack-spine/src/: authorities.rs, ack.rs, ledger.rs, spine.rs)

    One dispatch records three independent facts (the transport's, the receiver's and
    the tracker's) through a step ledger; a durable marker written before the first step
    blocks a retry until all three agree.

    The caller's context, the clock and the file system are the environment: an
    operation takes the outcome of each checkpoint, clock reading and file operation it
    performs as an argument, so a theorem about every argument is about every schedule of
    cancellations and faults. *)

From stdpp Require Import base countable numbers list option strings pretty.
From Stdlib Require Import NArith ZArith Ascii Lia.
From S2P Require Import Prelude RustStr Json TickMonitor Receipt.

Open Scope N_scope.
Open Scope string_scope.

Definition show_Z (z : Z) : string := pretty z.

(** ** The three authorities. *)

Inductive TransportAuthority := Succeeded (receipt : string) | TFailed (detail : string).

Inductive DeliveryAuthority := Observed (receipt : ReceiptVerdict) | NotObserved (reason : string).

Inductive AckAuthority := ReadBack (bead_id comment_id : string) | NotReadBack (reason : string).

Record AckEvidence := MkEvidence {
  ev_transport : TransportAuthority; ev_delivery : DeliveryAuthority;
  ev_acknowledgement : AckAuthority }.

Definition transport_succeeded (e : AckEvidence) : bool :=
  match ev_transport e with Succeeded _ => true | TFailed _ => false end.

Definition delivery_observed (e : AckEvidence) : bool :=
  match ev_delivery e with Observed (ReceiptConfirmed _ _ _ _) => true | _ => false end.

Definition acknowledgement_read_back (e : AckEvidence) : bool :=
  match ev_acknowledgement e with ReadBack _ _ => true | NotReadBack _ => false end.

Definition fully_acknowledged (e : AckEvidence) : bool :=
  transport_succeeded e && delivery_observed e && acknowledgement_read_back e.

Record AckSummary := MkSummary {
  sum_transport : bool; sum_delivery : bool; sum_ack : bool; sum_full : bool }.

Definition summary (e : AckEvidence) : AckSummary :=
  MkSummary (transport_succeeded e) (delivery_observed e) (acknowledgement_read_back e)
    (fully_acknowledged e).

(** ** The tracker read-back. *)

Inductive AckVerdict :=
  | Confirmed (bead_id marker : string)
  | Missing (bead_id marker : string)
  | Unverifiable (bead_id detail : string).

Definition ack_verdict_display (v : AckVerdict) : string :=
  match v with
  | Confirmed b m => "ACK_CONFIRMED: '" +:+ m +:+ "' found exactly once in " +:+ b +:+ " comments"
  | Missing b m => "ACK_MISSING: '" +:+ m +:+ "' not found in " +:+ b
      +:+ " — the comment was not confirmed"
  | Unverifiable b d => "ACK_UNVERIFIABLE: " +:+ b +:+ " — " +:+ d +:+ " (an ERROR, not 'no ack')"
  end.

Definition marker_occurrences (read_back marker : string) : N := count_matches marker read_back.

Definition classify_ack_readback (bead marker : string) (exit_code : option Z)
    (stdout stderr : string) : AckVerdict :=
  match exit_code with
  | Some code =>
      if (code =? 0)%Z then
        if is_empty marker then
          Unverifiable bead "ack marker is empty; a singular marker is required"
        else
        let count := marker_occurrences stdout marker in
        if (count =? 0)%N then Missing bead marker
        else if (count =? 1)%N then Confirmed bead marker
        else Unverifiable bead ("ack marker appears " +:+ show_N count
               +:+ " times in br comments list output; exactly one is required")
      else Unverifiable bead ("br comments list exited " +:+ show_Z code +:+ ": " +:+ stderr)
  | None => Unverifiable bead ("br spawn failed: " +:+ stderr)
  end.

(** What [run_output] gave: the child's exit code, output and error, or its failure. *)
Inductive RunOutput := Ran (code : option Z) (stdout stderr : string) | RunFailed (error : string).

Definition detect_ack (run : RunOutput) (bead marker : string) : AckVerdict :=
  match run with
  | Ran code stdout stderr => classify_ack_readback bead marker code stdout stderr
  | RunFailed error => classify_ack_readback bead marker None "" error
  end.

(** What the singular verb produced; it never posts a comment. *)
Record SingularTrapResult := MkTrap {
  trap_exit_code : option Z; trap_stderr : string; comment_landed : bool }.

Definition simulate_singular_trap (run : RunOutput) : SingularTrapResult :=
  match run with
  | Ran code _ stderr => MkTrap code stderr false
  | RunFailed error => MkTrap None error false
  end.

(** ** The step ledger. *)

Inductive LedgerError :=
  | LEmpty
  | CountMismatch (rows steps_taken : nat)
  | HeadDerivedFromWorktree (figure path : string)
  | HeadRevisionMismatch (figure expected observed : string).

Definition ledger_error_display (e : LedgerError) : string :=
  match e with
  | LEmpty => "ANTI_VACUITY: zero steps observed is an ERROR, never a clean dispatch"
  | CountMismatch r s => "STEP_COUNT_ASSERTION_FAILED: rows=" +:+ show_N (N.of_nat r)
      +:+ " steps_taken=" +:+ show_N (N.of_nat s)
  | HeadDerivedFromWorktree f p => "HEAD_FIGURE_WORKTREE_REFUSED figure=" +:+ f +:+ " read_path=" +:+ p
  | HeadRevisionMismatch f e o => "HEAD_FIGURE_REVISION_MISMATCH figure=" +:+ f
      +:+ " expected_head=" +:+ e +:+ " observed_head=" +:+ o
  end.

Inductive TreeSource := Head (revision : string) | Worktree (path : string).

Record HeadDerivedFigure := MkFigure {
  fig_name : string; fig_value : string; fig_valid_at : Z; fig_observed_at : Z;
  head_revision : string; read_from : TreeSource }.

Definition validate_head_provenance (f : HeadDerivedFigure) : result LedgerError unit :=
  match read_from f with
  | Head revision =>
      if bool_decide (revision = head_revision f) then Ok tt
      else Err (HeadRevisionMismatch (fig_name f) (head_revision f) revision)
  | Worktree path => Err (HeadDerivedFromWorktree (fig_name f) path)
  end.

Inductive StepKind :=
  | BeadSelected | PacketRendered | FenceChecked | PacketSent | ReceiverVerified
  | ReceiverTimedOut | GradeRequested | GradeReceived | Closed | ClosedWithoutGrade
  | Redispatched | AckReadBack.

#[global] Instance StepKind_eq_dec : EqDecision StepKind.
Proof. solve_decision. Defined.

Definition step_kind_str (k : StepKind) : string :=
  match k with
  | BeadSelected => "bead_selected" | PacketRendered => "packet_rendered"
  | FenceChecked => "fence_checked" | PacketSent => "packet_sent"
  | ReceiverVerified => "receiver_verified" | ReceiverTimedOut => "receiver_timed_out"
  | GradeRequested => "grade_requested" | GradeReceived => "grade_received"
  | Closed => "closed" | ClosedWithoutGrade => "closed_without_grade"
  | Redispatched => "redispatched" | AckReadBack => "ack_read_back"
  end.

Record StepRecord := MkRow {
  row_kind : StepKind; row_bead : string; row_pane : string; row_session : string;
  valid_at_unix : Z; observed_at_unix : Z; row_detail : string }.

Definition row_display (r : StepRecord) : string :=
  step_kind_str (row_kind r) +:+ " " +:+ row_bead r +:+ " " +:+ row_pane r +:+ " "
  +:+ row_session r +:+ " " +:+ row_detail r.

Record StepLedger := MkLedger {
  rows : list StepRecord; steps_taken : nat; head_derived_figures : list HeadDerivedFigure }.

Definition ledger_new : StepLedger := MkLedger [] 0 [].

Definition record_head_derived_figure (l : StepLedger) (f : HeadDerivedFigure) :
    StepLedger * result LedgerError unit :=
  match validate_head_provenance f with
  | Err e => (l, Err e)
  | Ok _ => (MkLedger (rows l) (steps_taken l) (app (head_derived_figures l) [f]), Ok tt)
  end.

Definition emit (l : StepLedger) (r : StepRecord) : StepLedger :=
  MkLedger (app (rows l) [r]) (S (steps_taken l)) (head_derived_figures l).

Definition assert_step_count (l : StepLedger) : result LedgerError unit :=
  if negb (Nat.eqb (length (rows l)) (steps_taken l))
  then Err (CountMismatch (length (rows l)) (steps_taken l)) else Ok tt.

Definition is_consistent (l : StepLedger) : bool :=
  Nat.eqb (length (rows l)) (steps_taken l).

Definition assert_non_empty (l : StepLedger) : result LedgerError unit :=
  match rows l, steps_taken l with [], O => Err LEmpty | _, _ => Ok tt end.

Definition last_kind (l : StepLedger) : option StepKind := row_kind <$> last (rows l).

(** One line of [to_jsonl]; [json_str] is serde_json's rendering of a string. *)
Definition wire_row (json_str : string → string) (r : StepRecord) : string :=
  let key k := dquote +:+ k +:+ dquote +:+ ":" in
  "{" +:+ key "kind" +:+ json_str (step_kind_str (row_kind r))
  +:+ "," +:+ key "bead" +:+ json_str (row_bead r)
  +:+ "," +:+ key "pane" +:+ json_str (row_pane r)
  +:+ "," +:+ key "session" +:+ json_str (row_session r)
  +:+ "," +:+ key "ts" +:+ show_Z (observed_at_unix r)
  +:+ "," +:+ key "detail" +:+ json_str (row_detail r)
  +:+ "," +:+ key "valid_at" +:+ show_Z (valid_at_unix r)
  +:+ "," +:+ key "observed_at" +:+ show_Z (observed_at_unix r) +:+ "}".

Definition to_jsonl (json_str : string → string) (l : StepLedger) : string :=
  join lf_str (map (wire_row json_str) (rows l)).

Inductive StepError := StepCancelled (last : option StepKind) | StepLedgerError (e : LedgerError).

(** What the environment does during one step: the two checkpoints and the two clock
    readings ([None]: a clock before the epoch). *)
Record StepEnv := MkStepEnv {
  cancelled_before : bool; clock_before : option N; clock_after : option N;
  cancelled_after : bool }.

(** [as_secs() as i64], 0 when the clock is before the epoch. *)
Definition clock_secs (c : option N) : Z :=
  match c with
  | None => 0%Z
  | Some n => if (n <? 9223372036854775808)%N then Z.of_N n else (Z.of_N n - 18446744073709551616)%Z
  end.

(** [step]; the effect runs between the two clock readings and cannot reach the ledger. *)
Definition step (e : StepEnv) (l : StepLedger) (kind : StepKind)
    (bead pane session detail : string) : StepLedger * result StepError unit :=
  if cancelled_before e then (l, Err (StepCancelled (last_kind l)))
  else
  let l' := emit l (MkRow kind bead pane session (clock_secs (clock_before e))
                      (clock_secs (clock_after e)) detail) in
  if cancelled_after e then (l', Err (StepCancelled (last_kind l')))
  else match assert_step_count l' with
       | Err x => (l', Err (StepLedgerError x))
       | Ok _ => (l', Ok tt)
       end.

(** ** The durable marker. *)

Record DispatchIntent := MkIntent { in_bead : string; in_pane : string; in_session : string }.

Record PendingDispatch := MkPending {
  pd_intent : DispatchIntent; last_step : option string; pd_reason : string }.

Inductive SpineError :=
  | SCancelled
  | EmptyLedger
  | InconsistentLedger (detail : string)
  | MissingAuthority (name : string)
  | Io (error : string)
  | MarkerParse (error : string)
  | Process (error : string).

Definition spine_error_display (e : SpineError) : string :=
  match e with
  | SCancelled => "ACK_SPINE_CANCELLED"
  | EmptyLedger => "ACK_SPINE_EMPTY_LEDGER"
  | InconsistentLedger d => "ACK_SPINE_INCONSISTENT_LEDGER: " +:+ d
  | MissingAuthority n => "ACK_SPINE_MISSING_AUTHORITY: " +:+ n
  | Io e => "ACK_SPINE_MARKER_IO: " +:+ e
  | MarkerParse e => "ACK_SPINE_MARKER_PARSE: " +:+ e
  | Process e => "ACK_SPINE_PROCESS: " +:+ e
  end.

(** The marker's JSON encoding: serde_json's, on the derived [Serialize]. *)
Class MarkerCodec := {
  to_vec_pretty : PendingDispatch → result string string;
  from_slice : string → result string PendingDispatch }.

(** What serde's derived encoding and decoding promise together. *)
Class MarkerRoundtrip `{MarkerCodec} :=
  marker_roundtrip : ∀ p b, to_vec_pretty p = Ok b → from_slice b = Ok p.

(** The faults of one [persist]: each file operation fails with an error or succeeds. *)
Record PersistEnv := MkPersistEnv {
  create_dir_all : option string; write_fault : option string; rename_fault : option string }.

(** The file of the store's path: its bytes, or none. *)
Definition Disk := option string.

Definition io (fault : option string) : result SpineError unit :=
  match fault with Some e => Err (Io e) | None => Ok tt end.

(** [persist]: written beside the marker, then renamed over it. *)
Definition persist `{MarkerCodec} (e : PersistEnv) (p : PendingDispatch) (d : Disk) :
    Disk * result SpineError unit :=
  match (_ ← io (create_dir_all e);
         encoded ← map_err MarkerParse (to_vec_pretty p);
         _ ← io (write_fault e);
         _ ← io (rename_fault e);
         mret encoded) with
  | Err x => (d, Err x)
  | Ok encoded => (Some encoded, Ok tt)
  end.

(** [std::io::ErrorKind], as far as the store asks. *)
Inductive IoOutcome (A : Type) := IoOk (a : A) | IoNotFound | IoFailed (error : string).
Arguments IoOk {A} a.
Arguments IoNotFound {A}.
Arguments IoFailed {A} error.

Definition fs_read (fault : option string) (d : Disk) : IoOutcome string :=
  match fault, d with
  | Some e, _ => IoFailed e | None, Some b => IoOk b | None, None => IoNotFound
  end.

Definition fs_remove_file (fault : option string) (d : Disk) : Disk * IoOutcome unit :=
  match fault, d with
  | Some e, _ => (d, IoFailed e) | None, Some _ => (None, IoOk tt) | None, None => (None, IoNotFound)
  end.

Definition load `{MarkerCodec} (fault : option string) (d : Disk) :
    result SpineError (option PendingDispatch) :=
  match fs_read fault d with
  | IoOk bytes => p ← map_err MarkerParse (from_slice bytes); Ok (Some p)
  | IoNotFound => Ok None
  | IoFailed e => Err (Io e)
  end.

Definition clear (fault : option string) (d : Disk) : Disk * result SpineError unit :=
  let '(d', o) := fs_remove_file fault d in
  (d', match o with IoOk _ => Ok tt | IoNotFound => Ok tt | IoFailed e => Err (Io e) end).

Definition retry_allowed (d : Disk) : bool := match d with Some _ => false | None => true end.

(** ** The coordinator. *)

Record AckSpine := MkSpine {
  sp_intent : DispatchIntent; sp_ledger : StepLedger;
  sp_transport : option TransportAuthority; sp_delivery : option DeliveryAuthority;
  sp_acknowledgement : option AckAuthority }.

Definition spine_new (i : DispatchIntent) : AckSpine := MkSpine i ledger_new None None None.

(** The coordinator and the marker it keeps. *)
Record World := MkWorld { spine : AckSpine; disk : Disk }.

(** An operation: it changes the world and succeeds or fails; a failure keeps the
    changes made before it. *)
Definition M (A : Type) : Type := World → World * result SpineError A.

#[global] Instance M_ret : MRet M := λ A a w, (w, Ok a).
#[global] Instance M_bind : MBind M := λ A B f m w,
  match m w with
  | (w', Ok a) => f a w'
  | (w', Err e) => (w', Err e)
  end.

Definition fail {A} (e : SpineError) : M A := λ w, (w, Err e).
Definition lift {A} (r : result SpineError A) : M A := λ w, (w, r).
Definition gets {A} (f : World → A) : M A := λ w, (w, Ok (f w)).
Definition on_spine (f : AckSpine → AckSpine) : M unit :=
  λ w, (MkWorld (f (spine w)) (disk w), Ok tt).
Definition on_disk {A} (f : Disk → Disk * result SpineError A) : M A :=
  λ w, let '(d, r) := f (disk w) in (MkWorld (spine w) d, r).

Definition checkpoint (cancelled : bool) : M unit :=
  if cancelled then fail SCancelled else mret tt.

Definition step_error (e : StepError) : SpineError :=
  match e with
  | StepCancelled _ => SCancelled
  | StepLedgerError x => InconsistentLedger (ledger_error_display x)
  end.

Definition with_ledger (l : StepLedger) (s : AckSpine) : AckSpine :=
  MkSpine (sp_intent s) l (sp_transport s) (sp_delivery s) (sp_acknowledgement s).

Definition emit_step (e : StepEnv) (kind : StepKind) (detail : string) : M unit := λ w,
  let i := sp_intent (spine w) in
  let '(l, r) := step e (sp_ledger (spine w)) kind (in_bead i) (in_pane i) (in_session i) detail in
  (MkWorld (with_ledger l (spine w)) (disk w), map_err step_error r).

Definition pending_snapshot (s : AckSpine) (reason : string) : PendingDispatch :=
  MkPending (sp_intent s) (step_kind_str <$> last_kind (sp_ledger s)) reason.

Definition persist_pending `{MarkerCodec} (e : PersistEnv) (reason : string) : M unit := λ w,
  on_disk (persist e (pending_snapshot (spine w) reason)) w.

Definition begin `{MarkerCodec} (cp : bool) (p1 : PersistEnv) (s : StepEnv) (p2 : PersistEnv) :
    M unit :=
  _ ← checkpoint cp;
  _ ← persist_pending p1 "dispatch_started";
  _ ← emit_step s BeadSelected "intent recorded";
  persist_pending p2 "bead_selected".

Definition packet_rendered `{MarkerCodec} (s : StepEnv) (p : PersistEnv) : M unit :=
  _ ← emit_step s PacketRendered "packet rendered from bead";
  persist_pending p "packet_rendered".

Definition transport_detail (a : TransportAuthority) : string :=
  match a with
  | Succeeded receipt => "transport succeeded: " +:+ receipt
  | TFailed detail => "transport failed: " +:+ detail
  end.

Definition set_transport (a : TransportAuthority) (s : AckSpine) : AckSpine :=
  MkSpine (sp_intent s) (sp_ledger s) (Some a) (sp_delivery s) (sp_acknowledgement s).

Definition record_transport `{MarkerCodec} (s : StepEnv) (p : PersistEnv)
    (a : TransportAuthority) : M unit :=
  _ ← emit_step s PacketSent (transport_detail a);
  _ ← on_spine (set_transport a);
  persist_pending p "transport_recorded".

Definition show_bool (b : bool) : string := if b then "true" else "false".
Definition option_N_debug (o : option N) : string :=
  match o with Some n => "Some(" +:+ show_N n +:+ ")" | None => "None" end.

Definition delivery_row (a : DeliveryAuthority) : StepKind * string :=
  match a with
  | Observed (ReceiptConfirmed pane before after changed) =>
      (ReceiverVerified, "delivery receipt confirmed pane=" +:+ pane +:+ " timer_before_secs="
         +:+ option_N_debug before +:+ " timer_after_secs=" +:+ show_N after
         +:+ " stable_content_changed=" +:+ show_bool changed)
  | Observed (AckConfirmed pane comment) =>
      (ReceiverVerified, "delivery ack confirmed pane=" +:+ pane +:+ " comment=" +:+ comment)
  | Observed (NoReceipt pane reason) =>
      (ReceiverTimedOut, "delivery no receipt pane=" +:+ pane +:+ " reason=" +:+ reason_display reason)
  | Observed (Dead pane) => (ReceiverTimedOut, "delivery dead pane=" +:+ pane)
  | Observed (Indeterminate pane reason) =>
      (ReceiverTimedOut, "delivery indeterminate pane=" +:+ pane +:+ " reason="
         +:+ reason_display reason)
  | NotObserved reason => (ReceiverTimedOut, "delivery absent: " +:+ reason)
  end.

Definition set_delivery (a : DeliveryAuthority) (s : AckSpine) : AckSpine :=
  MkSpine (sp_intent s) (sp_ledger s) (sp_transport s) (Some a) (sp_acknowledgement s).

Definition record_delivery `{MarkerCodec} (s : StepEnv) (p : PersistEnv)
    (a : DeliveryAuthority) : M unit :=
  let '(kind, detail) := delivery_row a in
  _ ← emit_step s kind detail;
  _ ← on_spine (set_delivery a);
  persist_pending p "delivery_recorded".

Definition ack_detail (a : AckAuthority) : string :=
  match a with
  | ReadBack _ comment => "ack read back: " +:+ comment
  | NotReadBack reason => "ack absent: " +:+ reason
  end.

Definition set_ack (a : AckAuthority) (s : AckSpine) : AckSpine :=
  MkSpine (sp_intent s) (sp_ledger s) (sp_transport s) (sp_delivery s) (Some a).

Definition record_ack `{MarkerCodec} (s : StepEnv) (p : PersistEnv) (a : AckAuthority) : M unit :=
  _ ← emit_step s AckReadBack (ack_detail a);
  _ ← on_spine (set_ack a);
  persist_pending p "ack_recorded".

Definition ack_authority (bead : string) (v : AckVerdict) : AckAuthority :=
  match v with
  | Confirmed _ marker => ReadBack bead marker
  | Missing _ _ => NotReadBack "marker absent from br comments list"
  | Unverifiable _ detail => NotReadBack ("tracker unreadable: " +:+ detail)
  end.

Definition read_ack `{MarkerCodec} (run : RunOutput) (marker : string) (s : StepEnv)
    (p : PersistEnv) : M AckVerdict :=
  bead ← gets (λ w, in_bead (sp_intent (spine w)));
  let verdict := detect_ack run bead marker in
  _ ← record_ack s p (ack_authority bead verdict);
  mret verdict.

Definition cancel `{MarkerCodec} (p : PersistEnv) (reason : string) : M unit :=
  _ ← persist_pending p reason;
  count ← gets (λ w, assert_step_count (sp_ledger (spine w)));
  lift (map_err (λ e, InconsistentLedger (ledger_error_display e)) count).

Definition evidence (s : AckSpine) : result SpineError AckEvidence :=
  t ← ok_or (sp_transport s) (MissingAuthority "transport");
  d ← ok_or (sp_delivery s) (MissingAuthority "delivery");
  a ← ok_or (sp_acknowledgement s) (MissingAuthority "ack");
  Ok (MkEvidence t d a).

Definition finish `{MarkerCodec} (cp : bool) (p : PersistEnv) (remove_fault : option string) :
    M AckEvidence :=
  _ ← checkpoint cp;
  l ← gets (λ w, sp_ledger (spine w));
  _ ← lift (map_err (λ _, EmptyLedger) (assert_non_empty l));
  _ ← lift (map_err (λ e, InconsistentLedger (ledger_error_display e)) (assert_step_count l));
  s ← gets spine;
  ev ← lift (evidence s);
  _ ← (if fully_acknowledged ev then on_disk (clear remove_fault)
       else persist_pending p "incomplete_authorities");
  mret ev.

Definition recoverable_intent `{MarkerCodec} (fault : option string) (w : World) :
    result SpineError (option PendingDispatch) := load fault (disk w).

(** One call on a coordinator, with what its environment does. *)
Inductive Op :=
  | OBegin (cp : bool) (p1 : PersistEnv) (s : StepEnv) (p2 : PersistEnv)
  | OPacketRendered (s : StepEnv) (p : PersistEnv)
  | ORecordTransport (s : StepEnv) (p : PersistEnv) (a : TransportAuthority)
  | ORecordDelivery (s : StepEnv) (p : PersistEnv) (a : DeliveryAuthority)
  | ORecordAck (s : StepEnv) (p : PersistEnv) (a : AckAuthority)
  | OReadAck (run : RunOutput) (marker : string) (s : StepEnv) (p : PersistEnv)
  | OCancel (p : PersistEnv) (reason : string)
  | OFinish (cp : bool) (p : PersistEnv) (remove_fault : option string).

Definition run_op `{MarkerCodec} (o : Op) (w : World) : World :=
  match o with
  | OBegin cp p1 s p2 => (begin cp p1 s p2 w).1
  | OPacketRendered s p => (packet_rendered s p w).1
  | ORecordTransport s p a => (record_transport s p a w).1
  | ORecordDelivery s p a => (record_delivery s p a w).1
  | ORecordAck s p a => (record_ack s p a w).1
  | OReadAck run m s p => (read_ack run m s p w).1
  | OCancel p reason => (cancel p reason w).1
  | OFinish cp p rf => (finish cp p rf w).1
  end.

Definition run_ops `{MarkerCodec} (ops : list Op) (w : World) : World :=
  fold_left (λ w o, run_op o w) ops w.

(** ** Lemmas. *)

Definition consistent (l : StepLedger) : Prop := length (rows l) = steps_taken l.

Lemma assert_step_count_ok l : assert_step_count l = Ok tt ↔ consistent l.
Proof.
  unfold assert_step_count, consistent. destruct (Nat.eqb_spec (length (rows l)) (steps_taken l));
    cbn [negb]; naive_solver.
Qed.

Lemma emit_consistent l r : consistent l → consistent (emit l r).
Proof. unfold consistent, emit. cbn. rewrite length_app. cbn. lia. Qed.

Lemma last_kind_emit l r : last_kind (emit l r) = Some (row_kind r).
Proof. unfold last_kind, emit. cbn. by rewrite last_snoc. Qed.

(** What an operation may do to a world: keep the intent, only add rows, keep the
    ledger consistent and a written marker present and readable as this intent's, and
    set an authority only to a value the predicates allow. *)
Record op_rel `{MarkerCodec} (T : TransportAuthority → Prop) (D : DeliveryAuthority → Prop)
    (A : AckAuthority → Prop) (w w' : World) : Prop := {
  rel_intent : sp_intent (spine w') = sp_intent (spine w);
  rel_rows : rows (sp_ledger (spine w)) `prefix_of` rows (sp_ledger (spine w'));
  rel_consistent : consistent (sp_ledger (spine w)) → consistent (sp_ledger (spine w'));
  rel_transport : sp_transport (spine w') = sp_transport (spine w) ∨
    ∃ a, sp_transport (spine w') = Some a ∧ T a;
  rel_delivery : sp_delivery (spine w') = sp_delivery (spine w) ∨
    ∃ a, sp_delivery (spine w') = Some a ∧ D a;
  rel_ack : sp_acknowledgement (spine w') = sp_acknowledgement (spine w) ∨
    ∃ a, sp_acknowledgement (spine w') = Some a ∧ A a;
  rel_marker : disk w ≠ None → disk w' ≠ None;
  rel_disk : disk w' = disk w ∨ ∃ b p, disk w' = Some b ∧ to_vec_pretty p = Ok b ∧
    pd_intent p = sp_intent (spine w) }.

Section Ops.

Context `{MarkerCodec}.
Context (T : TransportAuthority → Prop) (D : DeliveryAuthority → Prop) (A : AckAuthority → Prop).

#[local] Instance op_rel_preorder : PreOrder (op_rel T D A).
Proof.
  split.
  - intros w. by split; auto.
  - intros w1 w2 w3 [] []. split; try congruence; try (etrans; eassumption); auto.
    + destruct rel_transport1 as [->|]; auto.
    + destruct rel_delivery1 as [->|]; auto.
    + destruct rel_ack1 as [->|]; auto.
    + destruct rel_disk1 as [->|(b & p & ? & ? & ?)]; [done|]. right. exists b, p.
      split_and!; congruence.
Qed.

(** Every run of [m] stays within [op_rel]. *)
Definition respects {B} (m : M B) : Prop := ∀ w, op_rel T D A w (m w).1.

Lemma respects_bind {B C} (m : M B) (f : B → M C) :
  respects m → (∀ b, respects (f b)) → respects (m ≫= f).
Proof.
  intros Hm Hf w. specialize (Hm w). unfold mbind, M_bind.
  destruct (m w) as [w' [b|e]]; cbn in *; [|done].
  etrans; [exact Hm|]. apply Hf.
Qed.

Lemma respects_same {B} (m : M B) : (∀ w, (m w).1 = w) → respects m.
Proof. intros Hm w. by rewrite Hm. Qed.

Lemma respects_checkpoint cp : respects (checkpoint cp).
Proof. apply respects_same. by destruct cp. Qed.

Lemma respects_emit_step s k d : respects (emit_step s k d).
Proof.
  intros w. unfold emit_step, step.
  destruct (cancelled_before s); cbn; [split; cbn; auto|].
  set (l := emit _ _). assert (consistent (sp_ledger (spine w)) → consistent l) as Hc
    by apply emit_consistent.
  assert (rows (sp_ledger (spine w)) `prefix_of` rows l) by (unfold l, emit; cbn; by eexists).
  destruct (cancelled_after s); [|destruct (assert_step_count l)]; cbn; split; cbn; auto.
Qed.

Lemma respects_persist p reason : respects (persist_pending p reason).
Proof.
  intros w. unfold persist_pending, on_disk, persist, io, mbind, result_bind, map_err, mret, result_ret.
  destruct (create_dir_all p), (to_vec_pretty (pending_snapshot (spine w) reason)) eqn:He,
    (write_fault p), (rename_fault p); cbn; split; cbn; eauto 10.
Qed.

Lemma respects_transport a : T a → respects (on_spine (set_transport a)).
Proof. intros Ha w. split; cbn; eauto. Qed.
Lemma respects_delivery a : D a → respects (on_spine (set_delivery a)).
Proof. intros Ha w. split; cbn; eauto. Qed.
Lemma respects_ack a : A a → respects (on_spine (set_ack a)).
Proof. intros Ha w. split; cbn; eauto. Qed.

Lemma respects_gets {B} (f : World → B) : respects (gets f).
Proof. by apply respects_same. Qed.
Lemma respects_lift {B} (r : result SpineError B) : respects (lift r).
Proof. by apply respects_same. Qed.
Lemma respects_mret {B} (b : B) : respects (mret b).
Proof. by apply respects_same. Qed.

End Ops.

Create HintDb spine.
#[export] Hint Resolve respects_bind respects_checkpoint respects_emit_step respects_persist
  respects_transport respects_delivery respects_ack respects_gets respects_lift respects_mret
  : spine.

(** What an operation can record. *)
Definition op_transport (o : Op) (a : TransportAuthority) : Prop :=
  match o with ORecordTransport _ _ b => a = b | _ => False end.
Definition op_delivery (o : Op) (a : DeliveryAuthority) : Prop :=
  match o with ORecordDelivery _ _ b => a = b | _ => False end.
Definition op_ack (o : Op) (a : AckAuthority) : Prop :=
  match o with
  | ORecordAck _ _ b => a = b
  | OReadAck run m _ _ => ∃ bead, a = ack_authority bead (detect_ack run bead m)
  | _ => False
  end.

Ltac respects_solve :=
  repeat first [ apply respects_bind; [|intros ?]
               | solve [eauto with spine]
               | match goal with |- respects _ _ _ (let '(_, _) := ?x in _) => destruct x end ].

Section Run.

Context `{MarkerCodec}.

(** A finish that does not clear the marker stays within [op_rel]; one that does has
    full evidence and touches nothing else. *)
Lemma finish_cases T D A cp p rf w :
  op_rel T D A w (finish cp p rf w).1 ∨
  (∃ ev, evidence (spine w) = Ok ev ∧ fully_acknowledged ev = true ∧
    spine (finish cp p rf w).1 = spine w ∧
    (disk (finish cp p rf w).1 = disk w ∨ disk (finish cp p rf w).1 = None)).
Proof.
  unfold finish, checkpoint, lift, gets, fail, mbind, M_bind, mret, M_ret.
  destruct cp; [left; by apply (respects_same _ _ _ (λ w, (w, Err SCancelled)))|].
  assert (∀ w0, op_rel T D A w0 w0) as Hrefl by (intros; by split; auto).
  destruct (assert_non_empty _) as [[]|]; cbn; [|by left].
  destruct (assert_step_count _) as [[]|]; cbn; [|by left].
  destruct (evidence (spine w)) as [ev|]; cbn; [|by left].
  destruct (fully_acknowledged ev) eqn:Hf.
  - right. exists ev. unfold on_disk, clear, fs_remove_file.
    destruct rf, (disk w) eqn:Hd; cbn; rewrite ?Hd; auto.
  - left. pose proof (respects_persist T D A p "incomplete_authorities" w) as Hp.
    destruct (persist_pending p "incomplete_authorities" w) as [w' [[]|]]; done.
Qed.

Lemma run_op_cases o w :
  op_rel (op_transport o) (op_delivery o) (op_ack o) w (run_op o w) ∨
  (∃ ev, evidence (spine w) = Ok ev ∧ fully_acknowledged ev = true ∧
    spine (run_op o w) = spine w ∧
    (disk (run_op o w) = disk w ∨ disk (run_op o w) = None)).
Proof.
  destruct o; cbn [run_op]; [left..|apply finish_cases];
    match goal with |- op_rel ?T ?D ?A w (?m w).1 =>
      enough (respects T D A m) as Hm by apply Hm end;
    unfold begin, packet_rendered, record_transport, record_delivery, record_ack, read_ack, cancel.
  - respects_solve.
  - respects_solve.
  - respects_solve. by apply respects_transport.
  - destruct (delivery_row a). respects_solve. by apply respects_delivery.
  - unfold record_ack. respects_solve. by apply respects_ack.
  - unfold record_ack. respects_solve. apply respects_ack. cbn. eauto.
  - respects_solve.
Qed.

End Run.

(** ** Singular markers. *)

(** [p] occurs in [s], and not again after its first occurrence. *)
Definition occurs_once (p s : string) : Prop :=
  ∃ a b, split_once p s = Some (a, b) ∧ contains b p = false.

Lemma count_matches_zero p s : count_matches p s = 0%N ↔ contains s p = false.
Proof.
  unfold count_matches, contains. cbn [count_matches_fuel].
  destruct (split_once p s) as [[a b]|]; naive_solver lia.
Qed.

Lemma count_matches_one p s : p ≠ "" → count_matches p s = 1%N ↔ occurs_once p s.
Proof.
  intros Hp. unfold count_matches, occurs_once. cbn [count_matches_fuel].
  destruct (split_once p s) as [[a b]|] eqn:Hs; [|naive_solver lia].
  assert (∃ n, String.length s = S n) as [n ->].
  { apply split_once_app in Hs as ->. destruct p as [|c p]; [done|].
    rewrite !str_app_length. cbn. exists (String.length a + (String.length p + String.length b))%nat. lia. }
  cbn [count_matches_fuel]. unfold contains.
  destruct (split_once p b) as [[x y]|] eqn:Hb; split.
  - lia.
  - intros (a' & b' & [= <- <-] & Hn). by rewrite Hb in Hn.
  - intros _. exists a, b. by rewrite Hb.
  - intros _. lia.
Qed.

Lemma readback_confirmed bead m code out err b c :
  classify_ack_readback bead m code out err = Confirmed b c ↔
  code = Some 0%Z ∧ m ≠ "" ∧ occurs_once m out ∧ b = bead ∧ c = m.
Proof.
  unfold classify_ack_readback, marker_occurrences.
  destruct code as [z|]; [|naive_solver].
  destruct (Z.eqb_spec z 0) as [->|]; [|naive_solver].
  destruct m as [|d m]; [naive_solver|]. cbn [is_empty].
  set (mm := String d m) in *. assert (mm ≠ "") as Hm by done.
  pose proof (count_matches_one mm out Hm) as H1.
  destruct (N.eqb_spec (count_matches mm out) 0) as [H0|H0].
  { split; [done|]. intros (_ & _ & Ho & _). apply H1 in Ho. lia. }
  destruct (N.eqb_spec (count_matches mm out) 1); naive_solver.
Qed.

(** A tracker read-back confirms an ack exactly when the listing exited 0 and the
    marker is non-empty and occurs once, with no second occurrence after the first; an
    exit code alone, an empty or repeated marker, or a failed spawn never confirm. *)
Theorem ack_readback_spec bead m code out err :
  (∀ b c, classify_ack_readback bead m code out err = Confirmed b c ↔
     code = Some 0%Z ∧ m ≠ "" ∧ occurs_once m out ∧ b = bead ∧ c = m) ∧
  (∀ b c, classify_ack_readback bead m code out err = Missing b c ↔
     code = Some 0%Z ∧ m ≠ "" ∧ contains out m = false ∧ b = bead ∧ c = m).
Proof.
  split; intros b c; [apply readback_confirmed|].
  unfold classify_ack_readback, marker_occurrences.
  destruct code as [z|]; [|naive_solver].
  destruct (Z.eqb_spec z 0) as [->|]; [|naive_solver].
  destruct m as [|d m]; [naive_solver|]. cbn [is_empty].
  set (mm := String d m) in *. assert (mm ≠ "") as Hm by done.
  pose proof (count_matches_zero mm out) as H0.
  destruct (N.eqb_spec (count_matches mm out) 0) as [E|E]; [naive_solver|].
  destruct (N.eqb_spec (count_matches mm out) 1); naive_solver.
Qed.

Lemma read_ack_inv run bead m b c :
  ack_authority bead (detect_ack run bead m) = ReadBack b c →
  ∃ out err, run = Ran (Some 0%Z) out err ∧ m ≠ "" ∧ occurs_once m out.
Proof.
  destruct run as [code out err|e]; cbn.
  - destruct (classify_ack_readback bead m code out err) eqn:Hc; cbn; try done.
    apply readback_confirmed in Hc as (-> & ? & ? & _). eauto.
  - done.
Qed.

(** ** The coordinator's contract. *)

(** Some call of [ops] recorded each positive fact: the transport's success, the
    receiver's confirmation, and the tracker's read-back (directly, or from a listing
    that exited 0 and holds the marker once). *)
Definition transport_recorded (ops : list Op) : Prop :=
  ∃ s p r, ORecordTransport s p (Succeeded r) ∈ ops.
Definition delivery_recorded (ops : list Op) : Prop :=
  ∃ s p pane before after ch,
    ORecordDelivery s p (Observed (ReceiptConfirmed pane before after ch)) ∈ ops.
Definition ack_recorded (ops : list Op) : Prop :=
  (∃ s p b c, ORecordAck s p (ReadBack b c) ∈ ops) ∨
  (∃ out err m s p, OReadAck (Ran (Some 0%Z) out err) m s p ∈ ops ∧ m ≠ "" ∧ occurs_once m out).
Definition all_recorded (ops : list Op) : Prop :=
  transport_recorded ops ∧ delivery_recorded ops ∧ ack_recorded ops.

Section Contract.

Context `{MarkerCodec}.
Context (i : DispatchIntent).

(** What holds after the calls [ops]. *)
Record spine_inv (ops : list Op) (w : World) : Prop := {
  inv_intent : sp_intent (spine w) = i;
  inv_consistent : consistent (sp_ledger (spine w));
  inv_transport : ∀ a, sp_transport (spine w) = Some a → ∃ o, o ∈ ops ∧ op_transport o a;
  inv_delivery : ∀ a, sp_delivery (spine w) = Some a → ∃ o, o ∈ ops ∧ op_delivery o a;
  inv_ack : ∀ a, sp_acknowledgement (spine w) = Some a → ∃ o, o ∈ ops ∧ op_ack o a;
  inv_marker : disk w = None → all_recorded ops;
  inv_disk : ∀ b, disk w = Some b → ∃ p, to_vec_pretty p = Ok b ∧ pd_intent p = i }.

Lemma evidence_Ok s ev : evidence s = Ok ev ↔
  sp_transport s = Some (ev_transport ev) ∧ sp_delivery s = Some (ev_delivery ev) ∧
  sp_acknowledgement s = Some (ev_acknowledgement ev).
Proof.
  unfold evidence. destruct ev.
  destruct (sp_transport s), (sp_delivery s), (sp_acknowledgement s); cbn; naive_solver.
Qed.

Lemma all_recorded_mono ops ops' : ops ⊆ ops' → all_recorded ops → all_recorded ops'.
Proof.
  unfold all_recorded, transport_recorded, delivery_recorded, ack_recorded.
  intros Hs (Ht & Hd & Ha). split_and!; naive_solver eauto.
Qed.

Lemma full_evidence_recorded ops w ev : spine_inv ops w →
  evidence (spine w) = Ok ev → fully_acknowledged ev = true → all_recorded ops.
Proof.
  intros Hi (Ht & Hd & Ha)%evidence_Ok Hf.
  destruct (inv_transport _ _ Hi _ Ht) as (ot & Hot & HT).
  destruct (inv_delivery _ _ Hi _ Hd) as (od & Hod & HD).
  destruct (inv_ack _ _ Hi _ Ha) as (oa & Hoa & HA).
  unfold fully_acknowledged, transport_succeeded, delivery_observed, acknowledgement_read_back in Hf.
  destruct (ev_transport ev); [|done]. destruct (ev_delivery ev) as [[]|]; try done.
  destruct (ev_acknowledgement ev) as [b c|]; [|done]. clear Hf Ht Hd Ha.
  unfold all_recorded, transport_recorded, delivery_recorded, ack_recorded. split_and!.
  - destruct ot; cbn in HT; try done. subst. eauto.
  - destruct od; cbn in HD; try done. subst. eauto 10.
  - destruct oa; cbn in HA; try done; [subst; eauto 10|].
    destruct HA as [bead HA]. right. symmetry in HA.
    apply read_ack_inv in HA as (out & err & -> & ? & ?). eauto 10.
Qed.

Lemma run_op_inv ops o w : spine_inv ops w → spine_inv (app ops [o]) (run_op o w).
Proof.
  intros Hi.
  assert (ops ⊆ app ops [o]) as Hsub by (intros x; rewrite elem_of_app; auto).
  assert (o ∈ app ops [o]) as Ho by (rewrite elem_of_app, list_elem_of_singleton; auto).
  destruct (run_op_cases o w) as [Hr|(ev & Hev & Hf & Hs & Hd)].
  - destruct Hi, Hr. split.
    + congruence.
    + auto.
    + intros a Ha. destruct rel_transport0 as [Hu|(b & Hb & HT)].
      * rewrite Hu in Ha. apply inv_transport0 in Ha as (x & ? & ?). eauto.
      * assert (a = b) as -> by congruence. eauto.
    + intros a Ha. destruct rel_delivery0 as [Hu|(b & Hb & HT)].
      * rewrite Hu in Ha. apply inv_delivery0 in Ha as (x & ? & ?). eauto.
      * assert (a = b) as -> by congruence. eauto.
    + intros a Ha. destruct rel_ack0 as [Hu|(b & Hb & HT)].
      * rewrite Hu in Ha. apply inv_ack0 in Ha as (x & ? & ?). eauto.
      * assert (a = b) as -> by congruence. eauto.
    + intros Hn. apply (all_recorded_mono ops); [done|]. apply inv_marker0.
      destruct (disk w); [|done]. by destruct rel_marker0.
    + destruct rel_disk0 as [->|(b & p & -> & Hp & Hi)]; [done|].
      intros ? [= <-]. exists p. split; congruence.
  - pose proof (full_evidence_recorded _ _ _ Hi Hev Hf) as Hall.
    destruct Hi. split; rewrite ?Hs; try done.
    + intros a Ha. apply inv_transport0 in Ha as (x & ? & ?). eauto.
    + intros a Ha. apply inv_delivery0 in Ha as (x & ? & ?). eauto.
    + intros a Ha. apply inv_ack0 in Ha as (x & ? & ?). eauto.
    + intros _. by apply (all_recorded_mono ops).
    + destruct Hd as [->| ->]; [done|]. done.
Qed.

Lemma run_ops_inv ops ops' w : spine_inv ops w → spine_inv (app ops ops') (run_ops ops' w).
Proof.
  revert ops w. induction ops' as [|o ops' IH]; intros ops w Hi.
  - by rewrite List.app_nil_r.
  - cbn [run_ops fold_left]. apply run_op_inv with (o := o) in Hi.
    apply IH in Hi. by rewrite <- List.app_assoc in Hi.
Qed.

(** A fresh coordinator's begin: once its first marker is written, the marker stays. *)
Lemma begin_inv d p1 s p2 :
  (persist p1 (pending_snapshot (spine_new i) "dispatch_started") d).2 = Ok tt →
  spine_inv [OBegin false p1 s p2] (run_op (OBegin false p1 s p2) (MkWorld (spine_new i) d)).
Proof.
  intros Hp. cbn [run_op]. unfold begin, checkpoint. unfold mbind at 1, M_bind at 1. cbn [mret M_ret].
  unfold mbind at 1, M_bind at 1.
  unfold persist_pending at 1, on_disk. cbn [spine disk].
  destruct (persist p1 _ d) as [d' r] eqn:Hd. cbn in Hp. subst r.
  set (w1 := MkWorld (spine_new i) d').
  assert (∃ b, d' = Some b ∧ to_vec_pretty (pending_snapshot (spine_new i) "dispatch_started") = Ok b)
    as (b & -> & Hb).
  { revert Hd. unfold persist, io, map_err, mbind, result_bind, mret, result_ret.
    destruct (create_dir_all p1), (to_vec_pretty _), (write_fault p1), (rename_fault p1);
      naive_solver. }
  assert (respects (λ _, False) (λ _, False) (λ _, False)
    (_ ← emit_step s BeadSelected "intent recorded"; persist_pending p2 "bead_selected")) as Hr
    by respects_solve.
  specialize (Hr w1). destruct Hr. cbn in *. split.
  - done.
  - by apply rel_consistent0.
  - intros a Ha. destruct rel_transport0 as [Hu|(?&?&[])]. by rewrite Hu in Ha.
  - intros a Ha. destruct rel_delivery0 as [Hu|(?&?&[])]. by rewrite Hu in Ha.
  - intros a Ha. destruct rel_ack0 as [Hu|(?&?&[])]. by rewrite Hu in Ha.
  - intros Hn. by destruct rel_marker0.
  - destruct rel_disk0 as [->|(b' & p & -> & Hp & Hi)].
    + intros ? [= <-]. eauto.
    + intros ? [= <-]. eauto.
Qed.

End Contract.

(** Without the marker, everything was recorded. *)
Lemma retry_gate `{MarkerCodec} i d p1 s p2 ops :
  (persist p1 (pending_snapshot (spine_new i) "dispatch_started") d).2 = Ok tt →
  retry_allowed (disk (run_ops (OBegin false p1 s p2 :: ops) (MkWorld (spine_new i) d))) = true →
  all_recorded ops.
Proof.
  intros Hp Hr. cbn [run_ops fold_left] in Hr. fold (@run_ops H) in Hr.
  pose proof (run_ops_inv i _ ops _ (begin_inv i d p1 s p2 Hp)) as Hi.
  destruct Hi. unfold run_ops in *.
  destruct (disk (fold_left _ ops _)) eqn:Hd; [done|].
  destruct (inv_marker0 eq_refl) as (Ht & Hdel & Ha). clear - Ht Hdel Ha.
  unfold all_recorded, transport_recorded, delivery_recorded, ack_recorded in *.
  cbn [app] in *. split_and!.
  - destruct Ht as (x & y & r & [[=]|?]%elem_of_cons). eauto.
  - destruct Hdel as (x & y & pn & b & a & c & [[=]|?]%elem_of_cons). eauto 10.
  - destruct Ha as [(x & y & b & c & [[=]|?]%elem_of_cons)|(o & e & m & x & y & [[=]|?]%elem_of_cons & ?)];
      eauto 15.
Qed.

(** C1: the marker blocks a retry until the three authorities agree: after a fresh
    coordinator's begin has written its first marker, and whatever calls follow, with
    any cancellation and any file fault, the marker can only be gone when the calls
    recorded the transport's success, a receiver's confirmation and a tracker read-back,
    each in its own call. *)
Theorem retry_needs_all_authorities `{MarkerCodec} i d p1 s p2 ops :
  (persist p1 (pending_snapshot (spine_new i) "dispatch_started") d).2 = Ok tt →
  retry_allowed (disk (run_ops (OBegin false p1 s p2 :: ops) (MkWorld (spine_new i) d))) = true →
  all_recorded ops.
Proof. apply retry_gate. Qed.

(** recovery: under the encoding's round trip, at any point after a fresh
    coordinator's begin wrote its marker, and whatever calls, cancellations and file
    faults came between, reading the marker back gives either nothing, with all three
    facts recorded, or a pending dispatch of this very intent; and the ledger has
    exactly one row per step counted, so no call ever reports it inconsistent. *)
Theorem marker_recovers `{MarkerRoundtrip} i d p1 s p2 ops :
  (persist p1 (pending_snapshot (spine_new i) "dispatch_started") d).2 = Ok tt →
  let w := run_ops (OBegin false p1 s p2 :: ops) (MkWorld (spine_new i) d) in
  (recoverable_intent None w = Ok None ∧ all_recorded ops ∨
   ∃ p, recoverable_intent None w = Ok (Some p) ∧ pd_intent p = i) ∧
  is_consistent (sp_ledger (spine w)) = true.
Proof.
  intros Hp w.
  pose proof (retry_gate i d p1 s p2 ops Hp) as Hall. fold w in Hall.
  assert (spine_inv i (app [OBegin false p1 s p2] ops) w) as Hi.
  { apply (run_ops_inv i [OBegin false p1 s p2] ops). by apply begin_inv. }
  destruct Hi. split.
  - unfold recoverable_intent, load, fs_read. destruct (disk w) as [b|] eqn:Hd.
    + right. destruct (inv_disk0 b eq_refl) as (p & Hb & Hpi). exists p.
      by rewrite (marker_roundtrip p b Hb).
    + left. split; [done|]. by apply Hall.
  - unfold is_consistent. by apply Nat.eqb_eq.
Qed.

(** One step of the ledger: a cancellation seen first changes nothing; otherwise
    exactly one row is added, before the second checkpoint, so a cancellation seen there
    reports that very row as the boundary to resume from, and a consistent ledger stays
    consistent and is never reported otherwise. *)
Theorem step_commits_one_row e l k b p s d l' r :
  consistent l → step e l k b p s d = (l', r) →
  consistent l' ∧
  ((cancelled_before e = true ∧ l' = l ∧ r = Err (StepCancelled (last_kind l))) ∨
   (cancelled_before e = false ∧
    rows l' = app (rows l) [MkRow k b p s (clock_secs (clock_before e)) (clock_secs (clock_after e)) d] ∧
    last_kind l' = Some k ∧
    r = if cancelled_after e then Err (StepCancelled (Some k)) else Ok tt)).
Proof.
  intros Hc. unfold step. destruct (cancelled_before e); [intros [= <- <-]; auto|].
  set (row := MkRow _ _ _ _ _ _ _).
  pose proof (emit_consistent l row Hc) as Hc'.
  rewrite last_kind_emit, (proj2 (assert_step_count_ok _) Hc').
  destruct (cancelled_after e); intros [= <- <-]; (split; [done|right]);
    split_and!; try done; by rewrite last_kind_emit.
Qed.

Lemma step_commits_one_row_witness :
  consistent ledger_new ∧
  consistent (step (MkStepEnv false (Some 5) None true) ledger_new PacketSent "b" "%1" "s" "d").1.
Proof.
  split; [reflexivity|].
  refine (proj1 (step_commits_one_row (MkStepEnv false (Some 5) None true) ledger_new PacketSent
    "b" "%1" "s" "d" _ _ _ _)); [reflexivity|]. vm_compute. reflexivity.
Defined.

Lemma wire_row_one_line json_str r :
  (∀ t, no_byte lf (json_str t)) → no_byte lf (wire_row json_str r).
Proof.
  intros Hj. assert (∀ z, no_byte lf (show_Z z)) as Hz.
  { intros [|q|q]; [done|..].
    - by apply (no_byte_show_N lf (Npos q)).
    - change (no_byte lf ("-" +:+ show_N (Npos q))).
      apply no_byte_app; [done|]. by apply no_byte_show_N. }
  unfold wire_row. repeat (apply no_byte_app; [first [done | apply Hj | apply Hz]|]). done.
Qed.

(** the ledger's text is one object per line: when the rendering of a string never
    holds a newline (a JSON string escapes it), splitting [to_jsonl] at the newlines
    gives exactly the rendered rows in order, whatever the details hold. *)
Theorem jsonl_one_object_per_line json_str l :
  (∀ t, no_byte lf (json_str t)) → rows l ≠ [] →
  split_char lf (to_jsonl json_str l) = map (wire_row json_str) (rows l).
Proof.
  intros Hj Hne. apply split_join; [by destruct (rows l)|].
  apply Forall_forall. intros x. rewrite list_elem_of_fmap. intros (r & -> & _).
  by apply wire_row_one_line.
Qed.

(** Two rows whose text is replaced by a fixed string. *)
Lemma jsonl_one_object_per_line_witness :
  let l := MkLedger [MkRow PacketSent "b" "%1" "s" 1 2 lf_str; MkRow Closed "b" "%1" "s" 3 4 "x"] 2 [] in
  length (split_char lf (to_jsonl (λ t, "string") l)) = 2%nat.
Proof.
  cbv zeta. rewrite (jsonl_one_object_per_line (λ _, "string")); [reflexivity|..|discriminate].
  intros t. reflexivity.
Defined.

(** The dispatch stage's [AckConfirmed] delivery is logged as a verified receiver, and
    never counts as an observed delivery. *)
Theorem ack_confirmed_delivery_not_observed t a pane comment :
  (delivery_row (Observed (AckConfirmed pane comment))).1 = ReceiverVerified ∧
  fully_acknowledged (MkEvidence t (Observed (AckConfirmed pane comment)) a) = false.
Proof. split; [done|]. unfold fully_acknowledged. cbn. by rewrite andb_false_r. Qed.

(** An encoding for examples: the bits of the fields' code ([Json.bits]). *)
Definition fields_of (p : PendingDispatch) : string * string * string * option string * string :=
  (in_bead (pd_intent p), in_pane (pd_intent p), in_session (pd_intent p), last_step p, pd_reason p).

Definition bits_codec : MarkerCodec := {|
  to_vec_pretty p := Ok (bits (encode (fields_of p)));
  from_slice b :=
    match decode (of_bits b) with
    | Some (bead, pane, session, last, reason) =>
        Ok (MkPending (MkIntent bead pane session) last reason)
    | None => Err "not a marker"
    end |}.

Lemma bits_codec_roundtrip : @MarkerRoundtrip bits_codec.
Proof.
  intros [[b p s] l r] bytes [= <-]. cbn. by rewrite of_bits_bits, decode_encode.
Qed.

Definition no_faults : PersistEnv := MkPersistEnv None None None.
Definition quiet : StepEnv := MkStepEnv false (Some 7) (Some 8) false.

(** A whole dispatch, one call cancelled: the finish removes the marker. *)
Lemma retry_needs_all_authorities_witness :
  let ops := [ORecordTransport quiet no_faults (Succeeded "ok");
    ORecordDelivery (MkStepEnv true None None true) no_faults (NotObserved "cancelled");
    ORecordDelivery quiet no_faults (Observed (ReceiptConfirmed "%1" None 4 true));
    OReadAck (Ran (Some 0%Z) "-- ACK b on %1 --" "") "ACK b on %1" quiet no_faults;
    OFinish false no_faults None] in
  all_recorded ops.
Proof.
  cbv zeta.
  apply (@retry_needs_all_authorities bits_codec (MkIntent "b" "%1" "s") None no_faults quiet no_faults);
    vm_compute; reflexivity.
Defined.

(** The rename of the second marker fails: the first one is read back. *)
Lemma marker_recovers_witness :
  let w := @run_ops bits_codec [OBegin false no_faults quiet (MkPersistEnv None None (Some "full"))]
    (MkWorld (spine_new (MkIntent "b" "%1" "s")) None) in
  is_consistent (sp_ledger (spine w)) = true.
Proof.
  cbv zeta.
  refine (proj2 (@marker_recovers bits_codec bits_codec_roundtrip (MkIntent "b" "%1" "s") None
    no_faults quiet (MkPersistEnv None None (Some "full")) [] _)).
  vm_compute. reflexivity.
Defined.
