(* ===== verification/Completion.v ===== *)
(** * Completion rows, follow-up and close reasons (crates/ack-spine/src/: completion.rs,
    followup.rs, close_reason.rs)

    A worker reports that it finished by a strict comment row; the follow-up of a
    dispatched bead is decided from its comments and the deadline; a close is judged by
    the words of its reason. *)

From stdpp Require Import base numbers list option strings.
From Stdlib Require Import NArith Ascii Lia.
From S2P Require Import Prelude RustStr Json.

Open Scope N_scope.
Open Scope string_scope.

(** ** completion.rs *)

Definition DONE_PREFIX : string := "DONE ".

Record CompletionSignal := MkSignal {
  bead_token_ : string; sig_pane : string; sig_verdict : string; sig_evidence : string;
  frees_pane : string }.

#[global] Instance CompletionSignal_eq_dec : EqDecision CompletionSignal.
Proof. solve_decision. Defined.

Definition signal_display (c : CompletionSignal) : string :=
  DONE_PREFIX +:+ bead_token_ c +:+ " on " +:+ sig_pane c +:+ " -- verdict=" +:+ sig_verdict c
  +:+ " evidence=" +:+ sig_evidence c +:+ " frees=" +:+ frees_pane c.

Inductive CompletionParseError :=
  | NotACompletion
  | Malformed (missing : string)
  | WrongBead (found : string)
  | EmptyField (field : string).

#[global] Instance CompletionParseError_eq_dec : EqDecision CompletionParseError.
Proof. solve_decision. Defined.

Definition bead_token (bead_id : string) : string :=
  match rsplit_once "-" bead_id with Some (_, t) => t | None => bead_id end.

Definition completion_row (bead pane verdict evidence frees : string) : CompletionSignal :=
  MkSignal (bead_token bead) pane verdict evidence frees.

(** [str::find], as a byte offset. *)
Definition str_find (p s : string) : option nat :=
  match split_once p s with Some (a, _) => Some (String.length a) | None => None end.

(** [&s[..n]]. *)
Fixpoint str_take (n : nat) (s : string) : string :=
  match n, s with
  | S n', String c s' => String c (str_take n' s')
  | _, _ => EmptyString
  end.

Definition field_keys : list string := ["verdict="; "evidence="; "frees="].

(** [Iterator::min]. *)
Definition list_min (l : list nat) : option nat :=
  match l with [] => None | x :: l' => Some (fold_left Nat.min l' x) end.

Definition field (fields key : string) : option string :=
  at_ ← str_find key fields;
  let rest := str_drop (at_ + String.length key) fields in
  let stop := default (String.length rest)
                (list_min (omap (λ other, str_find (" " +:+ other) rest) field_keys)) in
  Some (trim (str_take stop rest)).

(** The loop over the three named values: the first blank one is refused. *)
Fixpoint refuse_blank (l : list (string * string)) : result CompletionParseError unit :=
  match l with
  | [] => Ok tt
  | (name, value) :: l' => if is_empty (trim value) then Err (EmptyField name) else refuse_blank l'
  end.

Definition parse_completion (comment bead_id : string) :
    result CompletionParseError CompletionSignal :=
  rest ← ok_or (strip_prefix DONE_PREFIX comment) NotACompletion;
  '(token, rest) ← ok_or (split_once " on " rest) (Malformed "pane");
  if negb (bool_decide (token = bead_token bead_id)) then Err (WrongBead token) else
  '(pane, fields) ← ok_or (split_once " -- " rest) (Malformed "fields");
  if is_empty (trim pane) then Err (EmptyField "pane") else
  verdict ← ok_or (field fields "verdict=") (Malformed "verdict");
  evidence ← ok_or (field fields "evidence=") (Malformed "evidence");
  frees ← ok_or (field fields "frees=") (Malformed "frees");
  _ ← refuse_blank [("verdict", verdict); ("evidence", evidence); ("frees", frees)];
  Ok (MkSignal token pane verdict evidence frees).

(** The [--complete] command of main.rs: the row, unless it does not parse. *)
Definition emit_complete (bead pane verdict evidence : string) (frees : option string) :
    result CompletionParseError string :=
  let rendered := signal_display (completion_row bead pane verdict evidence (default pane frees)) in
  _ ← parse_completion rendered bead;
  Ok rendered.

Definition is_ack_row (comment bead_id : string) : bool :=
  starts_with comment ("ACK " +:+ bead_token bead_id +:+ " on ").

Inductive CompletionOutcome :=
  | OFinished (s : CompletionSignal)
  | MalformedCompletion (e : CompletionParseError)
  | AckedWorking (minutes_elapsed : N)
  | OVerdictPosted
  | OSilentPastDeadline (minutes_elapsed : N)
  | Dispatched (minutes_elapsed : N).

Definition frees_capacity (o : CompletionOutcome) : bool :=
  match o with OFinished _ => true | _ => false end.

Definition owes_investigation (o : CompletionOutcome) : bool :=
  match o with OSilentPastDeadline _ | MalformedCompletion _ => true | _ => false end.

Definition outcome_label (o : CompletionOutcome) : string :=
  match o with
  | OFinished _ => "FINISHED" | MalformedCompletion _ => "COMPLETION_MALFORMED"
  | AckedWorking _ => "ACKED_WORKING" | OVerdictPosted => "VERDICT_POSTED"
  | OSilentPastDeadline _ => "SILENT_PAST_DEADLINE" | Dispatched _ => "DISPATCHED"
  end.

(** The loop over the comments: the first completion returns; the last broken row is
    kept. *)
Fixpoint completion_scan (bead_id : string) (comments : list string)
    (malformed : option CompletionParseError) :
    CompletionSignal + option CompletionParseError :=
  match comments with
  | [] => inr malformed
  | c :: cs =>
      match parse_completion c bead_id with
      | Ok signal => inl signal
      | Err NotACompletion => completion_scan bead_id cs malformed
      | Err other => completion_scan bead_id cs (Some other)
      end
  end.

Definition substantive (bead_id : string) (comments : list string) : bool :=
  existsb (λ c, negb (is_ack_row c bead_id) && negb (is_empty (trim c))) comments.

Definition classify_completion (bead_id : string) (comments : list string)
    (minutes_elapsed deadline_minutes : N) : CompletionOutcome :=
  match completion_scan bead_id comments None with
  | inl signal => OFinished signal
  | inr (Some error) => MalformedCompletion error
  | inr None =>
      let acked := existsb (λ c, is_ack_row c bead_id) comments in
      if substantive bead_id comments then OVerdictPosted
      else if (deadline_minutes <=? minutes_elapsed)%N then OSilentPastDeadline minutes_elapsed
      else if acked then AckedWorking minutes_elapsed else Dispatched minutes_elapsed
  end.

Definition assert_completions_not_vacuous (completions_observed beads_closed : N) :
    result string unit :=
  if (0 <? beads_closed)%N && (completions_observed =? 0)%N
  then Err ("COMPLETION_SIGNAL_VACUOUS: " +:+ show_N beads_closed
            +:+ " bead(s) closed in this window and ZERO completion rows were observed. Either "
            +:+ "no worker is emitting, or the parser stopped matching -- and a mechanism that "
            +:+ "never fires reads exactly like a fleet that finishes nothing.")
  else Ok tt.

(** ** close_reason.rs *)

Inductive ClosePrefix :=
  | MutationVerified | MutationNotRequired | MutationAttributed | PDone | PApproved
  | PremiseFalse | AlreadyFixed | BuiltAndTested | WontFix.

#[global] Instance ClosePrefix_eq_dec : EqDecision ClosePrefix.
Proof. solve_decision. Defined.

Definition ClosePrefix_ALL : list ClosePrefix :=
  [MutationVerified; MutationNotRequired; MutationAttributed; PDone; PApproved; PremiseFalse;
   AlreadyFixed; BuiltAndTested; WontFix].

Definition prefix_str (p : ClosePrefix) : string :=
  match p with
  | MutationVerified => "MUTATION-VERIFIED" | MutationNotRequired => "MUTATION-NOT-REQUIRED"
  | MutationAttributed => "MUTATION-ATTRIBUTED" | PDone => "DONE" | PApproved => "APPROVED"
  | PremiseFalse => "PREMISE-FALSE" | AlreadyFixed => "ALREADY-FIXED"
  | BuiltAndTested => "BUILT-AND-TESTED" | WontFix => "WONTFIX"
  end.

Inductive CloseReasonVerdict :=
  | Verified (prefix : ClosePrefix)
  | PolicyRefused (leading : string)
  | CargoWorkerMissing (leading : string)
  | Empty
  | Unread.

Definition close_label (v : CloseReasonVerdict) : string :=
  match v with
  | Verified _ => "CLOSE_REASON_VERIFIED" | PolicyRefused _ => "CLOSE_REASON_POLICY_REFUSED"
  | CargoWorkerMissing _ => "CLOSE_REASON_WORKER_MISSING" | Empty => "CLOSE_REASON_EMPTY"
  | Unread => "CLOSE_REASON_UNREAD"
  end.

Definition is_verified (v : CloseReasonVerdict) : bool :=
  match v with Verified _ => true | _ => false end.

Inductive CloseActor := Recorded (pane : string) | ActorMissing | ActorMalformed (found : string).

Definition actor_label (a : CloseActor) : string :=
  match a with
  | Recorded _ => "CLOSE_ACTOR_RECORDED" | ActorMissing => "CLOSE_ACTOR_MISSING"
  | ActorMalformed _ => "CLOSE_ACTOR_MALFORMED"
  end.

Definition is_recorded (a : CloseActor) : bool := match a with Recorded _ => true | _ => false end.

Definition CLOSE_ACTOR_TOKEN : string := "closed_by=".
Definition CLOSE_ACTOR_PANE_PREFIX : string := "pane=%".

(** The leading ASCII digits of a string. *)
Fixpoint take_digits (s : string) : string :=
  match s with
  | String c s' => if is_ascii_digit c then String c (take_digits s') else EmptyString
  | EmptyString => EmptyString
  end.

Definition classify_close_actor (reason : string) : CloseActor :=
  match split_once CLOSE_ACTOR_TOKEN reason with
  | None => ActorMissing
  | Some (_, rest) =>
      let malformed := ActorMalformed (default "<end of reason>" (head (split_whitespace rest))) in
      match strip_prefix CLOSE_ACTOR_PANE_PREFIX rest with
      | Some pane =>
          let digits := take_digits pane in
          if negb (is_empty digits) then Recorded ("%" +:+ digits) else malformed
      | None => malformed
      end
  end.

Definition has_cargo_test_figure (reason : string) : bool := contains reason "cargo test".

Section CloseReason.

Context `{Unicode}.

Definition not_authority_char (ch : string) : bool :=
  negb (is_alphanumeric ch) && negb (bool_decide (ch = "=")) && negb (bool_decide (ch = ":")).

Definition has_worker_authority (reason : string) : bool :=
  existsb (λ raw,
    let token := trim_matches not_authority_char raw in
    bool_decide (token = "local") || starts_with token "worker=" || starts_with token "worker:")
    (split_whitespace reason).

(** [rest.chars().next().map_or(true, |c| !c.is_alphanumeric())]. *)
Definition boundary_ok (rest : string) : bool :=
  match chars rest with [] => true | c :: _ => negb (is_alphanumeric c) end.

Definition prefix_matches (trimmed : string) (p : ClosePrefix) : bool :=
  match strip_prefix (prefix_str p) trimmed with
  | Some rest => boundary_ok rest
  | None => false
  end.

Definition leading_token (s : string) : string := default "" (head (split_whitespace s)).

Definition classify_close_reason_with_external_authority (reason : option string)
    (external_authority : bool) : CloseReasonVerdict :=
  match reason with
  | None => Unread
  | Some raw =>
      let trimmed := trim_start raw in
      if is_empty (trim trimmed) then Empty
      else if has_cargo_test_figure trimmed && negb (has_worker_authority trimmed)
              && negb external_authority
      then CargoWorkerMissing (leading_token trimmed)
      else match find_first (prefix_matches trimmed) ClosePrefix_ALL with
           | Some p => Verified p
           | None => PolicyRefused (leading_token trimmed)
           end
  end.

Definition classify_close_reason (reason : option string) : CloseReasonVerdict :=
  classify_close_reason_with_external_authority reason false.

(** *** Grade pins. *)

Inductive GradePin := Clean | TreeUnpinned | TreeDirtyUndisclosed | NotAGrade | NoComments.

Definition pin_label (g : GradePin) : string :=
  match g with
  | Clean => "GRADE_PIN_CLEAN" | TreeUnpinned => "GRADE_TREE_UNPINNED"
  | TreeDirtyUndisclosed => "GRADE_TREE_DIRTY_UNDISCLOSED" | NotAGrade => "NOT_A_GRADE"
  | NoComments => "GRADE_NO_COMMENTS"
  end.

Definition is_accepted (g : GradePin) : bool :=
  match g with Clean | NotAGrade => true | _ => false end.

Definition alnum_pieces (text : string) : list string :=
  split_chars (λ c, negb (is_alphanumeric c)) (chars text).

Definition grade_words (text : string) : list string :=
  map to_lowercase (List.filter (λ w, negb (is_empty w)) (alnum_pieces text)).

Definition is_ascii_hexdigit (c : ascii) : bool :=
  let n := N_of_ascii c in
  is_ascii_digit c || ((65 <=? n) && (n <=? 70))%N || ((97 <=? n) && (n <=? 102))%N.

Definition has_sha (text : string) : bool :=
  existsb (λ token,
    let len := String.length token in
    Nat.leb 7 len && Nat.leb len 40 && all_bytes is_ascii_hexdigit token
    && negb (all_bytes (λ c, negb (is_ascii_digit c)) token)) (alnum_pieces text).

Definition has_grade_figure (text : string) : bool :=
  let words := grade_words text in
  existsb (λ w, bool_decide (w = "passed") || bool_decide (w = "failed")) words
  || contains (to_lowercase text) "test result"
  || existsb (λ raw, starts_with (trim_matches not_authority_char raw) "rc=")
       (split_whitespace text).

Definition CODES : list string := ["M"; "A"; "D"; "R"; "C"; "U"; "?"; "!"; " "].

Definition has_porcelain_lines (text : string) : bool :=
  existsb (λ line,
    match chars line with
    | a :: b :: c :: rest =>
        bool_decide (c = " ") && bool_decide (a ∈ CODES) && bool_decide (b ∈ CODES)
        && match split_whitespace (concat_chars rest) with
           | path :: _ => negb (is_empty path)
           | [] => false
           end
    | _ => false
    end) (lines text).

(** The reason and every comment, each on its own line. *)
Definition grade_corpus (reason : option string) (comments : list string) : string :=
  fold_left (λ acc c, acc +:+ lf_str +:+ c) comments (default "" reason).

Definition classify_grade_pin (reason : option string) (comments : list string) : GradePin :=
  let corpus := grade_corpus reason comments in
  let lowered := to_lowercase corpus in
  if negb (has_sha corpus && has_grade_figure corpus) then NotAGrade
  else if match comments with [] => true | _ => false end then NoComments
  else
  let words := grade_words corpus in
  let has_word w := bool_decide (w ∈ words) in
  let tree_dirty := contains corpus "TREE_DIRTY" in
  if has_porcelain_lines corpus && negb tree_dirty then TreeDirtyUndisclosed
  else if contains lowered "dirty" && negb tree_dirty && negb (contains lowered "porcelain empty")
  then TreeDirtyUndisclosed
  else
  let porcelain := contains lowered "porcelain empty" || tree_dirty in
  let ancestry := contains lowered "merge-base" || has_word "ancestor" in
  let tree := (has_word "tree" || has_word "worktree")
              && (has_word "head" || has_word "worktree" || has_word "sha") in
  if negb (porcelain && ancestry && tree) then TreeUnpinned else Clean.

(** ** followup.rs *)

Inductive FollowUpVerdict :=
  | FFinished (bead : string) (reason : CloseReasonVerdict)
  | FVerdictPosted (bead : string)
  | InProgress (bead : string) (minutes : N)
  | FSilentPastDeadline (bead : string) (minutes : N) (pane : option string)
  | Reassigned (bead assignee : string)
  | TrackerError (bead detail : string).

Definition pane_from_assignee (assignee : string) : option string :=
  match (pane ← find_map (strip_prefix "pane=") (split_char ";" assignee);
         if starts_with pane "%" && negb (is_empty pane) then Some pane else None) with
  | Some pane => Some pane
  | None =>
      '(_, pane) ← rsplit_once "-" assignee;
      if starts_with pane "%" && all_bytes is_ascii_digit (str_drop 1 pane) then Some pane
      else None
  end.

Definition classify_followup (bead_id : string) (bead_closed : bool) (close_reason : option string)
    (assigned_to original_assignee : string) (comments : list string)
    (minutes_elapsed deadline_minutes : N) (tracker_readable : bool) : FollowUpVerdict :=
  if negb tracker_readable then
    TrackerError bead_id "br comments or br show failed — the tracker is unreadable"
  else if bead_closed then FFinished bead_id (classify_close_reason close_reason)
  else if negb (bool_decide (assigned_to = original_assignee)) && negb (is_empty assigned_to)
  then Reassigned bead_id assigned_to
  else if existsb (λ c, is_ok (parse_completion c bead_id)) comments
  then FFinished bead_id (classify_close_reason None)
  else if substantive bead_id comments then FVerdictPosted bead_id
  else if (deadline_minutes <=? minutes_elapsed)%N then
    FSilentPastDeadline bead_id minutes_elapsed (pane_from_assignee assigned_to)
  else InProgress bead_id minutes_elapsed.

Inductive FollowUpAction := Healthy | NeedsFollowUp (v : FollowUpVerdict).

Definition followup_action (v : FollowUpVerdict) : FollowUpAction :=
  match v with
  | FFinished _ _ | FVerdictPosted _ | InProgress _ _ | Reassigned _ _ => Healthy
  | FSilentPastDeadline _ _ _ | TrackerError _ _ => NeedsFollowUp v
  end.

End CloseReason.

(** ** Lemmas: searching a text whose words are joined by spaces. *)

Definition sp : ascii := " ".

Lemma strip_prefix_before_space q a t r :
  no_byte sp q → strip_prefix q (a +:+ String sp t) = Some r → ∃ y, strip_prefix q a = Some y.
Proof.
  revert a. induction q as [|c q IH]; intros a Hq; [by exists a|].
  unfold no_byte in *. cbn [all_bytes] in Hq. apply andb_true_iff in Hq as [Hc Hq].
  apply negb_true_iff, Ascii.eqb_neq in Hc.
  destruct a as [|d a].
  - change ("" +:+ String sp t) with (String sp t). cbn [strip_prefix].
    by destruct (ascii_dec c sp).
  - rewrite str_app_cons. cbn [strip_prefix]. destruct (ascii_dec c d); [|done]. by apply IH.
Qed.

(** A pattern with no space after its first byte, absent from [a], is found in
    [a ++ " " ++ t] where it is found in [" " ++ t]. *)
Lemma split_once_skip c q a t :
  no_byte sp q → contains a (String c q) = false →
  split_once (String c q) (a +:+ String sp t) =
    match split_once (String c q) (String sp t) with
    | Some (x, y) => Some (a +:+ x, y)
    | None => None
    end.
Proof.
  intros Hq. induction a as [|d a IH]; intros Ha.
  - change ("" +:+ String sp t) with (String sp t). by destruct (split_once _ _) as [[? ?]|].
  - assert (strip_prefix (String c q) (String d a) = None ∧ contains a (String c q) = false) as [Hn Ha'].
    { unfold contains in *. cbn [split_once] in Ha.
      destruct (strip_prefix (String c q) (String d a)); [done|].
      by destruct (split_once (String c q) a) as [[? ?]|]. }
    rewrite str_app_cons. unfold split_once at 1. fold split_once.
    destruct (strip_prefix (String c q) (String d (a +:+ String sp t))) as [r|] eqn:Hs.
    { cbn [strip_prefix] in Hs, Hn. destruct (ascii_dec c d); [|done].
      apply strip_prefix_before_space in Hs as [y Hy]; [|done]. congruence. }
    rewrite IH by done. by destruct (split_once _ (String sp t)) as [[? ?]|].
Qed.

Lemma str_take_app a b : str_take (String.length a) (a +:+ b) = a.
Proof. induction a as [|c a IH]; [by destruct b|]. rewrite str_app_cons. cbn. by rewrite IH. Qed.

Lemma str_take_all a : str_take (String.length a) a = a.
Proof. rewrite <- (str_app_nil_r a) at 2. apply str_take_app. Qed.

Lemma str_drop_app a b : str_drop (String.length a) (a +:+ b) = b.
Proof. induction a as [|c a IH]; [done|]. rewrite str_app_cons. cbn. done. Qed.

Lemma find_drop p s a b : split_once p s = Some (a, b) →
  str_find p s = Some (String.length a) ∧ str_drop (String.length a + String.length p) s = b.
Proof.
  intros Hs. unfold str_find. rewrite Hs. split; [done|].
  apply split_once_app in Hs as ->. rewrite str_app_assoc, <- str_app_length. apply str_drop_app.
Qed.

Lemma fold_min_le l x : (fold_left Nat.min l x ≤ x)%nat ∧ Forall (λ y, fold_left Nat.min l x ≤ y)%nat l.
Proof.
  revert x. induction l as [|z l IH]; intros x; [by split; [cbn; lia|]|]. cbn [fold_left].
  destruct (IH (Nat.min x z)) as [H1 H2]. split; [lia|]. constructor; [lia|done].
Qed.

Lemma fold_min_in l x : fold_left Nat.min l x = x ∨ fold_left Nat.min l x ∈ l.
Proof.
  revert x. induction l as [|z l IH]; intros x; [by left|]. cbn [fold_left].
  rewrite elem_of_cons. destruct (IH (Nat.min x z)) as [->|Hin]; [|auto].
  destruct (Nat.min_spec x z) as [[_ ->]|[_ ->]]; auto.
Qed.

Lemma list_min_least l m : m ∈ l → Forall (λ y, m ≤ y)%nat l → list_min l = Some m.
Proof.
  destruct l as [|x l]; [by rewrite elem_of_nil|].
  intros Hm [Hx Hl]%Forall_cons. cbn. f_equal.
  destruct (fold_min_le l x) as [H1 H2].
  rewrite Forall_forall in H2, Hl.
  rewrite elem_of_cons in Hm.
  assert (fold_left Nat.min l x ≤ m)%nat by (destruct Hm as [->|Hm]; [done|by apply H2]).
  destruct (fold_min_in l x) as [He|Hin]; [lia|]. specialize (Hl _ Hin). lia.
Qed.

(** A field's value: trimmed, not blank, and free of the three keys. *)
Definition plain_value (v : string) : Prop :=
  trim v = v ∧ v ≠ "" ∧ ∀ k, k ∈ field_keys → contains v k = false.

Lemma plain_spaced v k : contains v k = false → contains v (" " +:+ k) = false.
Proof.
  intros Hv. destruct (contains v (" " +:+ k)) eqn:Hc; [|done].
  apply contains_spec in Hc as (a & b & ->).
  rewrite <- Hv. symmetry. apply contains_spec. exists (a +:+ " "), b.
  by rewrite <- !str_app_assoc.
Qed.

Lemma contains_false_None v p : contains v p = false ↔ split_once p v = None.
Proof. unfold contains. by destruct (split_once p v). Qed.

Lemma field_keys_no_space k : k ∈ field_keys → no_byte sp k.
Proof. unfold field_keys. rewrite !elem_of_cons, elem_of_nil. intros [->|[->|[->|[]]]]; done. Qed.

(** The next key's boundary, or the end, closes a plain value. *)
Lemma field_value fields key a v tail :
  split_once key fields = Some (a, v +:+ tail) → plain_value v →
  tail = "" ∨ (∃ k t, k ∈ field_keys ∧ tail = String sp (k +:+ t)) →
  field fields key = Some v.
Proof.
  intros Hs (Htrim & Hne & Hv) Htail. destruct (find_drop _ _ _ _ Hs) as [Hf Hd].
  unfold field. rewrite Hf. cbn [mbind option_bind]. rewrite Hd. f_equal.
  etrans; [|exact Htrim]. f_equal.
  assert (∀ k, k ∈ field_keys → contains v (" " +:+ k) = false) as Hsp
    by (intros k Hk; by apply plain_spaced, Hv).
  destruct Htail as [->|(k' & t & Hk' & ->)].
  - rewrite !str_app_nil_r.
    assert (omap (λ other, str_find (" " +:+ other) v) field_keys = []) as ->; [|apply str_take_all].
    unfold field_keys in *. cbn [omap list_omap]. unfold str_find.
    repeat (rewrite (proj1 (contains_false_None v _)) by (apply Hsp; by apply (bool_decide_unpack _))). done.
  - rewrite (list_min_least _ (String.length v)); [apply str_take_app|..].
    + apply list_elem_of_omap. exists k'. split; [done|]. unfold str_find.
      change (" " +:+ k') with (String sp k').
      rewrite split_once_skip; [|by apply field_keys_no_space|by apply Hsp].
      assert (split_once (String sp k') (String sp (k' +:+ t)) = Some ("", t)) as ->.
      { cbn [split_once]. change (String sp (k' +:+ t)) with (String sp k' +:+ t).
        by rewrite strip_prefix_app. }
      by rewrite str_app_nil_r.
    + apply Forall_forall. intros n (k & Hk & Hn)%list_elem_of_omap. unfold str_find in Hn.
      change (" " +:+ k) with (String sp k) in Hn.
      rewrite split_once_skip in Hn; [|by apply field_keys_no_space|by apply Hsp].
      destruct (split_once _ (String sp (k' +:+ t))) as [[x y]|]; [|done].
      injection Hn as <-. rewrite str_app_length. lia.
Qed.

(** A word is split from what follows its space. *)
Lemma split_once_word p a t :
  no_byte sp a → split_once (String sp p) (a +:+ String sp (p +:+ t)) = Some (a, t).
Proof.
  unfold no_byte. induction a as [|d a IH]; cbn [all_bytes]; intros Ha.
  - change ("" +:+ String sp (p +:+ t)) with (String sp p +:+ t).
    assert (strip_prefix (String sp p) (String sp p +:+ t) = Some t) as Hp
      by apply strip_prefix_app.
    unfold split_once. rewrite str_app_cons in *. by rewrite Hp.
  - apply andb_true_iff in Ha as [Hd Ha]. apply negb_true_iff, Ascii.eqb_neq in Hd.
    rewrite str_app_cons. cbn [split_once strip_prefix]. destruct (ascii_dec sp d); [done|].
    by rewrite (IH Ha).
Qed.

#[local] Arguments String.append : simpl nomatch.

(** The three fields of a displayed row, read back. *)
Lemma fields_of_row v e f :
  plain_value v → plain_value e → plain_value f →
  let fields := "verdict=" +:+ v +:+ " evidence=" +:+ e +:+ " frees=" +:+ f in
  field fields "verdict=" = Some v ∧ field fields "evidence=" = Some e ∧
  field fields "frees=" = Some f.
Proof.
  intros Hv He Hf fields.
  assert (∀ k, k ∈ field_keys → split_once k v = None) as Hv'
    by (intros k Hk; by apply contains_false_None, Hv).
  assert (∀ k, k ∈ field_keys → split_once k e = None) as He'
    by (intros k Hk; by apply contains_false_None, He).
  split_and!.
  - apply (field_value _ _ "" v (" evidence=" +:+ e +:+ " frees=" +:+ f)); [done..|].
    right. exists "evidence=", (e +:+ " frees=" +:+ f). split; [by apply (bool_decide_unpack _)|done].
  - apply (field_value _ _ ("verdict=" +:+ v +:+ " ") e (" frees=" +:+ f)); [|done|].
    + assert (split_once "evidence=" ("verdict=" +:+ v) = None) as Hn.
      { cbn. by rewrite Hv' by (by apply (bool_decide_unpack _)). }
      unfold fields. rewrite str_app_assoc.
      change (" evidence=" +:+ ?s) with (String sp ("evidence=" +:+ s)).
      rewrite split_once_skip; [|done|by apply contains_false_None].
      assert (split_once "evidence=" (String sp ("evidence=" +:+ e +:+ " frees=" +:+ f))
              = Some (" ", e +:+ " frees=" +:+ f)) as -> by (cbn; by destruct e).
      by rewrite <- !str_app_assoc.
    + right. exists "frees=", f. split; [by apply (bool_decide_unpack _)|done].
  - apply (field_value _ _ ("verdict=" +:+ v +:+ " evidence=" +:+ e +:+ " ") f ""); [|done|by left].
    rewrite str_app_nil_r.
    assert (split_once "frees=" ("verdict=" +:+ v) = None) as Hn.
    { cbn. by rewrite Hv' by (by apply (bool_decide_unpack _)). }
    assert (split_once "frees=" ("evidence=" +:+ e) = None) as Hn'.
    { cbn. by rewrite He' by (by apply (bool_decide_unpack _)). }
    assert (split_once "frees=" (String sp ("evidence=" +:+ e)) = None) as Hn''.
    { unfold split_once at 1. fold split_once. rewrite Hn'. done. }
    unfold fields. rewrite str_app_assoc.
    change (" evidence=" +:+ ?s) with (String sp ("evidence=" +:+ s)).
    rewrite split_once_skip; [|done|by apply contains_false_None].
    replace (String sp ("evidence=" +:+ e +:+ " frees=" +:+ f))
      with (String sp ("evidence=" +:+ e) +:+ String sp ("frees=" +:+ f))
      by (rewrite str_app_cons, <- str_app_assoc; done).
    rewrite split_once_skip; [|done|by apply contains_false_None].
    assert (split_once "frees=" (String sp ("frees=" +:+ f)) = Some (" ", f)) as ->
      by (cbn; by destruct f).
    cbn. by rewrite <- ?str_app_assoc.
Qed.

Lemma plain_not_blank v : plain_value v → is_empty (trim v) = false.
Proof. intros (-> & Hne & _). by destruct v. Qed.

(** C37: a completion row survives its own text: for a token and a pane that are single
    words, and a verdict, an evidence and a freed pane that are trimmed, not blank and
    free of the three keys (spaces allowed), parsing the displayed row for the same bead
    gives the row back, so the emitter prints it. *)
Theorem completion_roundtrip bead pane v e f :
  no_byte sp (bead_token bead) → no_byte sp pane → trim pane ≠ "" →
  plain_value v → plain_value e → plain_value f →
  parse_completion (signal_display (completion_row bead pane v e f)) bead
    = Ok (completion_row bead pane v e f) ∧
  emit_complete bead pane v e (Some f) = Ok (signal_display (completion_row bead pane v e f)).
Proof.
  intros Htok Hpane Hp Hv He Hf.
  assert (parse_completion (signal_display (completion_row bead pane v e f)) bead
    = Ok (completion_row bead pane v e f)) as Hparse.
  { unfold parse_completion, signal_display, completion_row. cbn [bead_token_ sig_pane sig_verdict
      sig_evidence frees_pane].
    rewrite strip_prefix_app. unfold ok_or, mbind, result_bind.
    change (" on " +:+ ?s) with (String sp ("on " +:+ s)).
    change " on " with (String sp "on "). rewrite split_once_word by done.
    rewrite bool_decide_true by done. cbn [negb].
    change (" -- verdict=" +:+ ?s) with (String sp ("-- " +:+ "verdict=" +:+ s)).
    change " -- " with (String sp "-- "). rewrite split_once_word by done.
    destruct (is_empty (trim pane)) eqn:Hb; [by destruct (trim pane)|].
    destruct (fields_of_row v e f Hv He Hf) as (-> & -> & ->).
    unfold refuse_blank. by rewrite !plain_not_blank. }
  split; [done|]. unfold emit_complete. change (default pane (Some f)) with f. cbv zeta. by rewrite Hparse.
Qed.

Lemma completion_roundtrip_witness :
  parse_completion "DONE x9 on %7 -- verdict=all green, 3 fixed evidence=commit abc1234 frees=%7" "omp-x9"
  = Ok (MkSignal "x9" "%7" "all green, 3 fixed" "commit abc1234" "%7").
Proof.
  refine (proj1 (completion_roundtrip "omp-x9" "%7" "all green, 3 fixed" "commit abc1234" "%7" _ _ _ _ _ _));
    try (vm_compute; (reflexivity || discriminate));
    (split; [vm_compute; reflexivity|]; split; [discriminate|]);
    intros k; unfold field_keys; rewrite !elem_of_cons, elem_of_nil;
    intros [->|[->|[->|[]]]]; vm_compute; reflexivity.
Defined.

(** A row the emitter prints although it reads back as another one: the verdict's own
    text holds a key. *)
Example emitted_row_reads_differently :
  emit_complete "omp-x9" "%7" "see evidence=log" "commit abc" None
    = Ok "DONE x9 on %7 -- verdict=see evidence=log evidence=commit abc frees=%7" ∧
  parse_completion "DONE x9 on %7 -- verdict=see evidence=log evidence=commit abc frees=%7" "omp-x9"
    = Ok (MkSignal "x9" "%7" "see" "log" "%7").
Proof. split; vm_compute; reflexivity. Qed.

(** ** Classifying a dispatched bead. *)

Lemma refuse_blank_ok l : refuse_blank l = Ok tt ↔ Forall (λ nv, is_empty (trim nv.2) = false) l.
Proof.
  induction l as [|[n v] l IH]; cbn [refuse_blank]; [naive_solver|].
  rewrite Forall_cons. cbn [snd]. destruct (is_empty (trim v)); [split; [discriminate|intros [Hx _]; discriminate Hx]|].
  rewrite IH. tauto.
Qed.

Lemma is_empty_false s : is_empty s = false ↔ s ≠ "".
Proof. by destruct s. Qed.

(** What an accepted row holds: the bead's token and no blank field. *)
Lemma parse_completion_sound c bead s :
  parse_completion c bead = Ok s →
  (∃ r, c = DONE_PREFIX +:+ r) ∧ bead_token_ s = bead_token bead ∧
  trim (sig_pane s) ≠ "" ∧ trim (sig_verdict s) ≠ "" ∧ trim (sig_evidence s) ≠ "" ∧
  trim (frees_pane s) ≠ "".
Proof.
  unfold parse_completion, ok_or, mbind, result_bind.
  destruct (strip_prefix DONE_PREFIX c) as [r|] eqn:Hc; [|done].
  apply strip_prefix_Some in Hc as ->.
  destruct (split_once " on " r) as [[tok r']|]; [|done].
  destruct (bool_decide (tok = bead_token bead)) eqn:Ht; cbn [negb]; [|done]. unbool. subst tok.
  destruct (split_once " -- " r') as [[pane fs]|]; [|done].
  destruct (is_empty (trim pane)) eqn:Hp; [done|].
  destruct (field fs "verdict=") as [v|]; [|done].
  destruct (field fs "evidence=") as [e|]; [|done].
  destruct (field fs "frees=") as [f|]; [|done].
  destruct (refuse_blank _) as [[]|] eqn:Hb; [|done].
  apply refuse_blank_ok in Hb. rewrite !Forall_cons in Hb. cbn [snd] in Hb.
  rewrite !is_empty_false in Hb. apply is_empty_false in Hp.
  destruct Hb as (Hv & He & Hf & _). intros [= <-]. cbn. eauto 10.
Qed.

(** A comment that is not a completion attempt. *)
Definition no_attempt (bead c : string) : Prop := parse_completion c bead = Err NotACompletion.

#[global] Instance no_attempt_dec bead c : Decision (no_attempt bead c).
Proof. unfold no_attempt. apply _. Defined.

Lemma completion_scan_spec bead cs m :
  match completion_scan bead cs m with
  | inl s => ∃ l1 c l2, cs = app l1 (c :: l2) ∧ parse_completion c bead = Ok s ∧
      Forall (λ c', is_ok (parse_completion c' bead) = false) l1
  | inr m' => Forall (λ c, is_ok (parse_completion c bead) = false) cs ∧
      (m' = None ↔ m = None ∧ Forall (no_attempt bead) cs) ∧
      (∀ e, m' = Some e → e ≠ NotACompletion ∨ m = Some e)
  end.
Proof.
  revert m. induction cs as [|c cs IH]; intros m; cbn [completion_scan].
  { split_and!; [done|naive_solver|naive_solver]. }
  destruct (parse_completion c bead) as [s|e] eqn:Hc.
  { exists [], c, cs. naive_solver. }
  assert (is_ok (parse_completion c bead) = false) as Hok by (by rewrite Hc).
  destruct (decide (e = NotACompletion)) as [->|Hne].
  - specialize (IH m). destruct (completion_scan bead cs m) as [s|m'].
    + destruct IH as (l1 & c' & l2 & -> & ? & ?). exists (c :: l1), c', l2. naive_solver.
    + destruct IH as (? & Hm & ?). rewrite Forall_cons. unfold no_attempt in *.
      split_and!; [done|done| |done]. rewrite Hm, Forall_cons. naive_solver.
  - assert ((match e with NotACompletion => completion_scan bead cs m
             | _ => completion_scan bead cs (Some e) end) = completion_scan bead cs (Some e)) as ->
      by (by destruct e).
    specialize (IH (Some e)). destruct (completion_scan bead cs (Some e)) as [s|m'].
    + destruct IH as (l1 & c' & l2 & -> & ? & ?). exists (c :: l1), c', l2. naive_solver.
    + destruct IH as (? & Hm & Hs). rewrite Forall_cons. unfold no_attempt in *.
      split_and!; [done|done| |].
      * rewrite Hm, Forall_cons. split; [intros [? _]; discriminate|].
        intros (_ & Hx & _). congruence.
      * intros x [?|[= ->]]%Hs; auto.
Qed.

(** An attempted row is a comment of its own: no ack, and not blank. *)
Lemma attempt_substantive bead c e :
  parse_completion c bead = Err e → e ≠ NotACompletion →
  is_ack_row c bead = false ∧ is_empty (trim c) = false.
Proof.
  unfold parse_completion, ok_or, mbind, result_bind.
  destruct (strip_prefix DONE_PREFIX c) as [r|] eqn:Hc; [|congruence].
  apply strip_prefix_Some in Hc as ->. intros _ _. unfold DONE_PREFIX.
  change ("DONE " +:+ r) with (String "D" (String "O" ("NE " +:+ r))). split; [done|].
  apply is_empty_false. eapply trim_not_blank; [by apply chars_cons_starts|done].
Qed.

Lemma substantive_false bead cs : substantive bead cs = false ↔
  Forall (λ c, is_ack_row c bead = true ∨ trim c = "") cs.
Proof.
  unfold substantive. rewrite existsb_false_Forall. apply Forall_iff. intros c.
  rewrite andb_false_iff, !negb_false_iff. destruct (trim c); cbn; naive_solver.
Qed.

Lemma completed_existsb bead cs :
  existsb (λ c, is_ok (parse_completion c bead)) cs = true ↔
  ∃ c s, c ∈ cs ∧ parse_completion c bead = Ok s.
Proof.
  rewrite existsb_exists. split.
  - intros (c & Hc & Hok). destruct (parse_completion c bead) as [s|] eqn:Hp; [|done].
    exists c, s. by rewrite list_elem_of_In.
  - intros (c & s & Hc & Hp). exists c. rewrite <- list_elem_of_In, Hp. done.
Qed.

(** The scan, as the three cases a classifier tells apart. *)
Lemma scan_cases bead cs :
  (∃ s c, completion_scan bead cs None = inl s ∧ c ∈ cs ∧ parse_completion c bead = Ok s) ∨
  (∃ e c, completion_scan bead cs None = inr (Some e) ∧ c ∈ cs ∧
     is_ok (parse_completion c bead) = false ∧ ¬ no_attempt bead c ∧
     Forall (λ c, is_ok (parse_completion c bead) = false) cs) ∨
  (completion_scan bead cs None = inr None ∧ Forall (no_attempt bead) cs).
Proof.
  pose proof (completion_scan_spec bead cs None) as Hs.
  destruct (completion_scan bead cs None) as [s|[e|]].
  - destruct Hs as (l1 & c & l2 & -> & Hc & _). left. exists s, c. split_and!; [done| |done].
    rewrite elem_of_app, elem_of_cons. auto.
  - destruct Hs as (Hall & Hnone & _). right. left.
    assert (¬ Forall (no_attempt bead) cs) as Hn by (intros Hf; assert (Some e = None) by (by apply Hnone); done).
    apply not_Forall_Exists in Hn; [|intros c; unfold no_attempt; apply _].
    apply Exists_exists in Hn as (c & Hc & Hna). exists e, c. split_and!; try done.
    by apply (proj1 (Forall_forall _ _) Hall).
  - right. right. split; [done|]. by apply Hs.
Qed.

(** Nothing but acks and blanks. *)
Definition quiet (bead : string) (cs : list string) : Prop :=
  Forall (λ c, is_ack_row c bead = true ∨ trim c = "") cs.

Lemma done_not_quiet bead c :
  ¬ no_attempt bead c → is_ack_row c bead = false ∧ is_empty (trim c) = false.
Proof.
  intros Hn. destruct (parse_completion c bead) as [s|e] eqn:Hp.
  - apply parse_completion_sound in Hp as ((r & ->) & _).
    change (DONE_PREFIX +:+ r) with (String "D" (String "O" ("NE " +:+ r))). split; [done|].
    apply is_empty_false. eapply trim_not_blank; [by apply chars_cons_starts|done].
  - eapply attempt_substantive; [done|]. intros ->. by apply Hn.
Qed.

Lemma quiet_no_attempt bead cs : quiet bead cs → Forall (no_attempt bead) cs.
Proof.
  intros Hq. eapply Forall_impl; [exact Hq|]. intros c Hc. destruct (decide (no_attempt bead c)) as [|Hn]; [done|].
  apply done_not_quiet in Hn as [Ha Hb]. apply is_empty_false in Hb.
  destruct Hc; congruence.
Qed.

Lemma no_attempt_not_ok bead c : no_attempt bead c → is_ok (parse_completion c bead) = false.
Proof. unfold no_attempt. by intros ->. Qed.

(** what the comments of a dispatched bead mean: capacity is freed exactly when a
    comment parses as a completion of this bead; silence is reported exactly past the
    deadline with nothing but acks and blanks, so an ack never turns it off; and an
    investigation is owed exactly when no comment completes and either some comment
    tried to and is broken, or the bead is silent. *)
Theorem completion_outcome bead cs t d :
  let o := classify_completion bead cs t d in
  let completed := ∃ c s, c ∈ cs ∧ parse_completion c bead = Ok s in
  (frees_capacity o = true ↔ completed) ∧
  (o = OSilentPastDeadline t ↔ quiet bead cs ∧ (d <= t)%N) ∧
  (owes_investigation o = true ↔
     ¬ completed ∧ ((∃ c, c ∈ cs ∧ ¬ no_attempt bead c) ∨ (quiet bead cs ∧ (d <= t)%N))).
Proof.
  cbv zeta. unfold classify_completion.
  pose proof (substantive_false bead cs) as Hq. fold (quiet bead cs) in Hq.
  pose proof (quiet_no_attempt bead cs) as Hqa.
  destruct (scan_cases bead cs) as [(s & c & -> & Hc & Hp)|[(e & c & -> & Hc & Hok & Hn & Hall)|[-> Hall]]].
  - assert (¬ quiet bead cs) as Hnq.
    { intros Hf%Hqa. rewrite Forall_forall in Hf. apply Hf in Hc. unfold no_attempt in Hc. congruence. }
    cbn. split_and!; split; try done; try (intros [? ?]; done); [eauto|].
    intros [Hx _]. destruct Hx. eauto.
  - assert (¬ ∃ c s, c ∈ cs ∧ parse_completion c bead = Ok s) as Hno.
    { intros (c' & s & Hc' & Hs). rewrite Forall_forall in Hall. apply Hall in Hc'.
      by rewrite Hs in Hc'. }
    assert (¬ quiet bead cs) as Hnq.
    { intros Hf%Hqa. rewrite Forall_forall in Hf. by apply Hn, Hf. }
    cbn. split_and!; split; try done; [intros [? ?]; done|]. intros _. eauto.
  - assert (¬ ∃ c s, c ∈ cs ∧ parse_completion c bead = Ok s) as Hno.
    { intros (c' & s & Hc' & Hs). rewrite Forall_forall in Hall. apply Hall in Hc'.
      unfold no_attempt in Hc'. congruence. }
    assert (¬ ∃ c, c ∈ cs ∧ ¬ no_attempt bead c) as Hna.
    { intros (c & Hc & Hx). rewrite Forall_forall in Hall. by apply Hx, Hall. }
    destruct (substantive bead cs).
    { assert (¬ quiet bead cs) by (intros Hx; by apply Hq in Hx). cbn. naive_solver. }
    assert (quiet bead cs) as Hquiet by (by apply Hq).
    destruct (N.leb_spec d t); [cbn; naive_solver|].
    assert (¬ (d <= t)%N) by lia.
    destruct (existsb _ cs); cbn; naive_solver.
Qed.

(** The follow-up's reading of a completion outcome. *)
Definition followup_of (bead : string) (pane : option string) (o : CompletionOutcome) :
    FollowUpVerdict :=
  match o with
  | OFinished _ => FFinished bead Unread
  | MalformedCompletion _ | OVerdictPosted => FVerdictPosted bead
  | OSilentPastDeadline m => FSilentPastDeadline bead m pane
  | AckedWorking m | Dispatched m => InProgress bead m
  end.

(** C21: the follow-up stage implements the completion classifier: on a readable tracker,
    for an open bead that was not reassigned, its verdict is the completion outcome,
    where a broken completion row reads as a posted verdict; so a row that owes an
    investigation by one classifier is healthy by the other. *)
Theorem followup_implements_completion `{Unicode} bead cr assigned original cs t d :
  assigned = original ∨ assigned = "" →
  classify_followup bead false cr assigned original cs t d true
    = followup_of bead (pane_from_assignee assigned) (classify_completion bead cs t d) ∧
  (∀ e, classify_completion bead cs t d = MalformedCompletion e →
     owes_investigation (classify_completion bead cs t d) = true ∧
     followup_action (classify_followup bead false cr assigned original cs t d true) = Healthy).
Proof.
  intros Has.
  assert (classify_followup bead false cr assigned original cs t d true
    = followup_of bead (pane_from_assignee assigned) (classify_completion bead cs t d)) as Heq.
  { unfold classify_followup, classify_completion. cbn [negb].
    assert (negb (bool_decide (assigned = original)) && negb (is_empty assigned) = false) as ->.
    { destruct Has as [->| ->]; [by rewrite bool_decide_true|by rewrite andb_false_r]. }
    pose proof (completed_existsb bead cs) as Hex.
    destruct (scan_cases bead cs) as [(s & c & -> & Hc & Hp)|[(e & c & -> & Hc & Hok & Hn & Hall)|[-> Hall]]].
    - rewrite (proj2 Hex) by eauto. done.
    - assert (existsb (λ c, is_ok (parse_completion c bead)) cs = false) as ->.
      { apply existsb_false_Forall. done. }
      assert (substantive bead cs = true) as ->; [|done].
      apply existsb_exists. exists c. rewrite <- list_elem_of_In. split; [done|].
      by destruct (done_not_quiet bead c Hn) as [-> ->].
    - assert (existsb (λ c, is_ok (parse_completion c bead)) cs = false) as ->.
      { apply existsb_false_Forall. eapply Forall_impl; [done|]. apply no_attempt_not_ok. }
      destruct (substantive bead cs); [done|]. destruct (d <=? t)%N; [done|].
      by destruct (existsb (λ c, is_ack_row c bead) cs). }
  split; [done|]. intros e He. rewrite Heq, He. done.
Qed.

(** A worker whose row lacks its evidence. *)
Lemma followup_implements_completion_witness :
  followup_action (@classify_followup ascii_only "b-x9" false None "" "" ["DONE x9 on %7 -- verdict=ok"] 90 30 true)
  = Healthy.
Proof.
  refine (proj2 (proj2 (@followup_implements_completion ascii_only "b-x9" None "" ""
    ["DONE x9 on %7 -- verdict=ok"] 90 30 _) (Malformed "evidence") _)).
  - by right.
  - vm_compute. reflexivity.
Defined.

(** ** Close reasons. *)

(** No two prefixes can start the same reason. *)
Lemma prefix_str_disjoint p q s r1 r2 :
  s = prefix_str p +:+ r1 → s = prefix_str q +:+ r2 → p = q.
Proof.
  intros -> Heq.
  destruct (starts_with_two (prefix_str p +:+ r1) (prefix_str p) (prefix_str q)) as [Hx|Hx].
  - apply starts_with_app.
  - rewrite Heq. apply starts_with_app.
  - destruct p, q; (reflexivity || (vm_compute in Hx; discriminate)).
  - destruct p, q; (reflexivity || (vm_compute in Hx; discriminate)).
Qed.

Lemma prefix_matches_spec `{Unicode} s p :
  prefix_matches s p = true ↔ ∃ r, s = prefix_str p +:+ r ∧ boundary_ok r = true.
Proof.
  unfold prefix_matches. destruct (strip_prefix (prefix_str p) s) as [r|] eqn:Hs.
  - apply strip_prefix_Some in Hs as ->. split; [eauto|].
    by intros (r' & Heq%str_app_inj_l & Hb); subst.
  - split; [done|]. intros (r & -> & _). by rewrite strip_prefix_app in Hs.
Qed.

Lemma ClosePrefix_ALL_complete p : p ∈ ClosePrefix_ALL.
Proof. destruct p; by apply (bool_decide_unpack _). Qed.

Lemma find_prefix_spec `{Unicode} s p :
  find_first (prefix_matches s) ClosePrefix_ALL = Some p ↔ prefix_matches s p = true.
Proof.
  split.
  - by intros (l1 & l2 & _ & Hp & _)%find_first_Some.
  - intros Hp. destruct (find_first (prefix_matches s) ClosePrefix_ALL) as [q|] eqn:Hf.
    + apply find_first_Some in Hf as (_ & _ & _ & Hq & _).
      apply prefix_matches_spec in Hp as (r1 & H1 & _), Hq as (r2 & H2 & _).
      f_equal. by eapply prefix_str_disjoint.
    + apply find_first_None in Hf. rewrite Forall_forall in Hf.
      specialize (Hf p (ClosePrefix_ALL_complete p)). congruence.
Qed.

(** The reason cites a cargo figure and nobody says where it ran. *)
Definition unattributed `{Unicode} (s : string) (external : bool) : Prop :=
  contains s "cargo test" = true ∧ has_worker_authority s = false ∧ external = false.

(** a close reason is verified for a prefix exactly when the reason was read, starts
    (after its leading blanks) with that sanctioned token at a word boundary, and does
    not cite a cargo test figure without naming where it ran, here or outside; at most
    one token can match. It is unread exactly when it was not given, and an authority
    found outside can only lift the worker refusal. *)
Theorem close_reason_spec `{Unicode} reason external :
  (∀ p, classify_close_reason_with_external_authority reason external = Verified p ↔
     ∃ raw r, reason = Some raw ∧ trim_start raw = prefix_str p +:+ r ∧ boundary_ok r = true ∧
       trim (trim_start raw) ≠ "" ∧ ¬ unattributed (trim_start raw) external) ∧
  (classify_close_reason_with_external_authority reason external = Unread ↔ reason = None) ∧
  (classify_close_reason_with_external_authority reason true
     ≠ classify_close_reason_with_external_authority reason external →
   external = false ∧ ∃ l, classify_close_reason_with_external_authority reason external
     = CargoWorkerMissing l).
Proof.
  unfold classify_close_reason_with_external_authority, unattributed, has_cargo_test_figure.
  destruct reason as [raw|]; [|split_and!; [naive_solver|done|done]].
  set (s := trim_start raw).
  pose proof (is_empty_false (trim s)) as Hne.
  pose proof (λ p, prefix_matches_spec s p) as Hm. pose proof (λ p, find_prefix_spec s p) as Hf.
  destruct (is_empty (trim s)) eqn:He.
  { assert (trim s = "") as Ht by (destruct (trim s); done). split_and!; [|done|done].
    intros p. split; [done|]. intros (raw' & r & [= <-] & _ & _ & Hx & _). done. }
  assert (trim s ≠ "") as Hs by (by apply Hne).
  destruct (contains s "cargo test" && negb (has_worker_authority s) && negb external) eqn:Hc.
  - rewrite !andb_true_iff, !negb_true_iff in Hc. destruct Hc as [[Hc1 Hc2] Hc3].
    split_and!; [|done|eauto].
    intros p. split; [done|]. intros (raw' & r & [= <-] & _ & _ & _ & []). done.
  - rewrite !andb_false_iff, !negb_false_iff in Hc.
    assert (¬ (contains s "cargo test" = true ∧ has_worker_authority s = false ∧ external = false))
      as Hu by (intros (H1 & H2 & H3); rewrite H1, H2, H3 in Hc; naive_solver).
    rewrite andb_false_r.
    split_and!.
    + intros p. specialize (Hm p). specialize (Hf p).
      destruct (find_first (prefix_matches s) ClosePrefix_ALL) as [q|]; split.
      * intros [= ->]. destruct (proj1 Hm (proj1 Hf eq_refl)) as (r & Hr & Hb). eauto 10.
      * intros (raw' & r & [= <-] & Hr & Hb & _).
        assert (Some q = Some p) as [= ->]; [|done]. apply Hf, Hm. eauto.
      * done.
      * intros (raw' & r & [= <-] & Hr & Hb & _).
        assert (None = Some p) by (apply Hf, Hm; eauto). done.
    + by destruct (find_first _ _).
    + done.
Qed.

Lemma close_reason_spec_witness :
  let reason := Some "DONE: cargo test 12 passed" in
  (∃ l, @classify_close_reason_with_external_authority ascii_only reason false = CargoWorkerMissing l).
Proof.
  cbv zeta.
  refine (proj2 (proj2 (proj2 (@close_reason_spec ascii_only (Some "DONE: cargo test 12 passed") false)) _)).
  vm_compute. discriminate.
Defined.

Lemma take_digits_spec s : ∃ r, s = take_digits s +:+ r ∧ all_bytes is_ascii_digit (take_digits s) = true ∧
  match r with String c _ => is_ascii_digit c = false | EmptyString => True end.
Proof.
  induction s as [|c s (r & Hs & Hd & Hr)]; [by exists ""|]. cbn [take_digits].
  destruct (is_ascii_digit c) eqn:Hc.
  - exists r. cbn [all_bytes]. rewrite str_app_cons, <- Hs, Hc. done.
  - exists (String c s). done.
Qed.

(** the closing actor is recorded exactly when the first "closed_by=" of the reason
    is followed by "pane=%" and a digit, and then it is "%" and all the digits that
    follow; a name after the token is malformed, never recorded, and only a reason
    without the token is missing its actor. *)
Theorem close_actor_spec reason :
  (∀ p, classify_close_actor reason = Recorded p ↔
     ∃ a r d t, split_once CLOSE_ACTOR_TOKEN reason = Some (a, r) ∧
       r = CLOSE_ACTOR_PANE_PREFIX +:+ d +:+ t ∧ d ≠ "" ∧ all_bytes is_ascii_digit d = true ∧
       match t with String c _ => is_ascii_digit c = false | EmptyString => True end ∧
       p = "%" +:+ d) ∧
  (classify_close_actor reason = ActorMissing ↔ contains reason CLOSE_ACTOR_TOKEN = false).
Proof.
  unfold classify_close_actor. rewrite contains_false_None.
  destruct (split_once CLOSE_ACTOR_TOKEN reason) as [[a r]|] eqn:Hs; [|naive_solver].
  destruct (strip_prefix CLOSE_ACTOR_PANE_PREFIX r) as [pane|] eqn:Hp.
  2: { split; [|done]. intros p. split; [done|].
       intros (? & ? & d & t & [= <- <-] & -> & _). by rewrite strip_prefix_app in Hp. }
  apply strip_prefix_Some in Hp as ->.
  assert (∀ d t, pane = d +:+ t → all_bytes is_ascii_digit d = true →
    match t with String c _ => is_ascii_digit c = false | EmptyString => True end →
    take_digits pane = d) as Hu.
  { intros d t -> Hd Ht. clear Hs. induction d as [|c d IH]; cbn [all_bytes take_digits] in *.
    - change ("" +:+ t) with t. destruct t as [|c t]; [done|]. cbn. by rewrite Ht.
    - rewrite str_app_cons. cbn [take_digits]. apply andb_true_iff in Hd as [-> Hd].
      by rewrite IH. }
  destruct (take_digits_spec pane) as (t & Hpane & Hd & Ht).
  split.
  - intros p. destruct (is_empty (take_digits pane)) eqn:He; cbn [negb].
    + split; [done|]. intros (? & ? & d & t' & [= <- <-] & Heq & Hne & Hd' & Ht' & _).
      apply (str_app_inj_l CLOSE_ACTOR_PANE_PREFIX pane) in Heq.
      rewrite (Hu d t') in He by done. by destruct d.
    + apply is_empty_false in He. split.
      * intros [= <-]. exists a, (CLOSE_ACTOR_PANE_PREFIX +:+ pane), (take_digits pane), t.
        split_and!; try done. by rewrite <- Hpane.
      * intros (? & ? & d & t' & [= <- <-] & Heq & Hne & Hd' & Ht' & ->).
        apply (str_app_inj_l CLOSE_ACTOR_PANE_PREFIX pane) in Heq. by rewrite (Hu d t').
  - destruct (negb _); done.
Qed.

(** A grade with no comment to pin its tree is refused, whatever its reason says. *)
Lemma grade_without_comments `{Unicode} reason :
  classify_grade_pin reason [] = NotAGrade ∨ classify_grade_pin reason [] = NoComments.
Proof. unfold classify_grade_pin. destruct (negb _); auto. Qed.
