(* ===== verification/Lifecycle.v ===== *)
(** * One bead from selection to close (ntm-fleet-monitor)

    crates/ntm-fleet-monitor/src: [lib.rs] classifies a proposed action into a wave,
    [approved.rs] lets only an autonomous wave become an approval, and
    [bead_lifecycle.rs] with [bead_lifecycle/model.rs] is the state machine of one
    selected bead.  Each transition is a method on [&mut self]: [StM BeadLifecycle].
    The identifiers are newtypes over [String] whose constructors refuse blank text;
    here they are strings, and the constructors are the [*_new] functions. *)

From stdpp Require Import base numbers list option strings gmap.
From Stdlib Require Import NArith Lia.
From S2P Require Import Prelude RustStr.

Open Scope string_scope.

(** ** Proposed actions and their approval (lib.rs, approved.rs). *)

Inductive LoopLayer :=
  | GapToBead | Conformance | Observe | Select | Dispatch | Keepalive | Verify
  | CheckIn | Alignment | Journey.

Inductive TypedAction :=
  | ObserveScan | SelectQueue | DispatchPacket | VerifyReceipt | RecycleFrozen
  | InterruptWedged | ReGoalIdle | FileFindingBead | ReportFindingWithoutBead
  | WeakenGate | SpendMoney | ObtainCredentials | DeployPublic.
#[global] Instance TypedAction_eq_dec : EqDecision TypedAction.
Proof. solve_decision. Defined.

Definition action_str (a : TypedAction) : string :=
  match a with
  | ObserveScan => "observe-scan" | SelectQueue => "select-queue"
  | DispatchPacket => "dispatch-packet" | VerifyReceipt => "verify-receipt"
  | RecycleFrozen => "recycle-frozen" | InterruptWedged => "interrupt-wedged"
  | ReGoalIdle => "re-goal-idle" | FileFindingBead => "file-finding-bead"
  | ReportFindingWithoutBead => "report-finding-without-bead"
  | WeakenGate => "weaken-gate" | SpendMoney => "spend-money"
  | ObtainCredentials => "obtain-credentials" | DeployPublic => "deploy-public"
  end.

Definition ALL_ACTIONS : list TypedAction :=
  [ObserveScan; SelectQueue; DispatchPacket; VerifyReceipt; RecycleFrozen;
   InterruptWedged; ReGoalIdle; FileFindingBead; ReportFindingWithoutBead;
   WeakenGate; SpendMoney; ObtainCredentials; DeployPublic].

Definition action_parse (s : string) : option TypedAction :=
  find_first (λ a, bool_decide (action_str a = s)) ALL_ACTIONS.

Definition action_phase (a : TypedAction) : LoopLayer :=
  match a with
  | FileFindingBead | ReportFindingWithoutBead => GapToBead
  | ObserveScan => Observe
  | SelectQueue => Select
  | DispatchPacket => Dispatch
  | VerifyReceipt => Verify
  | RecycleFrozen | InterruptWedged | ReGoalIdle => Keepalive
  | WeakenGate | SpendMoney | ObtainCredentials | DeployPublic => Dispatch
  end.

Inductive ApprovalKind := Spend | Credentials | Deploy | GateWeaken.

Inductive Refusal :=
  | PaneNotDispatchable | FindingWithoutBead | PacketIncomplete
  | SingleCaptureLiveness | UnknownAction.

Inductive WaveVerdict :=
  | Autonomous
  | Required (kind : ApprovalKind)
  | Refuse (reason : Refusal).

Definition apply_allowed (v : WaveVerdict) : bool :=
  match v with Autonomous => true | _ => false end.

Record Intent := MkIntent {
  action : TypedAction; pane_dispatchable : bool; two_captures : bool;
  packet_complete : bool; finding_has_bead : bool }.

(** [Intent::new]: everything but the action fails closed. *)
Definition Intent_new (a : TypedAction) : Intent := MkIntent a false false false false.

Record Wave := MkWave { phase : LoopLayer; wave_action : TypedAction; verdict : WaveVerdict }.

Definition classify (i : Intent) : Wave :=
  let a := action i in
  let v :=
    match a with
    | WeakenGate => Required GateWeaken
    | SpendMoney => Required Spend
    | ObtainCredentials => Required Credentials
    | DeployPublic => Required Deploy
    | ReportFindingWithoutBead => Refuse FindingWithoutBead
    | DispatchPacket =>
        if negb (two_captures i) then Refuse SingleCaptureLiveness
        else if negb (pane_dispatchable i) then Refuse PaneNotDispatchable
        else if negb (packet_complete i) then Refuse PacketIncomplete
        else Autonomous
    | RecycleFrozen | InterruptWedged | ReGoalIdle =>
        if negb (two_captures i) then Refuse SingleCaptureLiveness else Autonomous
    | FileFindingBead | ObserveScan | SelectQueue | VerifyReceipt => Autonomous
    end in
  MkWave (action_phase a) a v.

Definition with_action (a : TypedAction) (i : Intent) : Intent :=
  MkIntent a (pane_dispatchable i) (two_captures i) (packet_complete i) (finding_has_bead i).

Definition classify_named (name : string) (i : Intent) : Wave :=
  match action_parse name with
  | Some a => classify (with_action a i)
  | None => MkWave Observe (action i) (Refuse UnknownAction)
  end.

(** What a prose claim of "blocked on a human" really names. *)
Definition claimed_blocker_kind (claim : string) : option ApprovalKind :=
  let c := to_ascii_lowercase claim in
  if contains c "spend" || contains c "purchas" || contains c " invoice"
     || contains c "billing" || contains c "pay " then Some Spend
  else if contains c "credential" || contains c "api key" || contains c "api cred"
          || contains c "rotate secret" then Some Credentials
  else if contains c "deploy" || contains c "publish" || contains c "public release"
          || contains c "client production" then Some Deploy
  else if (contains c "weaken" || contains c "bypass" || contains c "disable")
          && (contains c "gate" || contains c "hook" || contains c "admission")
       then Some GateWeaken
  else None.

Definition default_action (l : LoopLayer) : TypedAction :=
  match l with
  | GapToBead => FileFindingBead
  | Conformance | Observe => ObserveScan
  | Select => SelectQueue
  | Dispatch => DispatchPacket
  | Keepalive => RecycleFrozen
  | Verify => VerifyReceipt
  | CheckIn | Alignment | Journey => ObserveScan
  end.

Definition plan_wave (l : LoopLayer) (facts : Intent) : Wave :=
  classify (with_action (default_action l) facts).

Inductive NotApproved := NeedsApproval (kind : ApprovalKind) | Refused (reason : Refusal).

(** The wave inside is private to approved.rs: [authorize] is the only source. *)
Inductive Approved := MkApproved (w : Wave).
Definition approved_wave (a : Approved) : Wave := let 'MkApproved w := a in w.

Definition authorize (w : Wave) : result NotApproved Approved :=
  match verdict w with
  | Autonomous => Ok (MkApproved w)
  | Required kind => Err (NeedsApproval kind)
  | Refuse reason => Err (Refused reason)
  end.

(** ** Identities, evidence and errors (model.rs). *)

Definition BeadId := string.
Definition EventId := string.

Record DispatchTarget := MkTarget { session : string; pane : string }.
#[global] Instance DispatchTarget_eq_dec : EqDecision DispatchTarget.
Proof. solve_decision. Defined.

Record EvidencePolicy := MkPolicy { now_ms : N; max_age_ms : N }.

Inductive LifecycleStatus :=
  | Selected | Dispatched | ReceiverVerified | Ungraded | Grading | GradedPass
  | GradedFix | Closed | RedispatchRequired | Blocked.
#[global] Instance LifecycleStatus_eq_dec : EqDecision LifecycleStatus.
Proof. solve_decision. Defined.

Definition status_str (s : LifecycleStatus) : string :=
  match s with
  | Selected => "selected" | Dispatched => "dispatched"
  | ReceiverVerified => "receiver_verified" | Ungraded => "ungraded"
  | Grading => "grading" | GradedPass => "graded_pass" | GradedFix => "graded_fix"
  | Closed => "closed" | RedispatchRequired => "redispatch_required"
  | Blocked => "blocked"
  end.

Definition is_terminal (s : LifecycleStatus) : bool :=
  match s with Closed | Blocked => true | _ => false end.

Inductive LifecycleEventKind :=
  | EvSelected | EvDispatched | EvReceiverVerified | EvMarkedUngraded
  | EvGradingStarted | EvGradedPass | EvGradedFix | EvClosed
  | EvRedispatchRequired | EvBlocked.

Inductive BlockerKind := ExternalDependency | HumanApproval | LocalCondition.
Definition is_external (k : BlockerKind) : bool :=
  match k with ExternalDependency | HumanApproval => true | LocalCondition => false end.

Record BlockerEvidence := MkBlocker {
  blocker_kind : BlockerKind; block_reason : string; escalation_ref : string;
  blocker_observed_at_ms : N }.

Record LifecycleEvent := MkEvent {
  event_id : EventId; event_kind : LifecycleEventKind;
  event_status : LifecycleStatus; event_blocker : option BlockerEvidence }.

Record DispatchReceipt := MkDispatch {
  d_id : EventId; d_bead : BeadId; d_target : DispatchTarget; d_objective : string;
  dispatched_at_ms : N }.

Record ReceiverEvidence := MkReceiver {
  r_id : EventId; r_bead : BeadId; r_target : DispatchTarget; r_objective : string;
  observed_at_ms : N }.

Inductive GradeResult := Pass | Fix (name : string).

Record GradeReceipt := MkGrade {
  g_id : EventId; g_bead : BeadId; g_target : DispatchTarget; g_grader_pane : string;
  receiver_event_id : EventId; grade_result : GradeResult; graded_at_ms : N }.

Record RedispatchPlan := MkPlan {
  p_id : EventId; p_bead : BeadId; p_target : DispatchTarget; fix_name : string }.

Inductive LifecycleError :=
  | InvalidInput (field : string)
  | InvalidTransition (from : LifecycleStatus) (event : LifecycleEventKind)
  | DuplicateEvent (id : EventId)
  | ErrNotApproved (e : NotApproved)
  | WrongBead | WrongTarget | WrongObjective
  | MissingEscalationReference | LocalBlockerNotAllowed
  | EvidenceInFuture (observed now : N)
  | StaleEvidence (age max_age : N)
  | MissingReceiverEvidence | WrongReceiverEvent
  | GraderIdentityMissing | SelfGradeRefused | GraderMismatch | GradeMustBePass.

Definition blank (s : string) : bool := is_empty (trim s).

(** The validating constructors. *)
Definition BeadId_new (raw : string) : result LifecycleError BeadId :=
  if blank raw then Err (InvalidInput "bead") else Ok raw.
Definition EventId_new (raw : string) : result LifecycleError EventId :=
  if blank raw then Err (InvalidInput "event_id") else Ok raw.
Definition DispatchTarget_new (session pane : string) : result LifecycleError DispatchTarget :=
  if blank session then Err (InvalidInput "session")
  else if blank pane then Err (InvalidInput "pane")
  else Ok (MkTarget session pane).
Definition EscalationRef_new (raw : string) : result LifecycleError string :=
  if blank raw then Err (InvalidInput "escalation_ref") else Ok raw.
Definition BlockReason_new (raw : string) : result LifecycleError string :=
  if blank raw then Err (InvalidInput "block_reason") else Ok raw.
Definition BlockerEvidence_new (k : BlockerKind) (reason : string) (esc : option string)
    (observed : N) : result LifecycleError BlockerEvidence :=
  match esc with
  | None => Err MissingEscalationReference
  | Some e => Ok (MkBlocker k reason e observed)
  end.
Definition DispatchReceipt_new (id : EventId) (b : BeadId) (t : DispatchTarget)
    (objective : string) (at_ms : N) : result LifecycleError DispatchReceipt :=
  if blank objective then Err (InvalidInput "objective")
  else Ok (MkDispatch id b t objective at_ms).
Definition ReceiverEvidence_new (id : EventId) (b : BeadId) (t : DispatchTarget)
    (objective : string) (at_ms : N) : result LifecycleError ReceiverEvidence :=
  if blank objective then Err (InvalidInput "receiver_objective")
  else Ok (MkReceiver id b t objective at_ms).
(** A grade that asks for work must name the work. *)
Definition GradeResult_fix (name : string) : result LifecycleError GradeResult :=
  let normalized := to_ascii_lowercase (trim name) in
  if is_empty normalized
     || existsb (λ w, bool_decide (normalized = w)) ["retry"; "try again"; "try-again"; "fix"]
  then Err (InvalidInput "fix_name") else Ok (Fix name).
Definition RedispatchPlan_new (id : EventId) (b : BeadId) (t : DispatchTarget)
    (name : string) : result LifecycleError RedispatchPlan :=
  if blank name then Err (InvalidInput "fix_name") else Ok (MkPlan id b t name).

(** ** The lifecycle (bead_lifecycle.rs). *)

Record BeadLifecycle := MkLifecycle {
  bead : BeadId; target : DispatchTarget; objective : string;
  lc_phase : LoopLayer; lc_action : TypedAction; state : LifecycleStatus;
  receiver : option ReceiverEvidence; grader_pane : option string;
  grade_receipt : option GradeReceipt; blocker : option BlockerEvidence;
  lc_fix_name : option string; seen_events : gset string; history : list LifecycleEvent }.

Definition select (b : BeadId) (t : DispatchTarget) (objective : string) (approval : Approved)
    (id : EventId) : result LifecycleError BeadLifecycle :=
  if blank objective then Err (InvalidInput "objective")
  else let w := approved_wave approval in
       Ok (MkLifecycle b t objective (phase w) (wave_action w) Selected None None None None None
             {[ id ]} [MkEvent id EvSelected Selected None]).

Definition select_wave (b : BeadId) (t : DispatchTarget) (objective : string) (w : Wave)
    (id : EventId) : result LifecycleError BeadLifecycle :=
  match authorize w with
  | Err e => Err (ErrNotApproved e)
  | Ok a => select b t objective a id
  end.

(** Field writes of the methods. *)
Definition set_receiver (r : ReceiverEvidence) (l : BeadLifecycle) : BeadLifecycle :=
  MkLifecycle (bead l) (target l) (objective l) (lc_phase l) (lc_action l) (state l)
    (Some r) (grader_pane l) (grade_receipt l) (blocker l) (lc_fix_name l)
    (seen_events l) (history l).
Definition set_grader (g : string) (l : BeadLifecycle) : BeadLifecycle :=
  MkLifecycle (bead l) (target l) (objective l) (lc_phase l) (lc_action l) (state l)
    (receiver l) (Some g) (grade_receipt l) (blocker l) (lc_fix_name l)
    (seen_events l) (history l).
Definition set_grade (fix_ : option string) (g : GradeReceipt) (l : BeadLifecycle) : BeadLifecycle :=
  MkLifecycle (bead l) (target l) (objective l) (lc_phase l) (lc_action l) (state l)
    (receiver l) (grader_pane l) (Some g) (blocker l) fix_
    (seen_events l) (history l).
Definition set_blocker (b : BlockerEvidence) (l : BeadLifecycle) : BeadLifecycle :=
  MkLifecycle (bead l) (target l) (objective l) (lc_phase l) (lc_action l) (state l)
    (receiver l) (grader_pane l) (grade_receipt l) (Some b) (lc_fix_name l)
    (seen_events l) (history l).
Definition push_event (e : LifecycleEvent) (l : BeadLifecycle) : BeadLifecycle :=
  MkLifecycle (bead l) (target l) (objective l) (lc_phase l) (lc_action l) (event_status e)
    (receiver l) (grader_pane l) (grade_receipt l) (blocker l) (lc_fix_name l)
    ({[ event_id e ]} ∪ seen_events l) (history l ++ [e])%list.

Notation LM := (StM BeadLifecycle LifecycleError).

Definition transition_with_blocker (id : EventId) (kind : LifecycleEventKind)
    (next : LifecycleStatus) (b : option BlockerEvidence) : LM unit :=
  l ← stm_get;
  _ ← stm_refuse (bool_decide (id ∈ seen_events l)) (DuplicateEvent id);
  stm_modify (push_event (MkEvent id kind next b)).

Definition transition (id : EventId) (kind : LifecycleEventKind) (next : LifecycleStatus) : LM unit :=
  transition_with_blocker id kind next None.

Definition require_state (id : EventId) (event : LifecycleEventKind)
    (allowed : list LifecycleStatus) : LM unit :=
  l ← stm_get;
  _ ← stm_refuse (bool_decide (id ∈ seen_events l)) (DuplicateEvent id);
  stm_require (bool_decide (state l ∈ allowed)) (InvalidTransition (state l) event).

Definition check_identity (b : BeadId) (t : DispatchTarget) (o : option string) : LM unit :=
  l ← stm_get;
  _ ← stm_require (bool_decide (b = bead l)) WrongBead;
  _ ← stm_require (bool_decide (t = target l)) WrongTarget;
  match o with
  | Some o => stm_require (bool_decide (o = objective l)) WrongObjective
  | None => mret tt
  end.

Definition check_fresh (timestamp : N) (p : EvidencePolicy) : result LifecycleError unit :=
  if (now_ms p <? timestamp)%N then Err (EvidenceInFuture timestamp (now_ms p))
  else let age := (now_ms p - timestamp)%N in
       if (max_age_ms p <? age)%N then Err (StaleEvidence age (max_age_ms p)) else Ok tt.

Definition dispatch (r : DispatchReceipt) : LM unit :=
  _ ← require_state (d_id r) EvDispatched [Selected; RedispatchRequired];
  _ ← check_identity (d_bead r) (d_target r) (Some (d_objective r));
  transition (d_id r) EvDispatched Dispatched.

Definition mark_ungraded (id : EventId) : LM unit :=
  _ ← require_state id EvMarkedUngraded [Dispatched];
  transition id EvMarkedUngraded Ungraded.

Definition verify_receiver (e : ReceiverEvidence) (p : EvidencePolicy) : LM unit :=
  _ ← require_state (r_id e) EvReceiverVerified [Dispatched; Ungraded];
  _ ← check_identity (r_bead e) (r_target e) (Some (r_objective e));
  _ ← stm_lift (check_fresh (observed_at_ms e) p);
  _ ← stm_modify (set_receiver e);
  transition (r_id e) EvReceiverVerified ReceiverVerified.

Definition start_grading (id : EventId) (grader : string) : LM unit :=
  _ ← require_state id EvGradingStarted [ReceiverVerified];
  l ← stm_get;
  _ ← stm_require (bool_decide (receiver l ≠ None)) MissingReceiverEvidence;
  _ ← stm_refuse (blank grader) GraderIdentityMissing;
  _ ← stm_refuse (bool_decide (grader = pane (target l))) SelfGradeRefused;
  _ ← stm_modify (set_grader grader);
  transition id EvGradingStarted Grading.

Definition grade (r : GradeReceipt) (p : EvidencePolicy) : LM unit :=
  _ ← require_state (g_id r) EvGradedPass [Grading];
  _ ← check_identity (g_bead r) (g_target r) None;
  _ ← stm_lift (check_fresh (graded_at_ms r) p);
  l ← stm_get;
  rcv ← stm_lift (ok_or (receiver l) MissingReceiverEvidence);
  _ ← stm_refuse (blank (g_grader_pane r)) GraderIdentityMissing;
  _ ← stm_refuse (bool_decide (g_grader_pane r = pane (target l))) SelfGradeRefused;
  _ ← stm_require (bool_decide (grader_pane l = Some (g_grader_pane r))) GraderMismatch;
  _ ← stm_require (bool_decide (receiver_event_id r = r_id rcv)) WrongReceiverEvent;
  match grade_result r with
  | Pass => _ ← stm_modify (set_grade None r); transition (g_id r) EvGradedPass GradedPass
  | Fix name => _ ← stm_modify (set_grade (Some name) r); transition (g_id r) EvGradedFix GradedFix
  end.

Definition passes (g : option GradeReceipt) : bool :=
  match g with Some g => match grade_result g with Pass => true | Fix _ => false end | None => false end.

Definition close (id : EventId) : LM unit :=
  _ ← require_state id EvClosed [GradedPass];
  l ← stm_get;
  _ ← stm_require (passes (grade_receipt l)) GradeMustBePass;
  transition id EvClosed Closed.

Definition require_redispatch (p : RedispatchPlan) : LM unit :=
  l ← stm_get;
  _ ← require_state (p_id p) EvRedispatchRequired [GradedFix; Dispatched];
  _ ← check_identity (p_bead p) (p_target p) None;
  _ ← stm_require (bool_decide (state l = Dispatched)
                   || bool_decide (lc_fix_name l = Some (fix_name p))) WrongObjective;
  transition (p_id p) EvRedispatchRequired RedispatchRequired.

Definition block (id : EventId) (b : BlockerEvidence) (p : EvidencePolicy) : LM unit :=
  _ ← require_state id EvBlocked
        [Selected; Dispatched; ReceiverVerified; Ungraded; Grading; RedispatchRequired];
  _ ← stm_require (is_external (blocker_kind b)) LocalBlockerNotAllowed;
  _ ← stm_lift (check_fresh (blocker_observed_at_ms b) p);
  _ ← transition_with_blocker id EvBlocked Blocked (Some b);
  stm_modify (set_blocker b).

(** ** Runs: a caller's sequence of method calls.

    A refused call leaves whatever state the method left; the caller may go on. *)
Inductive LOp :=
  | ODispatch (r : DispatchReceipt)
  | OMarkUngraded (id : EventId)
  | OVerify (e : ReceiverEvidence) (p : EvidencePolicy)
  | OStartGrading (id : EventId) (grader : string)
  | OGrade (r : GradeReceipt) (p : EvidencePolicy)
  | OClose (id : EventId)
  | ORedispatch (p : RedispatchPlan)
  | OBlock (id : EventId) (b : BlockerEvidence) (p : EvidencePolicy).

Definition exec (o : LOp) : LM unit :=
  match o with
  | ODispatch r => dispatch r
  | OMarkUngraded id => mark_ungraded id
  | OVerify e p => verify_receiver e p
  | OStartGrading id g => start_grading id g
  | OGrade r p => grade r p
  | OClose id => close id
  | ORedispatch p => require_redispatch p
  | OBlock id b p => block id b p
  end.

Definition run (ops : list LOp) (l : BeadLifecycle) : BeadLifecycle :=
  foldl (λ l o, (exec o l).1) l ops.

Definition op_id (o : LOp) : EventId :=
  match o with
  | ODispatch r => d_id r
  | OMarkUngraded id | OStartGrading id _ | OClose id | OBlock id _ _ => id
  | OVerify e _ => r_id e
  | OGrade r _ => g_id r
  | ORedispatch p => p_id p
  end.

(** ** The contract: an automaton on the status alone. *)
Inductive edge : LifecycleStatus → LifecycleEventKind → LifecycleStatus → Prop :=
  | edge_dispatch s : s = Selected ∨ s = RedispatchRequired → edge s EvDispatched Dispatched
  | edge_ungraded : edge Dispatched EvMarkedUngraded Ungraded
  | edge_receiver s : s = Dispatched ∨ s = Ungraded → edge s EvReceiverVerified ReceiverVerified
  | edge_grading : edge ReceiverVerified EvGradingStarted Grading
  | edge_pass : edge Grading EvGradedPass GradedPass
  | edge_fix : edge Grading EvGradedFix GradedFix
  | edge_close : edge GradedPass EvClosed Closed
  | edge_redispatch s : s = GradedFix ∨ s = Dispatched → edge s EvRedispatchRequired RedispatchRequired
  | edge_block s : s ∈ [Selected; Dispatched; ReceiverVerified; Ungraded; Grading; RedispatchRequired] →
      edge s EvBlocked Blocked.
#[export] Hint Constructors edge : rust.

(** A history is a path of the automaton: each event leads from the status of the
    one before it. *)
Fixpoint path (s : LifecycleStatus) (h : list LifecycleEvent) : Prop :=
  match h with
  | [] => True
  | e :: h' => edge s (event_kind e) (event_status e) ∧ path (event_status e) h'
  end.

Definition last_status (s : LifecycleStatus) (h : list LifecycleEvent) : LifecycleStatus :=
  default s (event_status <$> last h).

(** What a successful call did: one new event appended, along an edge, and the
    bead, target and objective untouched. *)
Definition stepped (o : LOp) (l l' : BeadLifecycle) : Prop :=
  ∃ e, edge (state l) (event_kind e) (state l') ∧ event_status e = state l' ∧
    event_id e = op_id o ∧ op_id o ∉ seen_events l ∧
    history l' = app (history l) [e] ∧ seen_events l' = {[ op_id o ]} ∪ seen_events l ∧
    bead l' = bead l ∧ target l' = target l ∧ objective l' = objective l.

Ltac lm_inv H :=
  unfold transition, require_state, check_identity, transition_with_blocker in H; stm_inv H.

(** A method that reaches its transition has passed [require_state], so the
    duplicate check inside the transition cannot fire. *)
Ltac lm_stepped :=
  unbool; eexists (MkEvent _ _ _ _); cbn;
  split_and!; try done; eauto with rust;
  match goal with
  | H : ?s ∈ _ |- edge ?s _ _ =>
      rewrite ?elem_of_cons, elem_of_nil in H; destruct_or?; try done;
      rewrite H; constructor; set_solver
  end.

Lemma exec_ok_stepped o l l' : exec o l = (l', Ok tt) → stepped o l l'.
Proof.
  destruct o as [r|id|e p|id g|r p|id|p|id b p]; intros H; cbn [exec] in H.
  - unfold dispatch in H. lm_inv H. lm_stepped.
  - unfold mark_ungraded in H. lm_inv H. lm_stepped.
  - unfold verify_receiver in H. lm_inv H. lm_stepped.
  - unfold start_grading in H. lm_inv H. lm_stepped.
  - unfold grade in H. destruct (grade_result r) eqn:Hr; lm_inv H; lm_stepped.
  - unfold close in H. lm_inv H. lm_stepped.
  - unfold require_redispatch in H. lm_inv H; lm_stepped.
  - unfold block in H. lm_inv H. lm_stepped.
Qed.

(** A refused call changes nothing: where a method writes a field before its
    transition, the transition cannot be the part that refuses. *)
Lemma exec_err_unchanged o l l' e : exec o l = (l', Err e) → l' = l.
Proof.
  destruct o as [r|id|ev p|id g|r p|id|p|id b p]; intros H; cbn [exec] in H.
  - unfold dispatch in H. lm_inv H; unbool; done.
  - unfold mark_ungraded in H. lm_inv H; unbool; done.
  - unfold verify_receiver in H. lm_inv H; unbool; done.
  - unfold start_grading in H. lm_inv H; unbool; done.
  - unfold grade in H. destruct (grade_result r) eqn:Hr; lm_inv H; unbool; done.
  - unfold close in H. lm_inv H; unbool; done.
  - unfold require_redispatch in H. lm_inv H; unbool; done.
  - unfold block in H. lm_inv H; unbool; done.
Qed.

(** ** The invariant of every lifecycle a run can reach. *)

(** The grade on file passed, by a peer who is not the receiving pane, the one
    grading was started with, and it names the receiver evidence on file. *)
Definition peer_passed (l : BeadLifecycle) : Prop :=
  ∃ g r, grade_receipt l = Some g ∧ receiver l = Some r ∧ grade_result g = Pass ∧
    g_grader_pane g ≠ pane (target l) ∧ blank (g_grader_pane g) = false ∧
    grader_pane l = Some (g_grader_pane g) ∧ receiver_event_id g = r_id r ∧
    g_bead g = bead l ∧ g_target g = target l.

Record lc_inv (l : BeadLifecycle) : Prop := {
  inv_history : ∃ e h, history l = e :: h ∧ event_status e = Selected ∧
    path Selected h ∧ last_status Selected h = state l;
  inv_ids : NoDup (event_id <$> history l);
  inv_seen : ∀ id, id ∈ seen_events l ↔ id ∈ event_id <$> history l;
  inv_receiver : ∀ r, receiver l = Some r →
    r_bead r = bead l ∧ r_target r = target l ∧ r_objective r = objective l ∧
    r_id r ∈ seen_events l;
  inv_verified : state l ∈ [ReceiverVerified; Grading; GradedPass; GradedFix; Closed] →
    receiver l ≠ None;
  inv_grading : state l = Grading →
    ∃ g, grader_pane l = Some g ∧ g ≠ pane (target l) ∧ blank g = false;
  inv_fix : state l = GradedFix → lc_fix_name l ≠ None;
  inv_passed : state l ∈ [GradedPass; Closed] → peer_passed l;
  inv_blocked : state l = Blocked → ∃ b, blocker l = Some b ∧ is_external (blocker_kind b) = true }.

Lemma path_snoc s h e :
  path s (app h [e]) ↔ path s h ∧ edge (last_status s h) (event_kind e) (event_status e).
Proof.
  revert s. induction h as [|x h IH]; intros s; simpl; [unfold last_status; simpl; naive_solver|].
  rewrite IH. replace (last_status s (x :: h)) with (last_status (event_status x) h); [naive_solver|].
  unfold last_status. rewrite last_cons. by destruct (last h).
Qed.

Lemma last_status_snoc s h e : last_status s (app h [e]) = event_status e.
Proof. unfold last_status. by rewrite last_snoc. Qed.

Lemma select_inv b t o a id l : select b t o a id = Ok l → lc_inv l.
Proof.
  unfold select. destruct (blank o); [done|]. intros [= <-].
  constructor; simpl; try done.
  - eexists _, []. done.
  - apply NoDup_singleton.
  - set_solver.
  - set_solver.
  - set_solver.
Qed.

(** The part of the invariant about the history follows from the step alone. *)
Lemma stepped_history o l l' :
  stepped o l l' → lc_inv l →
  (∃ e h, history l' = e :: h ∧ event_status e = Selected ∧
    path Selected h ∧ last_status Selected h = state l') ∧
  NoDup (event_id <$> history l') ∧
  (∀ id, id ∈ seen_events l' ↔ id ∈ event_id <$> history l').
Proof.
  intros (e & Hedge & Hst & Hid & Hfresh & Hh & Hs & _) I.
  destruct (inv_history _ I) as (e0 & h & Hh0 & He0 & Hp & Hl).
  split_and!.
  - exists e0, (app h [e]). rewrite Hh, Hh0, path_snoc, last_status_snoc, Hl, Hst. done.
  - rewrite Hh, fmap_app. apply NoDup_app. split_and!.
    + apply (inv_ids _ I).
    + intros x Hx Hin. apply list_elem_of_singleton in Hin as ->.
      rewrite <-(inv_seen _ I), Hid in Hx. done.
    + apply NoDup_singleton.
  - intros x. rewrite Hs, Hh, fmap_app, elem_of_union, elem_of_app, (inv_seen _ I), elem_of_singleton.
    simpl. rewrite list_elem_of_singleton, Hid. tauto.
Qed.

(** Take the call apart, close the history clauses by [stepped_history], and leave
    the other clauses of the invariant with the old ones in the context. *)
Ltac inv_step H I S :=
  lm_inv H; unbool; destruct (stepped_history _ _ _ S I) as (? & ? & ?);
  pose proof (inv_receiver _ I); pose proof (inv_verified _ I);
  pose proof (inv_grading _ I); pose proof (inv_fix _ I); pose proof (inv_passed _ I); pose proof (inv_blocked _ I);
  constructor; [assumption..| | | | | |]; cbn; try done;
  try (intros K; exfalso; clear -K; set_solver);
  try (intros ? ?; simplify_eq;
       first [ by split_and!; [done..|apply elem_of_union_l, elem_of_singleton]
             | edestruct inv_receiver as (? & ? & ? & ?); [done..|];
               split_and!; [done..|by apply elem_of_union_r] ]).

Lemma exec_ok_inv o l l' : exec o l = (l', Ok tt) → lc_inv l → lc_inv l'.
Proof.
  intros H I. pose proof (exec_ok_stepped _ _ _ H) as S.
  destruct o as [r|id|ev p|id g|r p|id|p|id b p]; cbn [exec] in H.
  - unfold dispatch in H. inv_step H I S.
  - unfold mark_ungraded in H. inv_step H I S.
  - unfold verify_receiver in H. inv_step H I S.
  - unfold start_grading in H. inv_step H I S. eauto.
  - unfold grade in H. destruct (grade_result r) eqn:Hr; inv_step H I S.
    intros _. do 2 eexists. cbn. split_and!; by eauto.
  - unfold close in H. assert (state l ∈ [GradedPass]) as Hst by (lm_inv H; by unbool).
    apply list_elem_of_singleton in Hst.
    assert (peer_passed l) as (g & rc & ?) by (apply (inv_passed _ I); rewrite Hst; set_solver).
    inv_step H I S. intros _. by exists g, rc.
  - unfold require_redispatch in H. inv_step H I S.
  - unfold block in H. inv_step H I S. eauto.
Qed.

Lemma exec_inv o l : lc_inv l → lc_inv (exec o l).1.
Proof.
  intros I. destruct (exec o l) as [l' [[]|e]] eqn:H; simpl.
  - by eapply exec_ok_inv.
  - by apply exec_err_unchanged in H as ->.
Qed.

Lemma run_inv ops l : lc_inv l → lc_inv (run ops l).
Proof. revert l. induction ops as [|o ops IH]; intros l I; [done|]. by apply IH, exec_inv. Qed.

(** ** Properties. *)

Lemma path_last_edge s h e :
  path s (app h [e]) → edge (last_status s h) (event_kind e) (event_status e).
Proof. rewrite path_snoc. naive_solver. Qed.

(** A path that ends elsewhere than it began has a last event. *)
Lemma path_ends s h t :
  path s h → last_status s h = t → s ≠ t →
  ∃ h' e, h = app h' [e] ∧ event_status e = t ∧ path s h' ∧
    edge (last_status s h') (event_kind e) t.
Proof.
  destruct h as [|e h' _] using rev_ind; [naive_solver|].
  rewrite last_status_snoc, path_snoc. intros [Hp He] Ht _. subst t.
  by exists h', e.
Qed.

Lemma edge_into s k t :
  edge s k t →
  match t with
  | Closed => s = GradedPass ∧ k = EvClosed
  | GradedPass => s = Grading ∧ k = EvGradedPass
  | Grading => s = ReceiverVerified ∧ k = EvGradingStarted
  | ReceiverVerified => (s = Dispatched ∨ s = Ungraded) ∧ k = EvReceiverVerified
  | _ => True
  end.
Proof. destruct 1; auto. Qed.

(** What a lifecycle is about never changes. *)
Lemma run_about ops l : bead (run ops l) = bead l ∧ target (run ops l) = target l ∧ objective (run ops l) = objective l.
Proof.
  revert l. induction ops as [|o ops IH]; intros l; [done|].
  assert (bead (exec o l).1 = bead l ∧ target (exec o l).1 = target l ∧ objective (exec o l).1 = objective l) as (Hb & Ht & Ho).
  { destruct (exec o l) as [l' [[]|e]] eqn:H; cbn [fst].
    - apply exec_ok_stepped in H as (ev & _ & _ & _ & _ & _ & _ & ? & ? & ?). done.
    - by apply exec_err_unchanged in H as ->. }
  destruct (IH (exec o l).1) as (Hb' & Ht' & Ho'). change (run (o :: ops) l) with (run ops (exec o l).1). split_and!; congruence.
Qed.

(** The grade on file is a pass of this bead on this pane, by a named grader who is not the
    pane that worked and is the one grading was opened with; and it names the receiver
    evidence on file, which is for this bead, this pane and this objective. *)
Definition peer_graded (b : BeadId) (t : DispatchTarget) (o : string) (l : BeadLifecycle) : Prop :=
  ∃ g r, grade_receipt l = Some g ∧ receiver l = Some r ∧
    grade_result g = Pass ∧ g_bead g = b ∧ g_target g = t ∧
    g_grader_pane g ≠ pane t ∧ blank (g_grader_pane g) = false ∧ grader_pane l = Some (g_grader_pane g) ∧
    receiver_event_id g = r_id r ∧ r_bead r = b ∧ r_target r = t ∧ r_objective r = o.

(** C22: Whatever calls are made on a selected bead, in whatever order, and however
    many of them are refused: if the bead ends up closed, then a grade on file
    passed it; the grader is a named pane other than the one that did the work, and
    the one grading was opened with; the grade names the receiver evidence on file,
    which is about this bead, pane and objective; and the last four events of the
    history are, in this order, the receiver's verification, the start of grading,
    the passing grade and the close, after a dispatch. *)
Theorem closed_was_peer_graded b t o a id l0 ops :
  select b t o a id = Ok l0 → state (run ops l0) = Closed →
  peer_graded b t o (run ops l0) ∧
  ∃ h d rv gs gp cl, history (run ops l0) = app h [d; rv; gs; gp; cl] ∧
    event_status d ∈ [Dispatched; Ungraded] ∧ event_kind rv = EvReceiverVerified ∧
    event_kind gs = EvGradingStarted ∧ event_kind gp = EvGradedPass ∧ event_kind cl = EvClosed.
Proof.
  intros Hsel Hst. pose proof Hsel as I%select_inv%(run_inv ops).
  assert (bead l0 = b ∧ target l0 = t ∧ objective l0 = o) as (<- & <- & <-)
    by (unfold select in Hsel; destruct (blank o); [done|]; by injection Hsel as <-).
  destruct (run_about ops l0) as (<- & <- & <-).
  split.
  { assert (peer_passed (run ops l0)) as (g & r & Hg & Hr & ? & ? & ? & ? & ? & ? & ?)
      by (apply (inv_passed _ I); rewrite Hst; set_solver).
    destruct (inv_receiver _ I _ Hr) as (? & ? & ? & _). exists g, r. by split_and!. }
  clear Hsel.
  destruct (inv_history _ I) as (e0 & h & Hh & He0 & Hp & Hl). rewrite Hst in Hl.
  apply path_ends in Hl as (h4 & cl & -> & _ & Hp4 & [E4 Hcl]%edge_into); [|done..].
  apply path_ends in E4 as (h3 & gp & -> & _ & Hp3 & [E3 Hgp]%edge_into); [|done..].
  apply path_ends in E3 as (h2 & gs & -> & _ & Hp2 & [E2 Hgs]%edge_into); [|done..].
  apply path_ends in E2 as (h1 & rv & -> & _ & Hp1 & [E1 Hrv]%edge_into); [|done..].
  assert (Selected ≠ last_status Selected h1) as Hne by (by destruct E1 as [-> | ->]).
  destruct (path_ends _ _ _ Hp1 eq_refl Hne) as (h0 & d & -> & Hd & _).
  exists (e0 :: h0), d, rv, gs, gp, cl. split_and!; try done.
  - rewrite Hh. simpl. by rewrite <-!(assoc_L (++)%list).
  - rewrite Hd. destruct E1 as [-> | ->]; set_solver.
Qed.

(** C10: The methods implement the automaton [edge] and nothing else changes the
    history.  Every call either is refused and leaves the lifecycle exactly as it
    was, or appends one event whose identifier was never used before and whose kind
    and resulting status are an edge from the current status; so after any run the
    history is a path of the automaton from [Selected] to the current status, with
    distinct identifiers. *)
Theorem lifecycle_refines_automaton b t o a id l0 ops op :
  select b t o a id = Ok l0 →
  let l := run ops l0 in
  (∃ e h, history l = e :: h ∧ event_status e = Selected ∧ path Selected h ∧
     last_status Selected h = state l) ∧
  NoDup (event_id <$> history l) ∧
  ((∃ e, exec op l = (l, Err e)) ∨
   (∃ l' ev, exec op l = (l', Ok tt) ∧ history l' = app (history l) [ev] ∧
      event_id ev = op_id op ∧ op_id op ∉ event_id <$> history l ∧
      edge (state l) (event_kind ev) (state l') ∧ event_status ev = state l')).
Proof.
  intros Hsel l. apply select_inv, (run_inv ops) in Hsel as I. fold l in I.
  split; [apply (inv_history _ I)|]. split; [apply (inv_ids _ I)|].
  destruct (exec op l) as [l' [[]|e]] eqn:H.
  - right. destruct (exec_ok_stepped _ _ _ H) as (ev & ?&?&?&Hf&?&?&?).
    rewrite (inv_seen _ I) in Hf. exists l', ev. done.
  - left. exists e. by rewrite (exec_err_unchanged _ _ _ _ H).
Qed.

(** A closed or blocked bead is final: every further call is refused and
    changes nothing. *)
Theorem terminal_is_final l op :
  is_terminal (state l) = true → ∃ e, exec op l = (l, Err e).
Proof.
  intros Ht. destruct (exec op l) as [l' [[]|e]] eqn:H.
  - apply exec_ok_stepped in H as (ev & He & _). by destruct He; try (destruct_or?; simplify_eq/=);
      destruct (state l); try done; set_solver.
  - exists e. by rewrite (exec_err_unchanged _ _ _ _ H).
Qed.

(** *** A bead that is not blocked can always still be closed. *)

Definition some_peer (p : string) : string := if decide (p = "%1") then "%2" else "%1".

Lemma some_peer_ne p : some_peer p ≠ p ∧ blank (some_peer p) = false.
Proof. unfold some_peer. case_decide; subst; split; try done; by vm_compute. Qed.

Lemma check_fresh_now t : check_fresh t (MkPolicy t 0) = Ok tt.
Proof. unfold check_fresh. simpl. by rewrite N.ltb_irrefl, N.sub_diag. Qed.

Lemma require_state_run l id ev allowed :
  id ∉ seen_events l → state l ∈ allowed → require_state id ev allowed l = (l, Ok tt).
Proof.
  intros Hid Hs. unfold require_state. stm_next. stm_next; [by apply bool_decide_eq_false|].
  by apply stm_require_run, bool_decide_eq_true.
Qed.

Lemma check_identity_run l o :
  o = Some (objective l) ∨ o = None → check_identity (bead l) (target l) o l = (l, Ok tt).
Proof.
  intros Ho. unfold check_identity. stm_next.
  stm_next; [by apply bool_decide_eq_true|]. stm_next; [by apply bool_decide_eq_true|].
  destruct Ho as [-> | ->]; [|done]. by apply stm_require_run, bool_decide_eq_true.
Qed.

Lemma transition_run l id k n :
  id ∉ seen_events l → transition id k n l = (push_event (MkEvent id k n None) l, Ok tt).
Proof.
  intros Hid. unfold transition, transition_with_blocker. stm_next.
  stm_next; [by apply bool_decide_eq_false|]. done.
Qed.

(** One call that moves the bead a step closer to [Closed]. *)
Definition advance (l : BeadLifecycle) : LOp :=
  let id := fresh (seen_events l) in
  match state l with
  | Selected | RedispatchRequired => ODispatch (MkDispatch id (bead l) (target l) (objective l) 0)
  | Dispatched | Ungraded =>
      OVerify (MkReceiver id (bead l) (target l) (objective l) 0) (MkPolicy 0 0)
  | ReceiverVerified => OStartGrading id (some_peer (pane (target l)))
  | Grading => OGrade (MkGrade id (bead l) (target l) (default "" (grader_pane l))
                         (default "" (r_id <$> receiver l)) Pass 0) (MkPolicy 0 0)
  | GradedFix => ORedispatch (MkPlan id (bead l) (target l) (default "" (lc_fix_name l)))
  | GradedPass | Closed | Blocked => OClose id
  end.

Definition distance (s : LifecycleStatus) : nat :=
  match s with
  | GradedFix => 6 | Selected | RedispatchRequired => 5 | Dispatched | Ungraded => 4
  | ReceiverVerified => 3 | Grading => 2 | GradedPass => 1 | Closed | Blocked => 0
  end.

(** The opening steps of a call that [advance] makes. *)
Ltac advance_open Hreq :=
  unfold dispatch, verify_receiver, start_grading, grade, require_redispatch, close;
  cbn; try stm_next; stm_by (apply Hreq; set_solver);
  try stm_by (apply check_identity_run; auto); try (stm_next; [done|]).

(** In every state the invariant gives [advance] what its call asks for. *)
Lemma advance_progress l :
  lc_inv l → is_terminal (state l) = false →
  ∃ l', exec (advance l) l = (l', Ok tt) ∧ S (distance (state l')) = distance (state l).
Proof.
  intros I Ht. pose proof (is_fresh (seen_events l)) as Hf.
  destruct (some_peer_ne (pane (target l))) as [Hp1 Hp2].
  assert (∀ ev allowed, state l ∈ allowed →
    require_state (fresh (seen_events l)) ev allowed l = (l, Ok tt)) as Hreq
    by (intros; by apply require_state_run).
  pose proof (inv_verified _ I) as Hv. pose proof (inv_grading _ I) as Hg.
  pose proof (inv_fix _ I) as Hx. pose proof (inv_passed _ I) as Hq.
  destruct (state l) eqn:Hs; try done; unfold advance; rewrite Hs; cbn [exec].
  1,8: eexists; split; [advance_open Hreq; by apply transition_run|done].
  1,3: eexists; split; [advance_open Hreq; stm_next; by apply transition_run|done].
  - eexists. split; [|shelve]. advance_open Hreq. stm_next.
    stm_next; [by apply bool_decide_eq_true, Hv; set_solver|].
    stm_next; [done|]. stm_next; [by apply bool_decide_eq_false|].
    stm_next. by apply transition_run.
  - destruct (Hg eq_refl) as (g & Hgr & Hne & Hb).
    destruct (receiver l) as [r|] eqn:Hr; [|by destruct Hv; [set_solver|]].
    rewrite Hgr. eexists. split; [|shelve]. advance_open Hreq.
    cbn. stm_next. stm_next; [by rewrite Hr|]. stm_next; [done|].
    stm_next; [by apply bool_decide_eq_false|]. stm_next; [by apply bool_decide_eq_true|].
    stm_next; [by apply bool_decide_eq_true|]. stm_next. by apply transition_run.
  - eexists. split; [|shelve]. advance_open Hreq. stm_next.
    destruct Hq as (g & r & Hgr & _ & Hp & _); [set_solver|].
    stm_next; [by rewrite Hgr; simpl; rewrite Hp|]. by apply transition_run.
  - destruct (lc_fix_name l) as [n|] eqn:Hn; [|by destruct Hx].
    eexists. split; [|shelve]. advance_open Hreq.
    stm_next; [by rewrite orb_true_iff, !bool_decide_eq_true; right|]. by apply transition_run.
  Unshelve. all: done.
Qed.

(** A selected bead can always be finished.  From every state a run can reach
    that is neither closed nor blocked, some sequence of at most six further calls,
    each of them accepted, closes the bead: no refused, repeated or out-of-order
    call, and no number of grades asking for a fix, can strand it. *)
Theorem lifecycle_can_close b t o a id l0 ops :
  select b t o a id = Ok l0 → state (run ops l0) ≠ Blocked →
  ∃ more, length more <= 6 ∧ state (run more (run ops l0)) = Closed.
Proof.
  intros Hsel Hb. apply select_inv, (run_inv ops) in Hsel as I.
  revert Hb I. generalize (run ops l0) as l. intros l Hb I.
  assert (∀ n l, lc_inv l → state l ≠ Blocked → distance (state l) = n →
    ∃ more, length more = n ∧ state (run more l) = Closed) as K.
  { clear. induction n as [|n IH]; intros l I Hb Hd.
    - exists []. split; [done|]. simpl. by destruct (state l).
    - destruct (advance_progress l I) as (l' & He & Hd'); [by destruct (state l)|].
      pose proof (exec_inv (advance l) l I) as I'. rewrite He in I'. simpl in I'.
      destruct (IH l' I') as (more & Hlen & Hc); [|congruence|].
      + intros Hbl. pose proof (exec_ok_stepped _ _ _ He) as (e & Hedge & _).
        rewrite Hbl in Hedge, Hd'. simpl in Hd'.
        inversion Hedge as [| | | | | | | |s Hs]; subst.
        revert Hs Hd'. rewrite Hd. clear -Hd. destruct (state l); try done; set_solver.
      + exists (advance l :: more). split; [simpl; congruence|]. simpl. by rewrite He. }
  destruct (K _ l I Hb eq_refl) as (more & Hlen & Hc). exists more. split; [|done].
  rewrite Hlen. destruct (state l); simpl; lia.
Qed.

(** Exactly which proposed actions can become an approval.  An approval for an
    action is minted if and only if the action is none of the human blockers and not
    a finding without a bead, a dispatch has two captures, a dispatchable pane and a
    complete packet, and a pane intervention has two captures; and the approval
    carries the classified wave unchanged. *)
Theorem authorize_classified_iff i a :
  authorize (classify i) = Ok a ↔
  a = MkApproved (classify i) ∧
  match action i with
  | WeakenGate | SpendMoney | ObtainCredentials | DeployPublic
  | ReportFindingWithoutBead => False
  | DispatchPacket => two_captures i = true ∧ pane_dispatchable i = true ∧ packet_complete i = true
  | RecycleFrozen | InterruptWedged | ReGoalIdle => two_captures i = true
  | FileFindingBead | ObserveScan | SelectQueue | VerifyReceipt => True
  end.
Proof.
  destruct i as [act pd tc pc fb]. unfold classify, authorize. simpl.
  destruct act, pd, tc, pc; simpl; naive_solver.
Qed.

(** An unknown action name never becomes an approval. *)
Lemma unknown_action_refused name i :
  action_parse name = None → authorize (classify_named name i) = Err (Refused UnknownAction).
Proof. unfold classify_named. by intros ->. Qed.

Lemma action_parse_str a : action_parse (action_str a) = Some a.
Proof. by destruct a. Qed.

(** ** The theorems at a concrete bead. *)

Definition ex_intent : Intent := MkIntent DispatchPacket true true true true.
Definition ex_target : DispatchTarget := MkTarget "omp" "%7".
Definition ex_ops : list LOp :=
  [ODispatch (MkDispatch "d1" "b1" ex_target "do it" 10);
   OClose "too-early";
   OVerify (MkReceiver "r1" "b1" ex_target "do it" 11) (MkPolicy 12 5);
   OStartGrading "s1" "%7";
   OStartGrading "s1" "%8";
   OGrade (MkGrade "g1" "b1" ex_target "%8" "r1" (Fix "add the test") 13) (MkPolicy 13 5);
   ORedispatch (MkPlan "p1" "b1" ex_target "add the test");
   ODispatch (MkDispatch "d2" "b1" ex_target "do it" 14);
   OVerify (MkReceiver "r2" "b1" ex_target "do it" 15) (MkPolicy 15 5);
   OStartGrading "s2" "%8";
   OGrade (MkGrade "g2" "b1" ex_target "%8" "r1" Pass 16) (MkPolicy 16 5);
   OGrade (MkGrade "g2" "b1" ex_target "%8" "r2" Pass 16) (MkPolicy 16 5);
   OClose "c1"].
Definition ex_life : BeadLifecycle :=
  MkLifecycle "b1" ex_target "do it" Dispatch DispatchPacket Selected None None None None None
    {[ "s0" ]} [MkEvent "s0" EvSelected Selected None].

Example ex_select :
  select "b1" ex_target "do it" (MkApproved (classify ex_intent)) "s0" = Ok ex_life.
Proof. reflexivity. Qed.

Lemma closed_was_peer_graded_witness :
  state (run ex_ops ex_life) = Closed ∧ peer_graded "b1" ex_target "do it" (run ex_ops ex_life).
Proof.
  split; [vm_compute; reflexivity|].
  apply (closed_was_peer_graded "b1" ex_target "do it" (MkApproved (classify ex_intent)) "s0"
    ex_life ex_ops ex_select). vm_compute. reflexivity.
Defined.

Lemma lifecycle_refines_automaton_witness :
  NoDup (event_id <$> history (run ex_ops ex_life)).
Proof.
  apply (lifecycle_refines_automaton "b1" ex_target "do it" (MkApproved (classify ex_intent))
    "s0" ex_life ex_ops (OClose "x") ex_select).
Defined.

Lemma terminal_is_final_witness :
  ∃ e, exec (OClose "again") (run ex_ops ex_life) = (run ex_ops ex_life, Err e).
Proof. apply (terminal_is_final (run ex_ops ex_life)). vm_compute. reflexivity. Defined.

Lemma lifecycle_can_close_witness :
  ∃ more, length more <= 6 ∧ state (run more (run (take 6 ex_ops) ex_life)) = Closed.
Proof.
  apply (lifecycle_can_close "b1" ex_target "do it" (MkApproved (classify ex_intent)) "s0"
    ex_life (take 6 ex_ops) ex_select). vm_compute. discriminate.
Defined.
