(* ===== verification/Findings.v ===== *)
(** * Findings: a named gap becomes a bead or a durable row

    Model of finding/src/lib.rs (a finding, its spool row, filing, the recovery
    sweep and the tracker publisher) and of finding-dispatch/src/lib.rs (which
    supervisor decision owes a finding, and when).

    The spool directory is a map from file names to contents, and the tracker the
    list of beads filed so far.  Every file operation of a call has its outcome in
    the call's environment, and so has the one cancellation point.  The publisher
    is a parameter (a trait in the code); the tracker's own publisher is modelled
    up to the subprocess it runs. *)

From stdpp Require Import base numbers list option strings gmap sorting.
From Stdlib Require Import NArith Ascii Lia.
From S2P Require Import Prelude RustStr.

(** ** finding/src/lib.rs *)

Inductive FindingError :=
  | MissingField (field : string) | WaiverNeedsReason | SpoolUnwritable (why : string)
  | PublishFailed (why : string) | Cancelled (spool_path : string) | ActorUnset.

Record Finding := MkFinding {
  what : string; why : string; acceptance : string; labels : list string; priority : N }.

Definition finding_error_display (e : FindingError) : string :=
  match e with
  | MissingField f => "FINDING_INCOMPLETE: " +:+ f +:+
      " is required — a title-only bead cannot be worked, only adjudicated"
  | WaiverNeedsReason => "WAIVER_NEEDS_REASON: dropping a finding requires a written reason"
  | SpoolUnwritable w => "SPOOL_UNWRITABLE: " +:+ w
  | PublishFailed w => "PUBLISH_FAILED: " +:+ w
  | Cancelled p => "FILING_DEFERRED: cancelled after spooling; recoverable at " +:+ p
  | ActorUnset => "FINDING_ACTOR_UNSET: no --actor was set, so `br` would fall back to the ambient git identity and credit a human for agent work. There is no correct default; pass BrPublisher::with_actor(<YourAgentName>)."
  end.

#[global] Instance finding_error_eq_dec : EqDecision FindingError.
Proof. solve_decision. Defined.
#[global] Instance finding_eq_dec : EqDecision Finding.
Proof. solve_decision. Defined.

Definition blank (s : string) : bool := is_empty (trim s).

Definition Finding_new (what why acceptance : string) (labels : list string) (priority : N)
    : result FindingError Finding :=
  if blank what then Err (MissingField "WHAT")
  else if blank why then Err (MissingField "WHY")
  else if blank acceptance then Err (MissingField "ACCEPTANCE")
  else if forallb blank labels then Err (MissingField "LABELS")
  else Ok (MkFinding what why acceptance labels priority).

Definition body (f : Finding) : string :=
  "WHAT: " +:+ trim (what f) +:+ (lf_str +:+ "WHY: ") +:+ trim (why f)
  +:+ (lf_str +:+ "ACCEPTANCE: ") +:+ trim (acceptance f).

Definition stable_stem (text : string) : string := hex16 (fnv_str fnv_offset text).

Definition row_name (f : Finding) : string := "finding-" +:+ stable_stem (body f) +:+ ".pending".

Definition header (f : Finding) : string :=
  "priority=" +:+ show_N (priority f) +:+ lf_str +:+ "labels=" +:+ join "," (labels f).
Definition payload (f : Finding) : string :=
  header f +:+ (lf_str +:+ "---" +:+ lf_str) +:+ body f +:+ lf_str.

(** The spool directory and the tracker. *)
Record World := MkWorld { rows : gmap string string; tracker : list (string * Finding) }.
Definition set_rows (g : gmap string string → gmap string string) (w : World) : World :=
  MkWorld (g (rows w)) (tracker w).

(** The outcomes of one call: each file operation fails with a message or
    succeeds; a failed write may leave a truncated temporary file. *)
Record FileEnv := MkEnv {
  dir_fault : option string;
  write_fault : option (string * option string);
  rename_fault : option string;
  cancelled : bool;
  mark_fault : option string }.
Definition calm : FileEnv := MkEnv None None None false None.

Notation FM := (StM World FindingError).

Definition rename (from to : string) (m : gmap string string) : gmap string string :=
  match m !! from with Some c => <[to := c]> (delete from m) | None => m end.

Definition io (fault : option string) (g : gmap string string → gmap string string) : FM unit :=
  match fault with
  | Some e => stm_fail (SpoolUnwritable e)
  | None => stm_modify (set_rows g)
  end.

Definition spool (env : FileEnv) (f : Finding) : FM string :=
  _ ← io (dir_fault env) id;
  let path := row_name f in
  let tmp := with_extension "pending.tmp" path in
  _ ← match write_fault env with
      | Some (e, partial) =>
          _ ← stm_modify (set_rows (λ m, match partial with Some c => <[tmp := c]> m | None => m end));
          stm_fail (SpoolUnwritable e)
      | None => stm_modify (set_rows (<[tmp := payload f]>))
      end;
  _ ← io (rename_fault env) (rename tmp path);
  mret path.

Record Waived := MkWaived { w_body : string; w_reason : string }.
Definition waive (f : Finding) (reason : string) : result FindingError Waived :=
  if blank reason then Err WaiverNeedsReason else Ok (MkWaived (body f) reason).

Definition MAX_FILENAME_ID : nat := 96.

Fixpoint boundary_below (n : nat) (s : string) : nat :=
  match n with
  | O => O
  | S n' => if is_char_boundary n s then n else boundary_below n' s
  end.
Definition truncate_for_filename (id : string) : string :=
  if Nat.leb (String.length id) MAX_FILENAME_ID then id
  else str_take (boundary_below MAX_FILENAME_ID id) id.

Definition sanitize_char (ch : string) : string :=
  match ch with
  | String c EmptyString => if is_ascii_alnum c || bool_decide (c = "-"%char) then ch else "_"
  | _ => "_"
  end.
Definition sanitize (id : string) : string := concat_chars (map sanitize_char (chars id)).

Definition filed_name (path id : string) : string :=
  with_extension ("filed-" +:+ sanitize (truncate_for_filename id)) path.
Definition mark_published (fault : option string) (path id : string) : FM unit :=
  io fault (rename path (filed_name path id)).

Record Filed := MkFiled { filed_id : string; filed_body : string }.

(** [Publisher::publish]: [Ok id] when the tracker confirmed the bead. *)
Section Filing.
Context (publish : Finding → result FindingError string) (spool_dir : string).

(** [spool_dir.join(name)], displayed. *)
Definition in_dir (name : string) : string := spool_dir +:+ "/" +:+ name.

Definition publish_step (f : Finding) : FM string :=
  id ← stm_lift (publish f);
  _ ← stm_modify (λ w, MkWorld (rows w) (tracker w ++ [(id, f)])%list);
  mret id.

Definition file (env : FileEnv) (f : Finding) : FM Filed :=
  path ← spool env f;
  _ ← stm_refuse (cancelled env) (Cancelled (in_dir path));
  id ← publish_step f;
  _ ← mark_published (mark_fault env) path id;
  mret (MkFiled id (body f)).

Definition malformed (path why : string) : FindingError :=
  SpoolUnwritable ("malformed pending finding " +:+ in_dir path +:+ ": " +:+ why).

(** [.ok_or_else(|| malformed …)?]. *)
Definition need {A} (path why : string) (o : option A) : result FindingError A :=
  ok_or o (malformed path why).

Definition parse_payload (path text : string) : result FindingError Finding :=
  '(hd, bd) ← need path "missing header separator" (split_once (lf_str +:+ "---" +:+ lf_str) text);
  prio ← need path "invalid priority" ((head (lines hd) ≫= strip_prefix "priority=") ≫= parse_u8);
  labs ← need path "missing labels"
           (split_char "," <$> (head (tail (lines hd)) ≫= strip_prefix "labels="));
  let bd := default bd (strip_suffix lf_str bd) in
  bd ← need path "missing WHAT" (strip_prefix "WHAT: " bd);
  '(wt, bd) ← need path "missing WHY" (split_once (lf_str +:+ "WHY: ") bd);
  '(wy, ac) ← need path "missing ACCEPTANCE" (split_once (lf_str +:+ "ACCEPTANCE: ") bd);
  map_err (λ e, SpoolUnwritable (finding_error_display e)) (Finding_new wt wy ac labs prio).

(** [fault] is the outcome of reading the file; a row that is gone cannot be read. *)
Definition from_spooled (fault : option string) (path : string) : FM Finding :=
  w ← stm_get;
  text ← stm_lift (match fault, rows w !! path with
                   | None, Some t => Ok t
                   | Some e, _ => Err (SpoolUnwritable e)
                   | None, None => Err (SpoolUnwritable "No such file or directory")
                   end);
  stm_lift (parse_payload path text).

Definition is_pending (name : string) : bool := bool_decide (extension name = Some "pending").

Definition pending (fault : option string) : FM (list string) :=
  match fault with
  | Some e => stm_fail (SpoolUnwritable e)
  | None => w ← stm_get;
            mret (sort_strings (List.filter is_pending (map fst (map_to_list (rows w)))))
  end.

(** What one row of the sweep meets: the checkpoint before it, the read, the filing. *)
Record RowEnv := MkRowEnv { stop : bool; read_fault : option string; file_env : FileEnv }.

Fixpoint recover_loop (env : string → RowEnv) (paths : list string) (recovered : N) : FM N :=
  match paths with
  | [] => mret recovered
  | path :: paths' =>
      _ ← stm_refuse (stop (env path)) (Cancelled (in_dir path));
      f ← from_spooled (read_fault (env path)) path;
      _ ← file (file_env (env path)) f;
      recover_loop env paths' (recovered + 1)%N
  end.

Definition recover_pending (dir : option string) (env : string → RowEnv) : FM N :=
  paths ← pending dir;
  recover_loop env paths 0.
End Filing.

(** *** The tracker's own publisher: [BrPublisher::publish] up to its subprocess. *)
Record ChildOutput := MkChild { success : bool; code_debug : string; stdout : string; stderr : string }.

Section Br.
Context (run_output : list string → result string ChildOutput).

Definition br_argv (actor : string) (f : Finding) : list string :=
  ["create"; "--title"; what f; "--description"; body f; "--priority"; show_N (priority f);
   "--labels"; join "," (labels f); "--actor"; actor; "--silent"; "--no-daemon"; "--no-color"].

Definition br_publish (actor : option string) (f : Finding) : result FindingError string :=
  match actor with
  | None => Err ActorUnset
  | Some a =>
      match run_output (br_argv a f) with
      | Err e => Err (PublishFailed e)
      | Ok out =>
          if negb (success out) then
            Err (PublishFailed ("br create exited " +:+ code_debug out +:+ ": " +:+ trim (stderr out)))
          else if is_empty (trim (stdout out)) then
            Err (PublishFailed "br create returned success without an id")
          else Ok (trim (stdout out))
      end
  end.
End Br.

(** ** finding-dispatch/src/lib.rs *)

Inductive SupervisorDecision :=
  | GateUnwired (unwired : list string)
  | Dispatch (pane bead_hint : string)
  | EscalateIdleIncident (dispatchable_count ready_count : N)
  | MonitorBlind (detail : string)
  | QueueUnreadable (detail : string)
  | AwaitingHuman (panes : string)
  | WorkspaceUnloaded (detail : string)
  | AuthorizedIdle (pane_count expires_at : N)
  | QueueEmptyNeedsJosh (free_capacity_count : N)
  | SupervisedWorking (working_count ready_count : N).

#[global] Instance supervisor_decision_eq_dec : EqDecision SupervisorDecision.
Proof. solve_decision. Defined.

Definition FINDING_THRESHOLD : N := 3.

Inductive NotYet :=
  | BelowThreshold (seen threshold : N) | AlreadyEmitted (seen threshold : N)
  | NotAFindableDecision.
Inductive MaybeFinding := Owed (f : Finding) | MNotYet (n : NotYet).

Definition not_yet_display (n : NotYet) : string :=
  match n with
  | BelowThreshold s t => "below threshold (" +:+ show_N s +:+ " of " +:+ show_N t +:+ ")"
  | AlreadyEmitted s t => "already emitted at the crossing (" +:+ show_N s +:+ " > " +:+ show_N t +:+ ")"
  | NotAFindableDecision => "healthy or non-recurring decision"
  end.

Definition into_owed (m : MaybeFinding) : option Finding :=
  match m with Owed f => Some f | MNotYet _ => None end.
Definition is_owed (m : MaybeFinding) : bool :=
  match m with Owed _ => true | MNotYet _ => false end.
Definition expect_nothing_owed (m : MaybeFinding) : result Finding NotYet :=
  match m with MNotYet r => Ok r | Owed f => Err f end.

(** [vec!["a".to_owned(), …]]; the Debug rendering of a vector of strings is the
    standard library's and stays a parameter. *)
Section FindingFor.
Context (debug_vec : list string → string).

(** The texts of the finding a decision owes: title, reason, acceptance, labels. *)
Definition finding_texts (d : SupervisorDecision)
    : option (string * string * string * list string) :=
  match d with
  | AwaitingHuman panes =>
      Some ("A pane is alive and blocked on a human answer: " +:+ panes,
        "On OMP v18 an Ask/approval dialog renders ABOVE the status line, the status line stays LAST, and its turn timer KEEPS ADVANCING while nobody answers. Every classifier therefore reads a human-blocked pane as healthy work. Measured 2026-08-31: %1372 sat 36 minutes on an install approval while the fleet reported green. This is the one condition the loop cannot clear by working — no dispatch, retry or timeout resolves an unanswered dialog — so it becomes durable work rather than a printed line that scrolls past.",
        "Answer or dismiss the dialog on " +:+ panes +:+ ", then run the supervisor and verify it no longer emits AWAITING_HUMAN for that pane. Negative leg: a pane in WORKING must NOT produce this finding, which is covered by a_working_pane_does_not_escalate_to_a_human.",
        ["supervisor"; "awaiting-human"; "liveness"])
  | EscalateIdleIncident dc rc =>
      Some ("Escalate recurring idle-capacity incident: " +:+ show_N dc +:+ " dispatchable panes with " +:+ show_N rc +:+ " ready beads",
        "The supervisor repeatedly observed free capacity beside ready work without an authorized dispatch. A printed warning is not durable work and previously allowed idle capacity to persist for 178 ticks.",
        "Run the supervisor for three consecutive observations with dispatchable_count=" +:+ show_N dc +:+ " and ready_count=" +:+ show_N rc +:+ "; verify the third observation produces this finding, names the idle panes and queue evidence in its bead comments, and routes the bead to a worker.",
        ["supervisor"; "idle-capacity"; "recurring-incident"])
  | QueueEmptyNeedsJosh fc =>
      Some ("Escalate recurring queue-empty supervision decision with " +:+ show_N fc +:+ " free panes",
        "The queue stayed empty while workers were free and no authorization covered idleness. This requires an explicit operator decision instead of disappearing into a printed status line.",
        "Run the supervisor for three consecutive observations with free_capacity_count=" +:+ show_N fc +:+ "; verify the third observation produces this finding and records Josh's queue-empty decision before any autonomous dispatch.",
        ["supervisor"; "queue-empty"; "josh-decision"])
  | MonitorBlind detail =>
      Some ("Escalate recurring monitor-blind condition",
        "The supervisor cannot establish fleet truth, so dispatch decisions are unsafe. Repeating a blind observation without durable work leaves the monitor failure unowned. Observed detail: " +:+ detail,
        "Run the supervisor for three consecutive blind observations; verify the third observation produces this finding, preserves the monitor error detail, and routes monitor repair before dispatch resumes.",
        ["supervisor"; "monitor-blind"; "liveness"])
  | WorkspaceUnloaded detail =>
      Some ("Escalate recurring unloaded-workspace condition",
        "The workspace-load gate repeatedly refused a trusted repository context, so dispatch would target an unverified workspace. Printed errors do not create durable repair work. Observed detail: " +:+ detail,
        "Run the supervisor for three consecutive workspace-unloaded observations; verify the third observation produces this finding, preserves the workspace error detail, and routes workspace repair before dispatch resumes.",
        ["supervisor"; "workspace-unloaded"; "dispatch-safety"])
  | GateUnwired unwired =>
      Some ("Escalate recurring unwired-gate condition",
        "The gate census repeatedly found unreachable gates, so their protections cannot be treated as active. Observed unwired gates: " +:+ debug_vec unwired +:+ ". next_action=repair-gate-trigger — dispatch must not resume until every named gate is independently reachable.",
        "Run the supervisor for three consecutive gate-unwired observations; verify the third observation produces this finding, preserves every unreachable gate name, and routes trigger repair before dispatch resumes.",
        ["supervisor"; "gate-unwired"; "dispatch-safety"; "repair-gate-trigger"])
  | SupervisedWorking _ _ | Dispatch _ _ | QueueUnreadable _ | AuthorizedIdle _ _ => None
  end.

(** [None] is the panic of [.expect]. *)
Definition finding_for (d : SupervisorDecision) (recurrence_count : N) : option MaybeFinding :=
  if (recurrence_count <? FINDING_THRESHOLD)%N then
    Some (MNotYet (BelowThreshold recurrence_count FINDING_THRESHOLD))
  else if (FINDING_THRESHOLD <? recurrence_count)%N then
    Some (MNotYet (AlreadyEmitted recurrence_count FINDING_THRESHOLD))
  else match finding_texts d with
       | None => Some (MNotYet NotAFindableDecision)
       | Some (wt, wy, ac, ls) =>
           match Finding_new wt wy ac ls 1 with
           | Ok f => Some (Owed f)
           | Err _ => None
           end
       end.
End FindingFor.

(** ** Lemmas. *)

Lemma trim_start_not_blank c w :
  N.ltb (N_of_ascii c) 128 && negb (is_whitespace (String c EmptyString)) = true →
  match w with String d _ => is_cont d = false | EmptyString => True end →
  blank (String c w) = false.
Proof.
  intros [Hc Hw]%andb_true_iff Hd. apply negb_true_iff in Hw.
  unfold blank. assert (trim (String c w) ≠ EmptyString) as Hne.
  { destruct w as [|d w].
    - by apply (trim_not_blank _ c EmptyString []).
    - eapply trim_not_blank; [by rewrite chars_cons_starts|done]. }
  by destruct (trim (String c w)).
Qed.

Lemma Finding_new_ok wt wy ac ls p :
  blank wt = false → blank wy = false → blank ac = false → forallb blank ls = false →
  Finding_new wt wy ac ls p = Ok (MkFinding wt wy ac ls p).
Proof. unfold Finding_new. by intros -> -> -> ->. Qed.

Lemma Finding_new_inv wt wy ac ls p f :
  Finding_new wt wy ac ls p = Ok f →
  f = MkFinding wt wy ac ls p ∧ blank wt = false ∧ blank wy = false ∧ blank ac = false ∧
  forallb blank ls = false.
Proof. unfold Finding_new. split_cases; naive_solver. Qed.

(** The texts of every findable decision make a complete finding. *)
Lemma finding_texts_complete dv d wt wy ac ls :
  finding_texts dv d = Some (wt, wy, ac, ls) →
  Finding_new wt wy ac ls 1 = Ok (MkFinding wt wy ac ls 1).
Proof.
  intros H. destruct d; try discriminate H; injection H as <- <- <- <-;
    (apply Finding_new_ok; [by apply trim_start_not_blank..|done]).
Qed.

Definition findable (d : SupervisorDecision) : bool :=
  match d with
  | SupervisedWorking _ _ | Dispatch _ _ | QueueUnreadable _ | AuthorizedIdle _ _ => false
  | _ => true
  end.

(** C31: The producer never panics, and a finding is owed exactly when the decision is
    one the code files for and it is observed for the third time: not before, and not
    again at any later recurrence. *)
Theorem finding_owed_once dv d n :
  ∃ m, finding_for dv d n = Some m ∧
    (is_owed m = true ↔ n = FINDING_THRESHOLD ∧ findable d = true).
Proof.
  unfold finding_for. destruct (N.ltb_spec n FINDING_THRESHOLD);
    [eexists; split; [done|]; simpl; split; [done|lia]|].
  destruct (N.ltb_spec FINDING_THRESHOLD n);
    [eexists; split; [done|]; simpl; split; [done|lia]|].
  assert (n = FINDING_THRESHOLD) as -> by lia.
  destruct (finding_texts dv d) as [[[[wt wy] ac] ls]|] eqn:Ht.
  - rewrite (finding_texts_complete dv d wt wy ac ls Ht). eexists. split; [done|].
    simpl. split; [|done]. intros _. split; [done|]. by destruct d.
  - eexists. split; [done|]. simpl. split; [done|]. intros [_ Hf]. by destruct d.
Qed.

(** *** File names. *)

Definition row_stem (f : Finding) : string := "finding-" +:+ stable_stem (body f).

Lemma row_name_stem f : row_name f = row_stem f +:+ "." +:+ "pending".
Proof. unfold row_name, row_stem. by rewrite <- str_app_assoc. Qed.

Lemma row_tmp f : with_extension "pending.tmp" (row_name f) = row_stem f +:+ "." +:+ "pending.tmp".
Proof. rewrite row_name_stem. by rewrite with_extension_dot. Qed.

Lemma row_filed f id :
  filed_name (row_name f) id =
  row_stem f +:+ "." +:+ ("filed-" +:+ sanitize (truncate_for_filename id)).
Proof. unfold filed_name. rewrite row_name_stem. by rewrite with_extension_dot. Qed.

Lemma sanitize_no_dot id : no_byte "." (sanitize id).
Proof.
  unfold sanitize, no_byte. induction (chars id) as [|ch l IH]; [done|]. cbn.
  rewrite all_bytes_app. apply andb_true_intro. split; [|exact IH].
  unfold sanitize_char. destruct ch as [|c [|d w]]; [done| |done].
  destruct (is_ascii_alnum c || bool_decide (c = "-"%char)) eqn:Hc; [|done].
  cbn. rewrite andb_true_r. apply negb_true_iff, Ascii.eqb_neq. intros ->. done.
Qed.

Lemma row_name_pending f : is_pending (row_name f) = true.
Proof.
  unfold is_pending. rewrite row_name_stem, extension_dot by done.
  by apply bool_decide_eq_true.
Qed.

Lemma row_tmp_not_pending f : is_pending (with_extension "pending.tmp" (row_name f)) = false.
Proof.
  unfold is_pending. rewrite row_tmp. change "pending.tmp" with ("pending" +:+ "." +:+ "tmp").
  replace (row_stem f +:+ "." +:+ "pending" +:+ "." +:+ "tmp")
    with (row_name f +:+ "." +:+ "tmp")
    by (rewrite row_name_stem; by rewrite <- !str_app_assoc).
  rewrite extension_dot by done. by apply bool_decide_eq_false.
Qed.

Lemma row_filed_not_pending f id : is_pending (filed_name (row_name f) id) = false.
Proof.
  unfold is_pending. rewrite row_filed, extension_dot; [by apply bool_decide_eq_false|done|].
  apply no_byte_app; [done|apply sanitize_no_dot].
Qed.

Lemma pending_ne n m : is_pending n = true → is_pending m = false → m ≠ n.
Proof. congruence. Qed.

#[local] Hint Resolve row_name_pending row_tmp_not_pending row_filed_not_pending pending_ne : core.

(** *** Spooling and filing. *)

Definition spool_faulty (env : FileEnv) : bool :=
  match dir_fault env, write_fault env, rename_fault env with
  | None, None, None => false
  | _, _, _ => true
  end.

(** The spool directory after a spool that succeeded. *)
Definition spooled (f : Finding) (m : gmap string string) : gmap string string :=
  <[row_name f := payload f]> (delete (with_extension "pending.tmp" (row_name f)) m).

Lemma spool_run env f w :
  spool_faulty env = false → spool env f w = (set_rows (spooled f) w, Ok (row_name f)).
Proof.
  unfold spool_faulty, spool. intros H.
  destruct (dir_fault env); [done|]. destruct (write_fault env); [done|].
  destruct (rename_fault env); [done|]. unfold io.
  do 3 (stm_by (apply stm_modify_run)). unfold set_rows, mret, stm_ret. cbn. do 3 f_equal.
  unfold rename, spooled. rewrite lookup_insert. rewrite decide_True by done. by rewrite delete_insert_eq.
Qed.

Lemma spool_fault env f w :
  spool_faulty env = true →
  ∃ w' e, spool env f w = (w', Err (SpoolUnwritable e)) ∧ tracker w' = tracker w ∧
    (∀ n, is_pending n = true → rows w' !! n = rows w !! n).
Proof.
  unfold spool_faulty, spool, io. intros H.
  destruct (dir_fault env) as [e|]; [by exists w, e|].
  stm_by (apply stm_modify_run).
  destruct (write_fault env) as [[e l]|].
  - eexists _, e. split; [done|]. split; [done|]. intros n Hn. cbn.
    destruct l; [|done]. by rewrite lookup_insert_ne by eauto.
  - destruct (rename_fault env) as [e|]; [|done].
    eexists _, e. split; [done|]. split; [done|]. intros n Hn. cbn.
    by rewrite lookup_insert_ne by eauto.
Qed.

Section FilingLemmas.
Context (publish : Finding → result FindingError string) (spool_dir : string).

Lemma spooled_other f m n : is_pending n = true → n ≠ row_name f → spooled f m !! n = m !! n.
Proof.
  intros Hn Hne. unfold spooled. rewrite lookup_insert_ne by done.
  by rewrite lookup_delete_ne by eauto.
Qed.

Lemma spooled_row f m : spooled f m !! row_name f = Some (payload f).
Proof. unfold spooled. by rewrite lookup_insert, decide_True. Qed.

(** Retiring a row: the pending name is gone, the filed name holds its contents. *)
Lemma retire_row f id m :
  let m' := rename (row_name f) (filed_name (row_name f) id) (spooled f m) in
  m' !! row_name f = None ∧ m' !! filed_name (row_name f) id = Some (payload f) ∧
  ∀ n, is_pending n = true → n ≠ row_name f → m' !! n = m !! n.
Proof.
  cbn zeta. unfold rename. rewrite spooled_row.
  assert (filed_name (row_name f) id ≠ row_name f) as Hf by eauto.
  split_and!.
  - rewrite lookup_insert_ne by done. by rewrite lookup_delete, decide_True.
  - by rewrite lookup_insert, decide_True.
  - intros n Hn Hne. rewrite lookup_insert_ne by eauto.
    rewrite lookup_delete_ne by done. by apply spooled_other.
Qed.

(** No finding is lost.  Whatever the outcome of every file operation, of the
    checkpoint and of the tracker, [file] ends in one of three ways: the spool itself
    could not be written, and then nothing was published and the caller is told; or the
    call failed before the tracker confirmed a bead, and then the finding's row is
    pending on disk; or the tracker has exactly one more bead, this one, and its row is
    retired, unless the retiring rename failed, in which case it is still pending.  No
    other pending row is touched. *)
Theorem filing_never_loses env f w :
  let w' := (file publish spool_dir env f w).1 in
  let r := (file publish spool_dir env f w).2 in
  (∀ n, is_pending n = true → n ≠ row_name f → rows w' !! n = rows w !! n) ∧
  (if spool_faulty env then tracker w' = tracker w ∧ ∃ e, r = Err (SpoolUnwritable e)
   else if cancelled env then
     tracker w' = tracker w ∧ rows w' !! row_name f = Some (payload f) ∧
     r = Err (Cancelled (in_dir spool_dir (row_name f)))
   else match publish f with
        | Err e => tracker w' = tracker w ∧ rows w' !! row_name f = Some (payload f) ∧ r = Err e
        | Ok id =>
            tracker w' = app (tracker w) [(id, f)] ∧
            match mark_fault env with
            | Some e => rows w' !! row_name f = Some (payload f) ∧ r = Err (SpoolUnwritable e)
            | None => rows w' !! row_name f = None ∧
                rows w' !! filed_name (row_name f) id = Some (payload f) ∧
                r = Ok (MkFiled id (body f))
            end
        end).
Proof.
  cbn zeta. unfold file. destruct (spool_faulty env) eqn:Hsf.
  - destruct (spool_fault env f w Hsf) as (w' & e & Hs & Ht & Hr).
    unfold mbind, stm_bind. rewrite Hs. cbn. eauto.
  - stm_by (apply (spool_run env f w Hsf)).
    assert (spooled f (rows w) !! row_name f = Some (payload f)) as Hrow.
    { apply spooled_row. }
    unfold stm_refuse, stm_require. destruct (cancelled env); cbn [negb].
    { cbn. split_and!; [|done..]. intros n Hn Hne. by apply spooled_other. }
    stm_by reflexivity. unfold publish_step, stm_lift. destruct (publish f) as [id|e].
    2:{ cbn. split_and!; [|done..]. intros n Hn Hne. by apply spooled_other. }
    unfold mark_published, io. destruct (mark_fault env) as [e|]; cbn.
    + split_and!; [|done..]. intros n Hn Hne. by apply spooled_other.
    + destruct (retire_row f id (rows w)) as (H1 & H2 & H3). auto.
Qed.
End FilingLemmas.

(** *** A row that reads back. *)

Definition label_ok (l : string) : bool :=
  all_bytes (λ c, negb (Ascii.eqb c ",") && negb (Ascii.eqb c lf)) l.

(** The conditions under which the sweep reads the finding it wrote: the texts do
    not hold the next field's separator, the labels hold no comma or line feed. *)
Definition stable (f : Finding) : bool :=
  (priority f <? 256)%N && negb (forallb blank (labels f)) && forallb label_ok (labels f)
  && negb (blank (what f)) && negb (blank (why f)) && negb (blank (acceptance f))
  && negb (contains (header f +:+ (lf_str +:+ "---")) (lf_str +:+ "---" +:+ lf_str))
  && negb (contains (trim (what f) +:+ (lf_str +:+ "WHY:")) (lf_str +:+ "WHY: "))
  && negb (contains (trim (why f) +:+ (lf_str +:+ "ACCEPTANCE:")) (lf_str +:+ "ACCEPTANCE: ")).

(** The finding as the sweep reads it: the texts trimmed. *)
Definition trimmed (f : Finding) : Finding :=
  MkFinding (trim (what f)) (trim (why f)) (trim (acceptance f)) (labels f) (priority f).

Lemma body_trimmed f : body (trimmed f) = body f.
Proof. unfold body, trimmed. cbn [what why acceptance]. by rewrite !trim_idem. Qed.

Lemma row_name_trimmed f : row_name (trimmed f) = row_name f.
Proof. unfold row_name. by rewrite body_trimmed. Qed.

Lemma payload_trimmed f : payload (trimmed f) = payload f.
Proof. unfold payload, header. by rewrite body_trimmed. Qed.

Lemma header_lines f :
  forallb label_ok (labels f) = true → labels f ≠ [] →
  lines (header f) = ["priority=" +:+ show_N (priority f); "labels=" +:+ join "," (labels f)].
Proof.
  intros Hl Hne. unfold header. rewrite str_app_assoc, lines_line.
  - f_equal. apply lines_single; [|done].
    cbn. apply (all_bytes_impl (λ d, negb (Ascii.eqb d lf))).
    { intros c Hc. apply negb_true_iff in Hc.
      apply negb_true_iff, bool_decide_eq_false. intros <-. by rewrite Ascii.eqb_refl in Hc. }
    apply (no_byte_join lf); [done|]. clear Hne. apply Forall_forall. intros l Hin.
    rewrite forallb_forall in Hl. apply list_elem_of_In in Hin. apply Hl in Hin.
    revert Hin. apply all_bytes_impl. by intros c [??]%andb_true_iff.
  - apply no_byte_app; [done|]. by apply no_byte_show_N.
  - apply no_byte_app; [done|]. by apply no_byte_show_N.
Qed.

Lemma split_labels ls :
  forallb label_ok ls = true → ls ≠ [] → split_char "," (join "," ls) = ls.
Proof.
  intros Hl Hne. apply split_join; [done|]. apply Forall_forall. intros l Hin.
  rewrite forallb_forall in Hl. apply list_elem_of_In in Hin. apply Hl in Hin.
  revert Hin. apply all_bytes_impl. by intros c [??]%andb_true_iff.
Qed.

Lemma labels_not_nil f : forallb blank (labels f) = false → labels f ≠ [].
Proof. by destruct (labels f). Qed.

(** A spooled row reads back as the finding it was written for, its texts trimmed;
    so the recovered finding has the same body, and therefore the same row. *)
Theorem spool_roundtrip dir f :
  stable f = true → parse_payload dir (row_name f) (payload f) = Ok (trimmed f).
Proof.
  unfold stable. rewrite !andb_true_iff, !negb_true_iff.
  intros [[[[[[[[Hp Hb] Hl] Hw] Hy] Ha] Hh] Hcw] Hcy]. apply N.ltb_lt in Hp.
  apply labels_not_nil in Hb as Hne.
  unfold parse_payload, payload, need.
  change (lf_str +:+ "---" +:+ lf_str) with ((lf_str +:+ "---") +:+ String lf EmptyString) in *.
  rewrite split_once_first by done. cbn [ok_or mbind result_bind].
  rewrite header_lines by done. cbn [head tail mbind option_bind fmap option_fmap option_map].
  rewrite !strip_prefix_app. cbn [mbind option_bind fmap option_fmap option_map].
  unfold parse_u8. rewrite parse_below_show by done. cbn [ok_or mbind result_bind].
  rewrite split_labels by done. cbn [ok_or mbind result_bind].
  rewrite strip_suffix_app. cbn [from_option id]. unfold body at 1. rewrite strip_prefix_app.
  cbn [ok_or mbind result_bind].
  change (lf_str +:+ "WHY: ") with ((lf_str +:+ "WHY:") +:+ String " " EmptyString) in *.
  rewrite split_once_first by done. cbn [ok_or mbind result_bind].
  change (lf_str +:+ "ACCEPTANCE: ") with ((lf_str +:+ "ACCEPTANCE:") +:+ String " " EmptyString) in *.
  rewrite split_once_first by done. cbn [ok_or mbind result_bind].
  rewrite Finding_new_ok; [done|unfold blank in *; by rewrite ?trim_idem..|done].
Qed.

Definition ex_finding : Finding :=
  MkFinding " the queue is blind " "no census row" "run it" ["queue"; "census"] 1.

Example spool_roundtrip_witness :
  stable ex_finding = true ∧
  parse_payload "/spool" (row_name ex_finding) (payload ex_finding) = Ok (trimmed ex_finding).
Proof. split; [by vm_compute|]. apply spool_roundtrip. by vm_compute. Defined.

(** *** The sweep. *)
Section Recovery.
Context (publish : Finding → result FindingError string) (spool_dir : string).

(** No fault and no cancellation during the sweep. *)
Definition quiet : string → RowEnv := λ _, MkRowEnv false None calm.

(** Every pending row was written for a finding that reads back. *)
Definition rows_readable (m : gmap string string) : Prop :=
  ∀ n t, m !! n = Some t → is_pending n = true →
    ∃ f, stable f = true ∧ n = row_name f ∧ t = payload f.

(** [b] is the bead filed for the row [n]: the tracker's identifier and a finding
    whose row it was. *)
Definition row_filed_as (m : gmap string string) (n : string) (b : string * Finding) : Prop :=
  publish b.2 = Ok b.1 ∧ n = row_name b.2 ∧ m !! n = Some (payload b.2).

Lemma recover_one f w n id :
  stable f = true → rows w !! row_name f = Some (payload f) → publish (trimmed f) = Ok id →
  ∃ w', rows w' = rename (row_name f) (filed_name (row_name f) id) (spooled (trimmed f) (rows w)) ∧
    tracker w' = app (tracker w) [(id, trimmed f)] ∧
    ∀ paths, recover_loop publish spool_dir quiet (row_name f :: paths) n w =
             recover_loop publish spool_dir quiet paths (n + 1) w'.
Proof.
  intros Hst Hrow Hpub. eexists (MkWorld _ _). split_and!; [reflexivity..|].
  intros paths. cbn [recover_loop quiet stop read_fault file_env]. stm_by reflexivity.
  unfold from_spooled. erewrite stm_bind_run.
  2:{ stm_by (apply stm_get_run). rewrite Hrow. stm_by reflexivity.
      unfold stm_lift. by rewrite spool_roundtrip. }
  erewrite stm_bind_run; [reflexivity|].
  unfold file. stm_by (by apply spool_run). stm_by reflexivity.
  erewrite stm_bind_run; [|unfold publish_step; stm_by (apply stm_lift_run; exact Hpub);
                           stm_by (apply stm_modify_run); reflexivity].
  unfold mark_published, io. cbn [calm mark_fault]. stm_by (apply stm_modify_run).
  unfold set_rows. cbn. by rewrite row_name_trimmed.
Qed.

Lemma recover_rows paths : ∀ w n,
  NoDup paths → rows_readable (rows w) → (∀ f, is_ok (publish f) = true) →
  (∀ p, p ∈ paths → is_pending p = true ∧ is_Some (rows w !! p)) →
  ∃ w' filed, recover_loop publish spool_dir quiet paths n w = (w', Ok (n + N.of_nat (length paths))%N) ∧
    tracker w' = app (tracker w) filed ∧
    Forall2 (row_filed_as (rows w)) paths filed ∧
    (∀ p, is_pending p = true → rows w' !! p = if decide (p ∈ paths) then None else rows w !! p).
Proof.
  induction paths as [|p paths IH]; intros w n Hnd Hread Hpub Hin.
  { exists w, []. cbn. rewrite app_nil_r, N.add_0_r. split_and!; [done..|constructor|].
    intros p _. by rewrite decide_False by apply not_elem_of_nil. }
  apply NoDup_cons in Hnd as [Hp Hnd].
  destruct (Hin p) as [Hpend [t Ht]]; [apply list_elem_of_here|].
  destruct (Hread p t Ht Hpend) as (f & Hst & -> & ->).
  destruct (publish (trimmed f)) as [id|e] eqn:Hid;
    [|specialize (Hpub (trimmed f)); by rewrite Hid in Hpub].
  destruct (recover_one f w n id Hst Ht Hid) as (w1 & Hr1 & Ht1 & Hstep).
  destruct (retire_row (trimmed f) id (rows w)) as (Hgone & _ & Hother).
  rewrite row_name_trimmed in Hgone, Hother. rewrite <- Hr1 in Hgone, Hother.
  assert (∀ q, q ∈ paths → q ≠ row_name f) as Hne by (intros q Hq ->; done).
  destruct (IH w1 (n + 1)%N Hnd) as (w' & filed & Hrun & Htr & Hall & Hrows).
  - intros q t Hq Hqp. apply (Hread q t); [|done].
    destruct (decide (q = row_name f)) as [->|Hqn]; [congruence|]. by rewrite <- Hother.
  - done.
  - intros q Hq. destruct (Hin q) as [Hqp Hqs]; [by apply list_elem_of_further|].
    split; [done|]. rewrite Hother; auto.
  - exists w', ((id, trimmed f) :: filed). rewrite Hstep, Hrun. split_and!.
    + do 2 f_equal. cbn [length]. lia.
    + rewrite Htr, Ht1. by rewrite <- app_assoc.
    + constructor.
      * split_and!; cbn [fst snd]; [done|by rewrite row_name_trimmed|by rewrite payload_trimmed].
      * apply Forall2_same_length_lookup in Hall as [Hlen Hall].
        apply Forall2_same_length_lookup. split; [done|]. intros i q b Hq Hb.
        apply list_elem_of_lookup_2 in Hq as Hqin.
        destruct (Hall i q b Hq Hb) as (H1 & H2 & H3). split_and!; [done..|].
        rewrite <- Hother; [done|apply Hin; by apply list_elem_of_further|by apply Hne].
    + intros q Hq. rewrite Hrows by done. destruct (decide (q = row_name f)) as [->|Hqn].
      * rewrite decide_False by done. rewrite decide_True by apply list_elem_of_here. done.
      * destruct (decide (q ∈ paths)) as [Hi|Hi].
        -- by rewrite decide_True by (by apply list_elem_of_further).
        -- rewrite decide_False by (rewrite elem_of_cons; naive_solver). by apply Hother.
Qed.

Lemma pending_names (m : gmap string string) p :
  p ∈ sort_strings (List.filter is_pending (map fst (map_to_list m))) ↔
  is_pending p = true ∧ is_Some (m !! p).
Proof.
  rewrite elem_of_sort_strings, list_elem_of_In, filter_In, <- list_elem_of_In.
  change (map fst (map_to_list m)) with ((map_to_list m).*1).
  split.
  - intros [Hin Hp]. split; [done|]. apply list_elem_of_fmap in Hin as ([q t] & -> & Hq).
    apply elem_of_map_to_list in Hq. by exists t.
  - intros [Hp [t Ht]]. split; [|done]. apply list_elem_of_fmap. exists (p, t).
    split; [done|]. by apply elem_of_map_to_list.
Qed.

Lemma pending_names_NoDup (m : gmap string string) :
  NoDup (sort_strings (List.filter is_pending (map fst (map_to_list m)))).
Proof.
  unfold sort_strings. rewrite merge_sort_Permutation.
  apply NoDup_ListNoDup, List.NoDup_filter, NoDup_ListNoDup. apply NoDup_fst_map_to_list.
Qed.

(** The recovery sweep makes the spool guarantee good.  When every pending row was
    written for a finding that reads back, no fault and no cancellation strike, and the
    tracker accepts, one sweep ends, leaves no pending row, and files each row exactly
    once, in the order of the file names, as a finding whose row it is. *)
Theorem recovery_files_every_row w :
  rows_readable (rows w) → (∀ f, is_ok (publish f) = true) →
  ∃ w' filed names,
    recover_pending publish spool_dir None quiet w = (w', Ok (N.of_nat (length names))) ∧
    (∀ p, p ∈ names ↔ is_pending p = true ∧ is_Some (rows w !! p)) ∧ NoDup names ∧
    tracker w' = app (tracker w) filed ∧ Forall2 (row_filed_as (rows w)) names filed ∧
    (∀ p, is_pending p = true → rows w' !! p = None).
Proof.
  intros Hread Hpub. set (names := sort_strings (List.filter is_pending (map fst (map_to_list (rows w))))).
  destruct (recover_rows names w 0 (pending_names_NoDup _) Hread Hpub) as (w' & filed & Hrun & Ht & Hall & Hrows).
  { intros p Hp. by apply pending_names. }
  exists w', filed, names. split_and!; [|apply pending_names|apply pending_names_NoDup|done|done|].
  - unfold recover_pending, pending. unfold mbind, stm_bind. cbn. fold names.
    rewrite Hrun. by rewrite N.add_0_l.
  - intros p Hp. rewrite Hrows by done. case_decide as Hi; [done|].
    rewrite eq_None_not_Some. intros Hs. apply Hi. by apply pending_names.
Qed.
End Recovery.

Definition ex_world : World := MkWorld {[ row_name ex_finding := payload ex_finding ]} [].

Lemma ex_world_readable : rows_readable (rows ex_world).
Proof.
  intros n t Hn _. cbn in Hn. apply lookup_singleton_Some in Hn as [<- <-].
  exists ex_finding. split; [by vm_compute|done].
Qed.

Example recovery_files_every_row_witness :
  ∃ w' filed names,
    recover_pending (λ _, Ok "bd-1") "/spool" None quiet ex_world = (w', Ok (N.of_nat (length names))) ∧
    (∀ p, p ∈ names ↔ is_pending p = true ∧ is_Some (rows ex_world !! p)) ∧ NoDup names ∧
    tracker w' = app (tracker ex_world) filed ∧
    Forall2 (row_filed_as (λ _, Ok "bd-1") (rows ex_world)) names filed ∧
    (∀ p, is_pending p = true → rows w' !! p = None).
Proof. apply (recovery_files_every_row (λ _, Ok "bd-1") "/spool"); [apply ex_world_readable|done]. Defined.

(** A finding whose title holds the next field's separator after a blank is read back
    with another body: the sweep files it under another row and never retires the row
    it read, so every sweep files it again. *)
Definition unstable_finding : Finding :=
  MkFinding ("the gate is red " +:+ lf_str +:+ "WHY: nobody knows") "it stays red" "run it" ["gate"] 1.

Definition sweep (w : World) : World :=
  (recover_pending (λ _, Ok "bd-1") "/spool" None quiet w).1.

Example recovery_refiles_unstable :
  let w0 := MkWorld {[ row_name unstable_finding := payload unstable_finding ]} [] in
  length (tracker (sweep w0)) = 1%nat ∧ length (tracker (sweep (sweep w0))) = 2%nat ∧
  rows (sweep (sweep w0)) !! row_name unstable_finding = Some (payload unstable_finding).
Proof. by vm_compute. Qed.
