(* ===== verification/Supervisor.v ===== *)
(** * The resident supervisor's decision: observe, decide, discharge

    Model of the pure part of omp-orchestrator/src/lib.rs: the durable idle
    authorization and its bindings, the gate census as data, the decision of one
    cycle, and the obligation types ([Census], [Duty], [Discharged]) around it.  The
    decisions themselves are finding-dispatch's ([Findings.SupervisorDecision]). *)

From stdpp Require Import base numbers list option strings sorting sets.
From Stdlib Require Import NArith Ascii Lia.
From S2P Require Import Prelude RustStr Findings.

(** ** The idle authorization. *)

Inductive IdleAuthorization :=
  | Authorized (reason session pane_set_hash : string) (queue_len issued_at expires_at : N)
  | Unauthorized (why : string).

Definition authorization_display (a : IdleAuthorization) : string :=
  match a with
  | Authorized r s _ _ _ e =>
      "IDLE_AUTHORIZED session=" +:+ s +:+ " expires_at=" +:+ show_N e +:+ ": " +:+ r
  | Unauthorized w =>
      "IDLE_UNAUTHORIZED (" +:+ w +:+ "): idle panes are an incident; dispatch or escalate"
  end.

Definition TOKEN_KEYS : list string :=
  ["reason"; "session"; "pane_set_hash"; "queue_len"; "issued_at"; "expires_at"].

(** The key and value of a line, or nothing for a blank line, a comment or a line
    without an equals sign. *)
Definition token_entry (line : string) : option (string * string) :=
  let line := trim line in
  if is_empty line || starts_with line "#" then None
  else match split_once "=" line with
       | Some (k, v) => Some (trim k, trim v)
       | None => None
       end.

Definition token_map (text : string) : list (string * string) := omap token_entry (lines text).

Definition token_get (m : list (string * string)) (k : string) : option string :=
  snd <$> find_first (λ kv, bool_decide (kv.1 = k)) m.

Definition field_missing (m : list (string * string)) (k : string) : bool :=
  match token_get m k with Some v => is_empty v | None => true end.

(** [token] is the text of [.idle_authorized]; [None] when it cannot be read. *)
Definition read_idle_authorization (token : option string) (now_unix : N) : IdleAuthorization :=
  match token with
  | None => Unauthorized "no_token"
  | Some text =>
      let m := token_map text in
      if existsb (field_missing m) TOKEN_KEYS then Unauthorized "token_missing_required_field"
      else match token_get m "queue_len" ≫= parse_u64, token_get m "issued_at" ≫= parse_u64,
                 token_get m "expires_at" ≫= parse_u64 with
           | Some q, Some i, Some e =>
               if (e <=? now_unix)%N then Unauthorized "token_expired"
               else Authorized (default "" (token_get m "reason")) (default "" (token_get m "session"))
                      (default "" (token_get m "pane_set_hash")) q i e
           | _, _, _ => Unauthorized "token_field_unparseable"
           end
  end.

(** ** Observations. *)

Record PaneObservation := MkPane {
  pane_id : string; pane_state : string; pane_liveness : string;
  is_dispatchable : bool; is_free_capacity : bool; is_working : bool; awaits_human : bool }.

Record QueueState := MkQueue { ready_count : N; readable : bool }.

(** ** The gate census as data. *)

Inductive GateReachability :=
  | Reachable (trigger : string) | Unreachable (reason : string) | NotInstalled
  | NotExtracted (upstream : string) (loc : N) | Unprobed (reason : string)
  | Undetermined (missing_input : string).

Definition is_reachable (g : GateReachability) : bool :=
  match g with Reachable _ => true | _ => false end.
Definition is_determined (g : GateReachability) : bool :=
  match g with Undetermined _ => false | _ => true end.
Definition next_action (g : GateReachability) : string :=
  match g with
  | Reachable _ => "none" | Unreachable _ => "repair-gate-trigger"
  | NotInstalled => "install-gate" | NotExtracted _ _ => "extract-crate-from-control-plane"
  | Unprobed _ => "repair-the-crate-manifest" | Undetermined _ => "run-where-the-input-exists"
  end.
Definition reachability_label (g : GateReachability) : string :=
  match g with
  | Reachable _ => "REACHABLE" | Unreachable _ => "UNWIRED" | NotInstalled => "NOT_INSTALLED"
  | NotExtracted _ _ => "NOT_EXTRACTED" | Unprobed _ => "UNPROBED" | Undetermined _ => "UNDETERMINED"
  end.

Inductive CensusDisposition := Blocking | Advisory (reason : string).
Definition is_blocking (d : CensusDisposition) : bool :=
  match d with Blocking => true | Advisory _ => false end.
Definition disposition_label (d : CensusDisposition) : string :=
  match d with Blocking => "BLOCKING" | Advisory _ => "ADVISORY" end.

Record GateCensusRow := MkRow {
  gate : string; reachability : GateReachability; disposition : CensusDisposition }.
Record GateCensus := MkGateCensus { census_rows : list GateCensusRow }.

Record Observation := MkObservation {
  panes : list PaneObservation; queue : QueueState; gate_census : option GateCensus }.

#[global] Instance gate_reachability_eq_dec : EqDecision GateReachability.
Proof. solve_decision. Defined.
#[global] Instance disposition_eq_dec : EqDecision CensusDisposition.
Proof. solve_decision. Defined.
#[global] Instance census_row_eq_dec : EqDecision GateCensusRow.
Proof. solve_decision. Defined.
#[global] Instance authorization_eq_dec : EqDecision IdleAuthorization.
Proof. solve_decision. Defined.

Definition POSITIVE_CONTROL_FAILED_UNWIRED : string :=
  "POSITIVE_CONTROL_FAILED: no independently reachable gate in this census".

Record AdvisoryRatchetAnchor := MkAnchor {
  ceiling : N; ceiling_at_recording : N; recorded_at_unix : N }.
Definition is_consistent (a : AdvisoryRatchetAnchor) : bool :=
  (ceiling a =? ceiling_at_recording a)%N.
Definition ADVISORY_RATCHET : AdvisoryRatchetAnchor := MkAnchor 0 0 1789188452.
Definition UNDETERMINED_CEILING : N := 0.
Definition ADVISORY_CEILING : N := ceiling ADVISORY_RATCHET.
Definition PRE_LEHT_BLOCKING_ROWS : N := 22.
Definition ADVISORY_CEILING_RECORDED_AT_UNIX : N := recorded_at_unix ADVISORY_RATCHET.
Definition ADVISORY_RATCHET_DEADLINE_TICKS : N := 200.

Definition is_untriaged_amnesty (reason : string) : bool :=
  negb (contains reason "ies when") && negb (contains reason "dies_when").

Definition advisory_ratchet_overdue
    (now_unix recorded_at_unix interval_secs deadline_ticks advisory_count ceiling : N) : bool :=
  if (advisory_count <? ceiling)%N then false
  else (deadline_ticks <? (sat_sub now_unix recorded_at_unix) / N.max interval_secs 1)%N.

Definition derived_positive_control (c : GateCensus) : option string :=
  gate <$> find_first (λ r, is_reachable (reachability r)) (census_rows c).

Definition unwired_gates (c : GateCensus) : list GateCensusRow :=
  List.filter (λ r, is_determined (reachability r) && negb (is_reachable (reachability r))
                    && is_blocking (disposition r)) (census_rows c).
Definition advisory_gates (c : GateCensus) : list GateCensusRow :=
  List.filter (λ r, is_determined (reachability r) && negb (is_reachable (reachability r))
                    && negb (is_blocking (disposition r))) (census_rows c).
Definition undetermined_gates (c : GateCensus) : list GateCensusRow :=
  List.filter (λ r, negb (is_determined (reachability r))) (census_rows c).
Definition all_reachable (c : GateCensus) : bool :=
  forallb (λ r, is_reachable (reachability r))
    (List.filter (λ r, is_blocking (disposition r) && is_determined (reachability r)) (census_rows c)).
Definition positive_control_passes (c : GateCensus) : bool :=
  match derived_positive_control c with Some _ => true | None => false end.

(** ** The decision. *)

Definition gate_census_decision (census : option GateCensus) : option SupervisorDecision :=
  match census with
  | Some c =>
      if negb (positive_control_passes c) then Some (GateUnwired [POSITIVE_CONTROL_FAILED_UNWIRED])
      else let unwired := map gate (unwired_gates c) in
           if negb (bool_decide (unwired = [])) then Some (GateUnwired unwired) else None
  | None => Some (GateUnwired ["CENSUS_NOT_PERFORMED"])
  end.

Definition count {A} (p : A → bool) (l : list A) : N := N.of_nat (length (List.filter p l)).

Definition expiry (a : IdleAuthorization) : option N :=
  match a with Authorized _ _ _ _ _ e => Some e | Unauthorized _ => None end.

Definition decide (o : Observation) (authorization : IdleAuthorization) : SupervisorDecision :=
  match gate_census_decision (gate_census o) with
  | Some d => d
  | None =>
      if bool_decide (panes o = []) then MonitorBlind "zero panes observed — the monitor is blind"
      else if negb (readable (queue o)) then QueueUnreadable "br ready produced no parseable output"
      else
        let awaiting := List.filter awaits_human (panes o) in
        if negb (bool_decide (awaiting = [])) then AwaitingHuman (join "," (map pane_id awaiting))
        else
          let dispatchable := List.filter is_dispatchable (panes o) in
          let free_capacity := count is_free_capacity (panes o) in
          let working := count is_working (panes o) in
          if (ready_count (queue o) =? 0)%N then
            if (free_capacity =? 0)%N then SupervisedWorking working 0
            else match expiry authorization with
                 | Some e => AuthorizedIdle (N.of_nat (length (panes o))) e
                 | None => QueueEmptyNeedsJosh free_capacity
                 end
          else match dispatchable with
               | target :: _ => Dispatch (pane_id target) "first-ready-bead"
               | [] =>
                   if (0 <? free_capacity)%N then
                     match expiry authorization with
                     | Some e => AuthorizedIdle (N.of_nat (length (panes o))) e
                     | None => EscalateIdleIncident 0 (ready_count (queue o))
                     end
                   else SupervisedWorking working (ready_count (queue o))
               end
  end.

(** ** The obligation of a tick. *)

(** Only [try_new] makes a census. *)
Record Census := MkCensus { observed : list PaneObservation }.
Definition try_new (ps : list PaneObservation) : result string Census :=
  if bool_decide (ps = [])
  then Err "empty census: a scan that observed zero panes is an ERROR, never a pass"
  else Ok (MkCensus ps).

Inductive Duty := MkDuty (d : SupervisorDecision).
Definition duty_decision (d : Duty) : SupervisorDecision := let 'MkDuty x := d in x.
Definition observe (c : Census) (q : QueueState) (a : IdleAuthorization) (gates : option GateCensus) : Duty :=
  MkDuty (decide (MkObservation (observed c) q gates) a).
Definition requires_action (d : Duty) : bool :=
  match duty_decision d with SupervisedWorking _ _ => false | _ => true end.

Record Discharged := MkDischarged { discharged_decision : SupervisorDecision; evidence : string }.
Definition discharge (d : Duty) (evidence : string) : Discharged :=
  MkDischarged (duty_decision d) evidence.
Definition exit_code (d : Discharged) : N := if is_empty (trim (evidence d)) then 70 else 0.

(** ** What an authorization is bound to. *)

(** The FNV loop closes every pane id with a unit separator. *)
Fixpoint hash_ids (h : N) (ids : list string) : N :=
  match ids with
  | [] => h
  | id :: ids' => hash_ids (fnv_byte (fnv_str h id) 31) ids'
  end.
Definition pane_set_hash (ps : list PaneObservation) : string :=
  hex16 (hash_ids fnv_offset (btree_set (map pane_id ps))).

Definition applicable (a : IdleAuthorization) (session : string) (ps : list PaneObservation)
    (q : QueueState) : IdleAuthorization :=
  match a with
  | Unauthorized _ => a
  | Authorized _ s h n _ _ =>
      if negb (bool_decide (s = session)) then Unauthorized "token_session_mismatch"
      else if negb (bool_decide (h = pane_set_hash ps)) then Unauthorized "token_pane_set_changed"
      else if (n <? ready_count q)%N then Unauthorized "token_queue_grew"
      else a
  end.

Definition write_token (reason session : string) (ps : list PaneObservation) (q : QueueState)
    (issued_at valid_for_secs : N) : string :=
  "# minted by omp-orchestrator::write_token — bindings are load-bearing" +:+ lf_str +:+
  "reason = " +:+ reason +:+ lf_str +:+
  "session = " +:+ session +:+ lf_str +:+
  "pane_set_hash = " +:+ pane_set_hash ps +:+ lf_str +:+
  "queue_len = " +:+ show_N (ready_count q) +:+ lf_str +:+
  "issued_at = " +:+ show_N issued_at +:+ lf_str +:+
  "expires_at = " +:+ show_N (sat_add64 issued_at valid_for_secs) +:+ lf_str.

(** ** Lemmas on the decision. *)

Lemma filter_nil_iff {A} (p : A → bool) l :
  List.filter p l = [] ↔ Forall (λ x, p x = false) l.
Proof.
  induction l as [|x l IH]; simpl; [naive_solver|]. rewrite Forall_cons.
  destruct (p x); naive_solver.
Qed.

Lemma filter_head {A} (p : A → bool) l x r :
  List.filter p l = x :: r → ∃ l1 l2, l = app l1 (x :: l2) ∧ p x = true ∧ Forall (λ y, p y = false) l1.
Proof.
  induction l as [|y l IH]; simpl; [done|]. destruct (p y) eqn:Hy.
  - intros [= -> _]. by exists [], l.
  - intros (l1 & l2 & -> & Hx & Hl)%IH. exists (y :: l1), l2. naive_solver.
Qed.

Lemma count_zero {A} (p : A → bool) l : count p l = 0%N ↔ Forall (λ x, p x = false) l.
Proof. unfold count. rewrite <- filter_nil_iff. destruct (List.filter p l); simpl; naive_solver lia. Qed.

(** The checks that come before capacity all pass. *)
Record clear_to_decide (o : Observation) : Prop := {
  clear_gates : gate_census_decision (gate_census o) = None;
  clear_panes : panes o ≠ [];
  clear_queue : readable (queue o) = true;
  clear_humans : Forall (λ p, awaits_human p = false) (panes o) }.

(** What the decision is once they pass. *)
Definition capacity_decision (o : Observation) (a : IdleAuthorization) : SupervisorDecision :=
  let free := count is_free_capacity (panes o) in
  let working := count is_working (panes o) in
  let ready := ready_count (queue o) in
  match (ready =? 0)%N, List.filter is_dispatchable (panes o), (free =? 0)%N with
  | false, target :: _, _ => Dispatch (pane_id target) "first-ready-bead"
  | _, _, true => SupervisedWorking working ready
  | z, _, false =>
      match expiry a with
      | Some e => AuthorizedIdle (N.of_nat (length (panes o))) e
      | None => if z then QueueEmptyNeedsJosh free else EscalateIdleIncident 0 ready
      end
  end.

Lemma decide_clear o a : clear_to_decide o → decide o a = capacity_decision o a.
Proof.
  intros [Hg Hp Hq Hh]. unfold decide, capacity_decision. rewrite Hg.
  rewrite bool_decide_eq_false_2 by done. rewrite Hq. cbn [negb].
  rewrite (proj2 (filter_nil_iff awaits_human (panes o)) Hh), bool_decide_eq_true_2 by done.
  cbn [negb]. destruct (N.eqb_spec (ready_count (queue o)) 0) as [->|Hr].
  - destruct (count is_free_capacity (panes o) =? 0)%N; [done|]. by destruct (expiry a).
  - destruct (List.filter is_dispatchable (panes o)); [|done].
    destruct (N.eqb_spec (count is_free_capacity (panes o)) 0) as [->|Hf]; [done|].
    assert (0 <? count is_free_capacity (panes o) = true)%N as -> by (apply N.ltb_lt; lia).
    by destruct (expiry a).
Qed.

(** The decisions of the checks before capacity. *)
Definition blocked_decision (d : SupervisorDecision) : bool :=
  match d with
  | GateUnwired _ | MonitorBlind _ | QueueUnreadable _ | AwaitingHuman _ => true
  | _ => false
  end.

Lemma gate_decision_unwired c d : gate_census_decision c = Some d → ∃ l, d = GateUnwired l.
Proof. unfold gate_census_decision. destruct c; repeat case_match; naive_solver. Qed.

Lemma decide_cases o a :
  (blocked_decision (decide o a) = true ∧ ¬ clear_to_decide o) ∨
  (clear_to_decide o ∧ decide o a = capacity_decision o a).
Proof.
  destruct (gate_census_decision (gate_census o)) as [d|] eqn:Hg.
  { left. destruct (gate_decision_unwired _ _ Hg) as [l ->]. unfold decide. rewrite Hg.
    split; [done|]. intros [? ? ? ?]. congruence. }
  destruct (base.decide (panes o = [])) as [Hp|Hp].
  { left. unfold Supervisor.decide. rewrite Hg, bool_decide_eq_true_2 by done.
    split; [done|]. by intros []. }
  destruct (readable (queue o)) eqn:Hq.
  2:{ left. unfold Supervisor.decide. rewrite Hg, bool_decide_eq_false_2, Hq by done.
      split; [done|]. intros []. congruence. }
  destruct (List.filter awaits_human (panes o)) as [|x r] eqn:Hh.
  - right. assert (clear_to_decide o) as Hc by (split; [done..|by apply filter_nil_iff]).
    split; [done|]. by apply decide_clear.
  - left. unfold Supervisor.decide. rewrite Hg, bool_decide_eq_false_2, Hq, Hh by done.
    rewrite bool_decide_eq_false_2 by done. split; [done|]. intros [_ _ _ Hf].
    apply filter_nil_iff in Hf. congruence.
Qed.

(** The decision to dispatch, in terms of the checks that come before capacity. *)
Lemma dispatch_iff o a p h :
  Supervisor.decide o a = Dispatch p h ↔
  clear_to_decide o ∧ ready_count (queue o) ≠ 0%N ∧ h = "first-ready-bead" ∧
  ∃ l1 x l2, panes o = app l1 (x :: l2) ∧ is_dispatchable x = true ∧ pane_id x = p ∧
    Forall (λ y, is_dispatchable y = false) l1.
Proof.
  destruct (decide_cases o a) as [[Hb Hn]|[Hc ->]].
  { split; [intros H; by rewrite H in Hb|naive_solver]. }
  unfold capacity_decision. destruct (N.eqb_spec (ready_count (queue o)) 0) as [Hr|Hr].
  { split; [|naive_solver]. destruct (count is_free_capacity (panes o) =? 0)%N; [done|].
    by destruct (expiry a). }
  destruct (List.filter is_dispatchable (panes o)) as [|x r] eqn:Hd.
  - split.
    + destruct (count is_free_capacity (panes o) =? 0)%N; [done|]. by destruct (expiry a).
    + intros (_ & _ & _ & l1 & x & l2 & Hp & Hx & _). apply filter_nil_iff in Hd.
      rewrite Hp in Hd. apply Forall_app in Hd as [_ Hd]. inversion Hd; congruence.
  - apply filter_head in Hd as (l1 & l2 & Hp & Hx & Hl). split.
    + intros [= <- <-]. split_and!; [done..|]. by exists l1, x, l2.
    + intros (_ & _ & -> & m1 & y & m2 & Hp' & Hy & <- & Hm). f_equal.
      enough (find_first is_dispatchable (panes o) = Some x ∧
              find_first is_dispatchable (panes o) = Some y) by naive_solver congruence.
      split; apply find_first_Some; eauto.
Qed.

(** The census was performed, it found a reachable gate, and every blocking gate that it
    could measure is reachable. *)
Definition census_passed (census : option GateCensus) : Prop :=
  ∃ c, census = Some c ∧ (∃ r trigger, r ∈ census_rows c ∧ reachability r = Reachable trigger) ∧
    ∀ r, r ∈ census_rows c → disposition r = Blocking →
      (∃ trigger, reachability r = Reachable trigger) ∨ (∃ missing, reachability r = Undetermined missing).

(** An unmeasured or advisory gate never refuses. *)
Lemma census_passes_iff census : gate_census_decision census = None ↔ census_passed census.
Proof.
  assert (∀ c, positive_control_passes c = true ↔
    ∃ r trigger, r ∈ census_rows c ∧ reachability r = Reachable trigger) as Hpos.
  { intros c. unfold positive_control_passes, derived_positive_control.
    destruct (find_first _ _) as [r|] eqn:Hr; simpl.
    - split; [|done]. intros _. apply find_first_Some in Hr as (l1 & l2 & -> & Hr & _).
      destruct (reachability r) as [t| | | | |] eqn:Ht; try done. exists r, t. split; [set_solver|done].
    - apply find_first_None in Hr. split; [done|]. intros (r & t & Hin & Hx).
      rewrite Forall_forall in Hr. apply Hr in Hin. by rewrite Hx in Hin. }
  assert (∀ c, map gate (unwired_gates c) = [] ↔
    ∀ r, r ∈ census_rows c → disposition r = Blocking →
      (∃ trigger, reachability r = Reachable trigger) ∨ (∃ missing, reachability r = Undetermined missing)) as Hun.
  { intros c. transitivity (unwired_gates c = []).
    { by destruct (unwired_gates c). }
    unfold unwired_gates. rewrite filter_nil_iff, Forall_forall.
    split; intros H r Hr; specialize (H r Hr);
      destruct (reachability r), (disposition r); simpl in *; naive_solver. }
  unfold gate_census_decision, census_passed. destruct census as [c|]; [|naive_solver].
  specialize (Hpos c). specialize (Hun c).
  destruct (positive_control_passes c); cbn [negb].
  - case_bool_decide as Hb; cbn [negb]; naive_solver.
  - naive_solver.
Qed.

(** C17: The supervisor dispatches exactly when it may: the census was performed, found a
    reachable gate, and left no measured blocking gate unreachable; panes were seen; the
    queue was readable and not empty; no pane waits for a human; and some pane is
    dispatchable; and then to the first such pane, under any authorization to be idle. *)
Theorem decide_dispatch_iff o a p h :
  Supervisor.decide o a = Dispatch p h ↔
  census_passed (gate_census o) ∧ panes o ≠ [] ∧ readable (queue o) = true ∧ ready_count (queue o) ≠ 0%N ∧
  (∀ x, x ∈ panes o → awaits_human x = false) ∧ h = "first-ready-bead" ∧
  ∃ l1 x l2, panes o = app l1 (x :: l2) ∧ is_dispatchable x = true ∧ pane_id x = p ∧
    ∀ y, y ∈ l1 → is_dispatchable y = false.
Proof.
  rewrite dispatch_iff, <-census_passes_iff. split.
  - intros ([Hg Hp Hq Hh] & Hr & Hid & l1 & x & l2 & Hl & Hx & Hi & Hall). split_and!; try done.
    + by rewrite <-Forall_forall.
    + exists l1, x, l2. by rewrite <-Forall_forall.
  - intros (Hg & Hp & Hq & Hr & Hh & Hid & l1 & x & l2 & Hl & Hx & Hi & Hall). split_and!; try done.
    + split; [done..|]. by apply Forall_forall.
    + exists l1, x, l2. by rewrite Forall_forall.
Qed.

(** No third branch.  When capacity is free and work is ready, the supervisor is
    never silent: it dispatches, or names a blocker, or escalates the idle incident, or
    cites an authorization; it reports a working fleet only when no pane is free (or the
    queue is empty and no pane is free), and it tolerates idleness only under an
    authorization. *)
Theorem never_silent o a :
  match Supervisor.decide o a with
  | SupervisedWorking w r =>
      Forall (λ p, is_free_capacity p = false) (panes o) ∧
      w = count is_working (panes o) ∧ r = ready_count (queue o) ∧
      (r = 0%N ∨ Forall (λ p, is_dispatchable p = false) (panes o))
  | AuthorizedIdle n e =>
      expiry a = Some e ∧ n = N.of_nat (length (panes o)) ∧
      (ready_count (queue o) = 0%N ∨ Forall (λ p, is_dispatchable p = false) (panes o))
  | EscalateIdleIncident d r =>
      d = 0%N ∧ r = ready_count (queue o) ∧ r ≠ 0%N ∧ expiry a = None ∧
      count is_free_capacity (panes o) ≠ 0%N ∧ Forall (λ p, is_dispatchable p = false) (panes o)
  | QueueEmptyNeedsJosh n =>
      ready_count (queue o) = 0%N ∧ expiry a = None ∧ n = count is_free_capacity (panes o) ∧ n ≠ 0%N
  | Dispatch _ _ => ready_count (queue o) ≠ 0%N
  | d => blocked_decision d = true ∧ ¬ clear_to_decide o
  end.
Proof.
  destruct (decide_cases o a) as [[Hb Hn]|[Hc ->]].
  { by destruct (Supervisor.decide o a). }
  unfold capacity_decision. destruct (N.eqb_spec (ready_count (queue o)) 0) as [Hr|Hr].
  - destruct (N.eqb_spec (count is_free_capacity (panes o)) 0) as [Hf|Hf].
    + apply count_zero in Hf. auto.
    + destruct (expiry a); auto.
  - destruct (List.filter is_dispatchable (panes o)) as [|x r] eqn:Hd; [|done].
    apply filter_nil_iff in Hd.
    destruct (N.eqb_spec (count is_free_capacity (panes o)) 0) as [Hf|Hf].
    + apply count_zero in Hf. auto.
    + destruct (expiry a); split_and!; auto.
Qed.

(** Without a census the decision is a refusal, whatever was observed. *)
Lemma no_census_no_dispatch o a :
  gate_census o = None → Supervisor.decide o a = GateUnwired ["CENSUS_NOT_PERFORMED"].
Proof. unfold Supervisor.decide. by intros ->. Qed.

(** ** The token: what is written is what is read. *)

Lemma token_entry_kv k v :
  k ∈ TOKEN_KEYS → line_value v = true → token_entry (k +:+ " = " +:+ v) = Some (k, v).
Proof.
  intros Hk (Hne & Htrim & Hs & _ & _)%line_value_spec. unfold token_entry.
  assert (trim (k +:+ " = " +:+ v) = (k +:+ " ") +:+ "=" +:+ (" " +:+ v)) as ->.
  { rewrite (str_app_assoc k). rewrite trim_prefixed; [|..|done|done|done].
    - rewrite <- !str_app_assoc. done.
    - unfold TOKEN_KEYS in Hk. repeat (apply elem_of_cons in Hk as [->|Hk]; [done|]).
      by apply not_elem_of_nil in Hk. }
  rewrite split_once_char.
  2:{ unfold TOKEN_KEYS in Hk. repeat (apply elem_of_cons in Hk as [->|Hk]; [done|]).
      by apply not_elem_of_nil in Hk. }
  rewrite trim_spaced by done. unfold TOKEN_KEYS in Hk.
  repeat (apply elem_of_cons in Hk as [->|Hk]; [done|]). by apply not_elem_of_nil in Hk.
Qed.

Lemma token_lines rest k v :
  k ∈ TOKEN_KEYS → line_value v = true →
  token_map ((k +:+ " = ") +:+ v +:+ lf_str +:+ rest) = (k, v) :: token_map rest.
Proof.
  intros Hk Hv. apply line_value_spec in Hv as Hv'. destruct Hv' as (_ & _ & _ & Hlf & Hcr).
  unfold token_map. rewrite (str_app_assoc _ v), lines_line.
  - cbn [omap list_omap]. rewrite <- str_app_assoc. by rewrite token_entry_kv.
  - apply no_byte_app; [|done]. unfold TOKEN_KEYS in Hk.
    repeat (apply elem_of_cons in Hk as [->|Hk]; [done|]). by apply not_elem_of_nil in Hk.
  - apply no_byte_app; [|done]. unfold TOKEN_KEYS in Hk.
    repeat (apply elem_of_cons in Hk as [->|Hk]; [done|]). by apply not_elem_of_nil in Hk.
Qed.

Lemma show_N_line_value n : line_value (show_N n) = true.
Proof.
  apply digits_line_value; [|apply show_N_digits].
  intros H. assert (parse_below (n + 1) (show_N n) = Some n) as Hp by (apply parse_below_show; lia).
  by rewrite H in Hp.
Qed.

Lemma hex_fixed_line_value k n : k ≠ O → line_value (hex_fixed k n) = true.
Proof.
  set (hexish c := is_ascii_digit c || ((97 <=? N_of_ascii c) && (N_of_ascii c <=? 102))%N).
  assert (∀ m, (m < 16)%N → hexish (hex_nibble m) = true) as Hnib.
  { intros m Hm. assert (In m [0;1;2;3;4;5;6;7;8;9;10;11;12;13;14;15]%N) as Hin.
    { simpl. lia. }
    simpl in Hin. destruct_or! Hin; try done; by subst. }
  assert (∀ k n, all_bytes hexish (hex_fixed k n) = true) as Hall.
  { clear k n. induction k as [|k IH]; intros n; [done|]. cbn [hex_fixed].
    rewrite all_bytes_app, IH. cbn [all_bytes]. rewrite Hnib; [done|].
    apply N.mod_lt. lia. }
  intros Hk. assert (hex_fixed k n ≠ EmptyString) as Hne.
  { destruct k; [done|]. cbn [hex_fixed]. by destruct (hex_fixed k (n / 16)). }
  apply word_line_value with hexish; [|done|apply Hall].
  intros c. unfold hexish, is_ascii_digit. rewrite orb_true_iff, !andb_true_iff, !N.leb_le. lia.
Qed.

Ltac token_key := apply (bool_decide_unpack (_ ∈ TOKEN_KEYS)); reflexivity.

Lemma read_of_fields r s h q i e now :
  line_value r = true → line_value s = true → line_value h = true →
  (q < u64_modulus)%N → (i < u64_modulus)%N → (e < u64_modulus)%N →
  let m := [("reason", r); ("session", s); ("pane_set_hash", h); ("queue_len", show_N q);
            ("issued_at", show_N i); ("expires_at", show_N e)] in
  ∀ text, token_map text = m →
  read_idle_authorization (Some text) now =
  if (e <=? now)%N then Unauthorized "token_expired" else Authorized r s h q i e.
Proof.
  intros Hr Hs Hh Hq Hi He m text Hm. unfold read_idle_authorization. rewrite Hm.
  assert (∀ v, line_value v = true → is_empty v = false) as Hne.
  { intros v (Hv & _)%line_value_spec. by destruct v. }
  assert (existsb (field_missing m) TOKEN_KEYS = false) as ->.
  { change (is_empty r || (is_empty s || (is_empty h || (is_empty (show_N q) ||
      (is_empty (show_N i) || (is_empty (show_N e) || false))))) = false).
    rewrite !Hne; auto using show_N_line_value. }
  change (token_get m "queue_len") with (Some (show_N q)).
  change (token_get m "issued_at") with (Some (show_N i)).
  change (token_get m "expires_at") with (Some (show_N e)).
  cbn [mbind option_bind]. unfold parse_u64. rewrite !parse_below_show by done. done.
Qed.

(** The token the writer mints is the authorization the reader grants: the reason,
    the session, the pane set and the queue depth come back, the expiry is the issue
    time plus the validity (saturating), and at or past it the token is refused. *)
Theorem token_roundtrip reason session ps q issued valid now :
  line_value reason = true → line_value session = true →
  (ready_count q < u64_modulus)%N → (issued < u64_modulus)%N →
  read_idle_authorization (Some (write_token reason session ps q issued valid)) now =
  if (sat_add64 issued valid <=? now)%N then Unauthorized "token_expired"
  else Authorized reason session (pane_set_hash ps) (ready_count q) issued (sat_add64 issued valid).
Proof.
  intros Hr Hs Hq Hi. apply read_of_fields; [done|done| |done|done| |].
  - by apply hex_fixed_line_value.
  - pose proof (sat_add64_le issued valid). unfold u64_modulus, u64_max in *. lia.
  - unfold write_token. unfold token_map at 1. rewrite lines_line by done.
    cbn [omap list_omap].
    match goal with |- context [token_entry ?c] => assert (token_entry c = None) as -> by done end.
    change (omap token_entry (lines ?t)) with (token_map t).
    change "reason = " with ("reason" +:+ " = "). rewrite token_lines by (done || token_key).
    change "session = " with ("session" +:+ " = "). rewrite token_lines by (done || token_key).
    change "pane_set_hash = " with ("pane_set_hash" +:+ " = ").
    rewrite token_lines by (by apply hex_fixed_line_value || token_key).
    change "queue_len = " with ("queue_len" +:+ " = ").
    rewrite token_lines by (apply show_N_line_value || token_key).
    change "issued_at = " with ("issued_at" +:+ " = ").
    rewrite token_lines by (apply show_N_line_value || token_key).
    change "expires_at = " with ("expires_at" +:+ " = ").
    rewrite <- (str_app_nil_r lf_str).
    rewrite token_lines by (apply show_N_line_value || token_key). done.
Qed.

Definition ex_panes : list PaneObservation :=
  [MkPane "%7" "IDLE" "CONFIRMED_IDLE" true true false false;
   MkPane "%9" "WORKING" "LIVE" false false true false].

Example token_roundtrip_witness :
  line_value "asleep" = true ∧
  read_idle_authorization (Some (write_token "asleep" "omp" ex_panes (MkQueue 2 true) 1000 600)) 1200 =
  if (sat_add64 1000 600 <=? 1200)%N then Unauthorized "token_expired"
  else Authorized "asleep" "omp" (pane_set_hash ex_panes) 2 1000 (sat_add64 1000 600).
Proof.
  split; [by vm_compute|].
  apply (token_roundtrip "asleep" "omp" ex_panes (MkQueue 2 true) 1000 600 1200); by vm_compute.
Defined.

(** ** What an authorization is bound to. *)

Lemma sort_strings_same l k : l ≡ₚ k → sort_strings l = sort_strings k.
Proof.
  intros H. unfold sort_strings. eapply (StronglySorted_unique String.le).
  - apply (StronglySorted_merge_sort _ _).
  - apply (StronglySorted_merge_sort _ _).
  - by rewrite !merge_sort_Permutation.
Qed.

(** Two lists with the same elements make the same sorted set. *)
Lemma btree_set_ext l k : (∀ x, x ∈ l ↔ x ∈ k) → btree_set l = btree_set k.
Proof.
  intros H. eapply (StronglySorted_unique String.le).
  - apply (dedup_sorted_NoDup String.le), (StronglySorted_merge_sort _ _).
  - apply (dedup_sorted_NoDup String.le), (StronglySorted_merge_sort _ _).
  - apply NoDup_Permutation; [apply btree_set_NoDup..|].
    intros x. by rewrite !elem_of_btree_set.
Qed.

(** The pane-set hash depends on which pane ids were seen and on nothing else: not
    on their order, on repetitions, or on what the panes were doing. *)
Theorem pane_set_hash_set ps qs :
  (∀ i, i ∈ map pane_id ps ↔ i ∈ map pane_id qs) → pane_set_hash ps = pane_set_hash qs.
Proof. intros H. unfold pane_set_hash. by rewrite (btree_set_ext _ _ H). Qed.

Example pane_set_hash_set_witness :
  pane_set_hash ex_panes = pane_set_hash (app (rev ex_panes) ex_panes).
Proof.
  apply pane_set_hash_set. intros i.
  change (map pane_id ex_panes) with ["%7"; "%9"].
  change (map pane_id (app (rev ex_panes) ex_panes)) with ["%9"; "%7"; "%7"; "%9"].
  rewrite !elem_of_cons. tauto.
Defined.

(** The authorization of a cycle: the token as read, then held to its bindings. *)
Definition authorization_in_force (token : option string) (session : string) (o : Observation)
    (now : N) : IdleAuthorization :=
  applicable (read_idle_authorization token now) session (panes o) (queue o).

Lemma applicable_authorized a session ps q r s h n i e :
  applicable a session ps q = Authorized r s h n i e ↔
  a = Authorized r s h n i e ∧ s = session ∧ h = pane_set_hash ps ∧ (ready_count q <= n)%N.
Proof.
  destruct a as [r' s' h' n' i' e'|w]; cbn [applicable]; [|naive_solver].
  case_bool_decide; cbn [negb]; [|naive_solver].
  case_bool_decide; cbn [negb]; [|naive_solver].
  destruct (N.ltb_spec n' (ready_count q)); naive_solver lia.
Qed.

Lemma read_authorized token now r s h n i e :
  read_idle_authorization token now = Authorized r s h n i e →
  (now < e)%N ∧ ∃ text, token = Some text ∧ Forall (λ k, field_missing (token_map text) k = false) TOKEN_KEYS
    ∧ token_get (token_map text) "session" = Some s
    ∧ token_get (token_map text) "pane_set_hash" = Some h
    ∧ token_get (token_map text) "queue_len" ≫= parse_u64 = Some n
    ∧ token_get (token_map text) "expires_at" ≫= parse_u64 = Some e.
Proof.
  unfold read_idle_authorization. destruct token as [text|]; [|done].
  destruct (existsb _ _) eqn:Hf; [done|]. apply existsb_false_Forall in Hf.
  assert (∀ k, k ∈ TOKEN_KEYS → ∃ v, token_get (token_map text) k = Some v) as Hget.
  { intros k Hk. rewrite Forall_forall in Hf. specialize (Hf k Hk). unfold field_missing in Hf.
    destruct (token_get _ k); [eauto|done]. }
  destruct (Hget "session") as [s' Hs']; [token_key|].
  destruct (Hget "pane_set_hash") as [h' Hh']; [token_key|].
  destruct (token_get _ "queue_len" ≫= parse_u64) eqn:Hq; [|done].
  destruct (token_get _ "issued_at" ≫= parse_u64) eqn:Hi; [|done].
  destruct (token_get _ "expires_at" ≫= parse_u64) eqn:He; [|done].
  case_match eqn:Hle; [done|]. apply N.leb_gt in Hle. rewrite Hs', Hh'. cbn. intros [= <- <- <- <- <- <-].
  split; [done|]. eauto 10.
Qed.

(** Idleness is tolerated only by a durable token that is bound to it: the token
    exists and has every field, has not expired, names this session and exactly the panes
    seen now, and was given for a queue at least as long as the present one. *)
Theorem idle_needs_bound_token token session o now n e :
  Supervisor.decide o (authorization_in_force token session o now) = AuthorizedIdle n e →
  (now < e)%N ∧ ∃ text depth, token = Some text ∧
    Forall (λ k, field_missing (token_map text) k = false) TOKEN_KEYS ∧
    token_get (token_map text) "session" = Some session ∧
    token_get (token_map text) "pane_set_hash" = Some (pane_set_hash (panes o)) ∧
    token_get (token_map text) "queue_len" ≫= parse_u64 = Some depth ∧
    (ready_count (queue o) <= depth)%N ∧
    token_get (token_map text) "expires_at" ≫= parse_u64 = Some e.
Proof.
  intros H. pose proof (never_silent o (authorization_in_force token session o now)) as Hn.
  rewrite H in Hn. destruct Hn as (He & _ & _). unfold authorization_in_force in He.
  destruct (applicable _ _ _ _) as [r s h d i x|w] eqn:Ha; [|done]. cbn in He. injection He as ->.
  apply applicable_authorized in Ha as (Hr & -> & -> & Hd).
  apply read_authorized in Hr as (Hlt & text & -> & Hf & Hs & Hh & Hq & He).
  split; [done|]. by exists text, d.
Qed.

Definition passing_census : GateCensus := MkGateCensus [MkRow "no-shell-gate" (Reachable ".git/hooks/pre-commit") Blocking].
Definition ex_quiet : Observation :=
  MkObservation ex_panes (MkQueue 0 true) (Some passing_census).
Definition ex_token : option string :=
  Some (write_token "asleep" "omp" ex_panes (MkQueue 0 true) 1000 600).

Example idle_needs_bound_token_witness :
  Supervisor.decide ex_quiet (authorization_in_force ex_token "omp" ex_quiet 1200) = AuthorizedIdle 2 1600 ∧
  (1200 < 1600)%N ∧ ∃ text depth, ex_token = Some text ∧
    Forall (λ k, field_missing (token_map text) k = false) TOKEN_KEYS ∧
    token_get (token_map text) "session" = Some "omp" ∧
    token_get (token_map text) "pane_set_hash" = Some (pane_set_hash ex_panes) ∧
    token_get (token_map text) "queue_len" ≫= parse_u64 = Some depth ∧
    (0 <= depth)%N ∧
    token_get (token_map text) "expires_at" ≫= parse_u64 = Some 1600%N.
Proof.
  split; [by vm_compute|].
  apply (idle_needs_bound_token ex_token "omp" ex_quiet 1200 2 1600). by vm_compute.
Defined.

(** ** The obligation of a tick. *)

(** A tick that exits with success did something: it observed at least one pane, the
    discharge carries the decision that observation owes, and its evidence is not
    blank.  A tick that owes no action saw every pane busy. *)
Theorem success_needs_evidence ps q a gates ev :
  match try_new ps with
  | Err _ => ps = []
  | Ok c =>
      let duty := observe c q a gates in
      let done_ := discharge duty ev in
      ps ≠ [] ∧ (exit_code done_ = 0%N ↔ trim ev ≠ EmptyString) ∧
      discharged_decision done_ = Supervisor.decide (MkObservation ps q gates) a ∧
      (requires_action duty = false →
       clear_to_decide (MkObservation ps q gates) ∧
       Forall (λ p, is_free_capacity p = false) ps)
  end.
Proof.
  unfold try_new. case_bool_decide as Hp; [done|]. cbn zeta. split_and!; [done| |done|].
  - unfold exit_code, discharge. cbn [evidence]. destruct (trim ev); cbn; naive_solver.
  - unfold requires_action, observe. cbn [duty_decision observed]. intros H.
    destruct (decide_cases (MkObservation ps q gates) a) as [[Hb _]|[Hc _]].
    { by destruct (Supervisor.decide _ _). }
    split; [done|]. pose proof (never_silent (MkObservation ps q gates) a) as Hn.
    destruct (Supervisor.decide _ _); try done. by destruct Hn as [Hn _].
Qed.

(** ** The census buckets and the advisory ratchet. *)

(** Every row is in exactly one bucket: reachable, refusing, advisory, or not measured. *)
Lemma census_partition c r :
  r ∈ census_rows c →
  (is_reachable (reachability r) = true ∧ r ∉ unwired_gates c ∧ r ∉ advisory_gates c ∧ r ∉ undetermined_gates c) ∨
  (r ∈ unwired_gates c ∧ r ∉ advisory_gates c ∧ r ∉ undetermined_gates c) ∨
  (r ∉ unwired_gates c ∧ r ∈ advisory_gates c ∧ r ∉ undetermined_gates c) ∨
  (r ∉ unwired_gates c ∧ r ∉ advisory_gates c ∧ r ∈ undetermined_gates c).
Proof.
  intros Hr. unfold unwired_gates, advisory_gates, undetermined_gates.
  rewrite !list_elem_of_In, !filter_In, <- list_elem_of_In.
  destruct (reachability r), (disposition r); naive_solver.
Qed.

(** [all_reachable] says exactly that no gate refuses. *)
Lemma all_reachable_unwired c : all_reachable c = true ↔ unwired_gates c = [].
Proof.
  unfold all_reachable, unwired_gates. rewrite filter_nil_iff.
  induction (census_rows c) as [|r l IH]; simpl; [done|]. rewrite Forall_cons, <- IH.
  clear IH. destruct r as [g [] []]; simpl;
    (split; [intros H; try discriminate H; by split | by intros [H1 H2]]).
Qed.

(** The ratchet is not overdue at the moment its ceiling is recorded, and is overdue
    once the deadline has passed without the count falling. *)
Lemma ratchet_not_overdue_at_recording now interval deadline n c :
  advisory_ratchet_overdue now now interval deadline n c = false.
Proof.
  unfold advisory_ratchet_overdue, sat_sub. destruct (n <? c)%N; [done|].
  rewrite N.sub_diag, N.div_0_l by lia. apply N.ltb_ge. lia.
Qed.
