(* ===== verification/DecisionLedger.v ===== *)
(** * The human-decision ledger and the classifier of heartbeats

    Model of decision-ledger/src/lib.rs: an append-only file of JSON rows, one
    question per row, with the operations that append a request, a machine's
    disposition and a human's decision; and the classifier that turns a heartbeat of
    the supervisor into one of those (or into none).

    The file is a string, absent or present; a fault of each file operation is an
    argument, and a failed write may leave a truncated last line. *)

From stdpp Require Import base numbers list option strings sorting sets.
From Stdlib Require Import NArith Ascii Lia.
From S2P Require Import Prelude RustStr Json.

(** ** Data. *)

Inductive HumanClause := Authority | ExclusiveCapability | Taste.
#[global] Instance human_clause_eq_dec : EqDecision HumanClause.
Proof. solve_decision. Defined.

Definition clause_str (c : HumanClause) : string :=
  match c with
  | Authority => "authority" | ExclusiveCapability => "exclusive_capability" | Taste => "taste"
  end.
Definition clause_parse (s : string) : option HumanClause :=
  find_first (λ c, bool_decide (clause_str c = s)) [Authority; ExclusiveCapability; Taste].

Record Request := MkRequest {
  question : string; asked_by : string; blocking : string; clause : option HumanClause; ts : N }.

Record Decision := MkDecision {
  d_id : string; d_decision : string; decider : string; recorded_by : string; transcript_ref : string }.

Inductive AppendOutcome := Appended (id : string) | Deduped (id : string).
Definition wrote (o : AppendOutcome) : bool :=
  match o with Appended _ => true | Deduped _ => false end.

Inductive AgentDisposition := Requeued | OrchestratorWork.
Definition disposition_str (d : AgentDisposition) : string :=
  match d with Requeued => "REQUEUED" | OrchestratorWork => "ORCHESTRATOR_WORK" end.

Inductive LedgerError :=
  | Unreadable (path detail : string) | Malformed (line : N) (detail : string)
  | NotWritable (path detail : string) | NoSuchRequest (id : string) | MissingField (field : string).

Definition ledger_error_display (e : LedgerError) : string :=
  match e with
  | Unreadable p d => "DECISION_LEDGER_UNREADABLE path=" +:+ p +:+ " detail=" +:+ d +:+
      " next_action=repair-or-name-the-path -- an unreadable ledger is NOT an empty one; appending would fork the HD- id space"
  | Malformed l d => "DECISION_LEDGER_MALFORMED line=" +:+ show_N l +:+ " detail=" +:+ d +:+
      " next_action=fix-the-row -- a skipped row is a lost decision"
  | NotWritable p d => "DECISION_LEDGER_NOT_WRITABLE path=" +:+ p +:+ " detail=" +:+ d
  | NoSuchRequest i => "DECISION_LEDGER_NO_SUCH_REQUEST id=" +:+ i +:+
      " next_action=append-the-request-first -- a decision with no question is an answer nobody can audit"
  | MissingField f => "DECISION_LEDGER_MISSING_FIELD field=" +:+ f +:+
      " next_action=supply-it -- Rule Zero: the decision is the human's, so an unattributed one is refused rather than recorded"
  end.

(** ** Rows. *)

Definition Row := Json.
Definition get_str (k : string) (v : Json) : option string := json_get k v ≫= as_str.
Definition row_id (r : Row) : option string := get_str "id" r.
Definition row_question (r : Row) : option string := get_str "question" r.
Definition is_answered (r : Row) : bool :=
  match get_str "decision" r with Some d => negb (is_empty (trim d)) | None => false end.
Definition sequence (r : Row) : option N :=
  (row_id r ≫= strip_prefix "HD-") ≫= parse_u32.

(** [u32 + 1]: the release build wraps. *)
Definition succ32 (n : N) : N := ((n + 1) mod u32_modulus)%N.

(** [{:04}]. *)
Definition zeros (k : nat) : string := Nat.iter k (String "0") EmptyString.
Definition pad4 (n : N) : string := let s := show_N n in zeros (4 - String.length s) +:+ s.

Definition list_max (l : list N) : N := foldr N.max 0%N l.

Definition next_id (rows : list Row) : string :=
  "HD-" +:+ pad4 (succ32 (list_max (omap sequence rows))).

Section Ledger.
Context `{SerdeJson, ToJson, Unicode} (parse_error : string → string) (path : string).

(** FNV-1a over the normalised question. *)
Definition question_key (q : string) : string :=
  hex16 (fnv_str fnv_offset (to_lowercase (join " " (split_whitespace q)))).

Definition existing_keys (rows : list Row) : list string :=
  btree_set (map question_key (omap row_question rows)).

Definition read_row (n : N) (line : string) : result LedgerError Row :=
  match from_str line with Some v => Ok v | None => Err (Malformed n (parse_error line)) end.

(** The rows of the file's text; an absent file is an empty ledger. *)
Definition rows_of (text : option string) : result LedgerError (list Row) :=
  parse_rows read_row 1 (lines (default EmptyString text)).

Notation LedM := (StM (option string) LedgerError).

Definition read_rows (fault : option string) : LedM (list Row) :=
  match fault with
  | Some e => stm_fail (Unreadable path e)
  | None => text ← stm_get; stm_lift (rows_of text)
  end.

Definition request_row (id : string) (r : Request) : Row :=
  jobj [("id", JString id); ("ts", JNumber (PosInt (ts r))); ("question", JString (question r));
        ("asked_by", JString (asked_by r)); ("blocking", JString (blocking r));
        ("clause", match clause r with Some c => JString (clause_str c) | None => JNull end);
        ("question_key", JString (question_key (question r))); ("options_considered", JArray []);
        ("decision", JString ""); ("decider", JString ""); ("recorded_by", JString (asked_by r));
        ("binds_stages", JArray [JString "S9"]); ("transcript_ref", JString "");
        ("review_after", JString ""); ("supersedes", JString "")].

(** The outcomes of the file operations of one call; a failed write leaves its first
    bytes. *)
Record LedgerEnv := MkLedgerEnv {
  le_read : option string; le_dir : option string; le_open : option string;
  le_write : option (string * nat) }.
Definition calm : LedgerEnv := MkLedgerEnv None None None None.

Definition append_line (env : LedgerEnv) (row : Row) : LedM unit :=
  match le_dir env with
  | Some e => stm_fail (NotWritable path e)
  | None =>
      match le_open env with
      | Some e => stm_fail (NotWritable path e)
      | None =>
          let line := to_string row +:+ lf_str in
          match le_write env with
          | Some (e, k) =>
              _ ← stm_modify (λ t, Some (default EmptyString t +:+ str_take k line));
              stm_fail (NotWritable path e)
          | None => stm_modify (λ t, Some (default EmptyString t +:+ line))
          end
      end
  end.

Definition blank (s : string) : bool := is_empty (trim s).

Definition same_question (key : string) (row : Row) : bool :=
  bool_decide (question_key <$> row_question row = Some key).

Definition append_request (env : LedgerEnv) (r : Request) : LedM AppendOutcome :=
  _ ← stm_refuse (blank (question r)) (MissingField "question");
  _ ← stm_refuse (blank (blocking r)) (MissingField "blocking");
  _ ← stm_refuse (bool_decide (clause r = None)) (MissingField "clause");
  rows ← read_rows (le_read env);
  match find_first (same_question (question_key (question r))) rows with
  | Some existing => mret (Deduped (default "HD-????" (row_id existing)))
  | None =>
      let id := next_id rows in
      _ ← append_line env (request_row id r);
      mret (Appended id)
  end.

Definition disposition_row (id : string) (q : string) (d : AgentDisposition) (reason : string) (ts : N) : Row :=
  jobj [("id", JString id); ("ts", JNumber (PosInt ts)); ("question", JString q);
        ("answers", JString id); ("decision", JString ""); ("decider", JString "");
        ("recorded_by", JString "omp-orchestrator"); ("disposition", JString (disposition_str d));
        ("disposition_reason", JString reason); ("binds_stages", JArray [JString "S9"]);
        ("transcript_ref", JString ""); ("review_after", JString ""); ("supersedes", JString "")].

Definition append_agent_disposition (env : LedgerEnv) (request_id : string) (d : AgentDisposition)
    (reason : string) (ts : N) : LedM AppendOutcome :=
  _ ← stm_refuse (blank request_id) (MissingField "request_id");
  _ ← stm_refuse (blank reason) (MissingField "disposition_reason");
  rows ← read_rows (le_read env);
  request ← stm_lift (ok_or (find_first (λ row, bool_decide (row_id row = Some request_id)
                        && bool_decide (row_question row ≠ None)) rows) (NoSuchRequest request_id));
  match find_first (λ row, bool_decide (get_str "answers" row = Some request_id)
                           && bool_decide (get_str "disposition" row ≠ None)) rows with
  | Some existing => mret (Deduped (default request_id (row_id existing)))
  | None =>
      _ ← append_line env (disposition_row request_id (default "" (row_question request)) d reason ts);
      mret (Appended request_id)
  end.

Definition backfill_disposition (q : string) : option (AgentDisposition * string) :=
  if contains q "cannot be dispatched" then Some (Requeued, "capacity:no_eligible_pane")
  else if contains q "exhausted its ack retries" then
    Some (Requeued, "transport:receipt_unproven;next_action=select-different-pane")
  else None.

Definition dispatch_backfill_candidates (rows : list Row) : list (string * AgentDisposition * string) :=
  let answered := btree_set (omap (get_str "answers") rows) in
  omap (λ row,
    id ← row_id row;
    q ← row_question row;
    if bool_decide (id ∈ answered) then None
    else dr ← backfill_disposition q; Some (id, dr.1, dr.2)) rows.

Definition decision_row (d : Decision) (q : string) (now : N) : Row :=
  jobj [("id", JString (d_id d)); ("ts", JNumber (PosInt now)); ("question", JString q);
        ("answers", JString (d_id d)); ("decision", JString (d_decision d));
        ("decider", JString (decider d)); ("recorded_by", JString (recorded_by d));
        ("transcript_ref", JString (transcript_ref d)); ("binds_stages", JArray [JString "S9"]);
        ("options_considered", JArray []); ("review_after", JString ""); ("supersedes", JString "")].

Definition record_decision (env : LedgerEnv) (d : Decision) (now : N) : LedM unit :=
  _ ← stm_refuse (blank (decider d)) (MissingField "decider");
  _ ← stm_refuse (blank (d_decision d)) (MissingField "decision");
  rows ← read_rows (le_read env);
  request ← stm_lift (ok_or (find_first (λ row, bool_decide (row_id row = Some (d_id d))) rows)
                        (NoSuchRequest (d_id d)));
  append_line env (decision_row d (default "" (row_question request)) now).
End Ledger.

(** ** Heartbeats. *)

Inductive HeartbeatAction :=
  | Placed (bead : string) | RequeueCapacity (bead reason : string)
  | RedispatchTransport (bead reason : string) | Human (r : Request)
  | AgentWork (status reason : string) | Ignored.

Definition action_label (a : HeartbeatAction) : string :=
  match a with
  | Placed _ => "DISPATCH_PLACED" | RequeueCapacity _ _ => "DISPATCH_REQUEUED"
  | RedispatchTransport _ _ => "DISPATCH_REDISPATCH" | Human _ => "HUMAN_DECISION"
  | AgentWork _ _ => "AGENT_WORK" | Ignored => "IGNORED"
  end.

(** The value after [needle], up to the next white space. *)
Definition field_after (haystack needle : string) : option string :=
  match split_once needle haystack with
  | Some (_, rest) =>
      let value := concat_chars (take_while (λ ch, negb (is_whitespace ch)) (chars rest)) in
      if is_empty value then None else Some value
  | None => None
  end.

Definition heartbeat_bead (detail : string) : option string :=
  (λ v, default v (head (split_whitespace v))) <$> field_after detail "bead=".

Definition is_capacity (detail : string) : bool :=
  contains detail "receiver agent is missing" || contains detail "next_action=claim-bead"
  || contains detail "next_action=select-matching-pane"
  || contains detail "next_action=configure-pane-agent-map".
Definition is_transport (detail : string) : bool :=
  contains detail "ACK_STAGE_RETRY_BLOCKED" || contains detail "exhausted its ack retries".
Definition is_addressed (detail : string) : bool :=
  contains detail "owner=josh" || contains detail "AWAIT_HUMAN".

Definition human_request (status detail : string) (bead : option string) (c : HumanClause) (ts : N) : Request :=
  MkRequest
    ("Human decision clause=" +:+ clause_str c +:+ " status=" +:+ status +:+ ": " +:+
       join " " (split_whitespace detail))
    "omp-orchestrator-supervisor"
    (match bead with
     | Some b => "bead:" +:+ b
     | None => match field_after detail "unwired=" with
               | Some g => "gate:" +:+ g
               | None => "status:" +:+ status
               end
     end) (Some c) ts.

Definition classify_heartbeat (status detail : string) (ts : N) : HeartbeatAction :=
  let bead := heartbeat_bead detail in
  match bead, is_capacity detail, is_transport detail with
  | Some b, true, _ => RequeueCapacity b "no_eligible_pane"
  | Some b, false, true => RedispatchTransport b "receiver_receipt_unproven"
  | _, _, _ =>
      if bool_decide (status = "DISPATCHED") then
        match bead with Some b => Placed b | None => Ignored end
      else if negb (is_addressed detail) then Ignored
      else match field_after detail "clause=" ≫= clause_parse with
           | None => AgentWork status "human_clause_missing"
           | Some c => Human (human_request status detail bead c ts)
           end
  end.

(** ** Replay. *)

Record ReplayEntry := MkReplayEntry {
  re_question : string; re_blocking : string; re_clause : HumanClause;
  occurrences : N; first_ts : N }.
Record Replay := MkReplay { rows_read : N; human_addressed : N; distinct : list ReplayEntry }.

Definition require_nonvacuous (r : Replay) : result string unit :=
  if (rows_read r =? 0)%N then
    Err ("REPLAY_VACUOUS rows_read=0 -- nothing was read, which is not the same as nothing to record. Check the ledger path and the --since window before believing human_addressed="
         +:+ show_N (human_addressed r) +:+ " distinct=" +:+ show_N (N.of_nat (length (distinct r))))
  else Ok tt.

Section Replays.
Context `{Unicode}.

(** Count the row in the entry of its question, or open one. *)
Fixpoint replay_row (key : string) (r : Request) (c : HumanClause) (ts : N) (order : list ReplayEntry)
    : list ReplayEntry :=
  match order with
  | [] => [MkReplayEntry (question r) (blocking r) c 1 ts]
  | e :: order' =>
      if bool_decide (question_key (re_question e) = key) then
        MkReplayEntry (re_question e) (re_blocking e) (re_clause e) (occurrences e + 1) (N.min (first_ts e) ts)
        :: order'
      else e :: replay_row key r c ts order'
  end.

(** [None] is the panic of [.expect]: a human action without a clause. *)
Fixpoint replay_loop (rows : list (string * string * N)) (order : list ReplayEntry) (n : N)
    : option (list ReplayEntry * N) :=
  match rows with
  | [] => Some (order, n)
  | (status, detail, ts) :: rows' =>
      match classify_heartbeat status detail ts with
      | Human r =>
          c ← clause r;
          replay_loop rows' (replay_row (question_key (question r)) r c ts order) (n + 1)%N
      | _ => replay_loop rows' order n
      end
  end.

Definition replay (rows : list (string * string * N)) : option Replay :=
  '(order, n) ← replay_loop rows [] 0%N;
  Some (MkReplay (N.of_nat (length rows)) n (sort_by_key first_ts order)).
End Replays.

Definition hd_reference (reason : string) : option string :=
  match split_once "HD-" reason with
  | Some (_, rest) =>
      let digits := concat_chars (take_while (λ ch, match ch with String c EmptyString => is_ascii_digit c | _ => false end)
                                    (chars rest)) in
      if is_empty digits then None else Some ("HD-" +:+ digits)
  | None => None
  end.

(** ** Lemmas: identifiers. *)

Lemma parse_digits_zeros k s acc : parse_digits (zeros k +:+ s) acc = parse_digits s (acc * 10 ^ N.of_nat k).
Proof.
  revert acc. induction k as [|k IH]; intros acc.
  - change (zeros 0 +:+ s) with s. f_equal. simpl. lia.
  - change (zeros (S k) +:+ s) with (String "0" (zeros k +:+ s)). cbn [parse_digits].
    change (is_ascii_digit "0") with true. cbn iota. rewrite IH. f_equal.
    change (N_of_ascii "0" - 48)%N with 0%N. rewrite Nat2N.inj_succ, N.pow_succ_r'. lia.
Qed.

Lemma parse_pad4 n : (n < u32_modulus)%N → parse_u32 (pad4 n) = Some n.
Proof.
  intros Hn. pose proof (parse_below_show u32_modulus n Hn) as Hp.
  unfold parse_u32, pad4 in *. unfold parse_below in *.
  destruct (show_N_digits n) as (Hd & _ & _). set (s := show_N n) in *. clearbody s.
  assert (∀ s, all_bytes is_ascii_digit s = true → strip_prefix "+" s = None) as Hplus.
  { intros [|c s'] Hs; [done|]. cbn [strip_prefix]. destruct (ascii_dec "+" c) as [<-|]; [discriminate Hs|done]. }
  rewrite Hplus in Hp by done.
  assert (all_bytes is_ascii_digit (zeros (4 - String.length s) +:+ s) = true) as Hz.
  { rewrite all_bytes_app, Hd, andb_true_r. generalize (4 - String.length s)%nat. clear.
    induction n as [|n IH]; [done|exact IH]. }
  rewrite Hplus by done. destruct s as [|c s]; [done|].
  destruct (zeros _ +:+ String c s) as [|d t] eqn:Ht.
  { destruct (zeros (4 - String.length (String c s))); discriminate Ht. }
  rewrite <- Ht, parse_digits_zeros, N.mul_0_l. done.
Qed.

Lemma list_max_spec l x : x ∈ l → (x <= list_max l)%N.
Proof.
  induction l as [|y l IH]; [by intros ?%not_elem_of_nil|].
  intros [->|Hx]%elem_of_cons; simpl; [lia|]. specialize (IH Hx). lia.
Qed.

Lemma sequence_request `{Unicode} id r : sequence (request_row id r) = strip_prefix "HD-" id ≫= parse_u32.
Proof. done. Qed.

(** The next identifier is past every identifier in the file. *)
Lemma next_id_sequence rows :
  (list_max (omap sequence rows) < u32_max)%N →
  strip_prefix "HD-" (next_id rows) ≫= parse_u32 = Some (list_max (omap sequence rows) + 1)%N.
Proof.
  intros Hlt. unfold next_id. rewrite strip_prefix_app. cbn [mbind option_bind].
  unfold succ32. rewrite N.mod_small by (unfold u32_modulus, u32_max in *; lia).
  apply parse_pad4. unfold u32_modulus, u32_max in *. lia.
Qed.

(** ** Lemmas: the file. *)
Section LedgerLemmas.
Context `{JsonLaws, Unicode} (parse_error : string → string) (path : string).

Notation rows_of := (rows_of parse_error).
Notation append_request := (append_request parse_error path).
Notation append_agent_disposition := (append_agent_disposition parse_error path).
Notation record_decision := (record_decision parse_error path).

(** A text of whole lines that all read, with its rows. *)
Definition reads (t : option string) (rows : list Row) : Prop :=
  ends_lf (default EmptyString t) = true ∧ rows_of t = Ok rows.

Lemma reads_append t rows row :
  reads t rows → canonical row = true →
  reads (Some (default EmptyString t +:+ (to_string row +:+ lf_str))) (app rows [row]).
Proof.
  intros [Hlf Hrows] Hc. split; [apply ends_lf_app|].
  unfold DecisionLedger.rows_of in *. cbn [default from_option id] in *. rewrite lines_app by done.
  rewrite parse_rows_app, Hrows.
  destruct (to_string_line row) as [Hnl Hnc]. destruct (to_string_text row) as [Htr Hne].
  rewrite <- (str_app_nil_r lf_str), lines_line by done. cbn [lines parse_rows].
  rewrite Htr. destruct (to_string row) eqn:Hs; [done|]. cbn [is_empty]. rewrite <- Hs.
  unfold read_row. rewrite from_to_string by done. done.
Qed.

Lemma request_row_canonical id r : canonical (request_row id r) = true.
Proof. unfold request_row. by destruct (clause r). Qed.
Lemma disposition_row_canonical id q d reason ts : canonical (disposition_row id q d reason ts) = true.
Proof. done. Qed.
Lemma decision_row_canonical d q now : canonical (decision_row d q now) = true.
Proof. done. Qed.

Lemma append_line_calm row t :
  append_line path calm row t = (Some (default EmptyString t +:+ (to_string row +:+ lf_str)), Ok tt).
Proof. done. Qed.






(** *** Runs of the ledger: any operations, any faults short of a torn write: a write that
    fails has written nothing. *)
Inductive LedgerOp :=
  | OpRequest (env : LedgerEnv) (r : Request)
  | OpDispose (env : LedgerEnv) (id : string) (d : AgentDisposition) (reason : string) (ts : N)
  | OpDecide (env : LedgerEnv) (d : Decision) (now : N).

Definition op_env (o : LedgerOp) : LedgerEnv :=
  match o with OpRequest e _ | OpDispose e _ _ _ _ | OpDecide e _ _ => e end.
Definition untorn (o : LedgerOp) : bool :=
  match le_write (op_env o) with Some (_, k) => bool_decide (k = O) | None => true end.

Definition exec (o : LedgerOp) (t : option string) : option string :=
  match o with
  | OpRequest e r => (append_request e r t).1
  | OpDispose e i d reason ts => (append_agent_disposition e i d reason ts t).1
  | OpDecide e d now => (record_decision e d now t).1
  end.
Definition run (ops : list LedgerOp) (t : option string) : option string := foldl (λ t o, exec o t) t ops.

Definition is_request (row : Row) : bool := bool_decide (get_str "answers" row = None).
Definition requests (rows : list Row) : list Row := List.filter is_request rows.
Definition request_keys (rows : list Row) : list string :=
  map question_key (omap row_question (requests rows)).

Record ledger_inv (rows : list Row) : Prop := {
  inv_keys : NoDup (request_keys rows);
  inv_ids : NoDup (omap sequence (requests rows));
  inv_numbered : ∀ q, q ∈ requests rows → is_Some (sequence q);
  inv_max : (list_max (omap sequence rows) <= N.of_nat (length rows))%N;
  inv_answers : ∀ row, row ∈ rows → ∃ q, q ∈ requests rows ∧ row_id q = row_id row }.

Lemma list_max_app l k : list_max (app l k) = N.max (list_max l) (list_max k).
Proof. induction l as [|x l IH]; simpl; [lia|]. rewrite IH. lia. Qed.

Lemma requests_app l k : requests (app l k) = app (requests l) (requests k).
Proof. apply List.filter_app. Qed.

(** An answer to a row of the file keeps the invariant. *)
Lemma inv_answer rows row row0 :
  ledger_inv rows → row0 ∈ rows → is_request row = false → row_id row = row_id row0 →
  ledger_inv (app rows [row]).
Proof.
  intros [Hk Hi Hs Hm Ha] Hin0 Hr Hid. assert (requests (app rows [row]) = requests rows) as Hreq.
  { rewrite requests_app. unfold requests at 2. cbn. rewrite Hr. by rewrite app_nil_r. }
  split; [unfold request_keys; by rewrite Hreq|by rewrite Hreq|by rewrite Hreq| |].
  - rewrite omap_app, list_max_app, length_app. cbn [omap list_omap length].
    assert (sequence row = sequence row0) as -> by (unfold sequence; by rewrite Hid).
    destruct (sequence row0) as [m|] eqn:Hseq; cbn; [|lia].
    assert (m <= list_max (omap sequence rows))%N by (apply list_max_spec, list_elem_of_omap; eauto). lia.
  - intros row' [Hin|Hin]%elem_of_app; rewrite Hreq; [by apply Ha|].
    apply list_elem_of_singleton in Hin as ->. destruct (Ha row0 Hin0) as (q & Hq & Hqi).
    exists q. split; congruence.
Qed.

(** A request whose question no row holds keeps it. *)
Lemma inv_request rows r :
  ledger_inv rows → (list_max (omap sequence rows) < u32_max)%N →
  find_first (same_question (question_key (question r))) rows = None →
  ledger_inv (app rows [request_row (next_id rows) r]).
Proof.
  intros [Hk Hi Hnum Hm Ha] Hlt Hf. set (row := request_row (next_id rows) r).
  assert (requests (app rows [row]) = app (requests rows) [row]) as Hreq by (by rewrite requests_app).
  assert (sequence row = Some (list_max (omap sequence rows) + 1)%N) as Hs.
  { unfold row. rewrite sequence_request. by apply next_id_sequence. }
  assert (omap sequence [row] = [list_max (omap sequence rows) + 1]%N) as Hs1.
  { change (omap sequence [row]) with (match sequence row with Some m => [m] | None => [] end).
    by rewrite Hs. }
  split.
  - unfold request_keys. rewrite Hreq, omap_app, map_app. apply NoDup_app.
    split_and!; [done| |apply NoDup_singleton]. intros k Hk' Hin.
    change (map question_key (omap row_question [row])) with [question_key (question r)] in Hin.
    apply list_elem_of_singleton in Hin as ->. apply find_first_None in Hf.
    change (map question_key (omap row_question (requests rows)))
      with (question_key <$> omap row_question (requests rows)) in Hk'.
    apply list_elem_of_fmap in Hk' as (q & Hq & Hin). apply list_elem_of_omap in Hin as (row' & Hr' & Hq').
    apply list_elem_of_In, filter_In in Hr' as [Hr' _]. apply list_elem_of_In in Hr'.
    rewrite Forall_forall in Hf. specialize (Hf row' Hr'). unfold same_question in Hf.
    apply bool_decide_eq_false in Hf. apply Hf. by rewrite Hq', Hq.
  - rewrite Hreq, omap_app. apply NoDup_app. split_and!; [done| |rewrite Hs1; apply NoDup_singleton].
    intros m Hm' Hin. rewrite Hs1 in Hin. apply list_elem_of_singleton in Hin as ->.
    apply list_elem_of_omap in Hm' as (row' & Hr' & Hq').
    apply list_elem_of_In, filter_In in Hr' as [Hr' _]. apply list_elem_of_In in Hr'.
    assert (list_max (omap sequence rows) + 1 <= list_max (omap sequence rows))%N; [|lia].
    apply list_max_spec, list_elem_of_omap. eauto.
  - intros q. rewrite Hreq. intros [Hq|Hq]%elem_of_app; [by apply Hnum|].
    apply list_elem_of_singleton in Hq as ->. by rewrite Hs.
  - rewrite omap_app, list_max_app, length_app, Hs1. cbn [list_max foldr length]. lia.
  - intros row' [Hin|Hin]%elem_of_app; rewrite Hreq.
    + destruct (Ha row' Hin) as (q & Hq & Hqi). exists q. split; [|done]. apply elem_of_app. by left.
    + apply list_elem_of_singleton in Hin as ->. exists row. split; [|done].
      apply elem_of_app. right. apply list_elem_of_here.
Qed.

Lemma bind_fst {S E A B} (m : StM S E A) (f : A → StM S E B) s :
  (m ≫= f) s = match m s with (s', Ok a) => f a s' | (s', Err e) => (s', Err e) end.
Proof. done. Qed.

(** What one operation short of a torn write does to a readable file: nothing, or one
    row more. *)
Lemma append_line_cases env row t :
  match le_write env with Some (_, k) => bool_decide (k = O) | None => true end = true →
  (append_line path env row t).1 = t ∨ (append_line path env row t).1 = Some (default EmptyString t) ∨
  (append_line path env row t).1 = Some (default EmptyString t +:+ (to_string row +:+ lf_str)).
Proof.
  intros Hw. unfold append_line. destruct (le_dir env), (le_open env), (le_write env) as [[e k]|]; cbn; auto.
  apply bool_decide_eq_true in Hw as ->. right. left. rewrite bind_fst. unfold stm_modify. cbn [stm_fail fst].
  assert (∀ s, str_take 0 s = EmptyString) as -> by (by intros []). by rewrite str_app_nil_r.
Qed.

Lemma append_then env row t {A} (a : A) :
  ((_ ← append_line path env row; mret a) t).1 = (append_line path env row t).1.
Proof. rewrite bind_fst. by destruct (append_line path env row t) as [t' [[]|e]]. Qed.

Lemma read_rows_calm t : read_rows parse_error path None t = (t, rows_of t).
Proof. done. Qed.

(** The next check of a call: the goal is settled by [H] where it refuses. *)
Ltac next_check H :=
  rewrite bind_fst;
  lazymatch goal with
  | |- context [(if ?b then mret () else stm_fail _) _] => destruct b; [cbn [mret stm_ret]|exact H]
  end.

Lemma ledger_exec_inv o t rows :
  untorn o = true → reads t rows → ledger_inv rows → (list_max (omap sequence rows) < u32_max)%N →
  ∃ rows', reads (exec o t) rows' ∧ ledger_inv rows' ∧ (length rows' <= length rows + 1)%nat.
Proof.
  intros Hu [Hlf Hrows] Hinv Hmax. unfold untorn in Hu.
  assert (∀ row, canonical row = true → ledger_inv (app rows [row]) →
    ∃ rows', reads (append_line path (op_env o) row t).1 rows' ∧ ledger_inv rows' ∧ (length rows' <= length rows + 1)%nat)
    as Happ.
  { intros row Hc Hi. destruct (append_line_cases (op_env o) row t Hu) as [->|[-> | ->]].
    - exists rows. split_and!; [done..|lia].
    - exists rows. split_and!; [done..|lia].
    - exists (app rows [row]). split_and!; [by apply reads_append|done|]. by rewrite length_app. }
  assert (∃ rows', reads t rows' ∧ ledger_inv rows' ∧ (length rows' <= length rows + 1)%nat) as Hsame.
  { exists rows. split_and!; [done..|lia]. }
  destruct o as [env r|env id d reason ts|env d now]; cbn [exec op_env] in *.
  - unfold DecisionLedger.append_request, stm_refuse, stm_require.
    do 3 next_check Hsame.
    rewrite bind_fst. destruct (le_read env); [exact Hsame|]. rewrite read_rows_calm, Hrows. destruct (find_first _ rows) eqn:Hf; [exact Hsame|].
    rewrite append_then. apply Happ; [apply request_row_canonical|by apply inv_request].
  - unfold DecisionLedger.append_agent_disposition, stm_refuse, stm_require.
    do 2 next_check Hsame.
    rewrite bind_fst. destruct (le_read env); [exact Hsame|]. rewrite read_rows_calm, Hrows. destruct (find_first _ rows) as [row0|] eqn:Hf; [|exact Hsame]. rewrite bind_fst. cbn [ok_or stm_lift].
    match goal with |- context [find_first ?p rows] => destruct (find_first p rows) end; [exact Hsame|].
    rewrite append_then. apply Happ; [done|].
    apply find_first_Some in Hf as (l1 & l2 & Heq & Hp & _). apply andb_true_iff in Hp as [Hp _].
    apply bool_decide_eq_true in Hp. apply (inv_answer rows _ row0); [done| |done|by rewrite Hp].
    rewrite Heq. apply elem_of_app. right. apply list_elem_of_here.
  - unfold DecisionLedger.record_decision, stm_refuse, stm_require.
    do 2 next_check Hsame.
    rewrite bind_fst. destruct (le_read env); [exact Hsame|]. rewrite read_rows_calm, Hrows. destruct (find_first _ rows) as [row0|] eqn:Hf; [|exact Hsame]. rewrite bind_fst. cbn [ok_or stm_lift].
    apply Happ; [done|].
    apply find_first_Some in Hf as (l1 & l2 & Heq & Hp & _).
    apply bool_decide_eq_true in Hp. apply (inv_answer rows _ row0); [done| |done|by rewrite Hp].
    rewrite Heq. apply elem_of_app. right. apply list_elem_of_here.
Qed.

Lemma ledger_run_inv ops : ∀ t rows,
  Forall (λ o, untorn o = true) ops → reads t rows → ledger_inv rows →
  (N.of_nat (length rows + length ops) < u32_max)%N →
  ∃ rows', reads (run ops t) rows' ∧ ledger_inv rows'.
Proof.
  induction ops as [|o ops IH]; intros t rows Hu Hr Hi Hlen; [by exists rows|].
  inversion Hu as [|? ? Ho Hops]; subst. cbn [length] in Hlen.
  destruct (ledger_exec_inv o t rows Ho Hr Hi) as (rows1 & Hr1 & Hi1 & Hl1).
  { pose proof (inv_max rows Hi). lia. }
  apply (IH (exec o t) rows1); [done..|]. lia.
Qed.

Lemma ids_distinct l :
  (∀ q, q ∈ l → is_Some (sequence q)) → NoDup (omap sequence l) → NoDup (map row_id l).
Proof.
  induction l as [|x l IH]; intros Hs Hd; [constructor|].
  destruct (Hs x) as [n Hn]; [constructor|]. cbn in Hd. rewrite Hn in Hd. apply NoDup_cons in Hd as [Hx Hd].
  cbn [map]. apply NoDup_cons. split; [|apply IH; [intros q Hq; apply Hs; by constructor|done]].
  intros (q & Hid & Hq)%list_elem_of_fmap. apply Hx, list_elem_of_omap. exists q. split; [done|].
  unfold sequence in *. by rewrite <-Hid.
Qed.

(** C39: The ledger stays auditable.  From an empty ledger, any run, of fewer calls than the
    largest number a row can have, of requests,
    dispositions and decisions, with any faults of the files as long as a write that fails
    has written nothing, leaves a readable file in which no question is asked by two
    requests, every request is numbered, no two requests share an identifier or a number,
    and every row carries the identifier of a request in the file: no answer without its
    question. *)
Theorem ledger_stays_auditable ops :
  Forall (λ o, untorn o = true) ops → (N.of_nat (length ops) < u32_max)%N →
  ∃ rows, reads (run ops None) rows ∧ NoDup (request_keys rows) ∧
    (∀ q, q ∈ requests rows → is_Some (sequence q)) ∧
    NoDup (map row_id (requests rows)) ∧ NoDup (omap sequence (requests rows)) ∧
    ∀ row, row ∈ rows → ∃ q, q ∈ requests rows ∧ row_id q = row_id row.
Proof.
  intros Hu Hlen. destruct (ledger_run_inv ops None [] Hu) as (rows & Hr & [Hk Hi Hs _ Ha]).
  - done.
  - split; [constructor|constructor| |done|]; by intros ? ?%not_elem_of_nil.
  - done.
  - exists rows. split_and!; try done. by apply ids_distinct.
Qed.
End LedgerLemmas.

(** ** The classifier. *)

(** A heartbeat becomes a question for a human exactly when it names a human clause
    and addresses a human, is no placement report, and is not the machine's own failure:
    a capacity or transport failure of a named bead never does. *)
Theorem classify_human_iff status detail ts r :
  classify_heartbeat status detail ts = Human r ↔
  status ≠ "DISPATCHED" ∧ is_addressed detail = true ∧
  (heartbeat_bead detail ≠ None → is_capacity detail = false ∧ is_transport detail = false) ∧
  ∃ c, field_after detail "clause=" ≫= clause_parse = Some c ∧
    r = human_request status detail (heartbeat_bead detail) c ts.
Proof.
  unfold classify_heartbeat.
  destruct (heartbeat_bead detail) as [b|].
  - destruct (is_capacity detail); [naive_solver|]. destruct (is_transport detail); [naive_solver|].
    case_bool_decide; [naive_solver|]. destruct (is_addressed detail); cbn [negb]; [|naive_solver].
    destruct (field_after detail "clause=" ≫= clause_parse); naive_solver.
  - case_bool_decide; [naive_solver|]. destruct (is_addressed detail); cbn [negb]; [|naive_solver].
    destruct (field_after detail "clause=" ≫= clause_parse); naive_solver.
Qed.

(** A named bead's capacity failure goes back to the queue, whoever it is addressed to. *)
Lemma capacity_requeues status detail ts b :
  heartbeat_bead detail = Some b → is_capacity detail = true →
  classify_heartbeat status detail ts = RequeueCapacity b "no_eligible_pane".
Proof. unfold classify_heartbeat. by intros -> ->. Qed.

(** ** Replay: the arithmetic of the entries. *)
Section ReplayLemmas.
Context `{Unicode}.

Definition total (l : list ReplayEntry) : N := foldr (λ e n, (occurrences e + n)%N) 0%N l.
Definition keys (l : list ReplayEntry) : list string := map (λ e, question_key (re_question e)) l.
Definition is_human (row : string * string * N) : bool :=
  match classify_heartbeat row.1.1 row.1.2 row.2 with Human _ => true | _ => false end.

Lemma replay_row_spec r c ts l :
  let l' := replay_row (question_key (question r)) r c ts l in
  total l' = (total l + 1)%N ∧ (NoDup (keys l) → NoDup (keys l')) ∧
  (∀ k, k ∈ keys l' ↔ k ∈ keys l ∨ k = question_key (question r)).
Proof.
  cbn zeta. induction l as [|e l (IHt & IHn & IHk)]; cbn [replay_row].
  - split_and!; [done|intros _; apply NoDup_singleton|]. intros k. cbn.
    rewrite elem_of_cons, elem_of_nil. tauto.
  - case_bool_decide as He.
    + split_and!; [cbn; lia|done|]. intros k. unfold keys. cbn [map re_question].
      rewrite elem_of_cons, He. tauto.
    + split_and!; [unfold total in *; cbn [foldr]; lia| |].
      * unfold keys in *. cbn [map]. rewrite !NoDup_cons. intros [Hn Hl]. split; [|by apply IHn].
        rewrite IHk. tauto.
      * intros k. unfold keys in *. cbn [map]. rewrite !elem_of_cons, IHk. tauto.
Qed.

Lemma human_has_clause status detail ts r :
  classify_heartbeat status detail ts = Human r → ∃ c, clause r = Some c.
Proof. intros (_ & _ & _ & c & _ & ->)%classify_human_iff. by exists c. Qed.

Lemma replay_loop_spec rows : ∀ l n,
  NoDup (keys l) → total l = n →
  ∃ l' m, replay_loop rows l n = Some (l', m) ∧ m = (n + N.of_nat (length (List.filter is_human rows)))%N ∧
    NoDup (keys l') ∧ total l' = m.
Proof.
  induction rows as [|[[status detail] ts] rows IH]; intros l n Hn Ht; cbn [replay_loop].
  { exists l, n. cbn. rewrite N.add_0_r. auto. }
  cbn [List.filter]. unfold is_human at 1. cbn [fst snd].
  destruct (classify_heartbeat status detail ts) eqn:Hc; try by apply IH.
  destruct (human_has_clause status detail ts r Hc) as [c Hcl]. rewrite Hcl. cbn [mbind option_bind].
  destruct (replay_row_spec r c ts l) as (Hrt & Hrn & _).
  destruct (IH (replay_row (question_key (question r)) r c ts l) (n + 1)%N) as (l' & m & Hr & Hm & Hl);
    [by apply Hrn|by rewrite Hrt, Ht|].
  exists l', m. split; [done|]. split; [|done]. cbn [length]. lia.
Qed.

Lemma total_perm l k : l ≡ₚ k → total l = total k.
Proof.
  unfold total. induction 1 as [|x l k _ IH|x y l|l k m _ IH1 _ IH2]; cbn [foldr]; [done|lia|lia|congruence].
Qed.

(** A replay never panics, and its arithmetic is honest: the occurrences of the
    distinct questions add up to the rows that address a human, no question has two
    entries, and the entries are sorted by their first occurrence. *)
Theorem replay_counts rows :
  ∃ r, replay rows = Some r ∧ rows_read r = N.of_nat (length rows) ∧
    human_addressed r = N.of_nat (length (List.filter is_human rows)) ∧
    total (distinct r) = human_addressed r ∧ NoDup (keys (distinct r)) ∧
    StronglySorted (λ a b, (first_ts a <= first_ts b)%N) (distinct r).
Proof.
  destruct (replay_loop_spec rows [] 0 (NoDup_nil_2) eq_refl) as (l & m & Hr & Hm & Hn & Ht).
  unfold replay. rewrite Hr. cbn [mbind option_bind]. eexists. split; [done|].
  cbn [rows_read human_addressed distinct].
  pose proof (sort_by_key_Permutation first_ts l) as Hp.
  split_and!; [done|by rewrite Hm| | |].
  - rewrite <- Ht. by apply total_perm.
  - unfold keys. by rewrite Hp.
  - apply sort_by_key_sorted.
Qed.
End ReplayLemmas.

(** ** Examples. *)

Definition ex_request : Request :=
  MkRequest "Human decision clause=taste status=GATE_UNWIRED: which name?" "omp-orchestrator-supervisor"
    "gate:no-shell-gate" (Some Taste) 1000.

#[local] Existing Instance bits_from_json.
#[local] Existing Instance bits_to_json.
#[local] Existing Instance bits_json_laws.
#[local] Existing Instance ascii_only.

Definition no_error : string → string := λ _, "expected value".


Definition ex_ledger_ops : list LedgerOp :=
  [OpRequest calm ex_request; OpRequest calm ex_request;
   OpDecide calm (MkDecision "HD-0001" "keep it" "Josh" "SnowyCanyon" "bead") 1100;
   OpDispose (MkLedgerEnv None (Some "full") None None) "HD-0001" Requeued "capacity" 1200;
   OpDispose (MkLedgerEnv None None None (Some ("full", O))) "HD-0001" Requeued "capacity" 1300].

Example ledger_stays_auditable_witness :
  Forall (λ o, untorn o = true) ex_ledger_ops ∧
  ∃ rows, reads no_error (run no_error "d" ex_ledger_ops None) rows ∧ NoDup (request_keys rows) ∧
    (∀ q, q ∈ requests rows → is_Some (sequence q)) ∧
    NoDup (map row_id (requests rows)) ∧ NoDup (omap sequence (requests rows)) ∧
    ∀ row, row ∈ rows → ∃ q, q ∈ requests rows ∧ row_id q = row_id row.
Proof.
  split; [repeat constructor|].
  apply (ledger_stays_auditable no_error "d" ex_ledger_ops); [repeat constructor|done].
Defined.

(** A question that has been answered is still in the file, so it is never asked again,
    although the operation promises to look for an open request only. *)
Example answered_question_not_reopened :
  let t := run no_error "d" ex_ledger_ops None in
  append_request no_error "d" calm ex_request t = (t, Ok (Deduped "HD-0001")).
Proof. by vm_compute. Qed.
