(* ===== verification/Pending.v ===== *)
(** * The durable dispatch fence: pending-dispatch markers, one per pane

    Model of the marker half of omp-orchestrator/src/resident.rs: the intent written
    before a packet is sent, its acknowledgement, the scan that classifies every marker
    at the start of a cycle and retires what may be retired, the heartbeat ledger the
    cycle writes, and the cooldown and selection of the bead that is dispatched next.

    The marker directory is a map from file names to texts, the heartbeat ledger a text,
    the decision ledger ([DecisionLedger]) a file.  The order in which the directory is
    read, the clock readings and the outcome of every file operation are arguments. *)

From stdpp Require Import base numbers list option strings gmap sorting.
From Stdlib Require Import NArith Ascii Lia.
From S2P Require Import Prelude RustStr Json DecisionLedger AckStage.

Definition PENDING_DISPATCH_MAX_AGE_SECS : N := 600.

(** ** Classification of one marker. *)

Inductive PendingDispatch :=
  | PNone | PLive (detail : string) (age_secs : N) | PAcknowledged (detail : string)
  | PExpired (detail : string) (age_secs : N) | PUndatable (detail reason : string).

Definition pending_label (p : PendingDispatch) : string :=
  match p with
  | PNone => "NO_PENDING_DISPATCH" | PLive _ _ => "PENDING_DISPATCH_LIVE"
  | PAcknowledged _ => "DISPATCH_INTENT_ACKNOWLEDGED" | PExpired _ _ => "DISPATCH_INTENT_EXPIRED"
  | PUndatable _ _ => "PENDING_DISPATCH_UNDATABLE"
  end.

Definition intent_clear_reason (error : string) : option string :=
  if contains error "RECEIVER_OBSERVATION_MISSING" then Some "RECEIVER_OBSERVATION_MISSING"
  else if contains error "ACK_STAGE_RETRY_BLOCKED" then None
  else Some "DISPATCH_FAILED_BEFORE_RECEIPT".

Definition dispatch_status_word (error : string) : string :=
  if contains error "ACK_STAGE_RETRY_BLOCKED" && contains error "owes_human=false"
  then "DISPATCH_UNCONFIRMED_ACK_PENDING"
  else if contains error "ACK_CENSUS_EMPTY" then "DISPATCH_UNCONFIRMED_ACK_PENDING"
  else "DISPATCH_FAILED".

(** The value after [key], up to a space, a quote or a comma. *)
Definition value_end (ch : string) : bool :=
  bool_decide (ch = " ") || bool_decide (ch = dquote) || bool_decide (ch = ",").
Definition field_after (line key : string) : option string :=
  match split_once key line with
  | Some (_, rest) =>
      let value := concat_chars (take_while (λ ch, negb (value_end ch)) (chars rest)) in
      if is_empty value then None else Some value
  | None => None
  end.

Section Pending.
Context `{SerdeJson, ToJson}.

Definition marker_u64 (k : string) (detail : string) : option N :=
  (from_str (trim detail) ≫= json_get k) ≫= as_u64.
Definition marker_str (k : string) (detail : string) : option string :=
  (from_str (trim detail) ≫= json_get k) ≫= as_str.

Definition bead_from_marker_detail (detail : string) : string := default "" (marker_str "bead" detail).
Definition issued_at_from_marker_detail (detail : string) : option N := marker_u64 "issued_at" detail.

Definition classify_pending_dispatch (text : string) (now : N) : PendingDispatch :=
  let trimmed := trim text in
  if is_empty trimmed then PUndatable "marker_exists_but_is_empty" "INTENT_EMPTY"
  else match (from_str trimmed ≫= json_get "acknowledged_at") ≫= as_u64 with
       | Some _ => PAcknowledged trimmed
       | None =>
           match (from_str trimmed ≫= json_get "issued_at") ≫= as_u64 with
           | None => PUndatable trimmed "INTENT_ISSUED_AT_MISSING"
           | Some issued_at =>
               if (now <? issued_at)%N then PUndatable trimmed "INTENT_ISSUED_IN_FUTURE"
               else let age := (now - issued_at)%N in
                    if (PENDING_DISPATCH_MAX_AGE_SECS <? age)%N then PExpired trimmed age
                    else PLive trimmed age
           end
       end.

Definition late_ack_clears_marker (r : AckReadback) : bool :=
  match match_verdict_for r (rb_bead_id r) (rb_pane_id r) with Matched _ => true | _ => false end.

(** ** The supervisor's files. *)

Record Config := MkConfig {
  cf_session : string; cf_repo : string; cf_build_id : string; cf_run_id : string; cf_pid : N;
  (** the marker's base name and the directory it is in, displayed; the heartbeat file *)
  cf_base : string; cf_dir : string; cf_heartbeat : string;
  (** the error text of an exclusive create on an existing file *)
  cf_eexist : string }.

Record World := MkWorld {
  markers : gmap string string; heartbeat : string; decisions : option string }.
Definition set_markers (g : gmap string string → gmap string string) (w : World) : World :=
  MkWorld (g (markers w)) (heartbeat w) (decisions w).

Notation CM := (StM World string).

(** One heartbeat: its clock reading, and the outcomes of its file operations; a write
    or sync that failed leaves the first bytes. *)
Record HbEnv := MkHbEnv {
  hb_ts : N; hb_dir : option string; hb_open : option string; hb_write : option (string * nat);
  hb_ledger : LedgerEnv }.

Context `{Unicode} (parse_error : string → string) (cfg : Config).

Definition heartbeat_row (ts tick : N) (status detail : string) : Json :=
  jobj [("ts_unix", JNumber (PosInt ts)); ("event", JString "supervisor_heartbeat");
        ("build_id", JString (cf_build_id cfg)); ("run_id", JString (cf_run_id cfg));
        ("status", JString status); ("tick", JNumber (PosInt tick));
        ("pid", JNumber (PosInt (cf_pid cfg))); ("repo", JString (cf_repo cfg));
        ("session", JString (cf_session cfg)); ("detail", JString detail);
        ("dispatch_action", JString (DecisionLedger.action_label (classify_heartbeat status detail ts)))].

(** The human half: an addressed request is appended to the decision ledger, and the
    outcome of that is only reported. *)
Definition record_action (env : LedgerEnv) (a : HeartbeatAction) (d : option string) : option string :=
  match a with
  | Human r => (append_request parse_error "docs/decisions.jsonl" env r d).1
  | _ => d
  end.

Definition write_heartbeat (env : HbEnv) (tick : N) (status detail : string) : CM unit :=
  let fail e := stm_fail ("HEARTBEAT_WRITE_ERROR path=" +:+ cf_heartbeat cfg +:+ e) in
  match hb_dir env, hb_open env with
  | Some e, _ => fail (" create_parent: " +:+ e)
  | None, Some e => fail (" open: " +:+ e)
  | None, None =>
      let line := to_string (heartbeat_row (hb_ts env) tick status detail) +:+ lf_str in
      match hb_write env with
      | Some (e, k) =>
          _ ← stm_modify (λ w, MkWorld (markers w) (heartbeat w +:+ str_take k line) (decisions w));
          fail (" write: " +:+ e)
      | None =>
          stm_modify (λ w, MkWorld (markers w) (heartbeat w +:+ line)
            (record_action (hb_ledger env) (classify_heartbeat status detail (hb_ts env)) (decisions w)))
      end
  end.

(** ** One marker file per pane. *)

Definition pane_slug (pane : string) : string :=
  concat_chars (List.filter (λ ch, match ch with String c EmptyString => is_ascii_alnum c | _ => false end)
                  (chars pane)).
Definition pending_dispatch_path (pane : string) : string :=
  if is_empty (pane_slug pane) then cf_base cfg else cf_base cfg +:+ "." +:+ pane_slug pane.
Definition display_path (name : string) : string := cf_dir cfg +:+ "/" +:+ name.

Definition intent_row (pane bead : string) (now : N) : Json :=
  jobj [("event", JString "dispatch_intent"); ("build_id", JString (cf_build_id cfg));
        ("run_id", JString (cf_run_id cfg)); ("pid", JNumber (PosInt (cf_pid cfg)));
        ("repo", JString (cf_repo cfg)); ("session", JString (cf_session cfg));
        ("pane", JString pane); ("bead", JString bead); ("issued_at", JNumber (PosInt now))].

Record IntentEnv := MkIntentEnv {
  in_now : N; in_dir : option string; in_open : option string; in_write : option (string * nat) }.

(** [create_new]: the file must not exist; it is created empty before it is written. *)
Definition create_new (name : string) (fault : option string) (refused : string → string) : CM unit :=
  match fault with
  | Some e => stm_fail (refused e)
  | None =>
      w ← stm_get;
      _ ← stm_refuse (bool_decide (is_Some (markers w !! name))) (refused (cf_eexist cfg));
      stm_modify (set_markers (<[name := EmptyString]>))
  end.

Definition write_all (name text : string) (fault : option (string * nat)) (failed : string → string) : CM unit :=
  match fault with
  | Some (e, k) => _ ← stm_modify (set_markers (<[name := str_take k text]>)); stm_fail (failed e)
  | None => stm_modify (set_markers (<[name := text]>))
  end.

Definition write_dispatch_intent (env : IntentEnv) (pane bead : string) : CM unit :=
  let path := pending_dispatch_path pane in
  _ ← match in_dir env with
      | Some e => stm_fail ("DISPATCH_BLOCKED pending marker parent path=" +:+ cf_dir cfg +:+ " error=" +:+ e)
      | None => mret tt
      end;
  _ ← create_new path (in_open env) (λ e, "DISPATCH_RETRY_BLOCKED pane=" +:+ pane +:+ " bead=" +:+ bead
         +:+ " marker=" +:+ display_path path +:+ " error=" +:+ e);
  write_all path (to_string (intent_row pane bead (in_now env)) +:+ lf_str) (in_write env)
    (λ e, "DISPATCH_BLOCKED pending marker write path=" +:+ display_path path +:+ " error=" +:+ e).

Record AckEnv := MkAckEnv {
  ac_now : N; ac_read : option string; ac_temp : option string; ac_write : option (string * nat);
  ac_rename : option string }.

Definition ack_temp (path : string) : string :=
  with_extension ("ack-" +:+ show_N (cf_pid cfg) +:+ ".tmp") path.

Definition acknowledge_dispatch_intent (env : AckEnv) (pane : string) : CM unit :=
  let path := pending_dispatch_path pane in
  let temp := ack_temp path in
  w ← stm_get;
  text ← stm_lift (match ac_read env, markers w !! path with
                   | None, Some t => Ok t
                   | e, _ => Err ("DISPATCH_ACKNOWLEDGE_READ_FAILED pane=" +:+ pane +:+ " path="
                       +:+ display_path path +:+ " error=" +:+ default "No such file or directory (os error 2)" e)
                   end);
  value ← stm_lift (ok_or (from_str text) ("DISPATCH_ACKNOWLEDGE_MALFORMED pane=" +:+ pane +:+ " error=" +:+ parse_error text));
  fields ← stm_lift (ok_or (as_object value) ("DISPATCH_ACKNOWLEDGE_NOT_OBJECT pane=" +:+ pane));
  let row := JObject (bt_insert "acknowledged_at" (JNumber (PosInt (ac_now env))) fields) in
  _ ← create_new temp (ac_temp env) (λ e, "DISPATCH_ACKNOWLEDGE_TEMP_FAILED path=" +:+ display_path temp +:+ " error=" +:+ e);
  _ ← write_all temp (to_string row +:+ lf_str) (ac_write env)
        (λ e, "DISPATCH_ACKNOWLEDGE_WRITE_FAILED path=" +:+ display_path temp +:+ " error=" +:+ e);
  match ac_rename env with
  | Some e => stm_fail ("DISPATCH_ACKNOWLEDGE_RENAME_FAILED pane=" +:+ pane +:+ " error=" +:+ e)
  | None => stm_modify (set_markers (λ m, <[path := to_string row +:+ lf_str]> (delete temp m)))
  end.

Definition record_successful_dispatch (aenv : AckEnv) (henv : HbEnv) (tick : N) (pane bead : string) : CM unit :=
  _ ← acknowledge_dispatch_intent aenv pane;
  write_heartbeat henv tick "DISPATCH_INTENT_ACKNOWLEDGED"
    ("pane=" +:+ pane +:+ " bead=" +:+ bead +:+ " reason=VERDICT_POSTED owner=loop next_action=clear-next-cycle").

(** Removing a file that is gone is no error. *)
Definition clear_dispatch_marker (fault : option string) (name pane : string) : CM unit :=
  match fault with
  | Some e => stm_fail ("DISPATCH_CONFIRMED_BUT_MARKER_CLEAR_FAILED pane=" +:+ pane +:+ " path="
                +:+ display_path name +:+ " error=" +:+ e)
  | None => stm_modify (set_markers (delete name))
  end.
Definition clear_dispatch_intent (fault : option string) (pane : string) : CM unit :=
  clear_dispatch_marker fault (pending_dispatch_path pane) pane.

(** ** The scan: every marker on disk, classified, with the pane it names. *)

(** A directory entry: its name, the fault of reading it, and the clock reading after. *)
Record Entry := MkEntry { en_name : string; en_fault : option string; en_now : N }.
Inductive DirRead := DirMissing | DirFault (e : string) | DirEntries (l : list (result string Entry)).

Definition is_marker_name (name : string) : bool :=
  (bool_decide (name = cf_base cfg) || starts_with name (cf_base cfg +:+ "."))
  && negb (contains name "quarantined").

Definition Scanned : Type := string * string * PendingDispatch.

Definition scan_row (name text : string) (now : N) : Scanned :=
  (default "" (marker_str "pane" text), name, classify_pending_dispatch text now).

Fixpoint scan_entries (m : gmap string string) (l : list (result string Entry)) : result string (list Scanned) :=
  match l with
  | [] => Ok []
  | Err e :: _ => Err ("DISPATCH_BLOCKED pending marker entry unreadable dir=" +:+ cf_dir cfg +:+ " error=" +:+ e)
  | Ok en :: l =>
      if negb (is_marker_name (en_name en)) then scan_entries m l
      else match en_fault en, m !! en_name en with
           | Some e, _ => Err ("DISPATCH_BLOCKED pending marker unreadable path="
                            +:+ display_path (en_name en) +:+ " error=" +:+ e)
           | None, None => scan_entries m l
           | None, Some text => found ← scan_entries m l; Ok (scan_row (en_name en) text (en_now en) :: found)
           end
  end.

Definition read_pending_dispatches (dir : DirRead) (m : gmap string string) : result string (list Scanned) :=
  match dir with
  | DirMissing => Ok []
  | DirFault e => Err ("DISPATCH_BLOCKED pending marker dir unreadable path=" +:+ cf_dir cfg +:+ " error=" +:+ e)
  | DirEntries l => scan_entries m l
  end.

(** ** Retiring the markers that may be retired. *)

Record Cleared := MkCleared { cl_pane : string; cl_bead : string; cl_why : string }.
Record MarkerCycleOutcome := MkCycle { blocked_panes : list string; cleared : list Cleared }.
Inductive MarkerFence :=
  | Proceed (o : MarkerCycleOutcome) | StopUndatable (detail reason marker_path : string).

(** What happens to one marker. *)
Inductive RowResult := RowNone | RowCleared (c : Cleared) | RowBlocked (pane : string)
  | RowStop (detail reason path : string).

Record RowEnv := MkRowEnv { re_clear : option string; re_hb : HbEnv }.

(** The ack readback of a bead and a pane, given the time the intent was issued. *)
Definition AckOracle : Type := string → string → N → option AckReadback.

Definition late_ack (ack : AckOracle) (pane detail : string) : bool :=
  match issued_at_from_marker_detail detail with
  | Some issued_at =>
      match ack (bead_from_marker_detail detail) pane issued_at with
      | Some readback => late_ack_clears_marker (with_dispatch_issued_at readback issued_at)
      | None => false
      end
  | None => false
  end.

Definition expiry_detail (pane path detail : string) (age : N) : string :=
  "age_secs=" +:+ show_N age +:+ " max_age_secs=" +:+ show_N PENDING_DISPATCH_MAX_AGE_SECS
  +:+ " pane=" +:+ pane +:+ " bead=" +:+ bead_from_marker_detail detail +:+ " marker=" +:+ display_path path
  +:+ " reason=DISPATCH_INTENT_EXPIRED owner=loop next_action=continue detail=" +:+ detail.

(** Remove the marker, say so, and count it. *)
Definition retire (env : RowEnv) (tick : N) (pane path bead status detail why : string) : CM RowResult :=
  _ ← clear_dispatch_marker (re_clear env) path pane;
  _ ← write_heartbeat (re_hb env) tick status detail;
  mret (RowCleared (MkCleared pane bead why)).

Definition retire_late (env : RowEnv) (tick : N) (pane path detail : string) (age : N) : CM RowResult :=
  let bead := bead_from_marker_detail detail in
  retire env tick pane path bead "ACK_RECEIVED_LATE"
    ("pane=" +:+ pane +:+ " bead=" +:+ bead +:+ " age_secs=" +:+ show_N age +:+ " owner=loop next_action=continue")
    "ACK_RECEIVED_LATE".

Definition process_row (ack : AckOracle) (env : RowEnv) (tick : N) (row : Scanned) : CM RowResult :=
  let '(pane, path, verdict) := row in
  match verdict with
  | PNone => mret RowNone
  | PAcknowledged detail =>
      let bead := bead_from_marker_detail detail in
      retire env tick pane path bead "DISPATCH_INTENT_CLEARED"
        ("pane=" +:+ pane +:+ " bead=" +:+ bead
         +:+ " reason=ACKNOWLEDGED owner=loop next_action=continue detail=" +:+ detail) "ACKNOWLEDGED"
  | PLive detail age =>
      if late_ack ack pane detail then retire_late env tick pane path detail age
      else _ ← write_heartbeat (re_hb env) tick "DISPATCH_RETRY_BLOCKED" detail;
           mret (RowBlocked pane)
  | PUndatable detail reason => mret (RowStop detail reason path)
  | PExpired detail age =>
      if late_ack ack pane detail then retire_late env tick pane path detail age
      else retire env tick pane path (bead_from_marker_detail detail) "DISPATCH_INTENT_EXPIRED"
             (expiry_detail pane path detail age) "DISPATCH_INTENT_EXPIRED"
  end.

Definition add_row (r : RowResult) (o : MarkerCycleOutcome) : MarkerCycleOutcome :=
  match r with
  | RowCleared c => MkCycle (blocked_panes o) (app (cleared o) [c])
  | RowBlocked p => MkCycle (app (blocked_panes o) [p]) (cleared o)
  | _ => o
  end.

(** The environment of a row is that of its marker file. *)
Fixpoint process_rows (ack : AckOracle) (env : string → RowEnv) (tick : N) (rows : list Scanned)
    (o : MarkerCycleOutcome) : CM MarkerFence :=
  match rows with
  | [] => mret (Proceed o)
  | row :: rows =>
      r ← process_row ack (env row.1.2) tick row;
      match r with
      | RowStop detail reason path => mret (StopUndatable detail reason path)
      | r => process_rows ack env tick rows (add_row r o)
      end
  end.

Definition process_pending_markers_with (ack : AckOracle) (dir : DirRead) (env : string → RowEnv) (tick : N)
    : CM MarkerFence :=
  w ← stm_get;
  rows ← stm_lift (read_pending_dispatches dir (markers w));
  process_rows ack env tick rows (MkCycle [] []).

Definition process_pending_markers := process_pending_markers_with (λ _ _ _, None).

(** ** The next bead: a cleared bead and a bead dispatched less than the cooldown ago
    are passed over. *)

Definition claimed_row (bead : string) (row : Json) : option N :=
  if negb (bool_decide (get_str "status" row = Some "DISPATCH_CLAIMED"))
     && negb (bool_decide (get_str "dispatch_action" row = Some "DISPATCH_REQUEUED"))
  then None
  else if negb (bool_decide (field_after (default "" (get_str "detail" row)) "bead=" = Some bead)) then None
  else json_get "ts_unix" row ≫= as_u64.

Definition later (latest : option N) (ts : N) : option N :=
  Some (match latest with Some prev => N.max prev ts | None => ts end).
Definition last_dispatch_claimed_ts (heartbeat bead : string) : option N :=
  foldl (λ latest line, match from_str line ≫= claimed_row bead with
                        | Some ts => later latest ts | None => latest end) None (lines heartbeat).

Definition redispatch_cooldown_age (heartbeat bead : string) (now : N) : option N :=
  ts ← last_dispatch_claimed_ts heartbeat bead;
  let age := sat_sub now ts in
  if (age <? PENDING_DISPATCH_MAX_AGE_SECS)%N then Some age else None.

Fixpoint select_ready_skipping_cooldown (ready : list string) (heartbeat : string) (now : N)
    (cleared_beads : list string) : option string * list (string * N) :=
  match ready with
  | [] => (None, [])
  | id :: ready =>
      if existsb (λ c, bool_decide (c = id)) cleared_beads
      then select_ready_skipping_cooldown ready heartbeat now cleared_beads
      else match redispatch_cooldown_age heartbeat id now with
           | Some age =>
               let '(sel, skipped) := select_ready_skipping_cooldown ready heartbeat now cleared_beads in
               (sel, (id, age) :: skipped)
           | None => (Some id, [])
           end
  end.
End Pending.

(** After the loop clears latched beads, pick a different ready bead. *)
Definition select_next_bead (ready cleared_beads : list string) : option string :=
  match find_first (λ id, negb (existsb (λ c, bool_decide (c = id)) cleared_beads)) ready with
  | Some id => Some id
  | None => hd_error ready
  end.

(** ** Names of marker files. *)

Lemma pane_slug_alnum p : all_bytes is_ascii_alnum (pane_slug p) = true.
Proof.
  unfold pane_slug. induction (chars p) as [|[|c [|d ch]] l IH]; cbn [List.filter concat_chars]; [done..| |done].
  destruct (is_ascii_alnum c) eqn:Hc; [|done].
  change (concat_chars (String c "" :: ?l)) with (String c (concat_chars l)). cbn [all_bytes]. by rewrite Hc.
Qed.

Lemma alnum_no_byte s c : is_ascii_alnum c = false → all_bytes is_ascii_alnum s = true → no_byte c s.
Proof.
  intros Hc. apply all_bytes_impl. intros d Hd. apply negb_true_iff.
  destruct (Ascii.eqb_spec d c) as [->|]; [|done]. congruence.
Qed.

Lemma pane_path_inj cfg p q :
  pending_dispatch_path cfg p = pending_dispatch_path cfg q → pane_slug p = pane_slug q.
Proof.
  unfold pending_dispatch_path. destruct (pane_slug p) as [|c s], (pane_slug q) as [|d t]; cbn [is_empty]; [done|..].
  - rewrite <- (str_app_nil_r (cf_base cfg)) at 1. by intros ?%str_app_inj_l.
  - rewrite <- (str_app_nil_r (cf_base cfg)) at 2. by intros ?%str_app_inj_l.
  - intros Heq%str_app_inj_l. cbn in Heq. by simplify_eq.
Qed.

(** The temporary file of an acknowledgement is no pane's marker. *)
Lemma ack_temp_no_marker cfg p q :
  cf_base cfg ≠ EmptyString → pane_slug q ≠ EmptyString → pane_slug p ≠ EmptyString →
  ack_temp cfg (pending_dispatch_path cfg q) ≠ pending_dispatch_path cfg p.
Proof.
  intros Hb Hq Hp. unfold ack_temp, pending_dispatch_path.
  pose proof (pane_slug_alnum p) as Hs.
  destruct (pane_slug q) eqn:Heq; [done|]. cbn [is_empty]. rewrite <- Heq.
  destruct (pane_slug p) eqn:Hep; [done|]. cbn [is_empty].
  rewrite with_extension_dot; [|done|apply alnum_no_byte; [done|apply pane_slug_alnum]].
  intros Heq2%str_app_inj_l%str_app_inj_l. rewrite <- Heq2 in Hs. done.
Qed.

(** ** What the steps do to the markers. *)

Section PendingLemmas.
Context `{JsonLaws, Unicode} (parse_error : string → string) (cfg : Config).

Notation write_heartbeat := (write_heartbeat parse_error cfg).
Notation process_row := (process_row parse_error cfg).
Notation process_rows := (process_rows parse_error cfg).
Notation path_of := (pending_dispatch_path cfg).

Lemma write_heartbeat_markers env tick st d w : markers (write_heartbeat env tick st d w).1 = markers w.
Proof.
  unfold Pending.write_heartbeat. destruct (hb_dir env), (hb_open env), (hb_write env) as [[e k]|]; done.
Qed.

(** A marker may be retired when its dispatch is acknowledged, has expired or was
    acknowledged late. *)
Definition may_retire (ack : AckOracle) (row : Scanned) : bool :=
  match row.2 with
  | PAcknowledged _ | PExpired _ _ => true
  | PLive detail _ => late_ack ack row.1.1 detail
  | _ => false
  end.

Lemma retire_markers env tick pane path bead st d why w :
  markers (retire parse_error cfg env tick pane path bead st d why w).1 =
    match re_clear env with Some _ => markers w | None => delete path (markers w) end.
Proof.
  unfold retire, clear_dispatch_marker. rewrite bind_fst. destruct (re_clear env); [done|].
  cbn [stm_modify]. rewrite bind_fst.
  pose proof (write_heartbeat_markers (re_hb env) tick st d (set_markers (delete path) w)) as Hm.
  destruct (write_heartbeat _ _ _ _ _) as [w' [[]|e]]; exact Hm.
Qed.

Lemma process_row_markers ack env tick row w :
  markers (process_row ack env tick row w).1 =
    if may_retire ack row
    then match re_clear env with Some _ => markers w | None => delete row.1.2 (markers w) end
    else markers w.
Proof.
  destruct row as [[pane path] []]; cbn [Pending.process_row may_retire fst snd]; [done| |..|done].
  - destruct (late_ack ack pane detail); [apply retire_markers|].
    rewrite bind_fst.
    pose proof (write_heartbeat_markers (re_hb env) tick "DISPATCH_RETRY_BLOCKED" detail w) as Hm.
    destruct (write_heartbeat _ _ _ _ _) as [w' [[]|e]]; exact Hm.
  - apply retire_markers.
  - destruct (late_ack ack pane detail); apply retire_markers.
Qed.

Lemma process_rows_markers ack env tick name rows : ∀ o w,
  let w' := (process_rows ack env tick rows o w).1 in
  markers w' !! name = markers w !! name ∨
  markers w' !! name = None ∧ ∃ row, row ∈ rows ∧ row.1.2 = name ∧ may_retire ack row = true.
Proof.
  induction rows as [|row rows IH]; intros o w; cbn [Pending.process_rows]; [by left|].
  rewrite bind_fst. pose proof (process_row_markers ack (env row.1.2) tick row w) as Hm.
  destruct (process_row _ _ _ _ _) as [w1 r]. cbn [fst] in Hm.
  assert (markers w1 !! name = markers w !! name ∨
          markers w1 !! name = None ∧ ∃ row', row' ∈ row :: rows ∧ row'.1.2 = name ∧ may_retire ack row' = true) as Hw1.
  { rewrite Hm. destruct (may_retire ack row) eqn:Hr; [|by left]. destruct (re_clear _); [by left|].
    destruct (base.decide (row.1.2 = name)) as [<-|Hne]; [|left; by apply lookup_delete_ne].
    right. split; [apply lookup_delete_eq|]. exists row. by split; [apply list_elem_of_here|]. }
  destruct r as [r|e]; [|exact Hw1].
  assert (∀ o', let w' := (process_rows ack env tick rows o' w1).1 in
    markers w' !! name = markers w !! name ∨
    markers w' !! name = None ∧ ∃ row', row' ∈ row :: rows ∧ row'.1.2 = name ∧ may_retire ack row' = true) as Hgo.
  { intros o' w'. destruct (IH o' w1) as [Hs|(Hn & row' & Hin & ? & ?)].
    - subst w'. rewrite Hs. exact Hw1.
    - right. split; [exact Hn|]. exists row'. by split; [apply list_elem_of_further|]. }
  destruct r; try apply Hgo. exact Hw1.
Qed.

Lemma scan_entries_elem m l : ∀ rows row,
  scan_entries cfg m l = Ok rows → row ∈ rows →
  ∃ en text, Ok en ∈ l ∧ is_marker_name cfg (en_name en) = true ∧ m !! en_name en = Some text
             ∧ row = scan_row (en_name en) text (en_now en).
Proof.
  induction l as [|[en|e] l IH]; intros rows row Hrows Hin; cbn [scan_entries] in Hrows; simplify_eq; [by apply not_elem_of_nil in Hin|].
  assert (∀ rows', scan_entries cfg m l = Ok rows' → row ∈ rows' → ∃ en' text, Ok en' ∈ Ok en :: l ∧
    is_marker_name cfg (en_name en') = true ∧ m !! en_name en' = Some text ∧ row = scan_row (en_name en') text (en_now en')) as Htl.
  { intros rows' Hr Hi. destruct (IH rows' row Hr Hi) as (en' & t & ? & ?). exists en', t. split; [by apply list_elem_of_further|done]. }
  destruct (is_marker_name cfg (en_name en)) eqn:Hn; cbn [negb] in Hrows; [|by eauto].
  destruct (en_fault en); [done|]. destruct (m !! en_name en) as [text|] eqn:Ht; [|by eauto].
  destruct (scan_entries cfg m l) as [found|] eqn:Hf; [|done].
  cbn in Hrows. simplify_eq. apply elem_of_cons in Hin as [->|Hin]; [|by eauto].
  exists en, text. split_and!; [apply list_elem_of_here|done..].
Qed.

(** Only a marker whose dispatch is settled is ever removed.  Whatever the directory
    listing, the clocks, the readbacks and the faults, after a scan every file of the
    directory is as it was, or it is a marker, was read, and what was read is
    acknowledged, expired, or acknowledged late; a marker whose age cannot be computed
    never goes away. *)
Theorem only_settled_markers_removed ack dir env tick w name :
  let w' := (process_pending_markers_with parse_error cfg ack dir env tick w).1 in
  markers w' !! name = markers w !! name ∨
  markers w' !! name = None ∧ is_marker_name cfg name = true ∧
  ∃ text now, markers w !! name = Some text ∧ may_retire ack (scan_row name text now) = true.
Proof.
  unfold process_pending_markers_with. stm_next. rewrite bind_fst. unfold stm_lift.
  destruct (read_pending_dispatches cfg dir (markers w)) as [rows|e] eqn:Hrows; [|by left].
  destruct (process_rows_markers ack env tick name rows (MkCycle [] []) w) as [Hs|(Hn & row & Hin & Hname & Hr)]; [by left|].
  right. destruct dir as [|e|l]; cbn [read_pending_dispatches] in Hrows; simplify_eq.
  { by apply not_elem_of_nil in Hin. }
  destruct (scan_entries_elem _ _ _ _ Hrows Hin) as (en & text & _ & Hm & Ht & ->). cbn [fst snd scan_row] in *.
  eauto 10.
Qed.

(** One dispatch in flight per pane.  An intent is recorded exactly when no file
    operation fails and the pane has no marker; the marker then holds the intent's row,
    and nothing else changes.  In every other case the call fails and a marker that was
    there is still there. *)
Theorem intent_exclusive env pane bead w :
  let '(w', r) := write_dispatch_intent cfg env pane bead w in
  (r = Ok tt ↔ in_dir env = None ∧ in_open env = None ∧ in_write env = None ∧ markers w !! path_of pane = None) ∧
  (r = Ok tt → w' = set_markers (<[path_of pane := to_string (intent_row cfg pane bead (in_now env)) +:+ lf_str]>) w) ∧
  (is_Some (markers w !! path_of pane) → w' = w) ∧
  (∀ name, name ≠ path_of pane → markers w' !! name = markers w !! name).
Proof.
  unfold write_dispatch_intent, create_new, write_all. rewrite bind_fst.
  destruct (in_dir env); cbn [stm_fail mret stm_ret]; [split_and!; naive_solver|].
  rewrite bind_fst. destruct (in_open env); cbn [stm_fail]; [split_and!; naive_solver|].
  rewrite bind_fst. unfold stm_get. cbn [fst snd]. rewrite bind_fst. unfold stm_refuse, stm_require.
  destruct (markers w !! path_of pane) eqn:Hm.
  { rewrite bool_decide_eq_true_2 by done. cbn. split_and!; naive_solver. }
  rewrite bool_decide_eq_false_2 by (by intros []). cbn [negb mret stm_ret].
  unfold stm_modify. destruct (in_write env) as [[e k]|].
  - rewrite bind_fst. cbn [stm_fail]. split_and!; [naive_solver..| |].
    + by intros [].
    + intros name Hn. cbn. by rewrite !lookup_insert_ne.
  - cbn [set_markers markers]. split_and!; [naive_solver| |by intros []|].
    + intros _. unfold set_markers. cbn. by rewrite insert_insert_eq.
    + intros name Hn. cbn. by rewrite !lookup_insert_ne.
Qed.

(** *** Operations of a supervisor between two dispatches to one pane. *)

Inductive FenceOp :=
  | OpIntent (env : IntentEnv) (pane bead : string)
  | OpAck (aenv : AckEnv) (henv : HbEnv) (tick : N) (pane bead : string)
  | OpClear (fault : option string) (pane : string)
  | OpScan (ack : AckOracle) (dir : DirRead) (env : string → RowEnv) (tick : N)
  | OpHeartbeat (env : HbEnv) (tick : N) (status detail : string).

Definition fence_exec (o : FenceOp) (w : World) : World :=
  match o with
  | OpIntent env p b => (write_dispatch_intent cfg env p b w).1
  | OpAck ae he t p b => (record_successful_dispatch parse_error cfg ae he t p b w).1
  | OpClear f p => (clear_dispatch_intent cfg f p w).1
  | OpScan ack dir env t => (process_pending_markers_with parse_error cfg ack dir env t w).1
  | OpHeartbeat env t st d => (write_heartbeat env t st d w).1
  end.

(** The operation does not settle the pane's marker: it acknowledges or clears another
    pane, or it scans while the marker's text is not to be retired. *)
Definition leaves (pane text : string) (o : FenceOp) : Prop :=
  match o with
  | OpIntent _ _ _ | OpHeartbeat _ _ _ _ => True
  | OpAck _ _ _ q _ => pane_slug q ≠ pane_slug pane ∧ pane_slug q ≠ EmptyString
  | OpClear _ q => pane_slug q ≠ pane_slug pane
  | OpScan ack dir _ _ => ∀ l en, dir = DirEntries l → Ok en ∈ l → en_name en = path_of pane →
      may_retire ack (scan_row (path_of pane) text (en_now en)) = false
  end.

Lemma acknowledge_other env q name w :
  path_of q ≠ name → ack_temp cfg (path_of q) ≠ name →
  markers (acknowledge_dispatch_intent parse_error cfg env q w).1 !! name = markers w !! name.
Proof.
  intros Hq Ht. unfold acknowledge_dispatch_intent. stm_next. rewrite bind_fst. unfold stm_lift.
  destruct (match ac_read env with Some _ => _ | None => _ end) as [text|e]; [|done].
  rewrite bind_fst. destruct (ok_or (from_str text) _) as [v|e]; [|done].
  rewrite bind_fst. destruct (ok_or (as_object v) _) as [fs|e]; [|done].
  rewrite bind_fst. unfold create_new. destruct (ac_temp env); [done|].
  rewrite bind_fst. unfold stm_get, stm_refuse, stm_require. rewrite bind_fst.
  destruct (negb _); [|done]. cbn [mret stm_ret stm_modify].
  rewrite bind_fst. unfold write_all. destruct (ac_write env) as [[e k]|].
  - rewrite bind_fst. cbn. by rewrite !lookup_insert_ne.
  - cbn [stm_modify]. destruct (ac_rename env); cbn; [by rewrite !lookup_insert_ne|].
    by rewrite lookup_insert_ne, lookup_delete_ne, !lookup_insert_ne.
Qed.

Lemma fence_exec_keeps pane text o w :
  cf_base cfg ≠ EmptyString → pane_slug pane ≠ EmptyString →
  leaves pane text o → markers w !! path_of pane = Some text →
  markers (fence_exec o w) !! path_of pane = Some text.
Proof.
  intros Hb Hp Hl Hw. destruct o as [env q b|ae he t q b|f q|ack dir env t|env t st d]; cbn [fence_exec leaves] in *.
  - pose proof (intent_exclusive env q b w) as Hi.
    destruct (write_dispatch_intent cfg env q b w) as [w' r] eqn:Hr. cbn [fst].
    destruct Hi as (_ & _ & Hsame & Hother).
    destruct (base.decide (path_of pane = path_of q)) as [Heq|Hne]; [|by rewrite Hother].
    rewrite Hsame; [done|]. rewrite <- Heq. by eexists.
  - destruct Hl as [Hq Hqe]. unfold record_successful_dispatch. rewrite bind_fst.
    pose proof (acknowledge_other ae q (path_of pane) w) as Ha.
    destruct (acknowledge_dispatch_intent _ _ _ _ _) as [w' [[]|e]]; cbn [fst] in *.
    + rewrite write_heartbeat_markers, Ha; [done| |by apply ack_temp_no_marker]. by intros ?%pane_path_inj.
    + rewrite Ha; [done| |by apply ack_temp_no_marker]. by intros ?%pane_path_inj.
  - unfold clear_dispatch_intent, clear_dispatch_marker. destruct f; [done|]. cbn.
    rewrite lookup_delete_ne; [done|]. by intros ?%pane_path_inj.
  - unfold process_pending_markers_with. stm_next. rewrite bind_fst. unfold stm_lift.
    destruct (read_pending_dispatches cfg dir (markers w)) as [rows|e] eqn:Hrows; [|done].
    destruct (process_rows_markers ack env t (path_of pane) rows (MkCycle [] []) w) as [Hs|(_ & row & Hin & Hname & Hr)].
    + by rewrite Hs.
    + destruct dir as [|e|l]; cbn [read_pending_dispatches] in Hrows; simplify_eq; [by apply not_elem_of_nil in Hin|].
      destruct (scan_entries_elem _ _ _ _ Hrows Hin) as (en & text' & Hen & _ & Ht & ->).
      cbn [fst snd scan_row] in *. rewrite Hname in *. simplify_eq.
      by rewrite (Hl l en) in Hr.
  - by rewrite write_heartbeat_markers.
Qed.

(** C5: No double send.  Once a pane has a marker, and as long as every operation after
    that neither clears nor acknowledges that pane nor scans it when it is to be retired
    (dispatches to it or to other panes, acknowledgements and clears of other panes,
    scans that find it live, heartbeats: in any order, any number, any fault), the
    marker is there unchanged and a second dispatch to the pane is refused. *)
Theorem no_double_send pane text ops w :
  cf_base cfg ≠ EmptyString → pane_slug pane ≠ EmptyString →
  markers w !! path_of pane = Some text → Forall (leaves pane text) ops →
  let w' := foldl (λ w o, fence_exec o w) w ops in
  markers w' !! path_of pane = Some text ∧
  ∀ env bead, ∃ e, write_dispatch_intent cfg env pane bead w' = (w', Err e).
Proof.
  intros Hb Hp Hw Hops. assert (markers (foldl (λ w o, fence_exec o w) w ops) !! path_of pane = Some text) as Hend.
  { revert w Hw. induction Hops as [|o ops Ho _ IH]; intros w Hw; cbn [foldl]; [done|].
    apply IH. by apply fence_exec_keeps. }
  split; [exact Hend|]. intros env bead.
  pose proof (intent_exclusive env pane bead (foldl (λ w o, fence_exec o w) w ops)) as Hi.
  destruct (write_dispatch_intent cfg env pane bead _) as [w' [[]|e]].
  - destruct Hi as [(Hr & _) _]. destruct Hr as (_ & _ & _ & Hn); [done|]. by rewrite Hend in Hn.
  - destruct Hi as (_ & _ & Hs & _). rewrite Hs by (by eexists). by eexists.
Qed.

(** ** What a written marker says. *)

Definition intent_text (pane bead : string) (t : N) : string :=
  to_string (intent_row cfg pane bead t) +:+ lf_str.

Lemma from_line v : canonical v = true → from_str (trim (to_string v +:+ lf_str)) = Some v.
Proof. intros Hv. rewrite trim_line by apply to_string_text. by apply from_to_string. Qed.

(** An intent reads back as the dispatch it records.  The scan finds the pane and
    the bead in it, and its state is a function of the clock alone: live up to and
    including the deadline of 600 seconds, with its age, expired after it, and undatable
    while the clock reads before the intent was written. *)
Theorem intent_reads_back path pane bead t now :
  scan_row path (intent_text pane bead t) now =
    (pane, path,
     let row := to_string (intent_row cfg pane bead t) in
     if (now <? t)%N then PUndatable row "INTENT_ISSUED_IN_FUTURE"
     else if (now <=? t + 600)%N then PLive row (now - t) else PExpired row (now - t)) ∧
  bead_from_marker_detail (to_string (intent_row cfg pane bead t)) = bead.
Proof.
  destruct (to_string_text (intent_row cfg pane bead t)) as [Htr Hne].
  assert (from_str (to_string (intent_row cfg pane bead t)) = Some (intent_row cfg pane bead t)) as Hfs
    by by apply from_to_string.
  split.
  - unfold scan_row, marker_str, classify_pending_dispatch, intent_text. rewrite trim_line by done. rewrite Hfs.
    cbn [mbind option_bind]. destruct (is_empty _) eqn:He; [by destruct (to_string _)|].
    change (json_get "pane" _ ≫= as_str) with (Some pane).
    change (json_get "acknowledged_at" _ ≫= as_u64) with (@None N).
    change (json_get "issued_at" _ ≫= as_u64) with (Some t). cbn [default from_option id].
    destruct (N.ltb_spec now t); [done|]. unfold PENDING_DISPATCH_MAX_AGE_SECS.
    destruct (N.ltb_spec 600 (now - t)), (N.leb_spec now (t + 600)); [lia|done|done|lia].
  - unfold bead_from_marker_detail, marker_str. by rewrite Htr, Hfs.
Qed.

(** ** A scan that no fault disturbs. *)

Definition hb_calm (env : HbEnv) : bool :=
  bool_decide (hb_dir env = None) && bool_decide (hb_open env = None) && bool_decide (hb_write env = None).
Definition row_calm (env : RowEnv) : bool := bool_decide (re_clear env = None) && hb_calm (re_hb env).

Definition undatable (row : Scanned) : bool := match row.2 with PUndatable _ _ => true | _ => false end.
Definition row_pane (row : Scanned) : string := row.1.1.
Definition row_path (row : Scanned) : string := row.1.2.
Definition row_bead (row : Scanned) : string :=
  match row.2 with
  | PLive d _ | PAcknowledged d | PExpired d _ => bead_from_marker_detail d | _ => ""
  end.
(** Every row the scan builds has a marker, so is classified as something. *)
Definition present (row : Scanned) : bool := match row.2 with PNone => false | _ => true end.

Lemma classify_present text now : match classify_pending_dispatch text now with PNone => false | _ => true end = true.
Proof. unfold classify_pending_dispatch. by repeat case_match. Qed.

Lemma heartbeat_calm env tick st d w :
  hb_calm env = true → ∃ w', write_heartbeat env tick st d w = (w', Ok tt) ∧ markers w' = markers w.
Proof.
  unfold hb_calm. rewrite !andb_true_iff, !bool_decide_eq_true. intros [[Hd Ho] Hw].
  unfold Pending.write_heartbeat. rewrite Hd, Ho, Hw. by eexists.
Qed.

Lemma retire_calm env tick pane path bead st d why w :
  row_calm env = true →
  ∃ w', retire parse_error cfg env tick pane path bead st d why w = (w', Ok (RowCleared (MkCleared pane bead why)))
        ∧ markers w' = delete path (markers w).
Proof.
  unfold row_calm. rewrite andb_true_iff, bool_decide_eq_true. intros [Hc Hh].
  unfold retire, clear_dispatch_marker. rewrite bind_fst, Hc. cbn [stm_modify]. rewrite bind_fst.
  destruct (heartbeat_calm (re_hb env) tick st d (set_markers (delete path) w) Hh) as (w' & -> & Hm).
  exists w'. by rewrite Hm.
Qed.

Lemma process_row_calm ack env tick row w :
  row_calm env = true → present row = true →
  ∃ w' r, process_row ack env tick row w = (w', Ok r) ∧
    markers w' = (if may_retire ack row then delete (row_path row) (markers w) else markers w) ∧
    match r with
    | RowNone => False
    | RowStop d why path => undatable row = true ∧ row.2 = PUndatable d why ∧ path = row_path row
    | RowBlocked pane => undatable row = false ∧ may_retire ack row = false ∧ pane = row_pane row
    | RowCleared c => undatable row = false ∧ may_retire ack row = true
                      ∧ cl_pane c = row_pane row ∧ cl_bead c = row_bead row
    end.
Proof.
  intros Hc Hp. destruct row as [[pane path] []]; cbn [Pending.process_row may_retire present undatable row_pane row_path row_bead fst snd] in *; [done|..].
  - destruct (late_ack ack pane detail).
    + unfold retire_late. edestruct retire_calm as (w' & -> & Hm); [done|]. eauto 10.
    + rewrite bind_fst. unfold row_calm in Hc. apply andb_true_iff in Hc as [_ Hh].
      edestruct heartbeat_calm as (w' & -> & Hm); [done|]. eexists _, _. split; [done|]. eauto.
  - edestruct retire_calm as (w' & -> & Hm); [done|]. eauto 10.
  - destruct (late_ack ack pane detail); [unfold retire_late|]; (edestruct retire_calm as (w' & -> & Hm); [done|]); eauto 10.
  - eexists _, _. split; [done|]. eauto.
Qed.

Lemma process_rows_calm ack env tick rows : ∀ o w,
  Forall (λ row, row_calm (env (row_path row)) = true ∧ present row = true ∧ undatable row = false) rows →
  ∃ w' o', process_rows ack env tick rows o w = (w', Ok (Proceed o')) ∧
    markers w' = foldl (λ m row, if may_retire ack row then delete (row_path row) m else m) (markers w) rows ∧
    blocked_panes o' = app (blocked_panes o) (map row_pane (List.filter (λ row, negb (may_retire ack row)) rows)) ∧
    map (λ c, (cl_pane c, cl_bead c)) (cleared o') =
      app (map (λ c, (cl_pane c, cl_bead c)) (cleared o))
          (map (λ row, (row_pane row, row_bead row)) (List.filter (may_retire ack) rows)).
Proof.
  induction rows as [|row rows IH]; intros o w Hall; cbn [Pending.process_rows].
  { exists w, o. by rewrite !app_nil_r. }
  inversion Hall as [|? ? (Hc & Hp & Hu) Hall']; subst. rewrite bind_fst.
  destruct (process_row_calm ack (env row.1.2) tick row w Hc Hp) as (w1 & r & -> & Hm & Hr).
  cbn [foldl List.filter]. destruct r as [|c|pane|d why path]; [done|..|by destruct Hr as (Hr & _); congruence].
  - destruct Hr as (_ & Hret & Hcp & Hcb). rewrite Hret in *. cbn [negb map].
    destruct (IH (add_row (RowCleared c) o) w1 Hall') as (w' & o' & -> & Hmk & Hb & Hcl).
    exists w', o'. split_and!; [done|by rewrite Hmk, Hm|exact Hb|].
    rewrite Hcl. cbn [add_row cleared]. by rewrite map_app, <- app_assoc, <- Hcp, <- Hcb.
  - destruct Hr as (_ & Hret & ->). rewrite Hret in *. cbn [negb map].
    destruct (IH (add_row (RowBlocked (row_pane row)) o) w1 Hall') as (w' & o' & -> & Hmk & Hb & Hcl).
    exists w', o'. split_and!; [done|by rewrite Hmk, Hm| |exact Hcl].
    rewrite Hb. cbn [add_row blocked_panes]. by rewrite <- app_assoc.
Qed.

(** ** Whole scans. *)

(** A listing that no read fault disturbs, and names every marker there is. *)
Record complete_listing (l : list (result string Entry)) (m : gmap string string) : Prop := {
  cl_readable : ∀ x, x ∈ l → ∃ en, x = Ok en ∧ en_fault en = None;
  cl_all : ∀ name, is_Some (m !! name) → is_marker_name cfg name = true →
             ∃ en, Ok en ∈ l ∧ en_name en = name }.

Lemma scan_entries_complete m l :
  (∀ x, x ∈ l → ∃ en, x = Ok en ∧ en_fault en = None) →
  ∃ rows, scan_entries cfg m l = Ok rows ∧
    ∀ en text, Ok en ∈ l → is_marker_name cfg (en_name en) = true → m !! en_name en = Some text →
      scan_row (en_name en) text (en_now en) ∈ rows.
Proof.
  induction l as [|x l IH]; intros Hl.
  { exists []. split; [done|]. by intros en text ?%not_elem_of_nil. }
  destruct (Hl x (list_elem_of_here _ _)) as (en & -> & Hf).
  destruct IH as (rows & Hrows & Hin); [intros x Hx; apply Hl; by apply list_elem_of_further|].
  cbn [scan_entries]. rewrite Hf, Hrows.
  destruct (is_marker_name cfg (en_name en)) eqn:Hn; cbn [negb].
  - destruct (m !! en_name en) as [text|] eqn:Ht.
    + eexists. split; [done|]. intros en' text' [Heq|?]%elem_of_cons ? ?; simplify_eq; [apply list_elem_of_here|].
      apply list_elem_of_further. eauto.
    + exists rows. split; [done|]. intros en' text' [Heq|?]%elem_of_cons ? ?; simplify_eq. eauto.
  - exists rows. split; [done|]. intros en' text' [Heq|?]%elem_of_cons ? ?; simplify_eq; [congruence|eauto].
Qed.

(** A marker's text that a scan at the time [now] settles by itself. *)
Definition stale (text : string) (now : N) : bool :=
  negb (is_empty (trim text)) &&
  match marker_u64 "acknowledged_at" text, marker_u64 "issued_at" text with
  | Some _, _ => true | None, Some t => (t + 600 <? now)%N | None, None => false
  end.

Lemma stale_retires ack name text now :
  stale text now = true →
  may_retire ack (scan_row name text now) = true ∧ undatable (scan_row name text now) = false.
Proof.
  unfold stale, may_retire, undatable, scan_row, classify_pending_dispatch, marker_u64. cbn [fst snd].
  destruct (is_empty (trim text)); [done|]. cbn [negb andb].
  destruct ((from_str (trim text) ≫= json_get "acknowledged_at") ≫= as_u64); [done|].
  destruct ((from_str (trim text) ≫= json_get "issued_at") ≫= as_u64) as [t|]; [|done].
  intros Ht%N.ltb_lt. destruct (N.ltb_spec now t); [lia|]. unfold PENDING_DISPATCH_MAX_AGE_SECS.
  destruct (N.ltb_spec 600 (now - t)); [done|lia].
Qed.

Lemma filter_none {A} (p : A → bool) l : Forall (λ x, p x = false) l → List.filter p l = [].
Proof. by induction 1 as [|x l Hx _ IH]; cbn; [|rewrite Hx]. Qed.

Lemma retired_gone ack rows name : ∀ m : gmap string string,
  m !! name = None ∨ (∃ row, row ∈ rows ∧ row_path row = name ∧ may_retire ack row = true) →
  foldl (λ m row, if may_retire ack row then delete (row_path row) m else m) m rows !! name = None.
Proof.
  induction rows as [|row rows IH]; intros m Hm; cbn [foldl].
  { destruct Hm as [|(row & ?%not_elem_of_nil & _)]; done. }
  apply IH. destruct Hm as [Hm|(row' & [->|Hin]%elem_of_cons & Hname & Hr)]; [|left|right; by exists row'].
  - left. destruct (may_retire ack row); [|done]. by rewrite lookup_delete_None; right.
  - rewrite Hr, <- Hname. apply lookup_delete_eq.
Qed.

(** C38: The fence reopens by itself.  A scan that nothing disturbs, of a directory all of
    whose markers are settled or past their deadline, blocks no pane and leaves no
    marker: the deadline, 600 seconds after the dispatch, is the longest that a dispatch
    nobody answers can hold a pane. *)
Theorem stale_fence_reopens ack l env tick w :
  complete_listing l (markers w) → (∀ name, row_calm (env name) = true) →
  (∀ en text, Ok en ∈ l → is_marker_name cfg (en_name en) = true → markers w !! en_name en = Some text →
     stale text (en_now en) = true) →
  ∃ w' o, process_pending_markers_with parse_error cfg ack (DirEntries l) env tick w = (w', Ok (Proceed o)) ∧
    blocked_panes o = [] ∧ (∀ name, is_marker_name cfg name = true → markers w' !! name = None).
Proof.
  intros [Hread Hall] Hcalm Hst.
  destruct (scan_entries_complete (markers w) l Hread) as (rows & Hrows & Hin).
  assert (Forall (λ row, may_retire ack row = true ∧ undatable row = false ∧ present row = true) rows) as Hret.
  { apply Forall_forall. intros row Hrow.
    destruct (scan_entries_elem _ _ _ _ Hrows Hrow) as (en & text & Hen & Hm & Ht & ->).
    destruct (stale_retires ack (en_name en) text (en_now en)); [by apply Hst|].
    split_and!; [done..|apply classify_present]. }
  unfold process_pending_markers_with. stm_next. stm_next; [by cbn [read_pending_dispatches]; rewrite Hrows|].
  destruct (process_rows_calm ack env tick rows (MkCycle [] []) w) as (w' & o & Heq & Hmk & Hb & _).
  { eapply Forall_impl; [exact Hret|]. intros row (? & ? & ?). by split_and!. }
  exists w', o. split_and!; [exact Heq| |].
  - rewrite Hb. rewrite filter_none; [done|]. eapply Forall_impl; [exact Hret|]. by intros row (-> & _).
  - intros name Hn. rewrite Hmk. apply retired_gone.
    destruct (markers w !! name) as [text|] eqn:Ht; [right|by left].
    destruct (Hall name) as (en & Hen & <-); [by eexists|done|].
    specialize (Hin en text Hen Hn Ht). eexists. split; [exact Hin|]. split; [done|].
    rewrite Forall_forall in Hret. by apply Hret.
Qed.

(** What a scan decides.  When nothing disturbs it and every marker has an age, it
    goes through; the panes it blocks are those of the markers it may not retire, the
    dispatches it counts as cleared are those of the ones it may, both in the order of
    the directory, and the files removed are exactly the latter's. *)
Theorem scan_outcome ack dir env tick w rows :
  read_pending_dispatches cfg dir (markers w) = Ok rows → (∀ name, row_calm (env name) = true) →
  Forall (λ row, undatable row = false) rows →
  ∃ w' o, process_pending_markers_with parse_error cfg ack dir env tick w = (w', Ok (Proceed o)) ∧
    blocked_panes o = map row_pane (List.filter (λ row, negb (may_retire ack row)) rows) ∧
    map (λ c, (cl_pane c, cl_bead c)) (cleared o) =
      map (λ row, (row_pane row, row_bead row)) (List.filter (may_retire ack) rows) ∧
    markers w' = foldl (λ m row, if may_retire ack row then delete (row_path row) m else m) (markers w) rows.
Proof.
  intros Hrows Hcalm Hu.
  unfold process_pending_markers_with. stm_next. stm_next; [exact Hrows|].
  destruct (process_rows_calm ack env tick rows (MkCycle [] []) w) as (w' & o & Heq & Hmk & Hb & Hc).
  { apply Forall_forall. intros row Hrow. rewrite Forall_forall in Hu. split_and!; [done| |by apply Hu].
    destruct dir as [|e|l]; cbn [read_pending_dispatches] in Hrows; simplify_eq; [by apply not_elem_of_nil in Hrow|].
    destruct (scan_entries_elem _ _ _ _ Hrows Hrow) as (en & text & _ & _ & _ & ->). apply classify_present. }
  exists w', o. by split_and!.
Qed.

(** ** The cooldown of a dispatched bead. *)

Lemma take_while_stop {A} (p : A → bool) l x k : forallb p l = true → p x = false → take_while p (app l (x :: k)) = l.
Proof.
  intros Hl Hx. induction l as [|y l IH]; cbn in *; [by rewrite Hx|].
  apply andb_true_iff in Hl as [-> ?]. by rewrite IH.
Qed.

(** A bead's name, as the tracker gives them: no blank, quote or comma. *)
Definition bead_name (bead : string) : bool :=
  negb (is_empty bead) && forallb (λ ch, negb (value_end ch)) (chars bead).

Lemma field_after_bead bead rest :
  bead_name bead = true → starts_at_char rest = true →
  field_after ("bead=" +:+ bead +:+ " " +:+ rest) "bead=" = Some bead.
Proof.
  unfold bead_name. intros [Hne Hb]%andb_true_iff Hrest. unfold field_after.
  change (split_once "bead=" ("bead=" +:+ ?x)) with (Some ("", x)). cbv iota beta.
  rewrite chars_app by done.
  assert (chars (" " +:+ rest) = " " :: chars rest) as ->.
  { destruct rest as [|c rest]; [done|]. apply chars_cons_starts. by apply negb_true_iff. }
  rewrite take_while_stop, concat_chars_chars by done. by destruct (is_empty bead).
Qed.

Definition dispatch_claimed_detail (bead pane assignee agent owner : string) : string :=
  "bead=" +:+ bead +:+ " " +:+ ("pane=" +:+ pane +:+ " assignee=" +:+ assignee +:+ " receiver_agent="
  +:+ agent +:+ " claim_owner=" +:+ owner).

Lemma foldl_later_mono bead l : ∀ latest t,
  (∃ t', latest = Some t' ∧ (t <= t')%N) →
  ∃ t', foldl (λ latest line, match from_str line ≫= claimed_row bead with
                        | Some ts => later latest ts | None => latest end) latest l = Some t' ∧ (t <= t')%N.
Proof.
  induction l as [|x l IH]; intros latest t Hl; cbn [foldl]; [done|].
  apply IH. destruct Hl as (t' & -> & Ht). destruct (from_str x ≫= claimed_row bead) as [ts|]; cbn [later]; eexists; split; [done|lia|done|lia].
Qed.

(** What the selection picks: the first bead that was not just cleared and is not cooling
    down; and the beads it reports as skipped are those before it that cool down. *)
Lemma select_ready_spec ready hb now gone :
  let eligible id := negb (existsb (λ c, bool_decide (c = id)) gone)
                     && match redispatch_cooldown_age hb id now with Some _ => false | None => true end in
  (select_ready_skipping_cooldown ready hb now gone).1 = find_first eligible ready.
Proof.
  induction ready as [|id ready IH]; cbn; [done|].
  destruct (existsb _ gone); cbn; [exact IH|].
  destruct (redispatch_cooldown_age hb id now); cbn; [|done].
  destruct (select_ready_skipping_cooldown ready hb now gone). exact IH.
Qed.

(** A claimed bead cools down.  After the heartbeat that records the claim of a bead,
    and whatever is appended to the ledger after it, the selection does not offer the
    bead again for 600 seconds. *)
Theorem claimed_bead_cools_down env tick bead pane assignee agent owner w more ready now gone :
  hb_calm env = true → ends_lf (heartbeat w) = true → bead_name bead = true → (now < hb_ts env + 600)%N →
  let w' := (write_heartbeat env tick "DISPATCH_CLAIMED" (dispatch_claimed_detail bead pane assignee agent owner) w).1 in
  (select_ready_skipping_cooldown ready (heartbeat w' +:+ more) now gone).1 ≠ Some bead.
Proof.
  intros Hcalm Hlf Hbead Hnow w' Hsel. subst w'.
  unfold hb_calm in Hcalm. rewrite !andb_true_iff, !bool_decide_eq_true in Hcalm. destruct Hcalm as [[Hd Ho] Hw].
  unfold Pending.write_heartbeat in Hsel. rewrite Hd, Ho, Hw in Hsel. cbn [stm_modify fst heartbeat] in Hsel.
  set (row := heartbeat_row cfg (hb_ts env) tick _ _) in Hsel.
  rewrite select_ready_spec in Hsel. apply find_first_Some in Hsel as (l1 & l2 & _ & Hel & _).
  apply andb_true_iff in Hel as [_ Hage].
  assert (∃ t', last_dispatch_claimed_ts ((heartbeat w +:+ (to_string row +:+ lf_str)) +:+ more) bead = Some t' ∧ (hb_ts env <= t')%N) as (t' & Ht & Hle).
  { unfold last_dispatch_claimed_ts. rewrite lines_app by apply ends_lf_app.
    destruct (to_string_line row). rewrite lines_app by done.
    rewrite <- (str_app_nil_r lf_str), lines_line by done. rewrite !foldl_app. cbn [foldl lines].
    rewrite from_to_string by done. cbn [mbind option_bind].
    assert (claimed_row bead row = Some (hb_ts env)) as ->.
    { unfold claimed_row. change (get_str "status" row) with (Some "DISPATCH_CLAIMED").
      rewrite bool_decide_eq_true_2 by done. cbn [negb andb].
      change (get_str "detail" row) with (Some (dispatch_claimed_detail bead pane assignee agent owner)).
      cbn [default from_option id]. unfold dispatch_claimed_detail. rewrite field_after_bead by done.
      by rewrite bool_decide_eq_true_2. }
    apply foldl_later_mono. destruct (foldl _ _ _) as [x|]; cbn [later]; eexists; (split; [done|lia]). }
  unfold redispatch_cooldown_age in Hage. rewrite Ht in Hage. cbn in Hage. unfold sat_sub, PENDING_DISPATCH_MAX_AGE_SECS in Hage.
  destruct (N.ltb_spec (now - t') 600); [done|lia].
Qed.
End PendingLemmas.

(** ** Examples. *)

#[local] Existing Instance bits_from_json.
#[local] Existing Instance bits_to_json.
#[local] Existing Instance bits_json_laws.
#[local] Existing Instance ascii_only.

Definition ex_config : Config :=
  MkConfig "fleet" "/repo" "b1" "r1" 7 "omp-orchestrator.pending-dispatch" "/state" "/state/hb.jsonl"
    "File exists (os error 17)".
Definition ex_base : string := "omp-orchestrator.pending-dispatch".
Definition calm_hb (ts : N) : HbEnv := MkHbEnv ts None None None calm.
Definition calm_row (ts : N) : string → RowEnv := λ _, MkRowEnv None (calm_hb ts).
Definition calm_intent (t : N) : IntentEnv := MkIntentEnv t None None None.
Definition ex_parse : string → string := λ _, "expected value".
Definition empty_world : World := MkWorld ∅ "" None.
Definition no_ack : AckOracle := λ _ _ _, None.

(** A dispatch to pane 7 at 1000. *)
Definition ex_name : string := ex_base +:+ ".7".
Definition ex_marker : string := intent_text ex_config "%7" "b-1" 1000.
Definition ex_sent : World := MkWorld {[ex_name := ex_marker]} "" None.
Definition ex_listing (now : N) : list (result string Entry) :=
  [Ok (MkEntry "notes.txt" None now); Ok (MkEntry ex_name None now)].
Definition ex_fence_ops : list FenceOp :=
  [OpScan no_ack (DirEntries (ex_listing 1500)) (calm_row 1500) 2;
   OpIntent (calm_intent 1500) "%7" "b-2"; OpIntent (calm_intent 1500) "%8" "b-2";
   OpAck (MkAckEnv 1510 None None None None) (calm_hb 1510) 2 "%8" "b-2"; OpClear None "%8"].

Lemma ex_listing_elem now en : Ok en ∈ ex_listing now → en = MkEntry "notes.txt" None now ∨ en = MkEntry ex_name None now.
Proof. unfold ex_listing. rewrite !elem_of_cons, elem_of_nil. intros [H|[H|[]]]; [left|right]; congruence. Qed.

Lemma ex_sent_markers name text : markers ex_sent !! name = Some text → name = ex_name ∧ text = ex_marker.
Proof. unfold ex_sent. cbn [markers]. intros [-> ->]%lookup_singleton_Some. done. Qed.

Lemma ex_marker_held now : (1000 <= now <= 1600)%N →
  may_retire no_ack (scan_row ex_name ex_marker now) = false.
Proof.
  intros Hn. unfold ex_marker. destruct (intent_reads_back ex_config ex_name "%7" "b-1" 1000 now) as [-> _].
  cbv zeta. destruct (N.ltb_spec now 1000); [lia|]. destruct (N.leb_spec now (1000 + 600)); [|lia].
  unfold may_retire, late_ack, no_ack. cbn [fst snd]. by destruct (issued_at_from_marker_detail _).
Qed.

Lemma ex_marker_stale now : (1600 < now)%N → stale ex_marker now = true.
Proof.
  intros Hn. unfold stale, marker_u64, ex_marker, intent_text.
  destruct (to_string_text (intent_row ex_config "%7" "b-1" 1000)) as [Htr Hne].
  rewrite trim_line, from_to_string by done. destruct (is_empty _) eqn:He; [by destruct (to_string _)|].
  change ((Some _ ≫= json_get "acknowledged_at") ≫= as_u64) with (@None N).
  change ((Some _ ≫= json_get "issued_at") ≫= as_u64) with (Some 1000%N). cbn. apply N.ltb_lt. lia.
Qed.

Lemma ex_listing_read : read_pending_dispatches ex_config (DirEntries (ex_listing 1500)) (markers ex_sent)
  = Ok [scan_row ex_name ex_marker 1500].
Proof.
  unfold ex_sent, ex_listing. cbn -[scan_row ex_name lookup singletonM map_singleton is_marker_name].
  change (is_marker_name ex_config "notes.txt") with false. change (is_marker_name ex_config ex_name) with true.
  cbn [negb]. by rewrite lookup_singleton_eq.
Qed.

Lemma ex_marker_dated : Forall (λ row, undatable row = false) [scan_row ex_name ex_marker 1500].
Proof.
  unfold ex_marker. destruct (intent_reads_back ex_config ex_name "%7" "b-1" 1000 1500) as [-> _]. by repeat constructor.
Qed.

#[local] Opaque ex_marker ex_name.

Example ex_sent_is_sent :
  write_dispatch_intent ex_config (calm_intent 1000) "%7" "b-1" empty_world = (ex_sent, Ok tt).
Proof.
  pose proof (intent_exclusive ex_parse ex_config (calm_intent 1000) "%7" "b-1" empty_world) as Hi.
  destruct (write_dispatch_intent _ _ _ _ _) as [w r]. destruct Hi as ([_ Hr] & Hw & _).
  specialize (Hr ltac:(by split_and!)). subst r. rewrite (Hw eq_refl). done.
Qed.

Example no_double_send_witness :
  let w' := foldl (λ w o, fence_exec ex_parse ex_config o w) ex_sent ex_fence_ops in
  markers w' !! pending_dispatch_path ex_config "%7" = Some ex_marker ∧
  ∀ env bead, ∃ e, write_dispatch_intent ex_config env "%7" bead w' = (w', Err e).
Proof.
  apply (no_double_send ex_parse ex_config "%7" ex_marker ex_fence_ops ex_sent); [done|done| |].
  - unfold ex_sent. cbn [markers]. by apply lookup_singleton_Some.
  - apply Forall_cons_2; [|by repeat constructor].
    intros l en Hl Hen Hname. apply ex_marker_held.
    destruct (ex_listing_elem 1500 en) as [He|He]; [congruence|rewrite He; cbn; lia..].
Defined.

Example stale_fence_reopens_witness :
  ∃ w' o, process_pending_markers_with ex_parse ex_config no_ack (DirEntries (ex_listing 1601)) (calm_row 1601) 3 ex_sent
    = (w', Ok (Proceed o)) ∧
    blocked_panes o = [] ∧ (∀ name, is_marker_name ex_config name = true → markers w' !! name = None).
Proof.
  apply (stale_fence_reopens ex_parse ex_config no_ack (ex_listing 1601) (calm_row 1601) 3 ex_sent).
  - split.
    + unfold ex_listing. intros x. rewrite !elem_of_cons, elem_of_nil. intros [->|[->|[]]]; by eexists.
    + intros name [text [-> _]%ex_sent_markers] _. exists (MkEntry ex_name None 1601).
      split; [apply list_elem_of_further, list_elem_of_here|done].
  - done.
  - intros en text Hen _ Ht. destruct (ex_sent_markers _ _ Ht) as [_ Htext]. rewrite Htext. apply ex_marker_stale.
    destruct (ex_listing_elem 1601 en Hen) as [He|He]; rewrite He; cbn; lia.
Defined.

Example scan_outcome_witness :
  let rows := [scan_row ex_name ex_marker 1500] in
  ∃ w' o, process_pending_markers_with ex_parse ex_config no_ack (DirEntries (ex_listing 1500)) (calm_row 1500) 2 ex_sent
    = (w', Ok (Proceed o)) ∧
    blocked_panes o = map row_pane (List.filter (λ row, negb (may_retire no_ack row)) rows) ∧
    map (λ c, (cl_pane c, cl_bead c)) (cleared o) =
      map (λ row, (row_pane row, row_bead row)) (List.filter (may_retire no_ack) rows) ∧
    markers w' = foldl (λ m row, if may_retire no_ack row then delete (row_path row) m else m) (markers ex_sent) rows.
Proof.
  apply (scan_outcome ex_parse ex_config no_ack (DirEntries (ex_listing 1500)) (calm_row 1500) 2 ex_sent
           [scan_row ex_name ex_marker 1500]); [apply ex_listing_read|done|apply ex_marker_dated].
Defined.

Example claimed_bead_cools_down_witness :
  let w' := (write_heartbeat ex_parse ex_config (calm_hb 1000) 1 "DISPATCH_CLAIMED"
               (dispatch_claimed_detail "b-1" "%7" "pane=%7" "WildStone" "fleet") empty_world).1 in
  (select_ready_skipping_cooldown ["b-1"; "b-2"] (heartbeat w' +:+ "torn") 1599 []).1 ≠ Some "b-1".
Proof. by apply (claimed_bead_cools_down ex_parse ex_config). Defined.

(** A scan of one marker: what was said of a marker without a name, and of an empty one. *)
Lemma scan_one cfg ack name text now env tick w :
  is_marker_name cfg name = true → markers w !! name = Some text →
  process_pending_markers_with ex_parse cfg ack (DirEntries [Ok (MkEntry name None now)]) env tick w
  = process_rows ex_parse cfg ack env tick [scan_row name text now] (MkCycle [] []) w.
Proof.
  intros Hn Ht. unfold process_pending_markers_with. stm_next. stm_next; [|done].
  cbn [read_pending_dispatches scan_entries en_name en_fault]. by rewrite Hn, Ht.
Qed.

(** A marker that names no pane: the scan blocks the pane with no name, not the fleet. *)
Example nameless_marker_blocks_no_pane :
  let text := to_string (jobj [("issued_at", JNumber (PosInt 1000))]) in
  (process_pending_markers ex_parse ex_config (DirEntries [Ok (MkEntry ex_base None 1001)]) (calm_row 1001) 1
     (MkWorld {[ex_base := text]} "" None)).2 = Ok (Proceed (MkCycle [""] [])).
Proof.
  intros text. unfold process_pending_markers. rewrite (scan_one _ _ _ text); [by vm_compute|done|].
  by apply lookup_singleton_Some.
Qed.

(** An acknowledgement that is cut off leaves its temporary file next to the markers;
    every scan from then on, at any time and with any readback, takes it for a marker
    without an age and stops the whole fleet. *)
Example torn_ack_stops_the_fleet :
  let w := (acknowledge_dispatch_intent ex_parse ex_config (MkAckEnv 1100 None None (Some ("no space", 0%nat)) None) "%7" ex_sent).1 in
  let temp := ex_base +:+ ".ack-7.tmp" in
  ∀ ack now env tick, process_pending_markers_with ex_parse ex_config ack (DirEntries [Ok (MkEntry temp None now)]) env tick w
    = (w, Ok (StopUndatable "marker_exists_but_is_empty" "INTENT_EMPTY" temp)).
Proof.
  intros w temp ack now env tick. rewrite (scan_one _ _ _ ""); [done|done|]. by vm_compute.
Qed.
