(* ===== verification/LifeLedger.v ===== *)
(** * The durable ledger of bead lifecycles, and the hold it gives a bead

    ntm-fleet-monitor/src/bead_lifecycle/ledger.rs wraps the state machine of
    [Lifecycle] in an append-only file of JSON rows: every accepted transition is one
    row, written, synced and read back before the call returns; [resume] rebuilds the
    machine from the rows.  omp-orchestrator/src/cross_pane_hold.rs reads the rows of a
    bead to keep it off a second pane.

    The file is a string, absent or present; a failed write leaves its first bytes, and a
    fault of every file operation of a call is an argument.  SHA-256 of a packet is a
    string the caller supplies. *)

From stdpp Require Import base numbers list option strings gmap sorting.
From Stdlib Require Import NArith Ascii Lia.
From S2P Require Import Prelude RustStr Json DecisionLedger Lifecycle.

Definition BEAD_LIFECYCLE_LEDGER_SCHEMA : string := "omp.bead.lifecycle.v1".

(** ** Identities and evidence. *)

Inductive InvokerClass := Scheduled | Manual.
#[global] Instance InvokerClass_eq_dec : EqDecision InvokerClass.
Proof. solve_decision. Defined.
Definition invoker_str (i : InvokerClass) : string :=
  match i with Scheduled => "SCHEDULED" | Manual => "MANUAL" end.
Definition invoker_parse (s : string) : option InvokerClass :=
  find_first (λ i, bool_decide (invoker_str i = s)) [Scheduled; Manual].
Definition from_tty (has_tty : bool) : InvokerClass := if has_tty then Manual else Scheduled.

Record LifecycleIdentity := MkIdentity {
  id_bead : BeadId; id_repo : string; id_target : DispatchTarget; id_digest : string;
  id_invoker : InvokerClass }.
#[global] Instance LifecycleIdentity_eq_dec : EqDecision LifecycleIdentity.
Proof. solve_decision. Defined.

Inductive AppendOutcome := LAppended (event : string) | LReplayed (event : string).
Definition replayed (o : AppendOutcome) : bool :=
  match o with LReplayed _ => true | LAppended _ => false end.

Inductive LfError :=
  | LfInvalidIdentity (field : string) | LfEmptyEvidence
  | LfEvidenceInFuture (observed now : N) | LfStaleEvidence (age max_age : N)
  | LfLifecycle (e : LifecycleError) | LfIo (op detail : string)
  | LfMalformedExistingRow (line : string) | LfNoMatchingLifecycle (bead target : string)
  | LfUnsupportedReplay (event : string) | LfConflictingIdempotencyKey (key : string)
  | LfPartialIdempotency (key : string) | LfReadbackMismatch.

Definition kind_str (k : LifecycleEventKind) : string :=
  match k with
  | EvSelected => "selected" | EvDispatched => "dispatched"
  | EvReceiverVerified => "receiver_verified" | EvMarkedUngraded => "marked_ungraded"
  | EvGradingStarted => "grading_started" | EvGradedPass => "graded_pass"
  | EvGradedFix => "graded_fix" | EvClosed => "closed"
  | EvRedispatchRequired => "redispatch_required" | EvBlocked => "blocked"
  end.

Definition lifecycle_error_display (e : LifecycleError) : string :=
  match e with
  | InvalidInput f => "invalid empty input: " +:+ f
  | InvalidTransition from ev => "invalid transition " +:+ status_str from +:+ " -> " +:+ kind_str ev
  | DuplicateEvent id => "duplicate non-idempotent event " +:+ id
  | ErrNotApproved _ => "wave is not autonomous"
  | WrongBead => "evidence bead does not match lifecycle bead"
  | WrongTarget => "evidence target does not match lifecycle target"
  | WrongObjective => "evidence objective does not match lifecycle objective"
  | MissingEscalationReference => "external blocker requires an escalation reference"
  | LocalBlockerNotAllowed => "lifecycle blocking requires an external blocker"
  | EvidenceInFuture _ _ => "evidence timestamp is in the future"
  | StaleEvidence _ _ => "evidence is stale"
  | MissingReceiverEvidence => "independent receiver evidence is required"
  | WrongReceiverEvent => "grade does not name the stored receiver evidence"
  | GraderIdentityMissing => "grade requires a named grader pane"
  | SelfGradeRefused => "the receiver pane cannot grade its own bead"
  | GraderMismatch => "grade grader pane does not match the claimed peer"
  | GradeMustBePass => "close requires an independent passing grade"
  end.

Definition lf_error_display (e : LfError) : string :=
  match e with
  | LfInvalidIdentity f => "LIFECYCLE_LEDGER_INVALID_IDENTITY field=" +:+ f
  | LfEmptyEvidence => "LIFECYCLE_LEDGER_EMPTY_EVIDENCE — empty evidence is an ERROR"
  | LfEvidenceInFuture o n => "LIFECYCLE_LEDGER_EVIDENCE_IN_FUTURE observed_at_ms=" +:+ show_N o +:+ " now_ms=" +:+ show_N n
  | LfStaleEvidence a m => "LIFECYCLE_LEDGER_STALE_EVIDENCE age_ms=" +:+ show_N a +:+ " max_age_ms=" +:+ show_N m
  | LfLifecycle e => "LIFECYCLE_LEDGER_TRANSITION_REFUSED " +:+ lifecycle_error_display e
  | LfIo op d => "LIFECYCLE_LEDGER_IO op=" +:+ op +:+ " detail=" +:+ d
  | LfMalformedExistingRow l => "LIFECYCLE_LEDGER_EXISTING_ROW_MALFORMED line=" +:+ l
  | LfNoMatchingLifecycle b t => "LIFECYCLE_LEDGER_NO_MATCHING_LIFECYCLE bead=" +:+ b +:+ " target=" +:+ t
  | LfUnsupportedReplay ev => "LIFECYCLE_LEDGER_UNSUPPORTED_REPLAY event=" +:+ ev
  | LfConflictingIdempotencyKey k => "LIFECYCLE_LEDGER_IDEMPOTENCY_CONFLICT key=" +:+ k
  | LfPartialIdempotency k => "LIFECYCLE_LEDGER_IDEMPOTENCY_PARTIAL key=" +:+ k
  | LfReadbackMismatch => "LIFECYCLE_LEDGER_READBACK_MISMATCH"
  end.

Definition LifecycleIdentity_new (bead : BeadId) (repo : string) (t : DispatchTarget) (digest : string)
    (i : InvokerClass) : result LfError LifecycleIdentity :=
  if is_empty (trim repo) then Err (LfInvalidIdentity "repo")
  else if is_empty (trim digest) then Err (LfInvalidIdentity "packet_digest")
  else Ok (MkIdentity bead repo t digest i).

Definition identity_key (i : LifecycleIdentity) : string :=
  id_bead i +:+ "|" +:+ id_repo i +:+ "|" +:+ session (id_target i) +:+ "|" +:+ pane (id_target i)
  +:+ "|" +:+ id_digest i +:+ "|" +:+ invoker_str (id_invoker i).

(** Evidence: its fields are a sorted map of strings, kept as a JSON object's. *)
Record LedgerEvidence := MkEvidence {
  ev_id : EventId; ev_observed : N; ev_policy : EvidencePolicy; ev_fields : list (string * Json) }.

Definition validate_freshness (observed : N) (p : EvidencePolicy) : result LfError unit :=
  if (now_ms p <? observed)%N then Err (LfEvidenceInFuture observed (now_ms p))
  else let age := (now_ms p - observed)%N in
       if (max_age_ms p <? age)%N then Err (LfStaleEvidence age (max_age_ms p)) else Ok tt.

Definition LedgerEvidence_of (id : EventId) (observed : N) (p : EvidencePolicy) (fields : list (string * Json))
    : result LfError LedgerEvidence :=
  match fields with
  | [] => Err LfEmptyEvidence
  | _ => _ ← validate_freshness observed p; Ok (MkEvidence id observed p fields)
  end.
Definition LedgerEvidence_new (id : EventId) (observed : N) (p : EvidencePolicy)
    (fields : list (string * string)) : result LfError LedgerEvidence :=
  LedgerEvidence_of id observed p (map_of (map (λ kv, (kv.1, JString kv.2)) fields)).
Definition LedgerEvidence_single (id : EventId) (observed : N) (p : EvidencePolicy) (k v : string) :=
  LedgerEvidence_new id observed p [(k, v)].

(** ** Rows. *)

Definition ledger_row (i : LifecycleIdentity) (objective event : string) (st : LifecycleStatus)
    (e : LedgerEvidence) (extra : list (string * Json)) (written_at : N) : Json :=
  JObject (bt_extend extra (map_of
    [("schema", JString BEAD_LIFECYCLE_LEDGER_SCHEMA); ("event", JString event);
     ("status", JString (status_str st)); ("bead", JString (id_bead i)); ("repo", JString (id_repo i));
     ("session", JString (session (id_target i))); ("pane", JString (pane (id_target i)));
     ("packet_digest", JString (id_digest i)); ("objective", JString objective);
     ("idempotency_key", JString (ev_id e));
     ("freshness", jobj
        [("observed_at_ms", JNumber (PosInt (ev_observed e)));
         ("now_ms", JNumber (PosInt (now_ms (ev_policy e))));
         ("max_age_ms", JNumber (PosInt (max_age_ms (ev_policy e))));
         ("age_ms", JNumber (PosInt (now_ms (ev_policy e) - ev_observed e)));
         ("within_window", JBool true)]);
     ("invoker", JString (invoker_str (id_invoker i))); ("evidence", JObject (ev_fields e));
     ("written_at_unix", JNumber (PosInt written_at))])).

(** Two rows are the same but for the time they were written. *)
Definition drop_key (k : string) (v : Json) : Json :=
  match v with
  | JObject l => JObject (List.filter (λ kv, negb (bool_decide (kv.1 = k))) l)
  | v => v
  end.
Definition same_identity_row (a b : Json) : bool :=
  bool_decide (drop_key "written_at_unix" a = drop_key "written_at_unix" b).

Definition row_event_name (row : Json) : string := default "unknown" (as_str (json_index "event" row)).

Section Ledger.
Context `{SerdeJson, ToJson}.

Definition row_string (row : Json) (key : string) : result LfError string :=
  match get_str key row with
  | Some s => if is_empty (trim s) then Err (LfMalformedExistingRow (to_string row)) else Ok s
  | None => Err (LfMalformedExistingRow (to_string row))
  end.

(** A constructor's error inside a ledger call. *)
Definition lift_err {A} (r : result LifecycleError A) : result LfError A :=
  match r with Ok a => Ok a | Err e => Err (LfLifecycle e) end.

Definition row_event_id (row : Json) : result LfError EventId :=
  s ← row_string row "idempotency_key"; lift_err (EventId_new s).
Definition row_observed_at (row : Json) : result LfError N :=
  ok_or ((json_get "freshness" row ≫= json_get "observed_at_ms") ≫= as_u64)
        (LfMalformedExistingRow (to_string row)).
Definition row_identity (row : Json) : result LfError LifecycleIdentity :=
  inv ← row_string row "invoker";
  i ← ok_or (invoker_parse inv) (LfMalformedExistingRow (to_string row));
  b ← row_string row "bead"; b ← lift_err (BeadId_new b);
  repo ← row_string row "repo";
  s ← row_string row "session"; p ← row_string row "pane"; t ← lift_err (DispatchTarget_new s p);
  d ← row_string row "packet_digest";
  LifecycleIdentity_new b repo t d i.

Definition nonblank_lines (text : string) : list string :=
  List.filter (λ l, negb (is_empty (trim l))) (lines text).

Fixpoint parse_lines (l : list string) : result LfError (list Json) :=
  match l with
  | [] => Ok []
  | x :: l => row ← ok_or (from_str x) (LfMalformedExistingRow x); rows ← parse_lines l; Ok (row :: rows)
  end.

(** [read_rows]: an absent file has no rows. *)
Definition rows_of (file : option string) : result LfError (list Json) :=
  parse_lines (nonblank_lines (default EmptyString file)).

(** [existing_rows]: the rows by their key, the last one of each. *)
Fixpoint index_lines (l : list string) (m : gmap string Json) : result LfError (gmap string Json) :=
  match l with
  | [] => Ok m
  | x :: l =>
      row ← ok_or (from_str x) (LfMalformedExistingRow x);
      key ← ok_or (get_str "idempotency_key" row) (LfMalformedExistingRow x);
      index_lines l (<[key := row]> m)
  end.
Definition existing_rows (file : option string) : result LfError (gmap string Json) :=
  index_lines (nonblank_lines (default EmptyString file)) ∅.

(** ** Appending, idempotently. *)

Definition KeyedRow : Type := string * Json.

Fixpoint preflight_go (existing : gmap string Json) (rows : list KeyedRow)
    : result LfError (list AppendOutcome * nat) :=
  match rows with
  | [] => Ok ([], 0%nat)
  | (key, row) :: rows =>
      match existing !! key with
      | Some old =>
          if same_identity_row old row
          then '(os, n) ← preflight_go existing rows; Ok (LReplayed (row_event_name row) :: os, n)
          else Err (LfConflictingIdempotencyKey key)
      | None => '(os, n) ← preflight_go existing rows; Ok (LAppended (row_event_name row) :: os, S n)
      end
  end.

Definition preflight_rows (existing : gmap string Json) (rows : list KeyedRow)
    : result LfError (option (list AppendOutcome)) :=
  match rows with
  | [] => Err LfEmptyEvidence
  | _ =>
      '(os, n) ← preflight_go existing rows;
      if bool_decide (n = 0%nat) then Ok (Some os)
      else if negb (bool_decide (n = length rows))
      then Err (LfPartialIdempotency
                  (match find_first (λ kr, bool_decide (is_Some (existing !! kr.1))) rows with
                   | Some kr => kr.1 | None => "multiple" end))
      else Ok None
  end.

(** The faults of one call, in the order of its file operations, and its clocks. *)
Record CallEnv := MkCallEnv {
  ce_now0 : N; ce_read0 : option string; ce_now : N; ce_read : option string;
  ce_parent : option string; ce_open : option string; ce_write : option (string * nat);
  ce_fsync : option string; ce_open_parent : option string; ce_fsync_parent : option string;
  ce_readback : option string }.

Notation FileM := (StM (option string) LfError).

Definition io_fail (op : string) (fault : option string) : FileM unit :=
  match fault with Some d => stm_fail (LfIo op d) | None => mret tt end.

Definition preflight (fault : option string) (rows : list KeyedRow) : FileM (option (list AppendOutcome)) :=
  _ ← stm_refuse (bool_decide (rows = [])) LfEmptyEvidence;
  _ ← io_fail "read_existing" fault;
  file ← stm_get;
  existing ← stm_lift (existing_rows file);
  stm_lift (preflight_rows existing rows).

Definition row_lines (rows : list KeyedRow) : list string := map (λ kr, to_string kr.2) rows.
Definition line_block (ls : list string) : string := foldr (λ l s, l +:+ lf_str +:+ s) EmptyString ls.

Definition append_rows (env : CallEnv) (rows : list KeyedRow) : FileM (list AppendOutcome) :=
  p ← preflight (ce_read env) rows;
  match p with
  | Some outcomes => mret outcomes
  | None =>
      _ ← io_fail "create_parent" (ce_parent env);
      _ ← io_fail "open_append" (ce_open env);
      let block := line_block (row_lines rows) in
      _ ← match ce_write env with
          | Some (d, k) =>
              _ ← stm_modify (λ f, Some (default EmptyString f +:+ str_take k block));
              stm_fail (LfIo "write" d)
          | None => stm_modify (λ f, Some (default EmptyString f +:+ block))
          end;
      _ ← io_fail "fsync_file" (ce_fsync env);
      _ ← io_fail "open_parent" (ce_open_parent env);
      _ ← io_fail "fsync_parent" (ce_fsync_parent env);
      _ ← io_fail "readback" (ce_readback env);
      file ← stm_get;
      _ ← stm_require (forallb (λ l, bool_decide (l ∈ lines (default EmptyString file))) (row_lines rows))
            LfReadbackMismatch;
      mret (map (λ kr, LAppended (row_event_name kr.2)) rows)
  end.
End Ledger.

(** ** The ledger of one bead: the machine and its file. *)

Record LState := MkLState { l_file : option string; l_life : BeadLifecycle }.

Definition blocker_kind_str (k : BlockerKind) : string :=
  match k with
  | ExternalDependency => "external-dependency" | HumanApproval => "human-approval"
  | LocalCondition => "local-condition"
  end.

Module Ledger.
Section Ops.
Context `{SerdeJson, ToJson} (i : LifecycleIdentity) (objective : string).

Notation LfM := (StM LState LfError).

Definition on_file {A} (m : StM (option string) LfError A) : LfM A := λ s,
  let '(f, r) := m (l_file s) in (MkLState f (l_life s), r).
Definition on_life (m : StM BeadLifecycle LifecycleError unit) : LfM unit := λ s,
  let '(l, r) := m (l_life s) in (MkLState (l_file s) l, lift_err r).
(** [if result.is_err() { self.lifecycle = backup }]. *)
Definition or_restore {A} (backup : BeadLifecycle) (m : LfM A) : LfM A := λ s,
  match m s with
  | (s', Err e) => (MkLState (l_file s') backup, Err e)
  | ok => ok
  end.

(** The shape of every transition: rows already on file are reported as replayed; else
    the machine moves and the rows are appended, and the machine moves back when that
    fails.  [rows] are built anew for the append, at its own clock. *)
Definition journaled (env : CallEnv) (rows0 rows : list KeyedRow)
    (tr : StM BeadLifecycle LifecycleError unit) : LfM (list AppendOutcome) :=
  p ← on_file (preflight (ce_read0 env) rows0);
  match p with
  | Some outcomes => mret outcomes
  | None =>
      s ← stm_get;
      _ ← on_life tr;
      or_restore (l_life s) (on_file (append_rows env rows))
  end.

Definition one_row (event : string) (st : LifecycleStatus) (e : LedgerEvidence)
    (extra : list (string * Json)) (now : N) : list KeyedRow :=
  [(ev_id e, ledger_row i objective event st e extra now)].

Definition journaled_one (env : CallEnv) (event : string) (st : LifecycleStatus) (e : LedgerEvidence)
    (extra : list (string * Json)) (tr : StM BeadLifecycle LifecycleError unit) : LfM (list AppendOutcome) :=
  journaled env (one_row event st e extra (ce_now0 env)) (one_row event st e extra (ce_now env)) tr.

Definition require_key (expected supplied : EventId) : LfM unit :=
  stm_require (bool_decide (expected = supplied)) (LfInvalidIdentity "idempotency_key").

Definition ensure_identity (b : BeadId) (t : DispatchTarget) (o : option string) : LfM unit :=
  _ ← stm_require (bool_decide (b = id_bead i)) (LfInvalidIdentity "bead");
  _ ← stm_require (bool_decide (t = id_target i)) (LfInvalidIdentity "target");
  match o with
  | Some o => stm_require (bool_decide (o = objective)) (LfInvalidIdentity "objective")
  | None => mret tt
  end.

Definition dispatch (env : CallEnv) (r : DispatchReceipt) (e : LedgerEvidence) : LfM (list AppendOutcome) :=
  _ ← require_key (d_id r) (ev_id e);
  _ ← ensure_identity (d_bead r) (d_target r) (Some (d_objective r));
  journaled_one env "dispatch_receipt" Dispatched e [] (Lifecycle.dispatch r).

Definition mark_ungraded (env : CallEnv) (e : LedgerEvidence) : LfM (list AppendOutcome) :=
  journaled_one env "ungraded" Ungraded e [] (Lifecycle.mark_ungraded (ev_id e)).

Definition verify_receiver (env : CallEnv) (r : ReceiverEvidence) (e : LedgerEvidence) : LfM (list AppendOutcome) :=
  _ ← require_key (r_id r) (ev_id e);
  _ ← ensure_identity (r_bead r) (r_target r) (Some (r_objective r));
  journaled_one env "receiver_verified" ReceiverVerified e [] (Lifecycle.verify_receiver r (ev_policy e)).

Definition start_grading (env : CallEnv) (e : LedgerEvidence) (grader : string) : LfM (list AppendOutcome) :=
  journaled_one env "grading_started" Grading e [("grader_pane", JString grader)]
    (Lifecycle.start_grading (ev_id e) grader).

Definition grade_event (r : GradeResult) : string * LifecycleStatus * list (string * Json) :=
  match r with
  | Pass => ("graded_pass", GradedPass, [])
  | Fix name => ("graded_fix", GradedFix, [("result", JString "fix"); ("named_acceptance", JString name)])
  end.
Definition grade_extra (r : GradeReceipt) : list (string * Json) :=
  app (grade_event (grade_result r)).2
      [("grader_pane", JString (g_grader_pane r)); ("receiver_event_id", JString (receiver_event_id r))].

(** A grade is two rows: its receipt, then its result. *)
Definition grade_rows (r : GradeReceipt) (e re : LedgerEvidence) (now now' : N) : list KeyedRow :=
  let '(event, st, _) := grade_event (grade_result r) in
  [(ev_id re, ledger_row i objective "grade_receipt" st re (grade_extra r) now);
   (ev_id e, ledger_row i objective event st e (grade_extra r) now')].

Definition grade (env : CallEnv) (r : GradeReceipt) (e : LedgerEvidence) : LfM (list AppendOutcome) :=
  _ ← require_key (g_id r) (ev_id e);
  _ ← ensure_identity (g_bead r) (g_target r) None;
  rid ← stm_lift (lift_err (EventId_new (ev_id e +:+ ":receipt")));
  re ← stm_lift (LedgerEvidence_of rid (ev_observed e) (ev_policy e) (ev_fields e));
  let rows := grade_rows r e re (ce_now0 env) (ce_now env) in
  journaled env rows rows (Lifecycle.grade r (ev_policy e)).

Definition close (env : CallEnv) (e : LedgerEvidence) : LfM (list AppendOutcome) :=
  journaled_one env "closed" Closed e [] (Lifecycle.close (ev_id e)).

Definition require_redispatch (env : CallEnv) (p : RedispatchPlan) (e : LedgerEvidence) : LfM (list AppendOutcome) :=
  _ ← require_key (p_id p) (ev_id e);
  _ ← ensure_identity (p_bead p) (p_target p) None;
  journaled_one env "redispatch_required" RedispatchRequired e
    [("named_acceptance", JString (fix_name p))] (Lifecycle.require_redispatch p).

Definition blocker_json (b : BlockerEvidence) : Json :=
  jobj [("kind", JString (blocker_kind_str (blocker_kind b))); ("reason", JString (block_reason b));
        ("escalation_ref", JString (escalation_ref b));
        ("observed_at_ms", JNumber (PosInt (blocker_observed_at_ms b)))].
Definition block (env : CallEnv) (e : LedgerEvidence) (b : BlockerEvidence) : LfM (list AppendOutcome) :=
  journaled_one env "blocked" Blocked e [("blocker", blocker_json b)]
    (Lifecycle.block (ev_id e) b (ev_policy e)).

(** [start]: the machine in its first state, and its first row on file. *)
Definition start (env : CallEnv) (approval : Approved) (e : LedgerEvidence) (file : option string)
    : option string * result LfError BeadLifecycle :=
  match select (id_bead i) (id_target i) objective approval (ev_id e) with
  | Err err => (file, Err (LfLifecycle err))
  | Ok life =>
      match append_rows env (one_row "selected" Selected e [] (ce_now env)) file with
      | (file', Ok _) => (file', Ok life)
      | (file', Err err) => (file', Err err)
      end
  end.

(** One row of the file, replayed. *)
Definition life_step (m : StM BeadLifecycle LifecycleError unit) (l : BeadLifecycle) : result LfError BeadLifecycle :=
  match m l with (l', Ok _) => Ok l' | (_, Err e) => Err (LfLifecycle e) end.

Definition replay_row (l : BeadLifecycle) (row : Json) : result LfError BeadLifecycle :=
  event ← ok_or (get_str "event" row) (LfMalformedExistingRow (to_string row));
  id ← row_event_id row;
  at_ms ← row_observed_at row;
  if bool_decide (event = "dispatch_receipt") then
    r ← lift_err (DispatchReceipt_new id (id_bead i) (id_target i) objective at_ms);
    life_step (Lifecycle.dispatch r) l
  else if bool_decide (event = "ungraded") then life_step (Lifecycle.mark_ungraded id) l
  else if bool_decide (event = "receiver_verified") then
    r ← lift_err (ReceiverEvidence_new id (id_bead i) (id_target i) objective at_ms);
    life_step (Lifecycle.verify_receiver r (MkPolicy at_ms 0)) l
  else if bool_decide (event = "grading_started") then
    g ← row_string row "grader_pane";
    life_step (Lifecycle.start_grading id g) l
  else if bool_decide (event = "grade_receipt") then Ok l
  else if bool_decide (event = "graded_pass") || bool_decide (event = "graded_fix") then
    g ← row_string row "grader_pane";
    rid ← row_string row "receiver_event_id";
    rid ← lift_err (EventId_new rid);
    res ← (if bool_decide (event = "graded_pass") then Ok Pass
           else name ← row_string row "named_acceptance"; lift_err (GradeResult_fix name));
    life_step (Lifecycle.grade (MkGrade id (id_bead i) (id_target i) g rid res at_ms) (MkPolicy at_ms 0)) l
  else if bool_decide (event = "closed") then life_step (Lifecycle.close id) l
  else if bool_decide (event = "redispatch_required") then
    name ← row_string row "fix_name";
    p ← lift_err (RedispatchPlan_new id (id_bead i) (id_target i) name);
    life_step (Lifecycle.require_redispatch p) l
  else Err (LfUnsupportedReplay event).

Fixpoint replay (l : BeadLifecycle) (rows : list Json) : result LfError BeadLifecycle :=
  match rows with [] => Ok l | row :: rows => l' ← replay_row l row; replay l' rows end.

(** The rows that carry this identity; any row without a readable one is an error. *)
Fixpoint own_rows (rows : list Json) : result LfError (list Json) :=
  match rows with
  | [] => Ok []
  | row :: rows =>
      j ← row_identity row; rest ← own_rows rows;
      Ok (if bool_decide (j = i) then row :: rest else rest)
  end.

Definition resume (fault : option string) (approval : Approved) (file : option string)
    : result LfError BeadLifecycle :=
  _ ← match fault with Some d => Err (LfIo "read_rows" d) | None => Ok tt end;
  rows ← rows_of file;
  own ← own_rows rows;
  match own with
  | [] => Err (LfNoMatchingLifecycle (id_bead i) (pane (id_target i)))
  | selected :: rest =>
      if negb (bool_decide (get_str "event" selected = Some "selected"))
      then Err (LfUnsupportedReplay (default "missing" (get_str "event" selected)))
      else sid ← row_event_id selected;
           l ← lift_err (select (id_bead i) (id_target i) objective approval sid);
           replay l rest
  end.
End Ops.
End Ledger.

(** ** What the rows of a bead say. *)

Definition PAIR_LT (a b : string * string) : bool :=
  match String.compare a.1 b.1 with
  | Lt => true | Gt => false
  | Eq => match String.compare a.2 b.2 with Lt => true | _ => false end
  end.

Record InFlightIdentity := MkInFlight { if_pane : string; if_key : string }.

(** A released dispatch holds nothing. *)
Definition released (status : string) : bool :=
  existsb (λ s, bool_decide (status = s)) ["closed"; "blocked"; "redispatch_required"].

Record ReceiverVerifiedCandidate := MkCandidate {
  ca_identity : LifecycleIdentity; ca_objective : string; ca_event : EventId }.
Record ActiveGradingClaim := MkClaim { gc_bead : string; gc_receiver : string; gc_grader : string }.
Inductive GradingClaimScan :=
  | ScanLedgerEmpty | FilteredEmpty (dropped : nat) | Active (claims : list ActiveGradingClaim).
Definition claims (s : GradingClaimScan) : list ActiveGradingClaim :=
  match s with Active l => l | _ => [] end.

Section Readers.
Context `{SerdeJson, ToJson}.

Definition read_rows (fault : option string) (file : option string) : result LfError (list Json) :=
  _ ← match fault with Some d => Err (LfIo "read_rows" d) | None => Ok tt end;
  rows_of file.

(** The latest row of every identity, by its key. *)
Fixpoint latest_of {A} (keep : LifecycleIdentity → bool) (value : LifecycleIdentity → Json → result LfError A)
    (rows : list Json) (m : list (string * A)) : result LfError (list (string * A)) :=
  match rows with
  | [] => Ok m
  | row :: rows =>
      i ← row_identity row;
      if negb (keep i) then latest_of keep value rows m
      else v ← value i row; latest_of keep value rows (bt_insert (identity_key i) v m)
  end.

Definition in_flight_for_bead (fault : option string) (file : option string) (bead : string)
    : result LfError (list InFlightIdentity) :=
  rows ← read_rows fault file;
  latest ← latest_of (λ i, bool_decide (id_bead i = bead))
             (λ i row, st ← row_string row "status"; Ok (i, st)) rows [];
  Ok (stable_sort (λ a b, PAIR_LT (if_pane a, if_key a) (if_pane b, if_key b))
        (map (λ kv, MkInFlight (pane (id_target kv.2.1)) kv.1)
           (List.filter (λ kv, negb (released kv.2.2)) latest))).

(** [read_tracker_statuses]: the tracker's file must be readable. *)
Fixpoint tracker_statuses (rows : list string) (m : list (string * string)) : result LfError (list (string * string)) :=
  match rows with
  | [] => Ok m
  | x :: rows =>
      row ← ok_or (from_str x) (LfMalformedExistingRow x);
      id ← row_string row "id"; st ← row_string row "status";
      tracker_statuses rows (bt_insert id st m)
  end.
Definition read_tracker_statuses (text : result string string) : result LfError (list (string * string)) :=
  match text with
  | Err d => Err (LfIo "read_tracker_statuses" d)
  | Ok t => tracker_statuses (nonblank_lines t) []
  end.
Definition workable (statuses : list (string * string)) (bead : string) : bool :=
  match bt_get bead statuses with
  | Some s => bool_decide (s = "open") || bool_decide (s = "in_progress")
  | None => false
  end.

Fixpoint candidates_of (latest : list (string * Json)) : result LfError (list ReceiverVerifiedCandidate) :=
  match latest with
  | [] => Ok []
  | (_, row) :: latest =>
      if bool_decide (get_str "event" row = Some "receiver_verified")
         && bool_decide (get_str "status" row = Some (status_str ReceiverVerified))
      then i ← row_identity row; o ← row_string row "objective"; e ← row_event_id row;
           rest ← candidates_of latest; Ok (MkCandidate i o e :: rest)
      else candidates_of latest
  end.
Definition receiver_verified_candidates (fault : option string) (file : option string)
    (tracker : result string string) : result LfError (list ReceiverVerifiedCandidate) :=
  statuses ← read_tracker_statuses tracker;
  rows ← read_rows fault file;
  latest ← latest_of (λ i, workable statuses (id_bead i)) (λ _ row, Ok row) rows [];
  cs ← candidates_of latest;
  Ok (stable_sort (λ a b, PAIR_LT (id_bead (ca_identity a), pane (id_target (ca_identity a)))
                                  (id_bead (ca_identity b), pane (id_target (ca_identity b)))) cs).

Definition placeholder (value : string) : bool := is_empty value || contains value "<" || contains value ">".
Definition refuse_placeholder (field value : string) : result LfError unit :=
  if placeholder value
  then Err (LfMalformedExistingRow ("placeholder_identity field=" +:+ field +:+ " value=" +:+ value)) else Ok tt.

(** The grading rows: how many were dropped, and the claims of the rest. *)
Fixpoint grading_of (statuses : list (string * string)) (latest : list (string * Json))
    : result LfError (nat * nat * list ActiveGradingClaim) :=
  match latest with
  | [] => Ok (0%nat, 0%nat, [])
  | (_, row) :: latest =>
      if negb (bool_decide (get_str "status" row = Some (status_str Grading))) then grading_of statuses latest
      else i ← row_identity row;
           if negb (workable statuses (id_bead i))
           then '(n, d, cs) ← grading_of statuses latest; Ok (S n, S d, cs)
           else g ← row_string row "grader_pane";
                _ ← refuse_placeholder "bead" (id_bead i);
                _ ← refuse_placeholder "receiver_pane" (pane (id_target i));
                _ ← refuse_placeholder "grader_pane" g;
                '(n, d, cs) ← grading_of statuses latest;
                Ok (S n, d, MkClaim (id_bead i) (pane (id_target i)) g :: cs)
  end.
Definition active_grading_claims (fault : option string) (file : option string) (tracker : result string string)
    : result LfError GradingClaimScan :=
  statuses ← read_tracker_statuses tracker;
  rows ← read_rows fault file;
  latest ← latest_of (λ _, true) (λ _ row, Ok row) rows [];
  '(n, d, cs) ← grading_of statuses latest;
  Ok (if bool_decide (n = 0%nat) then ScanLedgerEmpty
      else if bool_decide (cs = []) then FilteredEmpty d else Active cs).
Definition active_grading_panes fault file tracker : result LfError (list string) :=
  s ← active_grading_claims fault file tracker; Ok (btree_set (map gc_grader (claims s))).

(** [claim_peer_grading]: resume the candidate's lifecycle and start its grading. *)
Definition claim_peer_grading (fault : option string) (env : CallEnv) (file : option string)
    (c : ReceiverVerifiedCandidate) (approval : Approved) (grader : string) (e : LedgerEvidence)
    : option string * result LfError (list AppendOutcome) :=
  match Ledger.resume (ca_identity c) (ca_objective c) fault approval file with
  | Err err => (file, Err err)
  | Ok l =>
      let '(s, r) := Ledger.start_grading (ca_identity c) (ca_objective c) env e grader (MkLState file l) in
      (l_file s, r)
  end.
End Readers.

(** ** The hold of a bead on the pane it was sent to (cross_pane_hold.rs). *)

Inductive HoldIntent := Work | Grade.
Inductive HolderScan := HolderZero | HolderNamed (pane key : string) | HolderUnnamed (key : string).
Inductive CrossPaneRefuse :=
  | Duplicate (bead held target key : string) | RefuseUnnamed (bead key : string).

Definition cross_pane_display (r : CrossPaneRefuse) : string :=
  match r with
  | Duplicate b h t k => "CROSS_PANE_DUPLICATE bead=" +:+ b +:+ " held_pane=" +:+ h +:+ " target_pane=" +:+ t +:+ " identity_key=" +:+ k
  | RefuseUnnamed b k => "CROSS_PANE_HOLDER_UNNAMED bead=" +:+ b +:+ " identity_key=" +:+ k +:+ " distinct_from=ZERO_HOLDERS"
  end.

Definition pane_named (p : string) : bool :=
  let t := trim p in negb (is_empty t) && negb (contains t "<") && negb (contains t ">").

Definition scan (ids : list InFlightIdentity) : HolderScan :=
  match ids with
  | [] => HolderZero
  | first :: _ =>
      match find_first (λ r, negb (pane_named (if_pane r))) ids with
      | Some r => HolderUnnamed (if_key r)
      | None => HolderNamed (if_pane first) (if_key first)
      end
  end.

Definition admit_with_hold (hold : bool) (bead target status : string) (ids : list InFlightIdentity)
    : result CrossPaneRefuse unit :=
  if negb hold then Ok tt
  else if bool_decide (status = "open") then Ok tt
  else match scan ids with
       | HolderZero => Ok tt
       | HolderUnnamed k => Err (RefuseUnnamed bead k)
       | HolderNamed _ _ =>
           match find_first (λ r, pane_named (if_pane r) && negb (bool_decide (if_pane r = target))) ids with
           | Some other => Err (Duplicate bead (if_pane other) target (if_key other))
           | None => Ok tt
           end
       end.
Definition admit_with_intent (intent : HoldIntent) (bead target status : string) (ids : list InFlightIdentity)
    : result CrossPaneRefuse unit :=
  match intent with Grade => Ok tt | Work => admit_with_hold true bead target status ids end.
Definition admit_work := admit_with_intent Work.

(** ** Rows on file: lemmas. *)

Definition row_keys : list string :=
  ["event"; "status"; "bead"; "repo"; "session"; "pane"; "packet_digest"; "objective";
   "idempotency_key"; "freshness"; "invoker"].
(** What may be added to a row: other keys, with values that print and read back. *)
Definition extra_ok (extra : list (string * Json)) : bool :=
  forallb (λ kv, negb (existsb (λ k, bool_decide (kv.1 = k)) row_keys) && canonical kv.2) extra.

Lemma bt_get_extend_ne {A} k (kvs : list (string * A)) : ∀ l,
  Forall (λ kv, kv.1 ≠ k) kvs → bt_get k (bt_extend kvs l) = bt_get k l.
Proof.
  induction kvs as [|[j v] kvs IH]; intros l Hk; [done|]. inversion Hk as [|? ? Hj Hk']; subst.
  change (bt_extend ((j, v) :: kvs) l) with (bt_extend kvs (bt_insert j v l)).
  rewrite IH by done. rewrite bt_get_insert. cbn [fst] in Hj. by rewrite decide_False by congruence.
Qed.

Definition id_ok (i : LifecycleIdentity) : bool :=
  forallb (λ s, negb (blank s))
    [id_bead i; id_repo i; session (id_target i); pane (id_target i); id_digest i].
Definition ev_ok (e : LedgerEvidence) : bool := negb (blank (ev_id e)) && canonical (JObject (ev_fields e)).

Section Rows.
Context `{JsonLaws}.

Lemma row_get i o ev st e extra now k :
  extra_ok extra = true → bool_decide (k ∈ row_keys) = true →
  json_get k (ledger_row i o ev st e extra now) = json_get k (ledger_row i o ev st e [] now).
Proof.
  intros Hx Hk%bool_decide_eq_true. unfold ledger_row, json_get, as_object. cbn [mbind option_bind]. apply bt_get_extend_ne.
  apply Forall_forall. intros kv Hin. unfold extra_ok in Hx. rewrite forallb_forall in Hx.
  apply list_elem_of_In in Hin. apply Hx, andb_true_iff in Hin as [Hn _].
  intros <-. apply negb_true_iff in Hn. apply existsb_false_Forall in Hn.
  rewrite Forall_forall in Hn. apply Hn in Hk. by apply bool_decide_eq_false in Hk.
Qed.

Lemma row_get_str i o ev st e extra now k :
  extra_ok extra = true → bool_decide (k ∈ row_keys) = true →
  get_str k (ledger_row i o ev st e extra now) = get_str k (ledger_row i o ev st e [] now).
Proof. intros Hx Hk. unfold get_str. by rewrite row_get. Qed.

(** The text fields of a row read back when they are not blank. *)
Lemma row_string_get row k s : get_str k row = Some s → blank s = false → row_string row k = Ok s.
Proof. unfold row_string, blank. by intros -> ->. Qed.

Ltac row_field := rewrite row_get_str by (assumption || vm_compute; reflexivity); reflexivity.

Lemma ledger_row_identity i o ev st e extra now :
  id_ok i = true → extra_ok extra = true → row_identity (ledger_row i o ev st e extra now) = Ok i.
Proof.
  intros Hi Hx. unfold id_ok in Hi. cbn [forallb] in Hi. rewrite !andb_true_iff, !negb_true_iff in Hi.
  destruct Hi as (Hb & Hr & Hs & Hp & Hd & _). unfold row_identity.
  rewrite (row_string_get _ "invoker" (invoker_str (id_invoker i))); [|row_field|by destruct (id_invoker i)].
  cbn.
  cbn. rewrite (row_string_get _ "bead" (id_bead i)) by (row_field || done). cbn. unfold BeadId_new. rewrite Hb. cbn.
  rewrite (row_string_get _ "repo" (id_repo i)) by (row_field || done). cbn.
  rewrite (row_string_get _ "session" (session (id_target i))) by (row_field || done). cbn.
  rewrite (row_string_get _ "pane" (pane (id_target i))) by (row_field || done). cbn.
  unfold DispatchTarget_new. rewrite Hs, Hp. cbn.
  rewrite (row_string_get _ "packet_digest" (id_digest i)) by (row_field || done). cbn.
  unfold LifecycleIdentity_new. change (is_empty (trim ?x)) with (blank x). rewrite Hr, Hd.
  by destruct i as [? ? [] ? []].
Qed.

Lemma ledger_row_canonical i o ev st e extra now :
  canonical (JObject (ev_fields e)) = true → extra_ok extra = true →
  canonical (ledger_row i o ev st e extra now) = true.
Proof.
  intros He Hx. apply canonical_object.
  - unfold extra_ok in Hx. rewrite forallb_forall in *. intros kv Hin. by apply Hx, andb_true_iff in Hin as [_ ?].
  - apply canonical_object; [|done]. cbn [forallb snd]. cbn [canonical] in He |- *. by rewrite He.
Qed.

Lemma ledger_row_fields i o ev st e extra now :
  extra_ok extra = true →
  let row := ledger_row i o ev st e extra now in
  get_str "event" row = Some ev ∧ get_str "status" row = Some (status_str st) ∧
  get_str "idempotency_key" row = Some (ev_id e) ∧ get_str "objective" row = Some o ∧
  row_observed_at row = Ok (ev_observed e).
Proof.
  intros Hx row. subst row. split_and!; try row_field.
  unfold row_observed_at. rewrite row_get by (assumption || vm_compute; reflexivity). reflexivity.
Qed.

Lemma ledger_row_event_id i o ev st e extra now :
  ev_ok e = true → extra_ok extra = true → row_event_id (ledger_row i o ev st e extra now) = Ok (ev_id e).
Proof.
  intros [Hb _]%andb_true_iff Hx. apply negb_true_iff in Hb. unfold row_event_id.
  destruct (ledger_row_fields i o ev st e extra now Hx) as (_ & _ & Hk & _).
  rewrite (row_string_get _ _ _ Hk Hb). cbn. unfold EventId_new. by rewrite Hb.
Qed.
End Rows.

(** ** The file: what appending does to its rows. *)

Section FileLemmas.
Context `{JsonLaws}.

Definition row_ok (row : Json) : bool :=
  match row_identity row, row_string row "status", get_str "idempotency_key" row with
  | Ok _, Ok _, Some _ => true | _, _, _ => false
  end.

(** A readable ledger: whole lines, each a row with an identity, a status and a key. *)
Record sound (f : option string) (rows : list Json) : Prop := {
  sd_whole : ends_lf (default EmptyString f) = true;
  sd_rows : rows_of f = Ok rows;
  sd_ok : Forall (λ row, row_ok row = true) rows }.

Definition keyed (row : Json) : string := default "" (get_str "idempotency_key" row).
Definition index_rows (rows : list Json) : gmap string Json := foldl (λ m row, <[keyed row := row]> m) ∅ rows.

Lemma sound_empty : sound None [].
Proof. by constructor. Qed.

Lemma index_lines_rows ls : ∀ rows m,
  parse_lines ls = Ok rows → Forall (λ row, row_ok row = true) rows →
  index_lines ls m = Ok (foldl (λ m row, <[keyed row := row]> m) m rows).
Proof.
  induction ls as [|x ls IH]; intros rows m Hp Hok; cbn [parse_lines index_lines] in *.
  - by injection Hp as <-.
  - destruct (from_str x) as [row|]; cbn in *; [|done].
    destruct (parse_lines ls) as [rest|] eqn:Hr; cbn in Hp; [|done]. injection Hp as <-.
    inversion Hok as [|? ? Hrow Hrest]; subst. unfold row_ok in Hrow. destruct (row_identity row), (row_string row "status"); try done.
    destruct (get_str "idempotency_key" row) as [k|] eqn:Hk; [|done]. cbn.
    rewrite (IH rest) by done. cbn [foldl]. assert (keyed row = k) as -> by (unfold keyed; by rewrite Hk). done.
Qed.

Lemma sound_index f rows : sound f rows → existing_rows f = Ok (index_rows rows).
Proof. intros [_ Hr Hok]. unfold existing_rows, index_rows. by apply index_lines_rows. Qed.

Lemma parse_lines_app a b : parse_lines (app a b) = (x ← parse_lines a; y ← parse_lines b; Ok (app x y)).
Proof.
  induction a as [|l a IH]; cbn [app parse_lines].
  - cbn. by destruct (parse_lines b).
  - destruct (ok_or (from_str l) _); [|done]. cbn. rewrite IH.
    destruct (parse_lines a); [|done]. cbn. by destruct (parse_lines b).
Qed.

Lemma lines_block rows s :
  lines (line_block (row_lines rows) +:+ s) = app (row_lines rows) (lines s).
Proof.
  induction rows as [|[k row] rows IH]; cbn [row_lines map line_block foldr app]; [done|].
  destruct (to_string_line row). rewrite <- !str_app_assoc. rewrite lines_line by done. by f_equal.
Qed.

Lemma nonblank_rows rows : List.filter (λ l, negb (is_empty (trim l))) (row_lines rows) = row_lines rows.
Proof.
  induction rows as [|[k row] rows IH]; cbn [row_lines map List.filter snd]; [done|].
  destruct (to_string_text row) as [Ht Hne].
  rewrite Ht. destruct (to_string row); [done|]. cbn [is_empty negb]. f_equal. exact IH.
Qed.

Lemma parse_row_lines rows :
  Forall (λ kr, canonical kr.2 = true) rows → parse_lines (row_lines rows) = Ok (map snd rows).
Proof.
  induction 1 as [|[k row] rows Hc _ IH]; cbn [row_lines map parse_lines snd]; [done|].
  rewrite from_to_string by done. cbn. unfold row_lines in IH. by rewrite IH.
Qed.

Lemma ends_lf_block rows : ∀ s, ends_lf s = true → ends_lf (s +:+ line_block (row_lines rows)) = true.
Proof.
  induction rows as [|[k row] rows IH]; intros s Hs; cbn [row_lines map line_block foldr].
  - by rewrite str_app_nil_r.
  - rewrite !str_app_assoc. apply IH. rewrite <- str_app_assoc. apply ends_lf_app.
Qed.

(** Appended, the rows are the last rows of a readable file. *)
Lemma sound_append f rows new :
  sound f rows → Forall (λ kr, canonical kr.2 = true ∧ row_ok kr.2 = true) new →
  sound (Some (default EmptyString f +:+ line_block (row_lines new))) (app rows (map snd new)).
Proof.
  intros [Hw Hr Hok] Hnew. constructor.
  - by apply ends_lf_block.
  - unfold rows_of, nonblank_lines in *. cbn [default from_option id]. rewrite lines_app by done.
    rewrite <- (str_app_nil_r (line_block _)), lines_block, app_nil_r.
    rewrite List.filter_app, nonblank_rows, parse_lines_app, Hr. cbn.
    rewrite parse_row_lines; [done|]. eapply Forall_impl; [exact Hnew|]. by intros kr [? _].
  - apply Forall_app. split; [done|]. apply Forall_map. eapply Forall_impl; [exact Hnew|]. by intros kr [_ ?].
Qed.

Lemma ledger_row_ok i o ev st e extra now :
  id_ok i = true → extra_ok extra = true → row_ok (ledger_row i o ev st e extra now) = true.
Proof.
  intros Hi Hx. destruct (ledger_row_fields i o ev st e extra now Hx) as (_ & Hst & Hk & _).
  unfold row_ok. rewrite ledger_row_identity, (row_string_get _ _ _ Hst), Hk by (done || by destruct st). done.
Qed.

(** ** One call, without faults. *)

Definition call_calm (env : CallEnv) : bool :=
  forallb (λ f : option string, match f with None => true | Some _ => false end)
    [ce_read0 env; ce_read env; ce_parent env; ce_open env; ce_fsync env; ce_open_parent env;
     ce_fsync_parent env; ce_readback env]
  && match ce_write env with None => true | Some _ => false end.

Record call_calm_spec (env : CallEnv) : Prop := {
  cc_read0 : ce_read0 env = None; cc_read : ce_read env = None; cc_parent : ce_parent env = None;
  cc_open : ce_open env = None; cc_fsync : ce_fsync env = None; cc_open_parent : ce_open_parent env = None;
  cc_fsync_parent : ce_fsync_parent env = None; cc_readback : ce_readback env = None; cc_write : ce_write env = None }.
Lemma call_calm_elim env : call_calm env = true → call_calm_spec env.
Proof.
  destruct env; unfold call_calm; cbn. repeat match goal with x : option _ |- _ => destruct x; cbn; try done end.
Qed.

Lemma preflight_calm f rows0 rows :
  sound f rows0 → rows ≠ [] → preflight None rows f = (f, preflight_rows (index_rows rows0) rows).
Proof.
  intros Hs Hne. unfold preflight. rewrite bind_fst. unfold stm_refuse, stm_require.
  rewrite bool_decide_eq_false_2 by done. cbn [negb mret stm_ret io_fail]. rewrite bind_fst. cbn [mret stm_ret].
  stm_next. stm_next; [by apply sound_index|]. done.
Qed.

Lemma preflight_fresh m rows :
  rows ≠ [] → Forall (λ kr, m !! kr.1 = None) rows → preflight_rows m rows = Ok None.
Proof.
  intros Hne Hf.
  assert (preflight_go m rows = Ok (map (λ kr, LAppended (row_event_name kr.2)) rows, length rows)) as Hg.
  { clear Hne. induction Hf as [|[k row] rows Hk _ IH]; cbn [preflight_go map length]; [done|]. cbn in Hk. by rewrite Hk, IH. }
  unfold preflight_rows. rewrite Hg. destruct rows as [|kr rows]; [done|]. cbn.
  rewrite bool_decide_eq_false_2 by done. by rewrite bool_decide_eq_true_2.
Qed.

Lemma preflight_known m rows :
  rows ≠ [] → Forall (λ kr, ∃ old, m !! kr.1 = Some old ∧ same_identity_row old kr.2 = true) rows →
  preflight_rows m rows = Ok (Some (map (λ kr, LReplayed (row_event_name kr.2)) rows)).
Proof.
  intros Hne Hf.
  assert (preflight_go m rows = Ok (map (λ kr, LReplayed (row_event_name kr.2)) rows, 0%nat)) as Hg.
  { clear Hne. induction Hf as [|[k row] rows (old & Hk & Hs) _ IH]; cbn [preflight_go map]; [done|]. cbn in Hk, Hs. by rewrite Hk, Hs, IH. }
  unfold preflight_rows. rewrite Hg. destruct rows as [|kr rows]; [done|]. by cbn.
Qed.

Lemma append_rows_calm env f rows0 rows :
  call_calm env = true → sound f rows0 → rows ≠ [] → Forall (λ kr, index_rows rows0 !! kr.1 = None) rows →
  append_rows env rows f =
    (Some (default EmptyString f +:+ line_block (row_lines rows)), Ok (map (λ kr, LAppended (row_event_name kr.2)) rows)).
Proof.
  intros [Hr0 Hr Hp Ho Hfs Hop Hfp Hrb Hw]%call_calm_elim Hs Hne Hf. unfold append_rows. rewrite bind_fst, Hr.
  rewrite (preflight_calm f rows0 rows Hs Hne), preflight_fresh by done.
  rewrite Hp, Ho, Hw, Hfs, Hop, Hfp, Hrb.
  unfold io_fail. do 2 (rewrite bind_fst; cbn [mret stm_ret]). rewrite bind_fst. cbn [stm_modify].
  do 4 (rewrite bind_fst; cbn [mret stm_ret]). stm_next. stm_next; [|done].
  apply forallb_forall. intros l Hl. apply bool_decide_eq_true. cbn [default from_option id].
  rewrite lines_app by apply Hs. rewrite <- (str_app_nil_r (line_block _)), lines_block.
  apply elem_of_app. right. apply elem_of_app. left. by apply list_elem_of_In.
Qed.
End FileLemmas.

(** ** The operations, as one type. *)

Inductive JOp :=
  | JDispatch (env : CallEnv) (r : DispatchReceipt) (e : LedgerEvidence)
  | JUngraded (env : CallEnv) (e : LedgerEvidence)
  | JVerify (env : CallEnv) (r : ReceiverEvidence) (e : LedgerEvidence)
  | JStart (env : CallEnv) (e : LedgerEvidence) (grader : string)
  | JGrade (env : CallEnv) (r : GradeReceipt) (e : LedgerEvidence)
  | JClose (env : CallEnv) (e : LedgerEvidence)
  | JRedispatch (env : CallEnv) (p : RedispatchPlan) (e : LedgerEvidence)
  | JBlock (env : CallEnv) (e : LedgerEvidence) (b : BlockerEvidence).

Definition op_env (o : JOp) : CallEnv :=
  match o with
  | JDispatch env _ _ | JUngraded env _ | JVerify env _ _ | JStart env _ _ | JGrade env _ _
  | JClose env _ | JRedispatch env _ _ | JBlock env _ _ => env
  end.
Definition op_evidence (o : JOp) : LedgerEvidence :=
  match o with
  | JDispatch _ _ e | JUngraded _ e | JVerify _ _ e | JStart _ e _ | JGrade _ _ e
  | JClose _ e | JRedispatch _ _ e | JBlock _ e _ => e
  end.

(** The transition of the machine an operation makes. *)
Definition op_life (o : JOp) : LOp :=
  match o with
  | JDispatch _ r _ => ODispatch r
  | JUngraded _ e => OMarkUngraded (ev_id e)
  | JVerify _ r e => OVerify r (ev_policy e)
  | JStart _ e g => OStartGrading (ev_id e) g
  | JGrade _ r e => OGrade r (ev_policy e)
  | JClose _ e => OClose (ev_id e)
  | JRedispatch _ p _ => ORedispatch p
  | JBlock _ e b => OBlock (ev_id e) b (ev_policy e)
  end.

(** The event, status and added fields of its row. *)
Definition op_row (o : JOp) : string * LifecycleStatus * list (string * Json) :=
  match o with
  | JDispatch _ _ _ => ("dispatch_receipt", Dispatched, [])
  | JUngraded _ _ => ("ungraded", Ungraded, [])
  | JVerify _ _ _ => ("receiver_verified", ReceiverVerified, [])
  | JStart _ _ g => ("grading_started", Grading, [("grader_pane", JString g)])
  | JGrade _ r _ => ((Ledger.grade_event (grade_result r)).1, Ledger.grade_extra r)
  | JClose _ _ => ("closed", Closed, [])
  | JRedispatch _ p _ => ("redispatch_required", RedispatchRequired, [("named_acceptance", JString (fix_name p))])
  | JBlock _ _ b => ("blocked", Blocked, [("blocker", Ledger.blocker_json b)])
  end.

Section Ops.
Context `{JsonLaws} (i : LifecycleIdentity) (objective : string).

Definition exec (o : JOp) : StM LState LfError (list AppendOutcome) :=
  match o with
  | JDispatch env r e => Ledger.dispatch i objective env r e
  | JUngraded env e => Ledger.mark_ungraded i objective env e
  | JVerify env r e => Ledger.verify_receiver i objective env r e
  | JStart env e g => Ledger.start_grading i objective env e g
  | JGrade env r e => Ledger.grade i objective env r e
  | JClose env e => Ledger.close i objective env e
  | JRedispatch env p e => Ledger.require_redispatch i objective env p e
  | JBlock env e b => Ledger.block i objective env e b
  end.

(** What an operation checks before it looks at the file. *)
Definition identity_check (id : EventId) (e : LedgerEvidence) (b : BeadId) (t : DispatchTarget)
    (o : option string) : result LfError unit :=
  if negb (bool_decide (id = ev_id e)) then Err (LfInvalidIdentity "idempotency_key")
  else if negb (bool_decide (b = id_bead i)) then Err (LfInvalidIdentity "bead")
  else if negb (bool_decide (t = id_target i)) then Err (LfInvalidIdentity "target")
  else match o with
       | Some o => if negb (bool_decide (o = objective)) then Err (LfInvalidIdentity "objective") else Ok tt
       | None => Ok tt
       end.
Definition op_check (o : JOp) : result LfError unit :=
  match o with
  | JDispatch _ r e => identity_check (d_id r) e (d_bead r) (d_target r) (Some (d_objective r))
  | JVerify _ r e => identity_check (r_id r) e (r_bead r) (r_target r) (Some (r_objective r))
  | JGrade _ r e =>
      _ ← identity_check (g_id r) e (g_bead r) (g_target r) None;
      rid ← lift_err (EventId_new (ev_id e +:+ ":receipt"));
      _ ← LedgerEvidence_of rid (ev_observed e) (ev_policy e) (ev_fields e); Ok tt
  | JRedispatch _ p e => identity_check (p_id p) e (p_bead p) (p_target p) None
  | _ => Ok tt
  end.

(** The rows of an operation, the first written at [now0], the last at [now]. *)
Definition op_rows (o : JOp) (now0 now : N) : list KeyedRow :=
  let '(event, st, extra) := op_row o in
  let e := op_evidence o in
  let last := (ev_id e, ledger_row i objective event st e extra now) in
  match o with
  | JGrade _ r _ =>
      let re := MkEvidence (ev_id e +:+ ":receipt") (ev_observed e) (ev_policy e) (ev_fields e) in
      [(ev_id re, ledger_row i objective "grade_receipt" st re extra now0); last]
  | _ => [last]
  end.
Definition rows_before (o : JOp) : list KeyedRow :=
  match o with
  | JGrade _ _ _ => op_rows o (ce_now0 (op_env o)) (ce_now (op_env o))
  | _ => op_rows o (ce_now0 (op_env o)) (ce_now0 (op_env o))
  end.
Definition rows_after (o : JOp) : list KeyedRow := op_rows o (ce_now0 (op_env o)) (ce_now (op_env o)).

Lemma LedgerEvidence_of_Ok id obs p fs e : LedgerEvidence_of id obs p fs = Ok e → e = MkEvidence id obs p fs.
Proof.
  unfold LedgerEvidence_of. destruct fs; [done|]. destruct (validate_freshness obs p); cbn; [|done]. by intros [= <-].
Qed.

Lemma identity_check_run {A} id e b t o (k : StM LState LfError A) s :
  (_ ← Ledger.require_key id (ev_id e); _ ← Ledger.ensure_identity i objective b t o; k) s =
  match identity_check id e b t o with Ok _ => k s | Err err => (s, Err err) end.
Proof.
  unfold Ledger.require_key, Ledger.ensure_identity, identity_check, stm_require. rewrite bind_fst.
  destruct (bool_decide _); [|done]. cbn [mret stm_ret negb]. rewrite !bind_fst.
  destruct (bool_decide _); [|done]. cbn [mret stm_ret negb]. rewrite !bind_fst.
  destruct (bool_decide _); [|done]. cbn [mret stm_ret negb].
  destruct o; [|done]. by destruct (bool_decide _).
Qed.

(** Every operation is its checks and then one journaled transition. *)
Lemma exec_eq o s :
  exec o s = match op_check o with
             | Err e => (s, Err e)
             | Ok _ => Ledger.journaled (op_env o) (rows_before o) (rows_after o) (Lifecycle.exec (op_life o)) s
             end.
Proof.
  destruct o as [env r e|env e|env r e|env e g|env r e|env e|env p e|env e b]; try reflexivity; cbn [exec op_check].
  1,2,4: unfold Ledger.dispatch, Ledger.verify_receiver, Ledger.require_redispatch;
    rewrite (identity_check_run _ _ _ _ _ _ s); by destruct (identity_check _ _ _ _ _).
  unfold Ledger.grade. rewrite (identity_check_run _ _ _ _ _ _ s). destruct (identity_check _ _ _ _ _); [|done].
  cbn [mbind]. rewrite bind_fst. unfold stm_lift.
  destruct (lift_err (EventId_new _)) as [rid|] eqn:Hrid; [|done]. rewrite bind_fst.
  destruct (LedgerEvidence_of rid _ _ _) as [re|] eqn:Hre; [|by cbn; rewrite Hre].
  cbn. rewrite Hre. apply LedgerEvidence_of_Ok in Hre as ->.
  assert (rid = ev_id e +:+ ":receipt") as ->.
  { unfold EventId_new in Hrid. destruct (blank _); [done|]. by injection Hrid as <-. }
  unfold rows_before, rows_after, op_rows, Ledger.grade_rows. cbn [op_row op_evidence op_env].
  by destruct (Ledger.grade_event (grade_result r)) as [[ev st] x].
Qed.

Lemma preflight_go_spec m rows : ∀ os n,
  preflight_go m rows = Ok (os, n) →
  (n = 0%nat → Forall (λ a, replayed a = true) os) ∧ (n <= length rows)%nat ∧
  (n = length rows → Forall (λ kr, m !! kr.1 = None) rows).
Proof.
  induction rows as [|[k row] rows IH]; intros os n Hgo; cbn [preflight_go] in Hgo.
  - injection Hgo as <- <-. by repeat constructor.
  - destruct (m !! k) as [old|] eqn:Hk.
    + destruct (same_identity_row old row); [|done].
      destruct (preflight_go m rows) as [[os' n']|]; [|done]. cbn in Hgo. injection Hgo as <- <-.
      destruct (IH os' n' eq_refl) as (Ha & Hle & _). cbn [length]. split_and!; [|lia|lia].
      intros Hn. constructor; [done|auto].
    + destruct (preflight_go m rows) as [[os' n']|]; [|done]. cbn in Hgo. injection Hgo as <- <-.
      destruct (IH os' n' eq_refl) as (_ & Hle & Hall). cbn [length]. split_and!; [done|lia|].
      intros Hn. constructor; [done|apply Hall; lia].
Qed.

Lemma preflight_rows_spec m rows p :
  preflight_rows m rows = Ok p →
  match p with
  | Some os => Forall (λ a, replayed a = true) os
  | None => Forall (λ kr, m !! kr.1 = None) rows
  end.
Proof.
  unfold preflight_rows. destruct rows as [|kr rows]; [done|].
  destruct (preflight_go m (kr :: rows)) as [[os n]|] eqn:Hgo; [|done]. cbn [mbind result_bind].
  apply preflight_go_spec in Hgo as (Hz & _ & Hall).
  destruct (bool_decide (n = 0%nat)) eqn:Hn; [apply bool_decide_eq_true in Hn; intros [= <-]; auto|].
  destruct (bool_decide (n = length (kr :: rows))) eqn:Hl; cbn [negb]; [|done]. apply bool_decide_eq_true in Hl. intros [= <-]. auto.
Qed.

(** Looking at the file does not change it. *)
Lemma preflight_spec fault rows f :
  let '(f', r) := preflight fault rows f in
  f' = f ∧
  (∀ os, r = Ok (Some os) → Forall (λ a, replayed a = true) os) ∧
  (r = Ok None → ∃ m, existing_rows f = Ok m ∧ Forall (λ kr, m !! kr.1 = None) rows).
Proof.
  unfold preflight, stm_refuse, stm_require. rewrite bind_fst.
  destruct (negb (bool_decide _)); [|done]. cbn [mret stm_ret]. rewrite bind_fst. unfold io_fail.
  destruct fault; [done|]. cbn [mret stm_ret]. rewrite bind_fst. unfold stm_get. rewrite bind_fst. unfold stm_lift.
  destruct (existing_rows f) as [m|]; [|done].
  split; [done|]. split; [intros os Hos|intros Hos]; apply preflight_rows_spec in Hos; eauto.
Qed.

(** The next step of a finished run succeeded. *)
Ltac next_ok H :=
  rewrite bind_fst in H;
  match type of H with match ?m with _ => _ end = _ => destruct m as [? [?|]]; [|done] end.

Lemma append_rows_read_back env rows f f' os :
  append_rows env rows f = (f', Ok os) → (∃ m, existing_rows f = Ok m ∧ Forall (λ kr, m !! kr.1 = None) rows) →
  rows ≠ [] → Forall (λ l, l ∈ lines (default EmptyString f')) (row_lines rows).
Proof.
  intros Ha (m & Hm & Hfresh) Hne. unfold append_rows in Ha. rewrite bind_fst in Ha.
  pose proof (preflight_spec (ce_read env) rows f) as Hp.
  destruct (preflight (ce_read env) rows f) as [f1 [[os1|]|e]] eqn:Hpf; [| |done].
  - destruct Hp as [-> _]. unfold preflight, stm_refuse, stm_require in Hpf. rewrite bind_fst in Hpf.
    rewrite bool_decide_eq_false_2 in Hpf by done. cbn [negb mret stm_ret] in Hpf. rewrite bind_fst in Hpf.
    unfold io_fail in Hpf. destruct (ce_read env); [done|]. cbn [mret stm_ret] in Hpf.
    rewrite bind_fst in Hpf. unfold stm_get in Hpf. rewrite bind_fst in Hpf. unfold stm_lift in Hpf.
    rewrite Hm, preflight_fresh in Hpf by done. done.
  - do 7 next_ok Ha.
    rewrite bind_fst in Ha. unfold stm_get in Ha. rewrite bind_fst in Ha. unfold stm_require in Ha.
    destruct (forallb _ (row_lines rows)) eqn:Hall; [|done]. cbn in Ha. injection Ha as <- _.
    apply Forall_forall. intros l Hl. rewrite forallb_forall in Hall.
    apply list_elem_of_In in Hl. apply Hall in Hl. by apply bool_decide_eq_true in Hl.
Qed.

Lemma same_keys o : map fst (rows_before o) = map fst (rows_after o).
Proof.
  by destruct o.
Qed.

Lemma fresh_keys (m : gmap string Json) (l : list KeyedRow) :
  Forall (λ kr, m !! kr.1 = None) l ↔ Forall (λ k, m !! k = None) (map fst l).
Proof. by rewrite Forall_map. Qed.

Lemma rows_after_ne o : rows_after o ≠ [].
Proof. unfold rows_after, op_rows. destruct (op_row o) as [[? ?] ?]. by destruct o. Qed.

(** What a journaled transition does. *)
Lemma journaled_spec o s s' r :
  Ledger.journaled (op_env o) (rows_before o) (rows_after o) (Lifecycle.exec (op_life o)) s = (s', r) →
  (∀ err, r = Err err → l_life s' = l_life s) ∧
  (∀ os, r = Ok os →
     (s' = s ∧ Forall (λ a, replayed a = true) os) ∨
     (stepped (op_life o) (l_life s) (l_life s') ∧
      Forall (λ l, l ∈ lines (default EmptyString (l_file s'))) (row_lines (rows_after o)))).
Proof.
  unfold Ledger.journaled. rewrite bind_fst. unfold Ledger.on_file at 1.
  pose proof (preflight_spec (ce_read0 (op_env o)) (rows_before o) (l_file s)) as Hp.
  destruct (preflight _ (rows_before o) (l_file s)) as [f1 [[os1|]|e1]]; destruct Hp as (-> & Hrep & Hnone).
  - intros [= <- <-]. split; [done|]. intros os [= <-]. left. destruct s; auto.
  - destruct (Hnone eq_refl) as (m & Hm & Hfresh). clear Hnone.
    assert (Forall (λ kr : KeyedRow, m !! kr.1 = None) (rows_after o)) as Hfresh'.
    { apply fresh_keys. rewrite <- same_keys. by apply fresh_keys. }
    rewrite bind_fst. unfold stm_get. cbn [l_life l_file]. rewrite bind_fst. unfold Ledger.on_life. cbn [l_life l_file].
    destruct (Lifecycle.exec (op_life o) (l_life s)) as [l' [[]|e]] eqn:Htr; cbn [lift_err].
    + unfold Ledger.or_restore, Ledger.on_file. cbn [l_life l_file].
      destruct (append_rows (op_env o) (rows_after o) (l_file s)) as [f' [os|e]] eqn:Happ; intros [= <- <-]; (split; [done|]); [|done].
      intros os' [= <-]. right. cbn [l_life l_file]. split; [by apply exec_ok_stepped|].
      eapply append_rows_read_back; [exact Happ| |apply rows_after_ne]. eauto.
    + intros [= <- <-]. split; [|done]. intros err [= <-]. cbn [l_life]. by apply exec_err_unchanged in Htr.
  - intros [= <- <-]. split; [|done]. by destruct s.
Qed.

(** The ledger is never behind its machine.  Whatever a call and its faults, a call
    that fails leaves the machine where it was; a call that succeeds either found its
    rows already on file and changed nothing, or moved the machine by exactly its
    transition and every row of it was read back from the file. *)
Theorem machine_moves_with_file o s :
  let '(s', r) := exec o s in
  (∀ err, r = Err err → l_life s' = l_life s) ∧
  (∀ os, r = Ok os →
     (s' = s ∧ Forall (λ a, replayed a = true) os) ∨
     (stepped (op_life o) (l_life s) (l_life s') ∧
      Forall (λ l, l ∈ lines (default EmptyString (l_file s'))) (row_lines (rows_after o)))).
Proof.
  rewrite exec_eq. destruct (op_check o); [|by split].
  destruct (Ledger.journaled _ _ _ _ s) as [s' r] eqn:Hj. by apply journaled_spec in Hj.
Qed.

(** ** Resuming. *)

(** Calls a resumed ledger can repeat: nothing goes wrong, evidence is as its
    constructors make it, the times of a receipt are those of its row, and the call is
    neither a redispatch nor a block. *)
Definition resumable (o : JOp) : bool :=
  call_calm (op_env o) && ev_ok (op_evidence o) &&
  match o with
  | JVerify _ r e => bool_decide (observed_at_ms r = ev_observed e)
  | JGrade _ r e =>
      bool_decide (graded_at_ms r = ev_observed e) && negb (blank (receiver_event_id r)) &&
      match grade_result r with
      | Pass => true
      | Fix name => negb (blank name) && match GradeResult_fix name with Ok _ => true | Err _ => false end
      end
  | JRedispatch _ _ _ | JBlock _ _ _ => false
  | _ => true
  end.

Lemma op_extra_ok o : extra_ok (op_row o).2 = true.
Proof. destruct o as [| | | |env r e| | |]; try reflexivity. cbn [op_row snd]. unfold Ledger.grade_extra. by destruct (grade_result r). Qed.

Lemma replay_app l a b : Ledger.replay i objective l (app a b) = (l' ← Ledger.replay i objective l a; Ledger.replay i objective l' b).
Proof.
  revert l. induction a as [|row a IH]; intros l; cbn; [done|].
  destruct (Ledger.replay_row i objective l row); cbn; [apply IH|done].
Qed.

Lemma own_rows_app a b :
  Ledger.own_rows i (app a b) = (x ← Ledger.own_rows i a; y ← Ledger.own_rows i b; Ok (app x y)).
Proof.
  induction a as [|row a IH]; cbn [app Ledger.own_rows].
  - cbn. by destruct (Ledger.own_rows i b).
  - destruct (row_identity row) as [j|]; [|done]. cbn. rewrite IH.
    destruct (Ledger.own_rows i a); cbn; [|done]. destruct (Ledger.own_rows i b); cbn; [|done].
    by destruct (bool_decide (j = i)).
Qed.

Lemma own_rows_own rows : Forall (λ row, row_identity row = Ok i) rows → Ledger.own_rows i rows = Ok rows.
Proof.
  induction 1 as [|row rows Hr _ IH]; cbn; [done|]. rewrite Hr. cbn. rewrite IH. cbn. by rewrite bool_decide_eq_true_2.
Qed.

(** The methods of the machine look at a freshness policy only through its check, and
    not at the time of a dispatch. *)
Lemma dispatch_any_time r t l : Lifecycle.dispatch (MkDispatch (d_id r) (d_bead r) (d_target r) (d_objective r) t) l = Lifecycle.dispatch r l.
Proof. done. Qed.

Lemma verify_receiver_at r p l l' :
  Lifecycle.verify_receiver r p l = (l', Ok tt) →
  Lifecycle.verify_receiver r (MkPolicy (observed_at_ms r) 0) l = (l', Ok tt).
Proof.
  intros Hv. unfold Lifecycle.verify_receiver in *.
  rewrite bind_fst in Hv |- *. destruct (require_state _ _ _ l) as [l1 [?|]]; [|done].
  rewrite bind_fst in Hv |- *. destruct (check_identity _ _ _ l1) as [l2 [?|]]; [|done].
  rewrite bind_fst in Hv |- *. unfold stm_lift in *. rewrite check_fresh_now.
  destruct (check_fresh (observed_at_ms r) p); [exact Hv|done].
Qed.

Lemma grade_at r p l l' :
  Lifecycle.grade r p l = (l', Ok tt) → Lifecycle.grade r (MkPolicy (graded_at_ms r) 0) l = (l', Ok tt).
Proof.
  intros Hv. unfold Lifecycle.grade in *.
  rewrite bind_fst in Hv |- *. destruct (require_state _ _ _ l) as [l1 [?|]]; [|done].
  rewrite bind_fst in Hv |- *. destruct (check_identity _ _ _ l1) as [l2 [?|]]; [|done].
  rewrite bind_fst in Hv |- *. unfold stm_lift at 1 in Hv. unfold stm_lift at 1. rewrite check_fresh_now.
  destruct (check_fresh (graded_at_ms r) p); [exact Hv|done].
Qed.

Lemma start_grading_named id g l l' : Lifecycle.start_grading id g l = (l', Ok tt) → blank g = false.
Proof. unfold Lifecycle.start_grading. intros Hs. lm_inv Hs; unbool; done. Qed.

Lemma grade_named r p l l' : Lifecycle.grade r p l = (l', Ok tt) → blank (g_grader_pane r) = false.
Proof. unfold Lifecycle.grade. intros Hs. destruct (grade_result r); lm_inv Hs; unbool; done. Qed.

Lemma identity_check_ok id e b t o :
  identity_check id e b t o = Ok tt →
  id = ev_id e ∧ b = id_bead i ∧ t = id_target i ∧ match o with Some o => o = objective | None => True end.
Proof.
  unfold identity_check. repeat (case_bool_decide; cbn [negb]; [|done]).
  destruct o; [|done]. case_bool_decide; cbn [negb]; [|done]. done.
Qed.

Lemma life_step_run m l l' : m l = (l', Ok tt) → Ledger.life_step m l = Ok l'.
Proof. unfold Ledger.life_step. by intros ->. Qed.

(** What a row says, in the order in which it is replayed. *)
Lemma row_facts ev st e extra now :
  ev_ok e = true → extra_ok extra = true →
  let row := ledger_row i objective ev st e extra now in
  get_str "event" row = Some ev ∧ row_event_id row = Ok (ev_id e) ∧ row_observed_at row = Ok (ev_observed e).
Proof.
  intros He Hx row. destruct (ledger_row_fields i objective ev st e extra now Hx) as (? & _ & _ & _ & ?).
  split_and!; [done|by apply ledger_row_event_id|done].
Qed.

Ltac replay_start :=
  unfold Ledger.replay_row;
  match goal with |- context [get_str "event" (ledger_row _ _ ?ev ?st ?e ?x ?now)] =>
    destruct (row_facts ev st e x now) as (-> & -> & ->); [assumption|vm_compute; reflexivity|]
  end;
  cbn [ok_or mbind result_bind];
  repeat match goal with
  | |- context [bool_decide (?a = ?b :> string)] =>
      let v := eval vm_compute in (bool_decide (a = b)) in change (bool_decide (a = b)) with v; cbn [orb]
  end.

Lemma grade_check_ok env r e :
  op_check (JGrade env r e) = Ok tt →
  g_id r = ev_id e ∧ g_bead r = id_bead i ∧ g_target r = id_target i ∧ blank (ev_id e +:+ ":receipt") = false.
Proof.
  cbn [op_check]. destruct (identity_check _ _ _ _ _) as [[]|] eqn:Hi; [|done]. cbn [mbind result_bind].
  apply identity_check_ok in Hi as (? & ? & ? & _). unfold EventId_new.
  destruct (blank (ev_id e +:+ ":receipt")); [done|]. done.
Qed.

Lemma fix_name_kept name : match GradeResult_fix name with Ok _ => true | Err _ => false end = true → GradeResult_fix name = Ok (Fix name).
Proof. unfold GradeResult_fix. cbv zeta. by destruct (_ || _). Qed.

Lemma replay_grade now0 now env r e l l' :
  resumable (JGrade env r e) = true → op_check (JGrade env r e) = Ok tt →
  Lifecycle.grade r (ev_policy e) l = (l', Ok tt) →
  Ledger.replay i objective l (map snd (op_rows (JGrade env r e) now0 now)) = Ok l'.
Proof.
  intros Hr Hc Hx. unfold resumable in Hr. rewrite !andb_true_iff in Hr.
  destruct Hr as [[_ He] [[Hat Hrid] Hres]]. cbn [op_evidence] in *.
  apply grade_check_ok in Hc as (Hid & Hb & Ht & Hblank).
  apply bool_decide_eq_true in Hat. apply negb_true_iff in Hrid.
  assert (ev_ok (MkEvidence (ev_id e +:+ ":receipt") (ev_observed e) (ev_policy e) (ev_fields e)) = true) as Hre.
  { unfold ev_ok in *. cbn [ev_id ev_fields]. rewrite Hblank. by apply andb_true_iff in He as [_ ?]. }
  pose proof (grade_named _ _ _ _ Hx) as Hg. apply grade_at in Hx.
  unfold op_rows. cbn [op_row op_evidence]. unfold Ledger.grade_extra.
  destruct r as [gid gb gt gp rid res gat]; cbn [g_id g_bead g_target g_grader_pane receiver_event_id grade_result graded_at_ms] in *.
  destruct res as [|name]; cbn [Ledger.grade_event snd fst app map Ledger.replay];
    (replay_start; cbn [mbind result_bind]); replay_start;
    rewrite (row_string_get _ "grader_pane" gp), (row_string_get _ "receiver_event_id" rid) by (done || reflexivity);
    cbn [mbind result_bind]; unfold EventId_new; rewrite Hrid; cbn [lift_err mbind result_bind].
  - rewrite <- Hid, <- Hb, <- Ht, <- Hat. by rewrite (life_step_run _ _ _ Hx).
  - apply andb_true_iff in Hres as [Hn%negb_true_iff Hfix]. 
    rewrite (row_string_get _ "named_acceptance" name) by (done || reflexivity). cbn [mbind result_bind].
    rewrite fix_name_kept by done. cbn [lift_err mbind result_bind].
    rewrite <- Hid, <- Hb, <- Ht, <- Hat. by rewrite (life_step_run _ _ _ Hx).
Qed.

Lemma replay_op o l l' :
  blank objective = false → resumable o = true → op_check o = Ok tt →
  Lifecycle.exec (op_life o) l = (l', Ok tt) → Ledger.replay i objective l (map snd (rows_after o)) = Ok l'.
Proof.
  intros Hobj Hr Hc Hx. pose proof Hr as Hr'. unfold resumable in Hr. rewrite !andb_true_iff in Hr. destruct Hr as [[_ He] Hk].
  destruct o as [env r e|env e|env r e|env e g|env r e|env e|env p e|env e b]; cbn [op_evidence] in *; try done; cbn [Lifecycle.exec op_life] in Hx.
  all: try (apply replay_grade; assumption).
  all: unfold rows_after, op_rows; cbn [op_row op_env op_evidence map snd Ledger.replay].
  - replay_start. cbn [op_check] in Hc. apply identity_check_ok in Hc as (Hid & Hb & Ht & Ho).
    unfold DispatchReceipt_new. rewrite Hobj. cbn [lift_err]. rewrite <- Hid, <- Hb, <- Ht, <- Ho.
    cbn [mbind result_bind]. unfold Ledger.life_step at 1. rewrite dispatch_any_time, Hx. done.
  - replay_start. by rewrite (life_step_run _ _ _ Hx).
  - replay_start. cbn [op_check] in Hc. apply identity_check_ok in Hc as (Hid & Hb & Ht & Ho).
    unfold ReceiverEvidence_new. rewrite Hobj. cbn [lift_err]. apply bool_decide_eq_true in Hk.
    rewrite <- Hid, <- Hb, <- Ht, <- Ho, <- Hk. apply verify_receiver_at in Hx.
    cbn [mbind result_bind]. destruct r; cbn in *. by rewrite (life_step_run _ _ _ Hx).
  - replay_start. assert (blank g = false) as Hg by by eapply start_grading_named.
    rewrite (row_string_get _ "grader_pane" g) by (done || reflexivity). cbn [mbind result_bind].
    by rewrite (life_step_run _ _ _ Hx).
  - replay_start. by rewrite (life_step_run _ _ _ Hx).
Qed.

Lemma rows_after_good o :
  id_ok i = true → ev_ok (op_evidence o) = true →
  Forall (λ kr, (canonical kr.2 = true ∧ row_ok kr.2 = true) ∧ row_identity kr.2 = Ok i) (rows_after o).
Proof.
  intros Hi He. apply andb_true_iff in He as [_ He]. pose proof (op_extra_ok o) as Hx.
  unfold rows_after, op_rows. destruct (op_row o) as [[ev st] extra]. cbn [snd] in Hx.
  assert (∀ ev' e' now, ev_fields e' = ev_fields (op_evidence o) →
    let row := ledger_row i objective ev' st e' extra now in
    (canonical row = true ∧ row_ok row = true) ∧ row_identity row = Ok i) as Hrow.
  { intros ev' e' now Hf row. split; [split|].
    - apply ledger_row_canonical; [by rewrite Hf|done].
    - by apply ledger_row_ok.
    - by apply ledger_row_identity. }
  destruct o; repeat apply Forall_cons_2; try apply Forall_nil_2; by apply Hrow.
Qed.

(** A call that nothing disturbs does nothing, or its whole work. *)
Lemma exec_calm o s rows :
  call_calm (op_env o) = true → sound (l_file s) rows →
  (exec o s).1 = s ∨
  ∃ l', op_check o = Ok tt ∧ Lifecycle.exec (op_life o) (l_life s) = (l', Ok tt) ∧
    Forall (λ kr, index_rows rows !! kr.1 = None) (rows_after o) ∧
    exec o s = (MkLState (Some (default EmptyString (l_file s) +:+ line_block (row_lines (rows_after o)))) l',
                Ok (map (λ kr, LAppended (row_event_name kr.2)) (rows_after o))).
Proof.
  intros Hcalm Hs. pose proof (call_calm_elim _ Hcalm) as [Hr0 _ _ _ _ _ _ _ _].
  rewrite exec_eq. destruct (op_check o) as [[]|] eqn:Hc; [|by left].
  assert (rows_before o ≠ []) as Hne.
  { intros Hn. pose proof (same_keys o) as Hk. rewrite Hn in Hk. pose proof (rows_after_ne o). by destruct (rows_after o). }
  unfold Ledger.journaled. rewrite bind_fst. unfold Ledger.on_file at 1 3. rewrite Hr0, (preflight_calm _ _ _ Hs Hne).
  destruct (preflight_rows (index_rows rows) (rows_before o)) as [[os|]|e] eqn:Hp; [left; by destruct s| |left; by destruct s].
  apply preflight_rows_spec in Hp. rewrite fresh_keys, same_keys, <- fresh_keys in Hp.
  rewrite bind_fst. unfold stm_get. rewrite bind_fst. unfold Ledger.on_life. cbn [l_life l_file].
  destruct (Lifecycle.exec (op_life o) (l_life s)) as [l' [[]|e]] eqn:Htr; cbn [lift_err].
  - right. exists l'. split_and!; [done|done|done|]. unfold Ledger.or_restore, Ledger.on_file. cbn [l_life l_file].
    by rewrite (append_rows_calm _ _ rows) by (done || apply rows_after_ne).
  - left. apply exec_err_unchanged in Htr as ->. by destruct s.
Qed.

(** A call nothing stands in the way of. *)
Lemma exec_run o s rows l' :
  call_calm (op_env o) = true → sound (l_file s) rows → op_check o = Ok tt →
  Lifecycle.exec (op_life o) (l_life s) = (l', Ok tt) →
  Forall (λ kr, index_rows rows !! kr.1 = None) (rows_after o) →
  exec o s = (MkLState (Some (default EmptyString (l_file s) +:+ line_block (row_lines (rows_after o)))) l',
              Ok (map (λ kr, LAppended (row_event_name kr.2)) (rows_after o))).
Proof.
  intros Hcalm Hs Hc Htr Hfresh. pose proof (call_calm_elim _ Hcalm) as [Hr0 _ _ _ _ _ _ _ _].
  assert (rows_before o ≠ []) as Hne.
  { intros Hn. pose proof (same_keys o) as Hk. rewrite Hn in Hk. pose proof (rows_after_ne o). by destruct (rows_after o). }
  rewrite exec_eq, Hc. unfold Ledger.journaled. rewrite bind_fst. unfold Ledger.on_file at 1.
  rewrite Hr0, (preflight_calm _ _ _ Hs Hne), preflight_fresh; [|done|by rewrite fresh_keys, same_keys, <- fresh_keys].
  rewrite bind_fst. unfold stm_get. rewrite bind_fst. unfold Ledger.on_life. cbn [l_life l_file]. rewrite Htr.
  cbn [lift_err]. unfold Ledger.or_restore, Ledger.on_file. cbn [l_life l_file].
  by rewrite (append_rows_calm _ _ rows) by (done || apply rows_after_ne).
Qed.

(** The state is what the file replays to. *)
Definition recovered (approval : Approved) (s : LState) : Prop :=
  ∃ rows sel rest sid l0, sound (l_file s) rows ∧ Ledger.own_rows i rows = Ok (sel :: rest) ∧
    get_str "event" sel = Some "selected" ∧ row_event_id sel = Ok sid ∧
    select (id_bead i) (id_target i) objective approval sid = Ok l0 ∧
    Ledger.replay i objective l0 rest = Ok (l_life s).

Lemma recovered_resume approval s : recovered approval s → Ledger.resume i objective None approval (l_file s) = Ok (l_life s).
Proof.
  intros (rows & sel & rest & sid & l0 & [_ Hr _] & Hown & Hev & Hsid & Hsel & Hrep).
  unfold Ledger.resume. cbn [mbind result_bind]. rewrite Hr. cbn [mbind result_bind]. rewrite Hown. cbn [mbind result_bind].
  rewrite Hev, bool_decide_eq_true_2 by done. cbn [negb]. rewrite Hsid. cbn [mbind result_bind].
  rewrite Hsel. exact Hrep.
Qed.

Lemma exec_recovered approval o s :
  id_ok i = true → blank objective = false → resumable o = true →
  recovered approval s → recovered approval (exec o s).1.
Proof.
  intros Hi Hobj Hr (rows & sel & rest & sid & l0 & Hs & Hown & Hev & Hsid & Hsel & Hrep).
  pose proof Hr as Hr'. unfold resumable in Hr. rewrite !andb_true_iff in Hr. destruct Hr as [[Hcalm He] _].
  destruct (exec_calm o s rows Hcalm Hs) as [->|(l' & Hc & Htr & _ & ->)]; [by exists rows, sel, rest, sid, l0|].
  pose proof (rows_after_good o Hi He) as Hgood. cbn [fst].
  exists (app rows (map snd (rows_after o))), sel, (app rest (map snd (rows_after o))), sid, l0.
  split_and!; [| |done|done|done|].
  - apply sound_append; [done|]. eapply Forall_impl; [exact Hgood|]. by intros kr [? _].
  - rewrite own_rows_app, Hown, own_rows_own; [done|]. apply Forall_map.
    eapply Forall_impl; [exact Hgood|]. by intros kr [_ ?].
  - rewrite replay_app, Hrep. cbn [mbind result_bind l_life]. by apply replay_op.
Qed.

Lemma start_run approval env e f rows l :
  ev_ok e = true → call_calm env = true → sound f rows → index_rows rows !! ev_id e = None →
  select (id_bead i) (id_target i) objective approval (ev_id e) = Ok l →
  Ledger.start i objective env approval e f =
    (Some (default EmptyString f +:+ line_block
             [to_string (ledger_row i objective "selected" Selected e [] (ce_now env))]), Ok l).
Proof.
  intros He Hcalm Hs Hkey Hsel. unfold Ledger.start. rewrite Hsel. unfold Ledger.one_row.
  by rewrite (append_rows_calm _ _ rows) by (done || by repeat constructor).
Qed.

Lemma start_recovered approval env e f rows f1 l :
  id_ok i = true → ev_ok e = true → call_calm env = true →
  sound f rows → Ledger.own_rows i rows = Ok [] → index_rows rows !! ev_id e = None →
  Ledger.start i objective env approval e f = (f1, Ok l) →
  blank objective = false ∧ recovered approval (MkLState f1 l).
Proof.
  intros Hi He Hcalm Hs Hown Hkey. unfold Ledger.start.
  destruct (select _ _ _ _ _) as [l0|err] eqn:Hsel; [|done].
  assert (blank objective = false) as Hobj.
  { unfold select in Hsel. by destruct (blank objective). }
  set (row := ledger_row i objective "selected" Selected e [] (ce_now env)).
  unfold Ledger.one_row. fold row. rewrite (append_rows_calm _ _ rows) by (done || by repeat constructor).
  intros [= <- <-]. split; [done|].
  destruct (row_facts "selected" Selected e [] (ce_now env) He) as (Hev & Hid & _); [done|].
  exists (app rows [row]), row, [], (ev_id e), l0. split_and!; [| |done|done|done|done].
  - apply (sound_append _ _ [(ev_id e, row)]); [done|]. repeat constructor.
    + apply ledger_row_canonical; [|done]. by apply andb_true_iff in He as [_ ?].
    + by apply ledger_row_ok.
  - rewrite own_rows_app, Hown, own_rows_own; [done|]. repeat constructor. by apply ledger_row_identity.
Qed.

(** C9: A grader picks up where the sender left off.  Take a sound ledger -- every line reads
    back and the last one is ended -- that holds no row of this lifecycle and not the start's
    event, whatever it holds of others, start the lifecycle on it, and make any calls of dispatch, ungraded, receiver
    verification, start of grading, grade and close, accepted or refused by the machine,
    new or replayed.  When no call meets a fault of the file, and the evidence is what the
    program builds -- named events, a receiver's or a grade's time that is the time of its
    evidence row, a fix that its constructor accepts -- on an identity without blanks, resuming from the file gives exactly
    the state the calls left in memory: identity, status, receiver, grader, grade, event ids
    and history. *)
Theorem resume_recovers approval env e f rows f1 l0 ops :
  id_ok i = true → ev_ok e = true → call_calm env = true →
  sound f rows → Ledger.own_rows i rows = Ok [] → index_rows rows !! ev_id e = None →
  Ledger.start i objective env approval e f = (f1, Ok l0) →
  Forall (λ o, resumable o = true) ops →
  let s := foldl (λ s o, (exec o s).1) (MkLState f1 l0) ops in
  Ledger.resume i objective None approval (l_file s) = Ok (l_life s).
Proof.
  intros Hi He Hcalm Hs Hown Hkey Hst Hops.
  destruct (start_recovered _ _ _ _ _ _ _ Hi He Hcalm Hs Hown Hkey Hst) as [Hobj Hrec].
  apply recovered_resume. revert Hrec. generalize (MkLState f1 l0).
  induction Hops as [|o ops Ho _ IH]; intros s Hrec; cbn [foldl]; [done|]. apply IH. by apply exec_recovered.
Qed.

(** ** Calling again with the same evidence. *)

Definition with_env (env : CallEnv) (o : JOp) : JOp :=
  match o with
  | JDispatch _ r e => JDispatch env r e | JUngraded _ e => JUngraded env e
  | JVerify _ r e => JVerify env r e | JStart _ e g => JStart env e g
  | JGrade _ r e => JGrade env r e | JClose _ e => JClose env e
  | JRedispatch _ p e => JRedispatch env p e | JBlock _ e b => JBlock env e b
  end.

(** Sorted lists that differ in the value of one key only. *)
Definition same_but (k : string) (l l' : list (string * Json)) : Prop :=
  Forall2 (λ a b, a.1 = b.1 ∧ (a.1 = k ∨ a.2 = b.2)) l l'.

Lemma same_but_refl k l : same_but k l l.
Proof. apply Forall_Forall2_diag, Forall_forall. auto. Qed.

Lemma same_but_insert k j v v' l l' :
  (j = k ∨ v = v') → same_but k l l' → same_but k (bt_insert j v l) (bt_insert j v' l').
Proof.
  intros Hv. induction 1 as [|[a x] [b y] l l' [Hab Hxy] Hl IH]; cbn [bt_insert].
  - apply Forall2_cons_2; [by split|apply Forall2_nil_2].
  - cbn in Hab. subst b. destruct (String.compare j a).
    + by apply Forall2_cons_2.
    + apply Forall2_cons_2; [by split|]. by apply Forall2_cons_2.
    + by apply Forall2_cons_2.
Qed.

Lemma same_but_extend k kvs : ∀ l l', same_but k l l' → same_but k (bt_extend kvs l) (bt_extend kvs l').
Proof.
  induction kvs as [|[j v] kvs IH]; intros l l' Hl; [done|]. cbn. apply IH, same_but_insert; auto.
Qed.

Lemma same_but_drop k l l' : same_but k l l' → drop_key k (JObject l) = drop_key k (JObject l').
Proof.
  intros Hl. cbn [drop_key]. f_equal. induction Hl as [|[a x] [b y] l l' [Hab Hxy] Hl IH]; cbn; [done|].
  cbn in Hab, Hxy. subst b. case_bool_decide; cbn; [done|]. destruct Hxy as [?|<-]; [done|]. by f_equal.
Qed.

Lemma ledger_row_any_time ev st e extra n n' :
  same_identity_row (ledger_row i objective ev st e extra n) (ledger_row i objective ev st e extra n') = true.
Proof.
  unfold same_identity_row. apply bool_decide_eq_true, same_but_drop, same_but_extend.
  unfold map_of, bt_extend. cbn [fold_left fst snd]. apply same_but_insert; [by left|apply same_but_refl].
Qed.

(** The same rows at other times. *)
Lemma rows_any_time o n1 n2 n3 n4 :
  Forall2 (λ a b, a.1 = b.1 ∧ same_identity_row a.2 b.2 = true) (op_rows o n1 n2) (op_rows o n3 n4).
Proof.
  unfold op_rows. destruct (op_row o) as [[ev st] extra].
  destruct o; repeat constructor; apply ledger_row_any_time.
Qed.

Lemma index_app_new rows new : ∀ m : gmap string Json,
  NoDup (map keyed new) → ∀ row, row ∈ new →
  foldl (λ m row, <[keyed row := row]> m) (foldl (λ m row, <[keyed row := row]> m) m rows) new !! keyed row = Some row.
Proof.
  intros m. generalize (foldl (λ m row, <[keyed row := row]> m) m rows). clear m rows.
  assert (∀ (new : list Json) (m : gmap string Json) k, k ∉ map keyed new →
    foldl (λ m row, <[keyed row := row]> m) m new !! k = m !! k) as Hskip.
  { induction new0 as [|x new0 IH]; intros m k Hk; cbn [foldl]; [done|].
    cbn [map] in Hk. apply not_elem_of_cons in Hk as [Hne Hk]. rewrite IH by done. by apply lookup_insert_ne. }
  induction new as [|x new IH]; intros m Hnd row Hin; [by apply not_elem_of_nil in Hin|].
  cbn [map] in Hnd. apply NoDup_cons in Hnd as [Hx Hnd]. cbn [foldl].
  apply elem_of_cons in Hin as [->|Hin]; [|by apply IH]. rewrite Hskip by done. apply lookup_insert_eq.
Qed.

Lemma receipt_key_ne (s : string) : s +:+ ":receipt" ≠ s.
Proof. intros Hs. apply (f_equal String.length) in Hs. rewrite str_app_length in Hs. cbn in Hs. lia. Qed.

Lemma op_rows_keyed o n1 n2 :
  Forall (λ kr, keyed kr.2 = kr.1) (op_rows o n1 n2) ∧ NoDup (map keyed (map snd (op_rows o n1 n2))).
Proof.
  pose proof (op_extra_ok o) as Hx. unfold op_rows. destruct (op_row o) as [[ev st] extra]. cbn [snd] in Hx.
  assert (∀ ev' e' now, keyed (ledger_row i objective ev' st e' extra now) = ev_id e') as Hk.
  { intros ev' e' now. unfold keyed. destruct (ledger_row_fields i objective ev' st e' extra now Hx) as (_ & _ & -> & _). done. }
  split.
  - destruct o; repeat apply Forall_cons_2; try apply Forall_nil_2; by cbn [snd fst].
  - destruct o; cbn [map snd]; rewrite !Hk; cbn [ev_id]; try apply NoDup_singleton.
    apply NoDup_cons. split; [|apply NoDup_singleton]. rewrite list_elem_of_singleton. apply receipt_key_ne.
Qed.

Lemma with_env_rows env o : ∃ n n', rows_before (with_env env o) = op_rows o n n'.
Proof.
  destruct o; first [exists (ce_now0 env), (ce_now env); reflexivity|exists (ce_now0 env), (ce_now0 env); reflexivity].
Qed.

(** A call whose rows are on file already changes nothing, whatever the machine's state. *)
Lemma exec_known o env rows f l :
  call_calm env = true → op_check o = Ok tt →
  sound (Some f) (app rows (map snd (rows_after o))) →
  ∃ os', exec (with_env env o) (MkLState (Some f) l) = (MkLState (Some f) l, Ok os') ∧
         Forall (λ a, replayed a = true) os'.
Proof.
  intros Hc' Hck Hs'.
  assert (op_check (with_env env o) = Ok tt) as Hck' by (by destruct o).
  rewrite exec_eq, Hck'. unfold Ledger.journaled. rewrite bind_fst. unfold Ledger.on_file at 1.
  assert (op_env (with_env env o) = env) as -> by (by destruct o).
  destruct (call_calm_elim _ Hc') as [Hr0 _ _ _ _ _ _ _ _]. cbn [l_file l_life]. rewrite Hr0.
  destruct (with_env_rows env o) as (n & n' & ->).
  destruct (op_rows_keyed o (ce_now0 (op_env o)) (ce_now (op_env o))) as [Hkeyed Hnd].
  pose proof (rows_any_time o (ce_now0 (op_env o)) (ce_now (op_env o)) n n') as Hsim. fold (rows_after o) in *.
  assert (op_rows o n n' ≠ []) as Hne'.
  { intros Hn. rewrite Hn in Hsim. pose proof (rows_after_ne o). by inversion Hsim. }
  rewrite (preflight_calm _ _ _ Hs' Hne'), preflight_known; [|done|].
  - eexists. split; [done|]. apply Forall_map, Forall_forall. done.
  - assert (∀ kr, kr ∈ rows_after o → index_rows (app rows (map snd (rows_after o))) !! kr.1 = Some kr.2) as Hidx.
    { intros kr Hkr. unfold index_rows. rewrite foldl_app. rewrite Forall_forall in Hkeyed. rewrite <- (Hkeyed kr Hkr).
      apply index_app_new; [done|]. apply list_elem_of_fmap. by exists kr. }
    revert Hsim Hidx. generalize (index_rows (app rows (map snd (rows_after o)))). intros m Hsim Hidx.
    clear - Hsim Hidx. induction Hsim as [|a b l l' [Hk Hab] _ IH]; constructor.
    + exists a.2. rewrite <- Hk. split; [|done]. apply Hidx, list_elem_of_here.
    + apply IH. intros kr Hkr. apply Hidx. by apply list_elem_of_further.
Qed.

(** C23: Retrying is safe.  A call that met no fault, on a sound ledger, and succeeded with a
    change, is on file: made again on what it left, with the same evidence, at any other
    time and again without a fault, it is reported as replayed and changes nothing, neither
    the file nor the machine.  (The identity's parts and the event's name are not blank.) *)
Theorem retry_is_replayed o env s rows s' os :
  id_ok i = true → ev_ok (op_evidence o) = true → call_calm (op_env o) = true → call_calm env = true →
  sound (l_file s) rows → exec o s = (s', Ok os) → s' ≠ s →
  ∃ os', exec (with_env env o) s' = (s', Ok os') ∧ Forall (λ a, replayed a = true) os'.
Proof.
  intros Hi He Hc Hc' Hs Hx Hne.
  destruct (exec_calm o s rows Hc Hs) as [Hsame|(l' & Hck & Htr & Hfresh & Heq)]; [by rewrite Hx in Hsame|].
  rewrite Hx in Heq. injection Heq as -> _.
  apply (exec_known _ _ rows); [done|done|]. apply sound_append; [done|].
  eapply Forall_impl; [by apply rows_after_good|]. by intros kr [? _].
Qed.

(** The faults of a call whose block is written and whose sync then fails. *)
Record unsynced (env : CallEnv) (d : string) : Prop := {
  us_read0 : ce_read0 env = None; us_read : ce_read env = None; us_parent : ce_parent env = None;
  us_open : ce_open env = None; us_write : ce_write env = None; us_fsync : ce_fsync env = Some d }.

Lemma append_rows_unsynced env d f rows0 rows :
  unsynced env d → sound f rows0 → rows ≠ [] → Forall (λ kr, index_rows rows0 !! kr.1 = None) rows →
  append_rows env rows f = (Some (default EmptyString f +:+ line_block (row_lines rows)), Err (LfIo "fsync_file" d)).
Proof.
  intros [_ Hr Hp Ho Hw Hfs] Hs Hne Hf. unfold append_rows. rewrite bind_fst, Hr.
  rewrite (preflight_calm f rows0 rows Hs Hne), preflight_fresh by done. rewrite Hp, Ho, Hw, Hfs. unfold io_fail.
  do 2 (rewrite bind_fst; cbn [mret stm_ret]). rewrite bind_fst. cbn [stm_modify]. by rewrite bind_fst.
Qed.

(** A sync that fails after the block is written parts the machine from its ledger.
    The call is refused and the machine moves back, the row stays on file, and calling
    again reports the row as replayed without moving the machine. *)
Theorem sync_failure_leaves_machine_behind o env d rows s l' :
  id_ok i = true → ev_ok (op_evidence o) = true → unsynced (op_env o) d → call_calm env = true →
  sound (l_file s) rows → op_check o = Ok tt →
  Lifecycle.exec (op_life o) (l_life s) = (l', Ok tt) →
  Forall (λ kr, index_rows rows !! kr.1 = None) (rows_after o) →
  ∃ f s1 os', exec o s = (s1, Err (LfIo "fsync_file" d)) ∧ s1 = MkLState (Some f) (l_life s) ∧
    rows_of (Some f) = Ok (app rows (map snd (rows_after o))) ∧
    exec (with_env env o) s1 = (s1, Ok os') ∧ Forall (λ a, replayed a = true) os'.
Proof.
  intros Hi He Hu Hc' Hs Hck Htr Hfresh.
  set (f := default EmptyString (l_file s) +:+ line_block (row_lines (rows_after o))).
  assert (sound (Some f) (app rows (map snd (rows_after o)))) as Hs'.
  { apply sound_append; [done|]. eapply Forall_impl; [by apply rows_after_good|]. by intros kr [? _]. }
  destruct (exec_known o env rows f (l_life s) Hc' Hck Hs') as (os' & Hx & Hos).
  exists f, (MkLState (Some f) (l_life s)), os'. split_and!; [|done|apply Hs'|done|done].
  assert (rows_before o ≠ []) as Hne.
  { intros Hn. pose proof (same_keys o) as Hk. rewrite Hn in Hk. pose proof (rows_after_ne o). by destruct (rows_after o). }
  rewrite exec_eq, Hck. unfold Ledger.journaled. rewrite bind_fst. unfold Ledger.on_file at 1.
  rewrite (us_read0 _ _ Hu), (preflight_calm _ _ _ Hs Hne), preflight_fresh;
    [|done|by rewrite fresh_keys, same_keys, <- fresh_keys].
  rewrite bind_fst. unfold stm_get. rewrite bind_fst. unfold Ledger.on_life. cbn [l_life l_file]. rewrite Htr.
  cbn [lift_err]. unfold Ledger.or_restore, Ledger.on_file. cbn [l_life l_file].
  by rewrite (append_rows_unsynced _ d _ rows) by (done || apply rows_after_ne).
Qed.

(** ** A redispatch is written under a name that resuming does not read. *)

Lemma replay_stuck row rows : ∀ l,
  row ∈ rows → get_str "event" row = Some "redispatch_required" → get_str "fix_name" row = None →
  ∃ e, Ledger.replay i objective l rows = Err e.
Proof.
  induction rows as [|x rows IH]; intros l Hin Hev Hfix; [by apply not_elem_of_nil in Hin|].
  cbn [Ledger.replay]. apply elem_of_cons in Hin as [<-|Hin].
  - unfold Ledger.replay_row. rewrite Hev. cbn [ok_or mbind result_bind].
    destruct (row_event_id row) as [id|e]; [|by exists e]. destruct (row_observed_at row) as [t|e]; [|by exists e].
    cbn [mbind result_bind].
    repeat match goal with
    | |- context [bool_decide (?a = ?b :> string)] =>
        let v := eval vm_compute in (bool_decide (a = b)) in change (bool_decide (a = b)) with v; cbn [orb]
    end.
    unfold row_string. rewrite Hfix. by eexists.
  - destruct (Ledger.replay_row i objective l x) as [l'|e]; [|by exists e]. cbn [mbind result_bind]. by apply IH.
Qed.

Lemma own_rows_elem rows own row :
  Ledger.own_rows i rows = Ok own → row ∈ rows → row_identity row = Ok i → row ∈ own.
Proof.
  revert own. induction rows as [|x rows IH]; intros own Hown Hin Hrow; [by apply not_elem_of_nil in Hin|].
  cbn [Ledger.own_rows] in Hown. destruct (row_identity x) as [j|] eqn:Hj; [|done]. cbn [mbind result_bind] in Hown.
  destruct (Ledger.own_rows i rows) as [rest|]; [|done]. cbn [mbind result_bind] in Hown. injection Hown as <-.
  apply elem_of_cons in Hin as [<-|Hin].
  - rewrite Hrow in Hj. injection Hj as <-. rewrite bool_decide_eq_true_2 by done. apply list_elem_of_here.
  - case_bool_decide; [apply list_elem_of_further|]; by apply IH.
Qed.

Lemma exec_grows o s rows :
  id_ok i = true → call_calm (op_env o) = true → ev_ok (op_evidence o) = true → sound (l_file s) rows →
  ∃ more, sound (l_file (exec o s).1) (app rows more).
Proof.
  intros Hi Hc He Hs. destruct (exec_calm o s rows Hc Hs) as [->|(l' & _ & _ & _ & ->)].
  - exists []. by rewrite app_nil_r.
  - eexists. apply sound_append; [done|]. eapply Forall_impl; [by apply rows_after_good|]. by intros kr [? _].
Qed.

(** A lifecycle that was redispatched can never be resumed.  Once a redispatch is on
    file, resuming that lifecycle fails, whatever calls come after: the row names the
    fix "named_acceptance" and [resume] asks for "fix_name". *)
Theorem redispatched_never_resumes env p e s rows s' os ops approval :
  id_ok i = true → call_calm env = true → ev_ok e = true → sound (l_file s) rows →
  exec (JRedispatch env p e) s = (s', Ok os) → s' ≠ s →
  Forall (λ o, call_calm (op_env o) = true ∧ ev_ok (op_evidence o) = true) ops →
  ∃ err, Ledger.resume i objective None approval (l_file (foldl (λ s o, (exec o s).1) s' ops)) = Err err.
Proof.
  intros Hi Hc He Hs Hx Hne Hops.
  destruct (exec_calm (JRedispatch env p e) s rows Hc Hs) as [Hsame|(l' & _ & _ & _ & Heq)]; [by rewrite Hx in Hsame|].
  set (row := ledger_row i objective "redispatch_required" RedispatchRequired e [("named_acceptance", JString (fix_name p))] (ce_now env)) in *.
  assert (∃ rows', sound (l_file s') rows' ∧ row ∈ rows') as Hrow.
  { exists (app rows [row]). split; [|apply elem_of_app; right; apply list_elem_of_here].
    rewrite Hx in Heq. injection Heq as -> _. cbn [l_file].
    apply (sound_append _ _ (rows_after (JRedispatch env p e))); [done|].
    eapply Forall_impl; [by apply rows_after_good|]. by intros kr [? _]. }
  clear Hx Heq Hne. revert s' Hrow.
  induction Hops as [|o ops [Ho1 Ho2] _ IH]; intros s' (rows' & Hs' & Hin); cbn [foldl].
  - unfold Ledger.resume. cbn [mbind result_bind]. rewrite (sd_rows _ _ Hs'). cbn [mbind result_bind].
    destruct (Ledger.own_rows i rows') as [own|err] eqn:Hown; [|by eexists]. cbn [mbind result_bind].
    assert (row_identity row = Ok i) as Hid by by apply ledger_row_identity.
    pose proof (own_rows_elem _ _ _ Hown Hin Hid) as Hin'.
    destruct (ledger_row_fields i objective "redispatch_required" RedispatchRequired e [("named_acceptance", JString (fix_name p))] (ce_now env) eq_refl) as (Hev & _).
    fold row in Hev. destruct own as [|sel rest]; [by eexists|].
    case_bool_decide as Hsel; cbn [negb]; [|by eexists].
    apply elem_of_cons in Hin' as [<-|Hin']; [congruence|].
    destruct (row_event_id sel) as [sid|]; [|by eexists]. cbn [mbind result_bind].
    destruct (lift_err _) as [l0|]; [|by eexists]. cbn [mbind result_bind].
    by apply (replay_stuck row).
  - apply IH. destruct (exec_grows o s' rows' Hi Ho1 Ho2 Hs') as [more Hmore].
    exists (app rows' more). split; [done|]. apply elem_of_app. by left.
Qed.

(** ** The hold of a bead on its pane. *)

Lemma op_status o l l' : Lifecycle.exec (op_life o) l = (l', Ok tt) → state l' = (op_row o).1.2.
Proof.
  destruct o as [env r e|env e|env r e|env e g|env r e|env e|env p e|env e b]; cbn [Lifecycle.exec op_life op_row]; intros Hx.
  - unfold Lifecycle.dispatch in Hx. lm_inv Hx. done.
  - unfold Lifecycle.mark_ungraded in Hx. lm_inv Hx. done.
  - unfold Lifecycle.verify_receiver in Hx. lm_inv Hx. done.
  - unfold Lifecycle.start_grading in Hx. lm_inv Hx. done.
  - unfold Lifecycle.grade in Hx. destruct (grade_result r); lm_inv Hx; done.
  - unfold Lifecycle.close in Hx. lm_inv Hx. done.
  - unfold Lifecycle.require_redispatch in Hx. lm_inv Hx; done.
  - unfold Lifecycle.block in Hx. lm_inv Hx. done.
Qed.
End Ops.

(** A bead is admitted to a pane exactly when it is open, or every dispatch of it that
    is still in flight names its pane and that pane is this one.  A holder that cannot be
    named refuses, it is not no holder. *)
Lemma hold_admits_iff bead target status ids :
  admit_work bead target status ids = Ok tt ↔
  status = "open" ∨ ∀ r, r ∈ ids → pane_named (if_pane r) = true ∧ if_pane r = target.
Proof.
  unfold admit_work, admit_with_intent, admit_with_hold. cbn [negb]. case_bool_decide as Hopen; [by split; [left|]|].
  unfold scan. destruct ids as [|first ids].
  { split; [|done]. right. by intros r ?%not_elem_of_nil. }
  destruct (find_first (λ r, negb (pane_named (if_pane r))) (first :: ids)) as [u|] eqn:Hu.
  - split; [done|]. intros [?|Hall]; [done|]. apply find_first_Some in Hu as (l1 & l2 & Heq & Hn & _).
    destruct (Hall u) as [Hp _]; [rewrite Heq; apply elem_of_app; right; apply list_elem_of_here|]. by rewrite Hp in Hn.
  - apply find_first_None in Hu. rewrite Forall_forall in Hu.
    destruct (find_first (λ r, pane_named (if_pane r) && _) (first :: ids)) as [o|] eqn:Ho.
    + split; [done|]. intros [?|Hall]; [done|]. apply find_first_Some in Ho as (l1 & l2 & Heq & Hn & _).
      apply andb_true_iff in Hn as [_ Hn%negb_true_iff%bool_decide_eq_false].
      destruct (Hall o) as [_ Hp]; [rewrite Heq; apply elem_of_app; right; apply list_elem_of_here|]. done.
    + apply find_first_None in Ho. rewrite Forall_forall in Ho. split; [|done]. intros _. right. intros r Hr.
      specialize (Hu r Hr). specialize (Ho r Hr). apply negb_false_iff in Hu. rewrite Hu in Ho. cbn in Ho.
      apply negb_false_iff, bool_decide_eq_true in Ho. done.
Qed.

Section Hold.
Context `{JsonLaws}.

Definition in_flight_value (i : LifecycleIdentity) (row : Json) : result LfError (LifecycleIdentity * string) :=
  st ← row_string row "status"; Ok (i, st).

Lemma in_flight_value_at i row st : row_string row "status" = Ok st → in_flight_value i row = Ok (i, st).
Proof. unfold in_flight_value. by intros ->. Qed.

(** The latest row of an identity is the last one that carries its key. *)
Lemma latest_of_last keep pre row i st rows_after : ∀ m,
  Forall (λ row, row_ok row = true) (app pre (row :: rows_after)) →
  row_identity row = Ok i → keep i = true → row_string row "status" = Ok st →
  Forall (λ r, ∀ j, row_identity r = Ok j → keep j = true → identity_key j ≠ identity_key i) rows_after →
  ∃ m', latest_of keep in_flight_value (app pre (row :: rows_after)) m = Ok m' ∧
        bt_get (identity_key i) m' = Some (i, st).
Proof.
  assert (∀ rows m v, Forall (λ row, row_ok row = true) rows →
    Forall (λ r, ∀ j, row_identity r = Ok j → keep j = true → identity_key j ≠ identity_key i) rows →
    bt_get (identity_key i) m = Some v →
    ∃ m', latest_of keep in_flight_value rows m = Ok m' ∧ bt_get (identity_key i) m' = Some v) as Hskip.
  { induction rows as [|r rows IH]; intros m v Hok Hk Hm; cbn [latest_of]; [by exists m|].
    inversion Hok as [|? ? Hr Hrows]; subst. inversion Hk as [|? ? Hkr Hkrows]; subst.
    unfold row_ok in Hr. destruct (row_identity r) as [j|] eqn:Hj; [|done]. cbn [mbind result_bind].
    destruct (keep j) eqn:Hkeep; cbn [negb]; [|by apply IH].
    destruct (row_string r "status") as [s'|] eqn:Hs'; [|done]. rewrite (in_flight_value_at j r s' Hs').
    cbn [mbind result_bind]. apply IH; [done|done|].
    rewrite bt_get_insert, decide_False; [done|]. intros Heq. by apply (Hkr j). }
  induction pre as [|r pre IH]; intros m Hok Hi Hkeep Hst Hlast; cbn [app latest_of] in *.
  - rewrite Hi. cbn [mbind result_bind]. rewrite Hkeep. cbn [negb]. rewrite (in_flight_value_at i row st Hst).
    cbn [mbind result_bind]. inversion Hok as [|? ? _ Hrows]; subst. apply Hskip; [done|done|].
    by rewrite bt_get_insert, decide_True.
  - inversion Hok as [|? ? Hr Hrows]; subst. unfold row_ok in Hr.
    destruct (row_identity r) as [j|]; [|done]. cbn [mbind result_bind].
    destruct (keep j); cbn [negb]; [|by apply IH].
    destruct (row_string r "status") as [s'|] eqn:Hs'; [|done]. rewrite (in_flight_value_at j r s' Hs').
    cbn [mbind result_bind]. by apply IH.
Qed.

(** A bead whose last row is not a released one is in flight on that row's pane. *)
Lemma in_flight_last f rows pre row i st bead :
  sound f rows → rows = app pre [row] → row_identity row = Ok i → id_bead i = bead →
  row_string row "status" = Ok st → released st = false →
  ∃ ids, in_flight_for_bead None f bead = Ok ids ∧ MkInFlight (pane (id_target i)) (identity_key i) ∈ ids.
Proof.
  intros Hs -> Hi <- Hst Hrel.
  destruct (latest_of_last (λ j, bool_decide (id_bead j = id_bead i)) pre row i st [] []) as (m & Hm & Hget).
  { apply Hs. } { done. } { by apply bool_decide_eq_true. } { done. } { apply Forall_nil_2. }
  unfold in_flight_for_bead, read_rows. cbn [mbind result_bind]. rewrite (sd_rows _ _ Hs). cbn [mbind result_bind].
  fold in_flight_value. rewrite Hm. cbn [mbind result_bind]. eexists. split; [done|].
  rewrite stable_sort_Permutation. apply list_elem_of_fmap. exists (identity_key i, (i, st)). split; [done|].
  apply list_elem_of_In, filter_In. split; [|cbn [snd]; by rewrite Hrel]. apply list_elem_of_In.
  unfold bt_get in Hget. destruct (find_first _ m) as [[k v]|] eqn:Hf; [|done]. injection Hget as ->.
  apply find_first_Some in Hf as (l1 & l2 & -> & Hk & _). apply bool_decide_eq_true in Hk. cbn in Hk. subst k.
  apply elem_of_app. right. apply list_elem_of_here.
Qed.

(** The last row of a dispatch of a bead, and the status in it. *)
Definition last_row_of (rows : list Json) (bead : string) (i : LifecycleIdentity) (st : string) : Prop :=
  ∃ pre row rest, rows = app pre (row :: rest) ∧ row_identity row = Ok i ∧ id_bead i = bead ∧
    row_string row "status" = Ok st ∧
    Forall (λ r, ∀ j, row_identity r = Ok j → id_bead j = bead → identity_key j ≠ identity_key i) rest.

Lemma latest_of_app keep pre rows : ∀ m,
  latest_of keep in_flight_value (app pre rows) m
  = m' ← latest_of keep in_flight_value pre m; latest_of keep in_flight_value rows m'.
Proof.
  induction pre as [|r pre IH]; intros m; cbn [app latest_of]; [done|].
  destruct (row_identity r) as [j|]; cbn [mbind result_bind]; [|done].
  destruct (keep j); cbn [negb]; [|apply IH]. destruct (in_flight_value j r); cbn [mbind result_bind]; [apply IH|done].
Qed.

(** Rows of other dispatches leave what is kept of this one. *)
Lemma latest_of_skip keep key rows : ∀ m m' v,
  latest_of keep in_flight_value rows m = Ok m' →
  Forall (λ r, ∀ j, row_identity r = Ok j → keep j = true → identity_key j ≠ key) rows →
  bt_get key m = Some v → bt_get key m' = Some v.
Proof.
  induction rows as [|r rows IH]; intros m m' v; cbn [latest_of]; [by intros [= <-]|].
  intros Hl [Hr Hrows]%Forall_cons Hm. destruct (row_identity r) as [j|]; cbn [mbind result_bind] in Hl; [|done].
  destruct (keep j) eqn:Hk; cbn [negb] in Hl; [|by eapply IH].
  destruct (in_flight_value j r) as [x|]; cbn [mbind result_bind] in Hl; [|done].
  eapply IH; [done..|]. rewrite bt_get_insert, decide_False; [done|]. intros Heq. by apply (Hr j).
Qed.

(** The ledger's answer misses no dispatch of the bead that is still under way. *)
Lemma in_flight_complete fault file bead l rows i st :
  in_flight_for_bead fault file bead = Ok l → read_rows fault file = Ok rows →
  last_row_of rows bead i st → st ∉ ["closed"; "blocked"; "redispatch_required"] →
  MkInFlight (pane (id_target i)) (identity_key i) ∈ l.
Proof.
  intros Hl Hrows (pre & row & rest & -> & Hi & Hb & Hst & Hlast) Hnot. unfold in_flight_for_bead in Hl. rewrite Hrows in Hl.
  cbn [mbind result_bind] in Hl. fold in_flight_value in Hl. rewrite latest_of_app in Hl.
  destruct (latest_of _ _ pre []) as [m1|]; cbn [mbind result_bind] in Hl; [|done]. cbn [latest_of] in Hl.
  rewrite Hi in Hl. cbn [mbind result_bind] in Hl. rewrite bool_decide_eq_true_2 in Hl by done. cbn [negb] in Hl.
  rewrite (in_flight_value_at i row st Hst) in Hl. cbn [mbind result_bind] in Hl.
  destruct (latest_of _ _ rest _) as [m|] eqn:Hm; cbn [mbind result_bind] in Hl; [|done]. injection Hl as <-.
  eapply (latest_of_skip _ (identity_key i)) in Hm as Hget.
  2:{ eapply Forall_impl; [exact Hlast|]. intros r Hr j Hj Hk%bool_decide_eq_true. by apply Hr. }
  2:{ by rewrite bt_get_insert, decide_True. }
  rewrite stable_sort_Permutation. apply list_elem_of_fmap. exists (identity_key i, (i, st)). split; [done|].
  assert (released st = false) as Hrel.
  { unfold released. apply not_true_is_false. intros (x & Hx & Heq%bool_decide_eq_true)%existsb_exists. subst x.
    by apply Hnot, list_elem_of_In. }
  apply list_elem_of_In, filter_In. split; [|cbn [snd]; by rewrite Hrel]. apply list_elem_of_In.
  unfold bt_get in Hget. destruct (find_first _ m) as [[k v]|] eqn:Hf; [|done]. injection Hget as ->.
  apply find_first_Some in Hf as (l1 & l2 & -> & Hk & _). apply bool_decide_eq_true in Hk. cbn in Hk. subst k.
  apply elem_of_app. right. apply list_elem_of_here.
Qed.

(** A bead in flight is not sent to a second pane.  After a call that moved a bead's
    lifecycle to a state that is not closed, blocked or redispatched, the ledger reports
    the bead in flight, and admitting it as work to any other pane refuses unless the
    tracker has it open again. *)
Theorem in_flight_bead_is_held i objective o s rows s' os target status :
  id_ok i = true → call_calm (op_env o) = true → ev_ok (op_evidence o) = true → sound (l_file s) rows →
  exec i objective o s = (s', Ok os) → s' ≠ s → released (status_str (state (l_life s'))) = false →
  target ≠ pane (id_target i) → status ≠ "open" →
  ∃ ids refusal, in_flight_for_bead None (l_file s') (id_bead i) = Ok ids ∧
    admit_work (id_bead i) target status ids = Err refusal.
Proof.
  intros Hi Hc He Hs Hx Hne Hrel Htgt Hst.
  destruct (exec_calm i objective o s rows Hc Hs) as [Hsame|(l' & _ & Htr & _ & Heq)]; [by rewrite Hx in Hsame|].
  rewrite Hx in Heq. injection Heq as -> _. cbn [l_life l_file] in *. rewrite (op_status _ _ _ Htr) in Hrel.
  pose proof (rows_after_good i objective o Hi He) as Hgood.
  assert (∃ pre row, map snd (rows_after i objective o) = app pre [row] ∧ row_identity row = Ok i ∧
            row_string row "status" = Ok (status_str (op_row o).1.2)) as (pre & row & Hrows & Hid & Hstr).
  { pose proof (op_extra_ok o) as Hxo. unfold rows_after, op_rows. destruct (op_row o) as [[ev st] extra]. cbn [fst snd] in *.
    set (row := ledger_row i objective ev st (op_evidence o) extra (ce_now (op_env o))).
    assert (row_identity row = Ok i ∧ row_string row "status" = Ok (status_str st)) as [H1' H2'].
    { split; [by apply ledger_row_identity|]. apply row_string_get; [|by destruct st].
      by destruct (ledger_row_fields i objective ev st (op_evidence o) extra (ce_now (op_env o)) Hxo) as (_ & ? & _). }
    destruct o; try (by exists [], row). eexists [_], row. split; [reflexivity|done]. }
  destruct (in_flight_last (Some (default EmptyString (l_file s) +:+ line_block (row_lines (rows_after i objective o))))
              (app (app rows pre) [row]) (app rows pre) row i (status_str (op_row o).1.2) (id_bead i))
    as (ids & Hids & Hin); [|done..|].
  { rewrite <- app_assoc, <- Hrows. apply sound_append; [done|]. eapply Forall_impl; [exact Hgood|]. by intros kr [? _]. }
  exists ids. destruct (admit_work (id_bead i) target status ids) as [[]|refusal] eqn:Hadm; [|by exists refusal].
  apply hold_admits_iff in Hadm as [?|Hall]; [done|]. destruct (Hall _ Hin) as [_ Hp]. by rewrite <- Hp in Htgt.
Qed.
End Hold.

(** ** Examples. *)

#[local] Existing Instance bits_from_json.
#[local] Existing Instance bits_to_json.
#[local] Existing Instance bits_json_laws.

Definition ex_identity : LifecycleIdentity :=
  MkIdentity "b-1" "/repo" (MkTarget "fleet" "%7") "sha256:00" Scheduled.
Definition ex_approval : Approved := MkApproved (classify (MkIntent DispatchPacket true true true true)).
Definition ex_ev (id : string) (t : N) : LedgerEvidence :=
  MkEvidence id t (MkPolicy t 0) [("packet_bytes", JString "10")].
Definition calm_call (t : N) : CallEnv := MkCallEnv t None t None None None None None None None None.
Definition ex_start : BeadLifecycle :=
  MkLifecycle "b-1" (MkTarget "fleet" "%7") "work" Dispatch DispatchPacket Selected None None None None None
    {[ "e0" ]} [MkEvent "e0" EvSelected Selected None].
Definition ex_dispatch (t : N) : JOp :=
  JDispatch (calm_call t) (MkDispatch "e1" "b-1" (MkTarget "fleet" "%7") "work" t) (ex_ev "e1" t).
Definition ex_dispatched : BeadLifecycle := push_event (MkEvent "e1" EvDispatched Dispatched None) ex_start.
Definition ex_redispatch : JOp :=
  JRedispatch (calm_call 9) (MkPlan "e2" "b-1" (MkTarget "fleet" "%7") "receiver_not_reported") (ex_ev "e2" 9).
Definition ex_redispatched : BeadLifecycle :=
  push_event (MkEvent "e2" EvRedispatchRequired RedispatchRequired None) ex_dispatched.
Definition ex_resume_ops : list JOp :=
  [ex_dispatch 6; ex_dispatch 7;
   JVerify (calm_call 8) (MkReceiver "e3" "b-1" (MkTarget "fleet" "%7") "work" 8) (ex_ev "e3" 8);
   JStart (calm_call 9) (ex_ev "e4" 9) "%8"].

(** The file after one call on an empty ledger. *)
Definition ex_file (o : JOp) : option string :=
  Some (EmptyString +:+ line_block (row_lines (rows_after ex_identity "work" o))).

Lemma ex_dispatch_runs t :
  exec ex_identity "work" (ex_dispatch t) (MkLState None ex_start) =
    (MkLState (ex_file (ex_dispatch t)) ex_dispatched,
     Ok (map (λ kr, LAppended (row_event_name kr.2)) (rows_after ex_identity "work" (ex_dispatch t)))).
Proof.
  rewrite (exec_run ex_identity "work" (ex_dispatch t) (MkLState None ex_start) [] ex_dispatched);
    first [reflexivity | done | apply sound_empty | by repeat constructor].
Qed.

Lemma ex_redispatch_runs :
  exec ex_identity "work" ex_redispatch (MkLState None ex_dispatched) =
    (MkLState (ex_file ex_redispatch) ex_redispatched,
     Ok (map (λ kr, LAppended (row_event_name kr.2)) (rows_after ex_identity "work" ex_redispatch))).
Proof.
  rewrite (exec_run ex_identity "work" ex_redispatch (MkLState None ex_dispatched) [] ex_redispatched);
    first [reflexivity | done | apply sound_empty | by repeat constructor].
Qed.

Example retry_is_replayed_witness :
  ∃ os', exec ex_identity "work" (with_env (calm_call 99) (ex_dispatch 6)) (MkLState (ex_file (ex_dispatch 6)) ex_dispatched)
    = (MkLState (ex_file (ex_dispatch 6)) ex_dispatched, Ok os') ∧ Forall (λ a, replayed a = true) os'.
Proof.
  eapply (retry_is_replayed ex_identity "work" (ex_dispatch 6) (calm_call 99) (MkLState None ex_start) []);
    [done|done|done|done|apply sound_empty|apply ex_dispatch_runs|done].
Defined.

Example redispatched_never_resumes_witness :
  ∃ err, Ledger.resume ex_identity "work" None ex_approval
    (l_file (foldl (λ s o, (exec ex_identity "work" o s).1) (MkLState (ex_file ex_redispatch) ex_redispatched)
               [ex_dispatch 12])) = Err err.
Proof.
  eapply (redispatched_never_resumes ex_identity "work" (calm_call 9) _ (ex_ev "e2" 9) (MkLState None ex_dispatched) []);
    [done|done|done|apply sound_empty|apply ex_redispatch_runs|done|by repeat constructor].
Defined.

Example in_flight_bead_is_held_witness :
  ∃ ids refusal, in_flight_for_bead None (ex_file (ex_dispatch 6)) "b-1" = Ok ids ∧
    admit_work "b-1" "%8" "in_progress" ids = Err refusal.
Proof.
  exact (in_flight_bead_is_held ex_identity "work" (ex_dispatch 6) (MkLState None ex_start) [] _ _ "%8" "in_progress"
    eq_refl eq_refl eq_refl sound_empty (ex_dispatch_runs 6)
    ltac:(by intros Heq%(f_equal l_life)) eq_refl ltac:(done) ltac:(done)).
Defined.

Example resume_recovers_witness :
  let f1 := Some (EmptyString +:+ line_block
              [to_string (ledger_row ex_identity "work" "selected" Selected (ex_ev "e0" 5) [] 5)]) in
  let s := foldl (λ s o, (exec ex_identity "work" o s).1) (MkLState f1 ex_start) ex_resume_ops in
  Ledger.resume ex_identity "work" None ex_approval (l_file s) = Ok (l_life s).
Proof.
  apply (resume_recovers ex_identity "work" ex_approval (calm_call 5) (ex_ev "e0" 5) None []);
    [done|done|done|apply sound_empty|done|done| |by repeat constructor].
  apply (start_run ex_identity "work" ex_approval (calm_call 5) (ex_ev "e0" 5) None []); [done|done|apply sound_empty|done|done].
Defined.

(** A sync that fails after the row was written. *)
Definition failed_sync : CallEnv := MkCallEnv 6 None 6 None None None None (Some "disk") None None None.

Example sync_failure_leaves_machine_behind_witness :
  ∃ f s1 os',
    exec ex_identity "work" (with_env failed_sync (ex_dispatch 6)) (MkLState None ex_start)
      = (s1, Err (LfIo "fsync_file" "disk")) ∧ s1 = MkLState (Some f) ex_start ∧
    rows_of (Some f) = Ok (app [] (map snd (rows_after ex_identity "work" (with_env failed_sync (ex_dispatch 6))))) ∧
    exec ex_identity "work" (with_env (calm_call 7) (with_env failed_sync (ex_dispatch 6))) s1 = (s1, Ok os') ∧
    Forall (λ a, replayed a = true) os'.
Proof.
  apply (sync_failure_leaves_machine_behind ex_identity "work" (with_env failed_sync (ex_dispatch 6)) (calm_call 7)
           "disk" [] (MkLState None ex_start) ex_dispatched);
    [done|done|by constructor|done|apply sound_empty|done|done|by repeat constructor].
Defined.
