(* ===== verification/LifeReader.v ===== *)
(** * Reading a lifecycle ledger behind a durable cursor

    Model of ntm-fleet-monitor/src/bead_lifecycle/reader.rs: a reader scoped to a set of
    beads scans the lines of the ledger past its cursor, advances the cursor (in memory
    and in a file replaced by rename), and may wait for a matching row by polling.

    The ledger file is what the caller finds at each scan, so a scan may meet any text;
    the directory of the cursor file is a map from names to texts.  Clock readings,
    cancellation points and the outcome of every file operation are arguments.  A
    [Duration] is its number of nanoseconds. *)

From stdpp Require Import base numbers list option strings gmap sorting.
From Stdlib Require Import NArith Ascii Lia.
From S2P Require Import Prelude RustStr Json DecisionLedger Lifecycle LifeLedger.

Open Scope string_scope.

(** ** Data. *)

Definition DEFAULT_POLL_INTERVAL : N := 10000000000.
Definition MAX_WAIT : N := 300000000000.

(** The last consumed line, counted from one. *)
Definition LifecycleCursor : Type := N.
Definition Cursor_ZERO : LifecycleCursor := 0%N.

Record LifecycleRow := MkLifeRow {
  lr_cursor : LifecycleCursor; lr_bead : string; lr_event : string; lr_status : string;
  lr_key : string; lr_observed : N; lr_raw : Json }.

Inductive ReadOutcome :=
  | ReadRows (cursor : LifecycleCursor) (rows : list LifecycleRow)
  | ReadEmpty (cursor : LifecycleCursor).
Definition read_cursor (o : ReadOutcome) : LifecycleCursor :=
  match o with ReadRows c _ | ReadEmpty c => c end.
Definition read_is_empty (o : ReadOutcome) : bool := match o with ReadEmpty _ => true | _ => false end.

Inductive WaitOutcome :=
  | WaitRows (cursor : LifecycleCursor) (rows : list LifecycleRow)
  | TimedOut (cursor : LifecycleCursor) (waited : N).
Definition wait_cursor (o : WaitOutcome) : LifecycleCursor :=
  match o with WaitRows c _ | TimedOut c _ => c end.
Definition timed_out (o : WaitOutcome) : bool := match o with TimedOut _ _ => true | _ => false end.

Inductive ReaderError :=
  | RdEmptyBeadSet | RdInvalidPollInterval
  | RdWaitExceedsBound (requested maximum : N)
  | RdInvalidCursor (path value : string)
  | RdCursorAhead (cursor available : LifecycleCursor)
  | RdMalformedRow (line : N) (detail : string)
  | RdCancelled
  | RdIo (operation path detail : string).

(** The ledger's path, and the cursor file's directory and name. *)
Record LifecycleReader := MkReader {
  rd_ledger : string; rd_dir : string; rd_name : string;
  rd_beads : list string; rd_cursor : LifecycleCursor; rd_poll : N }.
Definition in_dir (dir name : string) : string := dir +:+ "/" +:+ name.

(** What a file read finds: a fault, no file, or its text. *)
Definition FileRead : Type := result string (option string).

(** The faults of replacing the cursor file. *)
Record PersistEnv := MkPersist {
  pe_parent : option string; pe_create : option string; pe_write : option (string * nat);
  pe_fsync : option string; pe_rename : option string; pe_open_parent : option string;
  pe_fsync_parent : option string }.

Record ReadEnv := MkReadEnv { ra_ledger : FileRead; ra_persist : PersistEnv }.

(** The files around the cursor, and the reader. *)
Record RState := MkRState { rs_files : gmap string string; rs_reader : LifecycleReader }.
Definition set_files (f : gmap string string → gmap string string) (s : RState) : RState :=
  MkRState (f (rs_files s)) (rs_reader s).
Definition set_cursor (c : LifecycleCursor) (s : RState) : RState :=
  let r := rs_reader s in
  MkRState (rs_files s) (MkReader (rd_ledger r) (rd_dir r) (rd_name r) (rd_beads r) c (rd_poll r)).

(** ** One row. *)

Section Reader.
Context `{SerdeJson}.
(** serde_json's message for a line that is not JSON, and [Debug] of a string. *)
Context (parse_message : string → string) (debug_str : string → string).

Definition malformed (c : LifecycleCursor) (detail : string) : ReaderError := RdMalformedRow c detail.

Definition required_value (v : Json) (key : string) (c : LifecycleCursor) : result ReaderError Json :=
  match json_get key v with
  | Some JNull | None => Err (malformed c (key +:+ " missing"))
  | Some x => Ok x
  end.
Definition required_string (v : Json) (key : string) (c : LifecycleCursor) : result ReaderError string :=
  x ← required_value v key c;
  match as_str x with
  | Some t => if is_empty (trim t) then Err (malformed c (key +:+ " is not a nonempty string")) else Ok t
  | None => Err (malformed c (key +:+ " is not a nonempty string"))
  end.

Definition presence_keys : list string :=
  ["repo"; "session"; "pane"; "packet_digest"; "objective"; "invoker"; "evidence"].
Fixpoint require_all (v : Json) (keys : list string) (c : LifecycleCursor) : result ReaderError unit :=
  match keys with
  | [] => Ok tt
  | k :: keys => _ ← required_value v k c; require_all v keys c
  end.

Definition decode_row (c : LifecycleCursor) (v : Json) : result ReaderError LifecycleRow :=
  schema ← required_string v "schema" c;
  if negb (bool_decide (schema = BEAD_LIFECYCLE_LEDGER_SCHEMA))
  then Err (malformed c ("schema=" +:+ debug_str schema)) else
  event ← required_string v "event" c;
  status ← required_string v "status" c;
  bead ← required_string v "bead" c;
  key ← required_string v "idempotency_key" c;
  _ ← require_all v presence_keys c;
  observed ← ok_or ((json_get "freshness" v ≫= json_get "observed_at_ms") ≫= as_u64)
               (malformed c "freshness.observed_at_ms missing");
  Ok (MkLifeRow c bead event status key observed v).

(** ** The cursor file. *)

Definition cursor_load (path : string) (r : FileRead) : result ReaderError LifecycleCursor :=
  match r with
  | Err e => Err (RdIo "read" path e)
  | Ok None => Ok Cursor_ZERO
  | Ok (Some text) =>
      let raw := trim text in
      if is_empty raw then Err (RdInvalidCursor path raw)
      else match parse_u64 raw with Some n => Ok n | None => Err (RdInvalidCursor path raw) end
  end.

Notation RM := (StM RState ReaderError).

Definition rd_fail (op path : string) (fault : option string) : RM unit :=
  match fault with Some d => stm_fail (RdIo op path d) | None => mret tt end.

(** [File::rename]: the file under the old name replaces the one under the new. *)
Definition file_rename (a b : string) (m : gmap string string) : gmap string string :=
  match m !! a with Some t => <[b := t]> (base.delete a m) | None => m end.

Definition persist (env : PersistEnv) (c : LifecycleCursor) : RM unit :=
  s ← stm_get;
  let dir := rd_dir (rs_reader s) in
  let name := rd_name (rs_reader s) in
  let temp := with_extension "tmp" name in
  _ ← rd_fail "create_parent" dir (pe_parent env);
  _ ← rd_fail "create_temp" (in_dir dir temp) (pe_create env);
  _ ← stm_modify (set_files (<[temp := EmptyString]>));
  let text := show_N c +:+ lf_str in
  _ ← match pe_write env with
      | Some (d, k) => _ ← stm_modify (set_files (<[temp := str_take k text]>)); stm_fail (RdIo "write_temp" (in_dir dir temp) d)
      | None => stm_modify (set_files (<[temp := text]>))
      end;
  _ ← rd_fail "fsync_temp" (in_dir dir temp) (pe_fsync env);
  _ ← rd_fail "rename" (in_dir dir name) (pe_rename env);
  _ ← stm_modify (set_files (file_rename temp name));
  _ ← rd_fail "open_parent" dir (pe_open_parent env);
  rd_fail "fsync_parent" dir (pe_fsync_parent env).

Definition advance_cursor (env : PersistEnv) (next : LifecycleCursor) : RM unit :=
  s ← stm_get;
  if (rd_cursor (rs_reader s) <? next)%N then
    _ ← persist env next; stm_modify (set_cursor next)
  else mret tt.

(** ** Scanning. *)

(** The rows of the lines past [cursor]; [n] lines were seen before [ls]. *)
Fixpoint scan_lines (beads : list string) (cursor : LifecycleCursor) (n : N) (ls : list string)
    : result ReaderError (list LifecycleRow) :=
  match ls with
  | [] => Ok []
  | l :: ls =>
      let c := (n + 1)%N in
      if (c <=? cursor)%N || is_empty (trim l) then scan_lines beads cursor c ls
      else v ← ok_or (from_str l) (RdMalformedRow c (parse_message l));
           row ← decode_row c v;
           rest ← scan_lines beads cursor c ls;
           Ok (if bool_decide (lr_bead row ∈ beads) then row :: rest else rest)
  end.

Definition read_available (env : ReadEnv) : RM ReadOutcome :=
  s ← stm_get;
  let r := rs_reader s in
  match ra_ledger env with
  | Err d => stm_fail (RdIo "read_ledger" (rd_ledger r) d)
  | Ok None => mret (ReadEmpty (rd_cursor r))
  | Ok (Some text) =>
      rows ← stm_lift (scan_lines (rd_beads r) (rd_cursor r) 0 (lines text));
      let available := N.of_nat (length (lines text)) in
      _ ← stm_refuse (available <? rd_cursor r)%N (RdCursorAhead (rd_cursor r) available);
      _ ← advance_cursor (ra_persist env) available;
      s ← stm_get;
      let c := rd_cursor (rs_reader s) in
      mret (match rows with [] => ReadEmpty c | _ => ReadRows c rows end)
  end.

(** ** Opening and waiting. *)

Definition reader_new (ledger dir name : string) (beads : list string) (r : FileRead) : result ReaderError LifecycleReader :=
  let beads := btree_set (List.filter (λ b, negb (is_empty (trim b))) beads) in
  if bool_decide (beads = []) then Err RdEmptyBeadSet
  else c ← cursor_load (in_dir dir name) r; Ok (MkReader ledger dir name beads c DEFAULT_POLL_INTERVAL).

Definition with_poll_interval (d : N) (r : LifecycleReader) : result ReaderError LifecycleReader :=
  if (d =? 0)%N then Err RdInvalidPollInterval
  else Ok (MkReader (rd_ledger r) (rd_dir r) (rd_name r) (rd_beads r) (rd_cursor r) d).

(** One turn of the wait: its two cancellation points, its scan and its clock. *)
Record WaitStep := MkWaitStep { ws_cancel : bool; ws_read : ReadEnv; ws_now : N; ws_cancel_after : bool }.

(** The loop, for at most [length steps] turns; [None] when they are used up. *)
Fixpoint wait_loop (started deadline : N) (steps : list WaitStep) : StM RState ReaderError (option WaitOutcome) :=
  match steps with
  | [] => mret None
  | w :: steps =>
      _ ← stm_refuse (ws_cancel w) RdCancelled;
      o ← read_available (ws_read w);
      match o with
      | ReadRows c rows => mret (Some (WaitRows c rows))
      | ReadEmpty _ =>
          s ← stm_get;
          if (deadline <=? ws_now w)%N
          then mret (Some (TimedOut (rd_cursor (rs_reader s)) (ws_now w - started)))
          else _ ← stm_refuse (ws_cancel_after w) RdCancelled; wait_loop started deadline steps
      end
  end.

(** The sleep of a turn: the poll interval, or less when the deadline is nearer. *)
Definition wait_delay (deadline poll now : N) : N := N.min poll (deadline - now).

Definition wait_for_rows (timeout started : N) (steps : list WaitStep) : RM (option WaitOutcome) :=
  if (MAX_WAIT <? timeout)%N then stm_fail (RdWaitExceedsBound timeout MAX_WAIT)
  else wait_loop started (started + timeout) steps.

(** ** A session: the rows a reader delivers over a run of scans. *)

Definition delivered (r : result ReaderError ReadOutcome) : list LifecycleRow :=
  match r with Ok (ReadRows _ rows) => rows | _ => [] end.
Fixpoint read_session (envs : list ReadEnv) (s : RState) : RState * list LifecycleRow :=
  match envs with
  | [] => (s, [])
  | e :: envs =>
      let '(s1, r) := read_available e s in
      let '(s2, rows) := read_session envs s1 in (s2, app (delivered r) rows)
  end.

(** What a scan may find of a ledger whose lines will be [L]: no file, a fault, the first
    lines, or the first lines and one that is not written to its end. *)
Definition view (L : list string) (e : ReadEnv) : Prop :=
  match ra_ledger e with
  | Ok (Some t) =>
      ∃ n, lines t = take n L ∨
           ∃ torn, lines t = app (take n L) [torn] ∧ (n < length L)%nat ∧
                   is_empty (trim torn) = false ∧ from_str torn = None
  | _ => True
  end.

Definition persist_calm (e : PersistEnv) : bool :=
  match e with MkPersist None None None None None None None => true | _ => false end.

(** ** Lemmas. *)

Notation row_step beads c l rest :=
  (if is_empty (trim l) then rest
   else v ← ok_or (from_str l) (RdMalformedRow c (parse_message l));
        row ← decode_row c v;
        more ← rest;
        Ok (if bool_decide (lr_bead row ∈ beads) then row :: more else more)).

Lemma scan_app beads c a : ∀ n b,
  scan_lines beads c n (app a b) =
  (x ← scan_lines beads c n a; y ← scan_lines beads c (n + N.of_nat (length a)) b; Ok (app x y)).
Proof.
  induction a as [|l a IH]; intros n b; cbn [app scan_lines length].
  - cbn. rewrite N.add_0_r. by destruct (scan_lines beads c n b).
  - replace (n + N.of_nat (S (length a)))%N with (n + 1 + N.of_nat (length a))%N by lia.
    destruct (_ || _); [apply IH|]. destruct (ok_or _ _); [|done]. cbn [mbind result_bind].
    destruct (decode_row _ _) as [row|]; [|done]. cbn [mbind result_bind]. rewrite IH.
    destruct (scan_lines beads c (n + 1) a) as [x|]; [|done]. cbn [mbind result_bind].
    destruct (scan_lines beads c _ b) as [y|]; [|done]. cbn [mbind result_bind]. by case_bool_decide.
Qed.

Lemma scan_skip beads c ls : ∀ n, (n + N.of_nat (length ls) <= c)%N → scan_lines beads c n ls = Ok [].
Proof.
  induction ls as [|l ls IH]; intros n Hn; cbn [scan_lines length] in *; [done|].
  assert ((n + 1 <=? c)%N = true) as -> by (apply N.leb_le; lia). apply IH. lia.
Qed.

Lemma scan_past beads c c' ls : ∀ n, (c <= n)%N → (c' <= n)%N → scan_lines beads c n ls = scan_lines beads c' n ls.
Proof.
  induction ls as [|l ls IH]; intros n Hc Hc'; cbn [scan_lines]; [done|].
  assert ((n + 1 <=? c)%N = false) as -> by (apply N.leb_gt; lia).
  assert ((n + 1 <=? c')%N = false) as -> by (apply N.leb_gt; lia). by rewrite (IH (n + 1)%N) by lia.
Qed.

(** Two scans in a row are one scan. *)
Lemma scan_resume beads c0 c n L x y :
  (c <= n)%nat → (n <= length L)%nat → (c0 <= N.of_nat c)%N →
  scan_lines beads c0 0 (take c L) = Ok x → scan_lines beads (N.of_nat c) 0 (take n L) = Ok y →
  scan_lines beads c0 0 (take n L) = Ok (app x y).
Proof.
  intros Hcn Hn Hc0 Hx Hy.
  assert (take n L = app (take c L) (drop c (take n L))) as Heq.
  { rewrite <- (take_drop c (take n L)) at 1. by rewrite take_take, Nat.min_l by lia. }
  assert (length (take c L) = c) as Hlen by (rewrite length_take; lia).
  rewrite Heq in Hy |- *. rewrite scan_app, Hx. rewrite scan_app, (scan_skip _ _ (take c L)), Hlen in Hy by lia.
  cbn [mbind result_bind] in *. rewrite Hlen, (scan_past _ c0 (N.of_nat c)) by lia.
  by destruct (scan_lines beads (N.of_nat c) _ _); [injection Hy as <-|].
Qed.

Lemma scan_torn beads c L n torn :
  (n <= length L)%nat → is_empty (trim torn) = false → from_str torn = None →
  ∀ rows, scan_lines beads c 0 (app (take n L) [torn]) = Ok rows → (N.of_nat n < c)%N.
Proof.
  intros Hn Ht Hf rows. rewrite scan_app. destruct (scan_lines _ _ 0 _); [|done]. cbn [mbind result_bind scan_lines].
  rewrite length_take, Nat.min_l, Ht, Hf, orb_false_r by lia.
  destruct (_ <=? c)%N eqn:Hc; [|done]. apply N.leb_le in Hc. intros _. lia.
Qed.

Lemma persist_reader env c s : rs_reader (persist env c s).1 = rs_reader s.
Proof.
  unfold persist. rewrite bind_fst. cbn [stm_get].
  destruct env as [[?|] [?|] [[? ?]|] [?|] [?|] [?|] [?|]]; reflexivity.
Qed.

Lemma advance_spec env n s :
  let '(s', r) := advance_cursor env n s in
  match r with
  | Ok _ => rs_reader s' = rs_reader (set_cursor (N.max (rd_cursor (rs_reader s)) n) s)
  | Err _ => rs_reader s' = rs_reader s
  end.
Proof.
  unfold advance_cursor. rewrite bind_fst. cbn [stm_get]. destruct (_ <? n)%N eqn:Hn.
  - rewrite bind_fst. pose proof (persist_reader env n s) as Hp. destruct (persist env n s) as [s1 [[]|]]; cbn in *; [|done].
    apply N.ltb_lt in Hn. by rewrite Hp, N.max_r by lia.
  - apply N.ltb_ge in Hn. cbn. rewrite N.max_l by lia. by destruct s as [? []].
Qed.

(** One scan: refused, it leaves the reader as it was; else it delivers the rows between
    the cursor and the end of what it found, and the cursor moves there. *)
Lemma read_spec env s :
  let '(s', r) := read_available env s in
  match r with
  | Err _ => rs_reader s' = rs_reader s
  | Ok o =>
      (∃ rd, ra_ledger env = Ok rd ∧
        let ls := lines (default EmptyString rd) in
        match rd with
        | None => s' = s ∧ delivered r = []
        | Some _ =>
            scan_lines (rd_beads (rs_reader s)) (rd_cursor (rs_reader s)) 0 ls = Ok (delivered r) ∧
            (rd_cursor (rs_reader s) <= N.of_nat (length ls))%N ∧
            rs_reader s' = rs_reader (set_cursor (N.of_nat (length ls)) s)
        end) ∧ read_cursor o = rd_cursor (rs_reader s')
  end.
Proof.
  unfold read_available. rewrite bind_fst. cbn [stm_get].
  destruct (ra_ledger env) as [[t|]|d]; [|cbn; split; [by exists None|done]|done].
  rewrite bind_fst. unfold stm_lift. destruct (scan_lines _ _ 0 (lines t)) as [rows|] eqn:Hscan; [|done].
  rewrite bind_fst. unfold stm_refuse, stm_require. destruct (_ <? rd_cursor _)%N eqn:Hlt; cbn [negb]; [done|].
  apply N.ltb_ge in Hlt. cbn [mret stm_ret]. rewrite bind_fst.
  pose proof (advance_spec (ra_persist env) (N.of_nat (length (lines t))) s) as Hadv.
  destruct (advance_cursor _ _ s) as [s1 [[]|]]; [|done]. rewrite bind_fst. cbn [stm_get mret stm_ret].
  rewrite N.max_r in Hadv by lia. split; [|by destruct rows].
  exists (Some t). cbn [default from_option id]. split; [done|]. split_and!; [|done|done]. by destruct rows.
Qed.

(** What a reader has delivered: the rows of the lines between where it began and its cursor. *)
Definition delivered_upto (L : list string) (c0 : N) (beads : list string) (s : RState) (d : list LifecycleRow) : Prop :=
  rd_beads (rs_reader s) = beads ∧
  ∃ k, (k <= length L)%nat ∧ rd_cursor (rs_reader s) = N.of_nat k ∧ (c0 <= N.of_nat k)%N ∧
       scan_lines beads c0 0 (take k L) = Ok d.

Lemma read_delivers L c0 beads env s d :
  view L env → delivered_upto L c0 beads s d →
  let '(s', r) := read_available env s in delivered_upto L c0 beads s' (app d (delivered r)).
Proof.
  intros Hv (Hb & k & Hk & Hc & Hc0 & Hd). pose proof (read_spec env s) as Hspec.
  destruct (read_available env s) as [s' [o|e]].
  2:{ unfold delivered_upto. rewrite Hspec. cbn [delivered]. rewrite app_nil_r. split; [done|]. by exists k. }
  destruct Hspec as ((rd & Hrd & Hspec) & _). destruct rd as [t|].
  2:{ destruct Hspec as [-> Hnil]. rewrite Hnil, app_nil_r. split; [done|]. by exists k. }
  cbn [default from_option id] in Hspec. destruct Hspec as (Hscan & Hle & Hs').
  unfold view in Hv. rewrite Hrd in Hv. rewrite Hb, Hc in Hscan. rewrite Hc in Hle.
  unfold delivered_upto. rewrite Hs'. cbn [set_cursor rs_reader rd_beads rd_cursor]. split; [done|].
  destruct Hv as (n & [Hl|(torn & Hl & Hn & Ht & Hf)]); rewrite Hl in *.
  - rewrite length_take in *. exists (n `min` length L)%nat. split_and!; [lia|done|lia|].
    assert (take n L = take (n `min` length L) L) as Htk.
    { destruct (decide (n <= length L)%nat); [by rewrite Nat.min_l by lia|].
      rewrite Nat.min_r by lia. rewrite !take_ge by lia. done. }
    rewrite Htk in Hscan. apply (scan_resume _ _ k); [lia|lia|lia|done|done].
  - assert (n <= length L)%nat as Hn' by lia. pose proof (scan_torn _ _ _ _ _ Hn' Ht Hf _ Hscan) as Hlt.
    rewrite length_app, length_take in *. cbn [length] in *.
    assert (k = S n) as -> by lia. exists (S n). rewrite Nat.min_l by lia.
    split_and!; [lia|lia|lia|]. rewrite scan_skip in Hscan by (rewrite length_app, length_take; cbn [length]; lia).
    assert (delivered (Ok o) = []) as -> by congruence. by rewrite app_nil_r.
Qed.

Lemma session_delivers L c0 beads envs : ∀ s d,
  Forall (view L) envs → delivered_upto L c0 beads s d →
  let '(s', rows) := read_session envs s in delivered_upto L c0 beads s' (app d rows).
Proof.
  induction envs as [|e envs IH]; intros s d Hv Hd; cbn [read_session]; [by rewrite app_nil_r|].
  inversion Hv as [|? ? He Henvs]; subst. pose proof (read_delivers _ _ _ _ _ _ He Hd) as Hr.
  destruct (read_available e s) as [s1 r]. specialize (IH s1 _ Henvs Hr).
  destruct (read_session envs s1) as [s2 rows]. by rewrite app_assoc.
Qed.

Lemma session_scans L beads s envs :
  rd_beads (rs_reader s) = beads → (rd_cursor (rs_reader s) <= N.of_nat (length L))%N →
  Forall (view L) envs →
  let '(s', rows) := read_session envs s in
  let c0 := rd_cursor (rs_reader s) in
  (∃ k, (k <= length L)%nat ∧ (c0 <= N.of_nat k)%N ∧ rd_cursor (rs_reader s') = N.of_nat k ∧
        scan_lines beads c0 0 (take k L) = Ok rows) ∧
  ∀ e t all, ra_ledger e = Ok (Some t) → lines t = L → persist_calm (ra_persist e) = true →
    scan_lines beads c0 0 L = Ok all →
    app rows (delivered (read_available e s').2) = all ∧
    rd_cursor (rs_reader (read_available e s').1) = N.of_nat (length L).
Proof.
  intros Hb Hc Hv. set (c0 := rd_cursor (rs_reader s)) in *.
  assert (delivered_upto L c0 beads s []) as Hd0.
  { split; [done|]. exists (N.to_nat c0). rewrite N2Nat.id. split_and!; [lia|done|lia|].
    apply scan_skip. rewrite length_take. lia. }
  pose proof (session_delivers L c0 beads envs s [] Hv Hd0) as Hd. destruct (read_session envs s) as [s' rows].
  cbn [app] in Hd. split; [destruct Hd as (_ & k & ? & ? & ? & ?); by exists k|].
  intros e t all He Ht Hp Hall. pose proof (read_delivers L c0 beads e s' rows) as Hr.
  assert (view L e) as Hve by (unfold view; rewrite He; exists (length L); left; by rewrite take_ge by lia).
  specialize (Hr Hve Hd). pose proof (read_spec e s') as Hspec.
  destruct Hd as (Hb' & k & Hk & Hck & Hck0 & Hscan).
  assert (∃ y, scan_lines beads (N.of_nat k) 0 L = Ok y) as [y Hy].
  { assert (length (take k L) = k) as Hlen by (rewrite length_take; lia).
    assert (∀ c, scan_lines beads c 0 L = (x ← scan_lines beads c 0 (take k L);
              y ← scan_lines beads c (N.of_nat k) (drop k L); Ok (app x y))) as Hsplit.
    { intros c. rewrite <- (take_drop k L) at 1. by rewrite scan_app, Hlen. }
    rewrite Hsplit, Hscan in Hall. rewrite Hsplit, (scan_skip _ _ (take k L)) by lia. cbn [mbind result_bind] in *.
    rewrite (scan_past _ (N.of_nat k) c0) by lia. destruct (scan_lines beads c0 _ (drop k L)) as [y|]; [|done]. by exists y. }
  destruct (read_available e s') as [s2 [o|err]] eqn:Hread.
  - destruct Hspec as ((rd & Hrd & Hspec) & _). rewrite He in Hrd. injection Hrd as <-.
    destruct Hspec as (_ & _ & Hs2). cbn [default from_option id] in Hs2. rewrite Ht in Hs2.
    cbn [fst snd]. rewrite Hs2. split; [|done]. destruct Hr as (_ & k2 & Hk2 & Hck2 & _ & Hd2).
    rewrite Hs2 in Hck2. cbn [set_cursor rs_reader rd_cursor] in Hck2.
    assert (k2 = length L) as -> by lia. rewrite take_ge in Hd2 by lia. congruence.
  - exfalso. revert Hread. unfold read_available. rewrite bind_fst. cbn [stm_get]. rewrite He, bind_fst, Ht, Hb', Hck.
    unfold stm_lift. rewrite Hy, bind_fst. unfold stm_refuse, stm_require.
    assert ((N.of_nat (length L) <? N.of_nat k)%N = false) as -> by (apply N.ltb_ge; lia). cbn [negb mret stm_ret].
    rewrite bind_fst. unfold advance_cursor. rewrite bind_fst. cbn [stm_get].
    destruct (ra_persist e) as [[?|] [?|] [?|] [?|] [?|] [?|] [?|]]; try done.
    by destruct (_ <? _)%N.
Qed.

(** ** The rows of a text's lines, one by one. *)

(** The [n]-th line, counted from one, is this row of one of the beads. *)
Definition is_row (beads : list string) (n : N) (l : string) (row : LifecycleRow) : Prop :=
  is_empty (trim l) = false ∧ ∃ v, from_str l = Some v ∧ decode_row n v = Ok row ∧ lr_bead row ∈ beads.
(** The line is blank, or a row of some bead. *)
Definition line_reads (n : N) (l : string) : Prop :=
  is_empty (trim l) = true ∨ ∃ v row, from_str l = Some v ∧ decode_row n v = Ok row.
(** These are the rows of the beads on the lines after the [c]-th up to the [k]-th, each once,
    in the order of the lines. *)
Definition rows_between (L : list string) (beads : list string) (c k : N) (rows : list LifecycleRow) : Prop :=
  StronglySorted (λ a b, lr_cursor a < lr_cursor b)%N rows ∧
  ∀ row, row ∈ rows ↔ ∃ j l, L !! j = Some l ∧ (c < N.of_nat j + 1 <= k)%N ∧ is_row beads (N.of_nat j + 1) l row.

Lemma decode_row_cursor c v row : decode_row c v = Ok row → lr_cursor row = c.
Proof.
  unfold decode_row. intros (x & _ & Hr)%bind_ok. case_bool_decide; cbn [negb] in Hr; [|done].
  do 6 (apply bind_ok in Hr as (? & _ & Hr)). by injection Hr as <-.
Qed.

Lemma scan_lines_rows beads c ls : ∀ n rows, scan_lines beads c n ls = Ok rows →
  StronglySorted (λ a b, lr_cursor a < lr_cursor b)%N rows ∧
  ∀ row, row ∈ rows ↔ ∃ j l, ls !! j = Some l ∧ (c < n + N.of_nat j + 1)%N ∧ is_row beads (n + N.of_nat j + 1) l row.
Proof.
  assert (∀ l ls n row (P : N → string → Prop), (∃ j l', (l :: ls) !! j = Some l' ∧ P (n + N.of_nat j + 1)%N l' ∧
      is_row beads (n + N.of_nat j + 1) l' row) ↔
    (P (n + 1)%N l ∧ is_row beads (n + 1) l row) ∨
    ∃ j l', ls !! j = Some l' ∧ P (n + 1 + N.of_nat j + 1)%N l' ∧ is_row beads (n + 1 + N.of_nat j + 1) l' row) as Hcons.
  { intros l ls' n row P. split.
    - intros ([|j] & l' & Hl & HP); [injection Hl as <-; left; by rewrite N.add_0_r in HP|].
      right. exists j, l'. split; [done|]. by replace (n + 1 + N.of_nat j + 1)%N with (n + N.of_nat (S j) + 1)%N by lia.
    - intros [HP|(j & l' & Hl & HP)]; [exists 0%nat, l; by rewrite N.add_0_r|]. exists (S j), l'. split; [done|].
      by replace (n + N.of_nat (S j) + 1)%N with (n + 1 + N.of_nat j + 1)%N by lia. }
  induction ls as [|l ls IH]; intros n rows; cbn [scan_lines].
  { intros [= <-]. split; [constructor|]. intros row. split; [by intros ?%not_elem_of_nil|by intros (j & l & ? & _)]. }
  setoid_rewrite (Hcons l ls n _ (λ m _, (c < m)%N)).
  destruct (_ || _) eqn:Hskip.
  { intros [Hs Hr]%IH. split; [done|]. intros row. rewrite Hr. split; [auto|]. intros [[Hc [Hb _]]|?]; [|done].
    apply orb_true_iff in Hskip as [Hle%N.leb_le|?]; [lia|congruence]. }
  apply orb_false_iff in Hskip as [Hc%N.leb_gt Hb].
  intros (v & Hv & (row & Hrow & (rest & [Hs Hr]%IH & [= <-])%bind_ok)%bind_ok)%bind_ok.
  assert (from_str l = Some v) as Hfrom by (by destruct (from_str l); [injection Hv as ->|]).
  assert (∀ x, x ∈ rest → (lr_cursor row < lr_cursor x)%N) as Hafter.
  { intros x (j & l' & _ & _ & _ & v' & _ & ->%decode_row_cursor & _)%Hr. apply decode_row_cursor in Hrow as ->. lia. }
  assert (∀ x, is_row beads (n + 1) l x ↔ x = row ∧ lr_bead row ∈ beads) as Hone.
  { intros x. split; [intros (_ & v' & Hv' & Hx & Hin); split; congruence|]. intros [-> Hin]. split; [done|]. eauto. }
  setoid_rewrite Hone. case_bool_decide as Hin.
  - split; [constructor; [done|by apply Forall_forall]|]. intros x. rewrite elem_of_cons, Hr. naive_solver.
  - split; [done|]. intros x. rewrite Hr. naive_solver.
Qed.

Lemma scan_between L beads c k rows :
  (k <= length L)%nat → scan_lines beads c 0 (take k L) = Ok rows → rows_between L beads c (N.of_nat k) rows.
Proof.
  intros Hk [Hs Hr]%scan_lines_rows. split; [done|]. intros row. rewrite Hr. split.
  - intros (j & l & [Hl Hj]%lookup_take_Some & Hc & Hx). exists j, l. split_and!; [done|lia|lia|done].
  - intros (j & l & Hl & [Hc Hj] & Hx). exists j, l. split_and!; [|lia|done]. apply lookup_take_Some. split; [done|lia].
Qed.

Lemma scan_reads beads c ls : ∀ n,
  (∀ j l, ls !! j = Some l → (c < n + N.of_nat j + 1)%N → line_reads (n + N.of_nat j + 1) l) →
  ∃ rows, scan_lines beads c n ls = Ok rows.
Proof.
  induction ls as [|l ls IH]; intros n Hall; cbn [scan_lines]; [by eexists|].
  destruct (IH (n + 1)%N) as [rest Hrest].
  { intros j l' Hl Hc. specialize (Hall (S j) l' Hl).
    replace (n + N.of_nat (S j) + 1)%N with (n + 1 + N.of_nat j + 1)%N in Hall by lia. by apply Hall. }
  destruct (_ || _) eqn:Hskip; [by exists rest|]. apply orb_false_iff in Hskip as [Hc%N.leb_gt Hb].
  destruct (Hall 0%nat l eq_refl) as [?|(v & row & Hv & Hrow)]; [lia|congruence|].
  rewrite N.add_0_r in Hrow. rewrite Hv. cbn [ok_or mbind result_bind]. rewrite Hrow. cbn [mbind result_bind]. rewrite Hrest.
  by eexists.
Qed.

(** C34: A reader delivers every row of its beads once and in order, whatever fails.  Take
    the lines a ledger will have, and a run of scans, each of which finds no file, a fault,
    the first of those lines, or those and one more that is half written, and each of which
    may fail at any of its own file operations.  The run delivers exactly the rows of the
    reader's beads that stand on the lines between the one the reader began at and the one
    its cursor names, each once and in the order of the lines; and when every remaining
    line is blank or reads as a row, one more scan, of the whole ledger and without faults,
    completes them to all the rows from there on. *)
Theorem reader_delivers_once L beads s envs :
  rd_beads (rs_reader s) = beads → (rd_cursor (rs_reader s) <= N.of_nat (length L))%N →
  Forall (view L) envs →
  let '(s', rows) := read_session envs s in
  let c0 := rd_cursor (rs_reader s) in
  (c0 <= rd_cursor (rs_reader s') <= N.of_nat (length L))%N ∧
  rows_between L beads c0 (rd_cursor (rs_reader s')) rows ∧
  ∀ e t, ra_ledger e = Ok (Some t) → lines t = L → persist_calm (ra_persist e) = true →
    (∀ j l, L !! j = Some l → (c0 < N.of_nat j + 1)%N → line_reads (N.of_nat j + 1) l) →
    rows_between L beads c0 (N.of_nat (length L)) (app rows (delivered (read_available e s').2)) ∧
    rd_cursor (rs_reader (read_available e s').1) = N.of_nat (length L).
Proof.
  intros Hb Hc Hv. pose proof (session_scans L beads s envs Hb Hc Hv) as Hs.
  destruct (read_session envs s) as [s' rows]. destruct Hs as [(k & Hk & Hle & Hck & Hscan) Hlast].
  rewrite Hck. split; [lia|]. split; [by apply scan_between|].
  intros e t He Ht Hp Hall. destruct (scan_reads beads (rd_cursor (rs_reader s)) L 0) as [all Hrows].
  { intros j l Hl Hj. rewrite N.add_0_l in *. by apply Hall. }
  destruct (Hlast e t all He Ht Hp Hrows) as [<- Hend]. split; [|done]. apply scan_between; [done|]. by rewrite take_ge.
Qed.

(** ** Waiting. *)

(** The clock of a wait: a turn is no earlier than the sleep of the turn before it. *)
Fixpoint paced (poll deadline earliest : N) (steps : list WaitStep) : Prop :=
  match steps with
  | [] => True
  | w :: steps =>
      (earliest <= ws_now w)%N ∧
      paced poll deadline (ws_now w + wait_delay deadline poll (ws_now w))%N steps
  end.

Lemma wait_loop_ends poll started deadline steps : ∀ earliest s,
  (0 < poll)%N → paced poll deadline earliest steps → steps ≠ [] →
  (deadline <= earliest + poll * (N.of_nat (length steps) - 1))%N →
  (wait_loop started deadline steps s).2 ≠ Ok None.
Proof.
  induction steps as [|w steps IH]; intros earliest s Hp Hpace Hne Hlen; [done|].
  cbn [wait_loop]. rewrite bind_fst. unfold stm_refuse, stm_require. destruct (ws_cancel w); cbn [negb]; [done|].
  cbn [mret stm_ret]. rewrite bind_fst. destruct (read_available (ws_read w) s) as [s1 [[c rows|c]|e]]; [done| |done].
  rewrite bind_fst. cbn [stm_get]. destruct (deadline <=? ws_now w)%N eqn:Hd; [done|]. apply N.leb_gt in Hd.
  rewrite bind_fst. destruct (ws_cancel_after w); cbn [negb]; [done|]. cbn [mret stm_ret].
  cbn [paced] in Hpace. destruct Hpace as [Hnow Hpace]. cbn [length] in Hlen.
  assert (steps ≠ []) as Hne' by (intros ->; cbn [length] in Hlen; lia).
  destruct steps as [|w2 steps]; [done|]. cbn [length] in Hlen.
  eapply IH; [done|exact Hpace|done|]. unfold wait_delay. cbn [length]. nia.
Qed.

Lemma wait_loop_timeout started deadline steps : ∀ s s' c waited,
  (∀ w, w ∈ steps → started <= ws_now w)%N →
  wait_loop started deadline steps s = (s', Ok (Some (TimedOut c waited))) → (deadline <= started + waited)%N.
Proof.
  induction steps as [|w steps IH]; intros s s' c waited Hst; cbn [wait_loop]; [done|].
  rewrite bind_fst. unfold stm_refuse, stm_require. destruct (ws_cancel w); cbn [negb]; [done|].
  cbn [mret stm_ret]. rewrite bind_fst. destruct (read_available (ws_read w) s) as [s1 [[c' rows|c']|e]]; [done| |done].
  rewrite bind_fst. cbn [stm_get]. destruct (deadline <=? ws_now w)%N eqn:Hd.
  - intros [= <- <- <-]. apply N.leb_le in Hd. specialize (Hst w (list_elem_of_here _ _)). lia.
  - rewrite bind_fst. destruct (ws_cancel_after w); cbn [negb]; [done|]. cbn [mret stm_ret]. apply IH.
    intros w' Hw'. apply Hst. by apply list_elem_of_further.
Qed.

Lemma paced_after poll deadline steps : ∀ earliest,
  paced poll deadline earliest steps → ∀ w, w ∈ steps → (earliest <= ws_now w)%N.
Proof.
  induction steps as [|w steps IH]; intros e Hp w' Hin; [by apply not_elem_of_nil in Hin|].
  destruct Hp as [Hw Hp]. apply elem_of_cons in Hin as [->|Hin]; [done|]. specialize (IH _ Hp _ Hin). lia.
Qed.

(** C35: A bounded wait ends.  With a poll interval that is not zero and a clock that is
    never earlier than the sleeps it follows, the loop has its verdict - rows, a time-out,
    a cancellation or an error - within two turns more than the interval fits whole into
    the time-out, whatever each scan finds; and a time-out has waited the whole of it. *)
Theorem wait_terminates timeout poll started steps s :
  (0 < poll)%N → paced poll (started + timeout) started steps →
  (timeout / poll + 2 <= N.of_nat (length steps))%N →
  (wait_for_rows timeout started steps s).2 ≠ Ok None ∧
  ∀ s' c waited, wait_for_rows timeout started steps s = (s', Ok (Some (TimedOut c waited))) → (timeout <= waited)%N.
Proof.
  intros Hp Hpace Hlen. unfold wait_for_rows. destruct (MAX_WAIT <? timeout)%N; [done|].
  pose proof (N.mul_succ_div_gt timeout poll ltac:(lia)) as Hq. generalize dependent (timeout / poll)%N. intros q Hlen Hq. split.
  - eapply wait_loop_ends; [done|exact Hpace|by intros ->; cbn [length] in Hlen; lia|nia].
  - intros s' c waited Hw. apply wait_loop_timeout in Hw; [lia|]. by apply (paced_after _ _ _ _ Hpace).
Qed.

(** ** The cursor file. *)

Lemma persist_run op fp c s :
  let r := rs_reader s in
  ∃ m, persist (MkPersist None None None None None op fp) c s =
         (_ ← rd_fail "open_parent" (rd_dir r) op; rd_fail "fsync_parent" (rd_dir r) fp) (MkRState m r) ∧
       m !! rd_name r = Some (show_N c +:+ lf_str).
Proof.
  intros r. set (temp := with_extension "tmp" (rd_name r)). set (text := show_N c +:+ lf_str).
  exists (<[rd_name r := text]> (base.delete temp (<[temp := text]> (<[temp := EmptyString]> (rs_files s))))).
  split; [|by rewrite lookup_insert_eq].
  assert (file_rename temp (rd_name r) (<[temp := text]> (<[temp := EmptyString]> (rs_files s))) =
          <[rd_name r := text]> (base.delete temp (<[temp := text]> (<[temp := EmptyString]> (rs_files s))))) as <-
    by (unfold file_rename; by rewrite lookup_insert_eq). reflexivity.
Qed.

Lemma load_shown path c : (c < u64_modulus)%N → cursor_load path (Ok (Some (show_N c +:+ lf_str))) = Ok c.
Proof.
  intros Hc. unfold cursor_load.
  destruct (show_N_digits c) as (Hd & _ & Hne). pose proof (digits_line_value _ Hne Hd) as (_ & Ht & _)%line_value_spec.
  rewrite trim_line by done. unfold parse_u64. rewrite parse_below_show by done. by destruct (show_N c).
Qed.

(** A cursor survives a restart.  When the cursor file was replaced without a fault, a
    reader opened on it begins at that cursor. *)
Theorem cursor_roundtrip s c :
  (c < u64_modulus)%N →
  let r := rs_reader s in
  let '(s', res) := persist (MkPersist None None None None None None None) c s in
  res = Ok tt ∧ cursor_load (in_dir (rd_dir r) (rd_name r)) (Ok (rs_files s' !! rd_name r)) = Ok c.
Proof.
  intros Hc r. destruct (persist_run None None c s) as (m & Hp & Hm). rewrite Hp.
  unfold rd_fail. rewrite bind_fst. cbn [mret stm_ret rs_files]. fold r in Hm |- *. rewrite Hm. split; [done|by apply load_shown].
Qed.

(** The cursor file moves before the rows are handed out: a fault between its rename and
    the sync of its directory refuses the scan, and a reader opened on the file afterwards
    begins past the rows nobody was given. *)
Lemma refused_scan_moves_the_file s t d rows :
  let r := rs_reader s in
  let n := N.of_nat (length (lines t)) in
  scan_lines (rd_beads r) (rd_cursor r) 0 (lines t) = Ok rows → (rd_cursor r < n < u64_modulus)%N →
  let '(s', res) := read_available (MkReadEnv (Ok (Some t)) (MkPersist None None None None None (Some d) None)) s in
  res = Err (RdIo "open_parent" (rd_dir r) d) ∧ rd_cursor (rs_reader s') = rd_cursor r ∧
  cursor_load (in_dir (rd_dir r) (rd_name r)) (Ok (rs_files s' !! rd_name r)) = Ok n.
Proof.
  intros r n Hscan Hn. unfold read_available. rewrite bind_fst. cbn [stm_get ra_ledger ra_persist]. rewrite bind_fst.
  fold r. unfold stm_lift. rewrite Hscan, bind_fst. unfold stm_refuse, stm_require. fold n.
  assert ((n <? rd_cursor r)%N = false) as -> by (apply N.ltb_ge; lia). cbn [negb mret stm_ret].
  rewrite bind_fst. unfold advance_cursor. rewrite bind_fst. cbn [stm_get]. fold r.
  assert ((rd_cursor r <? n)%N = true) as -> by (apply N.ltb_lt; lia). rewrite bind_fst.
  destruct (persist_run (Some d) None n s) as (m & Hp & Hm). fold r in Hm, Hp. rewrite Hp.
  unfold rd_fail. rewrite bind_fst. cbn [stm_fail rs_files rs_reader]. split_and!; [done|done|]. rewrite Hm. apply load_shown. lia.
Qed.
End Reader.

(** ** Reading what the ledger wrote. *)

Section Written.
Context `{JsonLaws}.
Context (parse_message : string → string) (debug_str : string → string).

(** What a row adds beside the common fields leaves the schema and the evidence alone. *)
Definition extra_free (extra : list (string * Json)) : bool :=
  forallb (λ kv, negb (bool_decide (kv.1 = "schema")) && negb (bool_decide (kv.1 = "evidence"))) extra.

Lemma row_get_free i o ev st e extra now k :
  extra_free extra = true → k = "schema" ∨ k = "evidence" →
  json_get k (ledger_row i o ev st e extra now) = json_get k (ledger_row i o ev st e [] now).
Proof.
  intros Hx Hk. unfold ledger_row, json_get, as_object. cbn [mbind option_bind]. apply bt_get_extend_ne.
  apply Forall_forall. intros kv Hin. unfold extra_free in Hx. rewrite forallb_forall in Hx.
  apply list_elem_of_In in Hin. apply Hx, andb_true_iff in Hin as [Hns Hne].
  apply negb_true_iff, bool_decide_eq_false in Hns, Hne. destruct Hk; congruence.
Qed.

Lemma required_string_at v k c s : json_get k v = Some (JString s) → blank s = false → required_string v k c = Ok s.
Proof. intros Hg Hb. unfold required_string, required_value. rewrite Hg. cbn. unfold blank in Hb. by rewrite Hb. Qed.

Lemma require_all_at v c keys :
  Forall (λ k, ∃ x, json_get k v = Some x ∧ x ≠ JNull) keys → require_all v keys c = Ok tt.
Proof.
  induction 1 as [|k keys (x & Hx & Hn) _ IH]; cbn [require_all]; [done|].
  unfold required_value. rewrite Hx. by destruct x.
Qed.

(** Every row the ledger writes is one the reader accepts. *)
Lemma ledger_row_decodes i o ev st e extra now c :
  id_ok i = true → ev_ok e = true → extra_ok extra = true → extra_free extra = true → blank ev = false →
  let row := ledger_row i o ev st e extra now in
  decode_row debug_str c row = Ok (MkLifeRow c (id_bead i) ev (status_str st) (ev_id e) (ev_observed e) row).
Proof.
  intros Hi [Hk _]%andb_true_iff Hx Hf Hev row. apply negb_true_iff in Hk.
  unfold id_ok in Hi. cbn [forallb] in Hi. rewrite !andb_true_iff, !negb_true_iff in Hi.
  destruct Hi as (Hb & _). unfold decode_row.
  assert (∀ k, bool_decide (k ∈ row_keys) = true → json_get k row = json_get k (ledger_row i o ev st e [] now)) as Hg
    by (intros k Hin; by apply row_get).
  rewrite (required_string_at row "schema" c BEAD_LIFECYCLE_LEDGER_SCHEMA);
    [|unfold row; rewrite row_get_free by auto; reflexivity|done].
  cbn [mbind result_bind]. rewrite bool_decide_eq_true_2 by done. cbn [negb].
  rewrite (required_string_at row "event" c ev) by (done || (rewrite Hg by (vm_compute; reflexivity); reflexivity)).
  cbn [mbind result_bind].
  rewrite (required_string_at row "status" c (status_str st));
    [|rewrite Hg by (vm_compute; reflexivity); reflexivity|by destruct st].
  cbn [mbind result_bind].
  rewrite (required_string_at row "bead" c (id_bead i)) by (done || (rewrite Hg by (vm_compute; reflexivity); reflexivity)).
  cbn [mbind result_bind].
  rewrite (required_string_at row "idempotency_key" c (ev_id e)) by (done || (rewrite Hg by (vm_compute; reflexivity); reflexivity)).
  cbn [mbind result_bind]. rewrite require_all_at.
  - cbn [mbind result_bind]. rewrite (Hg "freshness") by (vm_compute; reflexivity). reflexivity.
  - repeat (apply Forall_cons; split; [|try apply Forall_nil_2]).
    all: eexists; (split; [first [rewrite Hg by (vm_compute; reflexivity); reflexivity
                                 | unfold row; rewrite row_get_free by auto; reflexivity]|done]).
Qed.

Lemma scan_rows beads c rows : ∀ n,
  (c <= n)%N →
  Forall (λ kr, canonical kr.2 = true ∧ ∀ k, ∃ row, decode_row debug_str k kr.2 = Ok row ∧
                lr_raw row = kr.2 ∧ lr_bead row ∈ beads) rows →
  ∃ out, scan_lines parse_message debug_str beads c n (row_lines rows) = Ok out ∧ map lr_raw out = map snd rows ∧
         map lr_cursor out = map (λ k, n + 1 + N.of_nat k)%N (seq 0 (length rows)).
Proof.
  intros n Hn Hrows. revert n Hn. induction Hrows as [|[key v] rows (Hcan & Hdec) _ IH]; intros n Hn;
    cbn [row_lines map scan_lines snd seq length] in *; [by exists []|].
  assert ((n + 1 <=? c)%N = false) as -> by (apply N.leb_gt; lia).
  destruct (to_string_text v) as [Ht Hne]. rewrite Ht.
  assert (is_empty (to_string v) = false) as -> by (by destruct (to_string v)). cbn [orb].
  rewrite from_to_string by done. cbn [ok_or mbind result_bind].
  destruct (Hdec (n + 1)%N) as (row & Hd & Hraw & Hin). rewrite Hd. cbn [mbind result_bind].
  destruct (IH (n + 1)%N ltac:(lia)) as (out & Hs & Hm & Hc). unfold row_lines in Hs. rewrite Hs. cbn [mbind result_bind].
  rewrite bool_decide_eq_true_2 by done. exists (row :: out). split; [done|]. cbn [map]. rewrite Hm, Hraw, Hc. split; [done|].
  assert (lr_cursor row = (n + 1)%N) as ->.
  { by eapply decode_row_cursor in Hd. }
  f_equal; [lia|]. rewrite <- seq_shift, map_map. apply map_ext. intros k. lia.
Qed.

Lemma rows_after_decode i objective o :
  id_ok i = true → ev_ok (op_evidence o) = true → op_check i objective o = Ok tt →
  Forall (λ kr, canonical kr.2 = true ∧ ∀ k, ∃ row, decode_row debug_str k kr.2 = Ok row ∧
                lr_raw row = kr.2 ∧ lr_bead row ∈ [id_bead i]) (rows_after i objective o).
Proof.
  intros Hi He Hck. pose proof (op_extra_ok o) as Hx. unfold rows_after, op_rows.
  assert (extra_free (op_row o).2 = true) as Hf.
  { destruct o as [| | | |env r e| | |]; try reflexivity. cbn [op_row snd]. unfold Ledger.grade_extra. by destruct (grade_result r). }
  assert (blank (op_row o).1.1 = false) as Hb by (destruct o as [| | | |env r e| | |]; try reflexivity; cbn; by destruct (grade_result r)).
  destruct (op_row o) as [[ev st] extra] eqn:Hrow. cbn [fst snd] in *.
  assert (∀ key e' ev' now, ev_ok e' = true → blank ev' = false →
    let kr := (key, ledger_row i objective ev' st e' extra now) : KeyedRow in
    canonical kr.2 = true ∧ ∀ k, ∃ row,
      decode_row debug_str k kr.2 = Ok row ∧ lr_raw row = kr.2 ∧ lr_bead row ∈ [id_bead i]) as Hdec.
  { intros key e' ev' now He' Hev' kr. split.
    - apply andb_true_iff in He' as [_ Hcan]. by apply ledger_row_canonical.
    - intros k. subst kr. cbn [snd]. rewrite ledger_row_decodes by done. eexists. split; [done|]. split; [done|].
      apply list_elem_of_here. }
  destruct o as [| | | |env r e| | |]; cbn [op_evidence] in *;
    repeat apply Forall_cons_2; try apply Forall_nil_2; apply Hdec; try done.
  unfold ev_ok in *. cbn [ev_id ev_fields]. apply andb_true_iff in He as [_ Hfields]. rewrite Hfields, andb_true_r.
  cbn [op_check] in Hck. destruct (identity_check _ _ _ _ _ _ _); [|done]. cbn [mbind result_bind] in Hck.
  unfold EventId_new in Hck. by destruct (blank (ev_id e +:+ ":receipt")).
Qed.

(** A transition reaches its reader.  When a call on the ledger moved a bead's
    lifecycle, a reader of that bead that had read the file to its end is handed, by its
    next scan, exactly the rows the call wrote, under the numbers of their lines, and its
    cursor is at the end again. *)
Theorem transition_reaches_reader i objective o s rows s' os r env :
  id_ok i = true → call_calm (op_env o) = true → ev_ok (op_evidence o) = true → sound (l_file s) rows →
  exec i objective o s = (s', Ok os) → s' ≠ s →
  rd_beads (rs_reader r) = [id_bead i] →
  let before := N.of_nat (length (lines (default EmptyString (l_file s)))) in
  rd_cursor (rs_reader r) = before →
  ra_ledger env = Ok (l_file s') → persist_calm (ra_persist env) = true →
  let after := (before + N.of_nat (length (rows_after i objective o)))%N in
  ∃ r' out, read_available parse_message debug_str env r = (r', Ok (ReadRows after out)) ∧
    map lr_raw out = map snd (rows_after i objective o) ∧
    map lr_cursor out = map (λ k, before + 1 + N.of_nat k)%N (seq 0 (length (rows_after i objective o))) ∧
    rd_cursor (rs_reader r') = after.
Proof.
  intros Hi Hc He Hs Hx Hne Hb before Hcur Hled Hpc after.
  destruct (exec_calm i objective o s rows Hc Hs) as [Hsame|(l' & Hck & _ & _ & Heq)]; [by rewrite Hx in Hsame|].
  rewrite Hx in Heq. injection Heq as -> _. cbn [l_file] in Hled.
  destruct (scan_rows [id_bead i] before (rows_after i objective o) before (N.le_refl _)) as (out & Hout & Hraw & Hcs);
    [by apply rows_after_decode|].
  assert (lines (default EmptyString (l_file s) +:+ line_block (row_lines (rows_after i objective o))) =
          app (lines (default EmptyString (l_file s))) (row_lines (rows_after i objective o))) as Hlines.
  { rewrite lines_app by apply Hs. f_equal. rewrite <- (str_app_nil_r (line_block _)), lines_block. apply app_nil_r. }
  unfold read_available. rewrite bind_fst. cbn [stm_get]. rewrite Hled, bind_fst, Hlines, Hb, Hcur.
  unfold stm_lift. rewrite scan_app, (scan_skip parse_message debug_str _ _ (lines (default EmptyString (l_file s)))), N.add_0_l by (unfold before; lia).
  fold before. rewrite Hout.
  cbn [mbind result_bind]. rewrite bind_fst. unfold stm_refuse, stm_require. rewrite length_app, Nat2N.inj_add. fold before.
  unfold row_lines. rewrite length_map. change (before + N.of_nat (length (rows_after i objective o)))%N with after.
  assert ((after <? before)%N = false) as -> by (apply N.ltb_ge; unfold after; lia). cbn [negb mret stm_ret]. rewrite bind_fst.
  pose proof (rows_after_ne i objective o) as Hrne.
  unfold advance_cursor. rewrite bind_fst. cbn [stm_get]. rewrite Hcur.
  assert ((before <? after)%N = true) as -> by (apply N.ltb_lt; unfold after; destruct (rows_after i objective o); [done|cbn [length]; lia]).
  rewrite bind_fst. destruct (ra_persist env) as [[?|] [?|] [?|] [?|] [?|] [?|] [?|]]; try done.
  destruct (persist_run None None after r) as (m & Hp & _). rewrite Hp. unfold rd_fail. rewrite bind_fst.
  cbn [mret stm_ret stm_modify]. rewrite bind_fst. cbn [stm_get mret stm_ret set_cursor rs_reader rs_files rd_cursor app].
  destruct out as [|x out]; [by destruct (rows_after i objective o)|].
  eexists _, (x :: out). split; [reflexivity|done].
Qed.
End Written.

(** ** Examples. *)

#[local] Existing Instance bits_from_json.
#[local] Existing Instance bits_to_json.
#[local] Existing Instance bits_json_laws.

Definition ex_msg (_ : string) : string := "expected value".
Definition ex_debug (s : string) : string := dquote +:+ s +:+ dquote.
Definition ex_calm : PersistEnv := MkPersist None None None None None None None.
Definition ex_reader (c : N) : RState := MkRState ∅ (MkReader "ledger.jsonl" "/state" "cursor" ["b-1"] c 10).
Definition ex_line : string := to_string (ledger_row ex_identity "work" "selected" Selected (ex_ev "e0" 5) [] 5).

Example reader_delivers_once_witness :
  let '(s', rows) := read_session ex_msg ex_debug [MkReadEnv (Err "io") ex_calm; MkReadEnv (Ok (Some "{")) ex_calm] (ex_reader 0) in
  (0 <= rd_cursor (rs_reader s') <= 1)%N ∧
  rows_between ex_debug [ex_line] ["b-1"] 0%N (rd_cursor (rs_reader s')) rows ∧
  ∀ e t, ra_ledger e = Ok (Some t) → lines t = [ex_line] → persist_calm (ra_persist e) = true →
    (∀ j l, [ex_line] !! j = Some l → (0 < N.of_nat j + 1)%N → line_reads ex_debug (N.of_nat j + 1) l) →
    rows_between ex_debug [ex_line] ["b-1"] 0%N 1%N (app rows (delivered (read_available ex_msg ex_debug e s').2)) ∧
    rd_cursor (rs_reader (read_available ex_msg ex_debug e s').1) = 1%N.
Proof.
  apply (reader_delivers_once ex_msg ex_debug [ex_line] ["b-1"] (ex_reader 0)); [done|done|].
  repeat constructor. exists 0%nat. right. exists "{". split_and!; [done| |done|done]. cbn. lia.
Defined.

Definition ex_turn (now : N) : WaitStep := MkWaitStep false (MkReadEnv (Ok None) ex_calm) now false.

Example wait_terminates_witness :
  let steps := [ex_turn 100; ex_turn 110; ex_turn 120; ex_turn 125] in
  (wait_for_rows ex_msg ex_debug 25%N 100%N steps (ex_reader 0%N)).2 ≠ Ok None ∧
  ∀ s' c waited, wait_for_rows ex_msg ex_debug 25%N 100%N steps (ex_reader 0%N) = (s', Ok (Some (TimedOut c waited))) →
    (25 <= waited)%N.
Proof.
  apply (wait_terminates ex_msg ex_debug 25 10 100); [done| |done]. cbn [paced ws_now ex_turn]. unfold wait_delay. lia.
Defined.

Example wait_times_out :
  (wait_for_rows ex_msg ex_debug 25 100 [ex_turn 100; ex_turn 110; ex_turn 120; ex_turn 125] (ex_reader 0)).2
    = Ok (Some (TimedOut 0%N 25%N)).
Proof. reflexivity. Qed.

Example cursor_roundtrip_witness :
  let '(s', res) := persist ex_calm 7%N (ex_reader 0%N) in
  res = Ok tt ∧ cursor_load (in_dir "/state" "cursor") (Ok (rs_files s' !! "cursor")) = Ok 7%N.
Proof. apply (cursor_roundtrip (ex_reader 0%N) 7%N). done. Defined.

Example transition_reaches_reader_witness :
  let o := ex_dispatch 6 in
  ∃ r' out, read_available ex_msg ex_debug (MkReadEnv (Ok (ex_file o)) ex_calm) (ex_reader 0) = (r', Ok (ReadRows 1%N out)) ∧
    map lr_raw out = map snd (rows_after ex_identity "work" o) ∧ map lr_cursor out = [1%N] ∧
    rd_cursor (rs_reader r') = 1%N.
Proof.
  exact (transition_reaches_reader ex_msg ex_debug ex_identity "work" (ex_dispatch 6) (MkLState None ex_start) [] _ _ (ex_reader 0%N)
    (MkReadEnv (Ok (ex_file (ex_dispatch 6))) ex_calm)
    eq_refl eq_refl eq_refl sound_empty (ex_dispatch_runs 6) ltac:(by intros Heq%(f_equal l_life)) eq_refl eq_refl eq_refl eq_refl).
Defined.
