(* ===== verification/QueueSelect.v ===== *)
(** * Which bead is dispatched next, and who grades what (loop-queue-filter)

    Model of loop-queue-filter/src/select.rs: the ranking of the ready beads (by the
    recommendations of the graph tool, or by its whole PageRank map), the two slots ahead
    of the ranking (a blocker that can be cleared, a bead to be graded), and the choice
    of a grader for a finished bead; and of phase_gate.rs, the gate a cycle puts between
    the ranking and the dispatch.

    The graph tool's output and the tracker's export are texts; what [serde_json] reads
    in them is a parameter.  A score is a binary64 number: [SpecFloat]'s arithmetic with
    the precision and range of [f64]. *)

From stdpp Require Import base numbers list option strings sorting sets.
From Stdlib Require Import NArith ZArith Ascii Lia Floats.SpecFloat.
From S2P Require Import Prelude RustStr Order Json.

Open Scope string_scope.

(** ** Numbers. *)

Definition i64_min : Z := - 2 ^ 63.
Definition i64_max : Z := 2 ^ 63 - 1.
Definition clamp_i64 (z : Z) : Z := Z.max i64_min (Z.min i64_max z).

Definition f64_mul (a b : spec_float) : spec_float := SFmul 53 1024 a b.
Definition f64_finite (f : spec_float) : bool :=
  match f with S754_zero _ | S754_finite _ _ _ => true | _ => false end.
Definition f64_zero : spec_float := S754_zero false.

(** The magnitude of a finite number, times two and rounded down: enough to truncate it
    and to round it half away from zero. *)
Definition f64_twice (m : positive) (e : Z) : Z :=
  if (0 <=? e + 1)%Z then (Zpos m * 2 ^ (e + 1))%Z else (Zpos m / 2 ^ (- (e + 1)))%Z.
Definition signed (s : bool) (z : Z) : Z := if s then (- z)%Z else z.

(** [f as i64]: toward zero, saturating, zero for what is not a number. *)
Definition f64_as_i64 (f : spec_float) : Z :=
  match f with
  | S754_finite s m e => clamp_i64 (signed s (f64_twice m e / 2))
  | S754_infinity s => if s then i64_min else i64_max
  | _ => 0%Z
  end.
(** [f.round() as i64]. *)
Definition f64_round_i64 (f : spec_float) : Z :=
  match f with
  | S754_finite s m e => clamp_i64 (signed s ((f64_twice m e + 1) / 2))
  | S754_infinity s => if s then i64_min else i64_max
  | _ => 0%Z
  end.
(** [-z] of an [i64]: the least one is its own opposite (a debug build panics). *)
Definition neg_i64 (z : Z) : Z := if bool_decide (z = i64_min) then i64_min else (- z)%Z.

(** ** Identities. *)

Definition pane_scoped (id : string) : bool :=
  match strip_prefix "pane" id with
  | None => false
  | Some rest =>
      match split_once "-%" rest with
      | None => false
      | Some (digits, pane) =>
          negb (is_empty digits) && all_bytes is_ascii_digit digits
          && negb (is_empty pane) && all_bytes is_ascii_digit pane
          && all_bytes (λ c, (N_of_ascii c <? 128)%N) id
      end
  end.

(** [tmux_pane_id]: a percent sign and digits. *)
Definition tmux_pane_id (raw : string) : option string :=
  let pane := trim raw in
  digits ← strip_prefix "%" pane;
  if is_empty digits || negb (all_bytes is_ascii_digit digits) then None else Some pane.

Definition pane_assignee_key (pane_id : string) : option string :=
  let id := trim pane_id in
  rest ← strip_prefix "%" id;
  if is_empty rest || negb (all_bytes is_ascii_digit rest) then None
  else Some ("pane" +:+ rest +:+ "-" +:+ id).

(** ** Text that only quotes the marker. *)

(** The characters up to the quote that closes the one just read. *)
Fixpoint close_at (quote : string) (escaped : bool) (l : list string) : option nat :=
  match l with
  | [] => None
  | c :: l =>
      if negb (bool_decide (quote = "`")) && bool_decide (c = lf_str) then None
      else if bool_decide (c = quote) && negb escaped then Some 0%nat
      else S <$> close_at quote (if bool_decide (c = "\") then negb escaped else false) l
  end.

Definition is_quote (c : string) : bool :=
  bool_decide (c = "'") || bool_decide (c = dquote) || bool_decide (c = "`").

Fixpoint strip_go (fuel : nat) (l : list string) : list string :=
  match fuel, l with
  | S fuel, c :: rest =>
      if negb (is_quote c) then c :: strip_go fuel rest
      else match close_at c false rest with
           | Some n => app (replicate (n + 2) " ") (strip_go fuel (drop (S n) rest))
           | None => c :: strip_go fuel rest
           end
  | _, _ => []
  end.
Definition strip_nonsemantic (text : string) : string :=
  let cs := chars text in concat_chars (strip_go (length cs) cs).

Definition filed_only_marker (text : string) : bool :=
  let lower := to_ascii_lowercase (strip_nonsemantic text) in
  if contains lower "file not claim" || contains lower "filed only" then true
  else existsb (λ line, let line := trim_start line in
         (starts_with line "status:" || starts_with line "stage:" || starts_with line "marker:")
         && contains line "do not claim") (lines lower).

(** ** The tracker's export. *)

Record BeadComments := MkBead {
  b_id : string; b_status : string; b_assignee : string; b_filed_only : bool;
  b_authors : list string; b_texts : list string }.

Definition str_field (k : string) (v : Json) : string := default "" (json_get k v ≫= as_str).

Definition bead_of (v : Json) : BeadComments :=
  let comments := default [] (json_get "comments" v ≫= as_array) in
  MkBead (str_field "id" v) (str_field "status" v) (trim (str_field "assignee" v))
    (filed_only_marker (str_field "description" v) || filed_only_marker (str_field "acceptance_criteria" v))
    (omap (λ c, json_get "author" c ≫= as_str) comments)
    (omap (λ c, json_get "text" c ≫= as_str) comments).

Definition done_evidence (b : BeadComments) : bool :=
  existsb (λ t, contains t "MUTATION-VERIFIED" || contains t "STAGE: IMPL -> GRADING"
                || contains t "DONE " || starts_with t "DONE") (b_texts b).
Definition is_reapable (b : BeadComments) : bool :=
  negb (b_filed_only b) && (bool_decide (b_status b = "open") || bool_decide (b_status b = "in_progress"))
  && done_evidence b.

(** ** Authors. *)

Definition set_insert (x : string) (s : list string) : list string := btree_set (x :: s).

Definition pane_scoped_authors (b : BeadComments) : list string :=
  btree_set (app (if pane_scoped (b_assignee b) then [b_assignee b] else [])
                 (List.filter pane_scoped (b_authors b))).

Definition ack_pane (text : string) : option string :=
  if negb (starts_with text "ACK ") then None else
  '(_, rest) ← split_once " on %" text;
  '(body, _) ← split_once " --" ("%" +:+ rest);
  digits ← strip_prefix "%" body;
  if is_empty digits || negb (all_bytes is_ascii_digit digits) then None else Some body.

Definition insert_pane (pane : string) (s : list string) : list string :=
  let s := set_insert pane s in
  match pane_assignee_key pane with Some key => set_insert key s | None => s end.

Definition author_panes (b : BeadComments) (ledger : list (string * list string)) : list string :=
  let out := foldl (λ s t, match ack_pane t with Some p => insert_pane p s | None => s end)
                   (pane_scoped_authors b) (b_texts b) in
  match bt_get (b_id b) ledger with
  | Some panes => foldl (λ s p, insert_pane p s) out panes
  | None => out
  end.

Definition authors_include_pane (authors : list string) (pane_id : string) : bool :=
  bool_decide (pane_id ∈ authors)
  || match pane_assignee_key pane_id with Some key => bool_decide (key ∈ authors) | None => false end
  || existsb (λ a, pane_scoped a && ends_with a pane_id) authors.

(** ** Rankings: sorted tuples. *)

Definition rank_lt : N * Z * string → N * Z * string → bool := pair_lt (pair_lt N.ltb Z.ltb) str_lt.
Definition rest_lt : N * Z * nat * string → N * Z * nat * string → bool :=
  pair_lt (pair_lt (pair_lt N.ltb Z.ltb) Nat.ltb) str_lt.
Definition page_lt : Z * N * string → Z * N * string → bool := pair_lt (pair_lt Z.ltb N.ltb) str_lt.

(** [if !out.iter().any(|c| c == id) { out.push(id) }]. *)
Definition push_new (out : list string) (id : string) : list string :=
  if bool_decide (id ∈ out) then out else app out [id].

Inductive RankWindow :=
  | EmptyReady | FilteredFiledOnly | RecommendationsOnly | RecommendationsPlusPriorityFallback | PriorityFallback.
#[global] Instance RankWindow_eq_dec : EqDecision RankWindow.
Proof. solve_decision. Defined.
Definition window_label (w : RankWindow) : string :=
  match w with
  | EmptyReady => "EMPTY_READY" | FilteredFiledOnly => "FILTERED_FILED_ONLY"
  | RecommendationsOnly => "RECOMMENDATIONS_ONLY"
  | RecommendationsPlusPriorityFallback => "RECOMMENDATIONS_PLUS_PRIORITY_FALLBACK"
  | PriorityFallback => "PRIORITY_FALLBACK"
  end.
Record RankedOrder := MkOrder { ids : list string; window : RankWindow; scored : nat }.

Inductive GradingSlot := Offer (id : string) | Skip (reason : string).
Definition slot_display (s : GradingSlot) : string :=
  match s with
  | Offer id => "GRADING_SLOT_OFFER bead=" +:+ id
  | Skip reason => "GRADING_SLOT_SKIP reason=" +:+ reason
  end.

Record ObservedPane := MkObserved {
  ob_pane : string; ob_liveness : string; ob_dispatchable : bool; ob_working : bool }.
Definition is_confirmed_idle (p : ObservedPane) : bool :=
  ob_dispatchable p && bool_decide (ob_liveness p = "CONFIRMED_IDLE") && negb (ob_working p).

Record GradeAssignment := MkAssignment {
  as_bead : string; as_grader : string; as_assignee : string; as_observer : string }.
Inductive AssignGradeError :=
  | EmptyObservation | ObserverPaneUnresolved | NoEligibleGrader (reason : string)
  | GraderCarryingOwnDispatch (pane liveness : string) (is_working : bool)
  | GraderIdentityUnresolved (detail : string) | AgJsonl (detail : string).
Definition show_bool (b : bool) : string := if b then "true" else "false".
Definition assign_error_display (e : AssignGradeError) : string :=
  match e with
  | EmptyObservation => "EMPTY_OBSERVATION no eligible grader can be decided from an empty pane set"
  | ObserverPaneUnresolved => "PEER_GRADING_REFUSED reason=observer_pane_unresolved"
  | NoEligibleGrader reason => "NO_ELIGIBLE_GRADER reason=" +:+ reason
  | GraderCarryingOwnDispatch p l w =>
      "GRADER_CARRYING_OWN_DISPATCH pane=" +:+ p +:+ " liveness=" +:+ l +:+ " is_working=" +:+ show_bool w
  | GraderIdentityUnresolved d => "GRADER_IDENTITY_UNRESOLVED " +:+ d
  | AgJsonl d => d
  end.

Section Select.
Context `{SerdeJson}.
(** serde_json's message for a text that is not JSON, and [Display] of an [f64]. *)
Context (parse_message : string → string) (show_f64 : spec_float → string).

Notation R := (result string).
Notation Priorities := (list (string * N)) (only parsing).

Definition read_json (what text : string) : R Json :=
  ok_or (from_str text) ("QUEUE_UNRANKED " +:+ what +:+ " JSON: " +:+ parse_message text).

Definition path (ks : list string) (v : Json) : option Json :=
  foldl (λ o k, o ≫= json_get k) (Some v) ks.

(** The recommendations every ranking starts from: an array that is not empty. *)
Definition recommendations (v : Json) : R (list Json) :=
  recs ← ok_or (path ["triage"; "recommendations"] v ≫= as_array)
           "QUEUE_UNRANKED bv triage has no .triage.recommendations array";
  if bool_decide (recs = []) then Err "QUEUE_UNRANKED bv triage .triage.recommendations is empty" else Ok recs.

Definition is_epic (row : Json) : bool :=
  match json_get "type" row ≫= as_str with Some kind => eq_ignore_ascii_case kind "epic" | None => false end.
Definition is_assigned (row : Json) : bool :=
  match json_get "assignee" row ≫= as_str with Some who => negb (is_empty (trim who)) | None => false end.
Definition row_priority (row : Json) : N := default u64_max (json_get "priority" row ≫= as_u64).
Definition row_score (row : Json) : Z :=
  match json_get "score" row ≫= as_f64 with
  | Some s => neg_i64 (f64_as_i64 (f64_mul s (f64_of_Z 1000000)))
  | None => 0%Z
  end.
Definition offered (ready : list string) (row : Json) (id : string) : bool :=
  bool_decide (id ∈ ready) && negb (is_epic row) && negb (is_assigned row).

Definition rank_row (ready : list string) (row : Json) : option (N * Z * string) :=
  id ← json_get "id" row ≫= as_str;
  if offered ready row id then Some (row_priority row, row_score row, id) else None.

Definition rank_ready (triage : string) (ready : list string) : R (list string) :=
  v ← read_json "bv triage" triage;
  recs ← recommendations v;
  let ranked := stable_sort rank_lt (omap (rank_row ready) recs) in
  Ok (foldl push_new (map snd ranked) ready).

(** Every recommendation's own priority and score, the last of an id kept. *)
Definition scored_map (recs : list Json) : list (string * (N * Z)) :=
  foldl (λ m row, match json_get "id" row ≫= as_str with
                  | Some id => bt_insert id (row_priority row, row_score row) m
                  | None => m
                  end) [] recs.

Definition rank_row_prio (ready : list string) (prios : Priorities) (row : Json) : option (N * Z * string) :=
  id ← json_get "id" row ≫= as_str;
  if offered ready row id
  then Some (default (row_priority row) (bt_get id prios), row_score row, id) else None.

Fixpoint remaining_rows (ids0 : list string) (prios : Priorities) (sc : list (string * (N * Z))) (index : nat)
    (ready : list string) : list (N * Z * nat * string) :=
  match ready with
  | [] => []
  | id :: ready =>
      let rest := remaining_rows ids0 prios sc (S index) ready in
      if bool_decide (id ∈ ids0) then rest
      else let '(p, s) := default (u64_max, 0%Z) (bt_get id sc) in
           (default p (bt_get id prios), s, index, id) :: rest
  end.

Definition rank_ready_with_priorities (triage : string) (ready : list string) (prios : Priorities) : R RankedOrder :=
  v ← read_json "bv triage" triage;
  recs ← recommendations v;
  let ids0 := map snd (stable_sort rank_lt (omap (rank_row_prio ready prios) recs)) in
  let rest := map snd (stable_sort rest_lt (remaining_rows ids0 prios (scored_map recs) 0 ready)) in
  let all := app ids0 rest in
  let w := if bool_decide (ready = []) then EmptyReady
           else if bool_decide (ids0 = []) then PriorityFallback
           else if (length ids0 <? length all)%nat then RecommendationsPlusPriorityFallback
           else RecommendationsOnly in
  Ok (MkOrder all w 0).

(** The PageRank of one ready bead: what the map holds, zero when it leaves it out. *)
Definition page_score (ranks : list (string * Json)) (id : string) : R spec_float :=
  match map_get id ranks with
  | Some v => ok_or (as_f64 v) ("QUEUE_UNRANKED bv insights PageRank is not numeric for " +:+ id)
  | None => Ok f64_zero
  end.
Definition page_key (ranks : list (string * Json)) (prios : Priorities) (id : string) : R (Z * N * string * bool) :=
  score ← page_score ranks id;
  if negb (f64_finite score) || SFltb score f64_zero
  then Err ("QUEUE_UNRANKED bv insights PageRank is invalid for " +:+ id +:+ ": " +:+ show_f64 score) else
  priority ← ok_or (bt_get id prios) ("QUEUE_UNRANKED br ready row has no priority for " +:+ id);
  let scaled := f64_mul score (f64_of_Z 1000000000000000) in
  if negb (f64_finite scaled) || SFltb (f64_of_Z (2 ^ 63)) scaled
  then Err ("QUEUE_UNRANKED bv insights PageRank is out of range for " +:+ id +:+ ": " +:+ show_f64 score) else
  Ok (neg_i64 (f64_round_i64 scaled), priority, id, SFltb f64_zero score).
Fixpoint page_keys (ranks : list (string * Json)) (prios : Priorities) (ready : list string)
    : R (list (Z * N * string * bool)) :=
  match ready with
  | [] => Ok []
  | id :: ready => k ← page_key ranks prios id; ks ← page_keys ranks prios ready; Ok (k :: ks)
  end.

(** The map of the insights, when they are of the triage's snapshot and computed. *)
Definition page_ranks (triage insights : Json) : R (list (string * Json)) :=
  th ← ok_or (json_get "data_hash" triage ≫= as_str) "QUEUE_UNRANKED bv triage has no data_hash";
  ih ← ok_or (json_get "data_hash" insights ≫= as_str) "QUEUE_UNRANKED bv insights has no data_hash";
  if negb (bool_decide (th = ih))
  then Err ("QUEUE_UNRANKED bv snapshot mismatch triage=" +:+ th +:+ " insights=" +:+ ih) else
  state ← ok_or (path ["status"; "PageRank"; "state"] insights ≫= as_str)
            "QUEUE_UNRANKED bv insights has no PageRank status";
  if negb (bool_decide (state = "computed"))
  then Err ("QUEUE_UNRANKED bv insights PageRank state=" +:+ state) else
  ranks ← ok_or (path ["full_stats"; "pagerank"] insights ≫= as_object)
            "QUEUE_UNRANKED bv insights has no full_stats.pagerank map";
  if bool_decide (ranks = []) then Err "QUEUE_UNRANKED bv insights full_stats.pagerank is empty" else Ok ranks.

Definition rank_ready_with_pagerank (triage : string) (ready : list string) (prios : Priorities) (insights : string)
    : R RankedOrder :=
  tv ← read_json "bv triage" triage;
  _ ← recommendations tv;
  if bool_decide (ready = []) then Err "QUEUE_UNRANKED bv ready set is empty" else
  iv ← read_json "bv insights" insights;
  ranks ← page_ranks tv iv;
  keys ← page_keys ranks prios ready;
  let n := length (List.filter snd keys) in
  if bool_decide (n = 0%nat)
  then Err "QUEUE_UNRANKED bv insights has no nonzero PageRank score in the ready set"
  else Ok (MkOrder (map snd (stable_sort page_lt (map fst keys))) RecommendationsOnly n).

(** ** The two slots ahead of the ranking. *)

Definition assigned_ids (triage : Json) : list string :=
  match path ["triage"; "recommendations"] triage ≫= as_array with
  | None => []
  | Some recs => btree_set (omap (λ row, id ← json_get "id" row ≫= as_str;
                                         if is_assigned row then Some id else None) recs)
  end.

Definition actionable_id (ready assigned : list string) (row : Json) : option string :=
  id ← json_get "id" row ≫= as_str;
  let actionable := default false (json_get "actionable" row ≫= as_bool) in
  let unblocks := default 0%N (json_get "unblocks_count" row ≫= as_u64) in
  if negb actionable || (unblocks =? 0)%N || negb (bool_decide (id ∈ ready)) || bool_decide (id ∈ assigned)
  then None else Some id.

Definition first_actionable_blocker (triage : Json) (ready assigned : list string) : R (option string) :=
  v ← ok_or (path ["triage"; "blockers_to_clear"] triage)
        "QUEUE_UNRANKED bv triage has no .triage.blockers_to_clear array";
  blockers ← ok_or (as_array v) "QUEUE_UNRANKED bv triage .triage.blockers_to_clear is not an array";
  Ok (find_map (actionable_id ready assigned) blockers).

(** The export, line by line; lines are counted from zero. *)
Fixpoint parse_jsonl_from (i : N) (ls : list string) : R (list BeadComments) :=
  match ls with
  | [] => Ok []
  | l :: ls =>
      if is_empty (trim l) then parse_jsonl_from (i + 1) ls
      else v ← ok_or (from_str l) ("QUEUE_UNRANKED comments jsonl line " +:+ show_N i +:+ ": " +:+ parse_message l);
           rest ← parse_jsonl_from (i + 1) ls;
           Ok (bead_of v :: rest)
  end.
Definition parse_jsonl (jsonl : string) : R (list BeadComments) := parse_jsonl_from 0 (lines jsonl).

Definition dispatchable_ready_ids (ready : list string) (jsonl : string) : R (list string) :=
  beads ← parse_jsonl jsonl;
  let filed := btree_set (map b_id (List.filter b_filed_only beads)) in
  Ok (List.filter (λ id, negb (bool_decide (id ∈ filed))) ready).

Fixpoint grading_loop (reapable : list BeadComments) (grader : string) (ready : list string)
    (saw_empty saw_self : bool) : GradingSlot :=
  match ready with
  | [] => Skip (if saw_empty then "grader_identity_unresolved"
                else if saw_self then "no_distinct_idle_peer" else "no_reapable_bead")
  | id :: ready =>
      match find_first (λ b, bool_decide (b_id b = id)) reapable with
      | None => grading_loop reapable grader ready saw_empty saw_self
      | Some b =>
          let authors := author_panes b [] in
          if bool_decide (authors = []) then grading_loop reapable grader ready true saw_self
          else if authors_include_pane authors grader || bool_decide (grader ∈ authors)
          then grading_loop reapable grader ready saw_empty true
          else Offer id
      end
  end.

Definition grading_slot (jsonl : string) (ready : list string) (grader : string) : GradingSlot :=
  match parse_jsonl jsonl with
  | Err _ => Skip "unreadable_jsonl"
  | Ok beads =>
      if bool_decide (beads = []) then Skip "empty_grading_slot" else
      let reapable := List.filter (λ b, bool_decide (b_id b ∈ ready) && is_reapable b) beads in
      if bool_decide (reapable = []) then Skip "no_reapable_bead"
      else if negb (pane_scoped grader) then Skip "grader_not_pane_scoped"
      else grading_loop reapable grader ready false false
  end.
Definition first_grading_assignment (jsonl : string) (ready : list string) (grader : string) : option string :=
  match grading_slot jsonl ready grader with Offer id => Some id | Skip _ => None end.

(** The slots, and what may be dispatched at all. *)
Definition slots (triage : Json) (jsonl : string) (avail : list string) (grader : string) : R (list string) :=
  blocker ← first_actionable_blocker triage avail (assigned_ids triage);
  let out := match blocker with Some b => [b] | None => [] end in
  Ok (match first_grading_assignment jsonl avail grader with Some g => push_new out g | None => out end).

Definition select_dispatch_order (triage : string) (ready : list string) (jsonl grader : string) : R (list string) :=
  v ← read_json "bv triage" triage;
  avail ← dispatchable_ready_ids ready jsonl;
  out ← slots v jsonl avail grader;
  ranked ← rank_ready triage avail;
  Ok (foldl push_new out ranked).

Definition filtered_filed_only (ready avail : list string) : bool :=
  negb (bool_decide (ready = [])) && bool_decide (avail = []).

Definition select_dispatch_order_with_priorities (triage : string) (ready : list string) (prios : Priorities)
    (jsonl grader : string) : R RankedOrder :=
  v ← read_json "bv triage" triage;
  avail ← dispatchable_ready_ids ready jsonl;
  out ← slots v jsonl avail grader;
  ranked ← rank_ready_with_priorities triage avail prios;
  Ok (MkOrder (foldl push_new out (ids ranked))
        (if filtered_filed_only ready avail then FilteredFiledOnly else window ranked) (scored ranked)).

Definition select_dispatch_order_with_pagerank (triage : string) (ready : list string) (prios : Priorities)
    (insights jsonl grader : string) : R RankedOrder :=
  v ← read_json "bv triage" triage;
  avail ← dispatchable_ready_ids ready jsonl;
  out ← slots v jsonl avail grader;
  if filtered_filed_only ready avail then Ok (MkOrder out FilteredFiledOnly 0) else
  ranked ← rank_ready_with_pagerank triage avail prios insights;
  Ok (MkOrder (foldl push_new out (ids ranked)) (window ranked) (scored ranked)).

(** ** The grader of a finished bead. *)

Definition push_pane_field (out : list string) (v : option Json) : list string :=
  match (v ≫= as_str) ≫= tmux_pane_id with Some p => set_insert p out | None => out end.

Definition bt_remove {A} (k : string) (l : list (string * A)) : list (string * A) :=
  List.filter (λ kv, negb (bool_decide (kv.1 = k))) l.

(** The panes one lifecycle row names. *)
Definition ledger_panes (v : Json) (panes : list string) : list string :=
  foldl (λ s ks, push_pane_field s (path ks v)) panes
    [["grader_pane"]; ["pane"]; ["receiver_pane"]; ["identity"; "target"; "pane"]; ["target"; "pane"];
     ["evidence"; "grader_pane"]; ["evidence"; "pane"]; ["evidence"; "receiver_pane"]].

Definition ledger_author_row (out : list (string * list string)) (line : string) : list (string * list string) :=
  if is_empty (trim line) then out else
  match from_str line with
  | None => out
  | Some v =>
      let bead := trim (default "" match json_get "bead" v ≫= as_str with
                                   | Some b => Some b
                                   | None => path ["identity"; "bead"] v ≫= as_str
                                   end) in
      if is_empty bead then out else
      let panes := ledger_panes v (default [] (bt_get bead out)) in
      if bool_decide (panes = []) then bt_remove bead out else bt_insert bead panes out
  end.
Definition parse_ledger_authors (ledger_jsonl : string) : list (string * list string) :=
  foldl ledger_author_row [] (lines ledger_jsonl).

Definition parse_one_pane (v : Json) : option ObservedPane :=
  p ← match json_get "pane_id" v with Some x => Some x | None => json_get "pane" v end ≫= as_str;
  let pane := trim p in
  if is_empty pane then None else
  let liveness := str_field "liveness" v in
  let state := str_field "state" v in
  Some (MkObserved pane liveness
    (default (bool_decide (liveness = "CONFIRMED_IDLE")) (json_get "is_dispatchable" v ≫= as_bool))
    (default (bool_decide (state = "WORKING") || bool_decide (liveness = "LIVE")) (json_get "is_working" v ≫= as_bool))).

Definition parse_observed_panes (bytes : string) : result AssignGradeError (list ObservedPane) :=
  v ← ok_or (from_str bytes) (AgJsonl ("ASSIGN_GRADE_REFUSED observation JSON: " +:+ parse_message bytes));
  let of_array o := omap parse_one_pane (default [] (o ≫= as_array)) in
  match of_array (json_get "panes" v) with
  | _ :: _ as panes => Ok panes
  | [] => match of_array (path ["omp_lifecycle"; "panes"] v) with
          | _ :: _ as panes => Ok panes
          | [] => Err EmptyObservation
          end
  end.

Definition require_idle_grader (grader_pane : string) (panes : list ObservedPane) : result AssignGradeError unit :=
  match find_first (λ p, bool_decide (ob_pane p = grader_pane)) panes with
  | None => Err (NoEligibleGrader "grader_observation_row_missing")
  | Some p =>
      if is_confirmed_idle p then Ok tt
      else if ob_working p then Err (GraderCarryingOwnDispatch grader_pane (ob_liveness p) (ob_working p))
      else Err (NoEligibleGrader "grader_liveness_unconfirmed")
  end.

(** The first bead the grader did not work on, and the beads nobody is named for. *)
Fixpoint assign_beads (ledger : list (string * list string)) (grader : string) (reapable : list BeadComments)
    (missing : list string) : option string * list string :=
  match reapable with
  | [] => (None, missing)
  | b :: reapable =>
      let authors := author_panes b ledger in
      if bool_decide (authors = []) then assign_beads ledger grader reapable (set_insert (b_id b) missing)
      else if authors_include_pane authors grader then assign_beads ledger grader reapable missing
      else (Some (b_id b), missing)
  end.
Fixpoint assign_loop (ledger : list (string * list string)) (observer : string) (reapable : list BeadComments)
    (idle : list ObservedPane) (missing : list string) : result AssignGradeError GradeAssignment :=
  match idle with
  | [] =>
      if negb (bool_decide (missing = []))
      then Err (GraderIdentityUnresolved ("missing_attribution count=" +:+ show_N (N.of_nat (length missing))))
      else Err (NoEligibleGrader "no_distinct_idle_peer")
  | g :: idle =>
      key ← ok_or (pane_assignee_key (ob_pane g))
              (GraderIdentityUnresolved ("grader_pane=" +:+ ob_pane g +:+ " is not a tmux pane id"));
      match assign_beads ledger (ob_pane g) reapable missing with
      | (Some bead, _) => Ok (MkAssignment bead (ob_pane g) key observer)
      | (None, missing) => assign_loop ledger observer reapable idle missing
      end
  end.

Definition assign_peer_grade_inner (observer : string) (named : option string) (panes : list ObservedPane)
    (jsonl ledger_jsonl : string) : result AssignGradeError GradeAssignment :=
  if is_empty (trim observer) then Err ObserverPaneUnresolved
  else if bool_decide (panes = []) then Err EmptyObservation else
  _ ← match named with Some g => require_idle_grader g panes | None => Ok tt end;
  let others := List.filter (λ p, negb (bool_decide (ob_pane p = observer))) panes in
  let idle := List.filter is_confirmed_idle others in
  if bool_decide (idle = []) then
    Err (NoEligibleGrader (if negb (bool_decide (others = [])) && forallb ob_working others
                           then "all_panes_carrying_dispatches" else "no_idle_pane"))
  else
  beads ← map_err AgJsonl (parse_jsonl jsonl);
  let ledger := parse_ledger_authors ledger_jsonl in
  let reapable := List.filter is_reapable beads in
  if bool_decide (reapable = []) then Err (NoEligibleGrader "empty_reapable_set")
  else assign_loop ledger observer reapable idle [].

Definition assign_peer_grade_with_ledger (observer : string) (panes : list ObservedPane) (jsonl ledger : string) :=
  assign_peer_grade_inner observer None panes jsonl ledger.
Definition assign_peer_grade (observer : string) (panes : list ObservedPane) (jsonl : string) :=
  assign_peer_grade_with_ledger observer panes jsonl "".
Definition assign_peer_grade_for_named_grader (observer grader : string) (panes : list ObservedPane)
    (jsonl ledger : string) :=
  assign_peer_grade_inner observer (Some grader) panes jsonl ledger.
End Select.

(** What the command line does with an assignment (loop-queue-filter/src/main.rs): a
    grader that was asked for by name must be the one selected. *)
Definition assign_grade_cli (grader : option string) (assigned : result AssignGradeError GradeAssignment)
    : result string string :=
  match assigned with
  | Err e => Err (assign_error_display e)
  | Ok a =>
      let line := "GRADE_ASSIGNED bead=" +:+ as_bead a +:+ " grader_pane=" +:+ as_grader a
                  +:+ " grader_assignee=" +:+ as_assignee a +:+ " observer_pane=" +:+ as_observer a in
      match grader with
      | Some g => if bool_decide (as_grader a = g) then Ok line
                  else Err ("NO_ELIGIBLE_GRADER reason=requested_grader_not_selected requested=" +:+ g
                            +:+ " selected=" +:+ as_grader a)
      | None => Ok line
      end
  end.

(** ** The phase gate. *)
Module PhaseGate.
Definition ARC_PREFIX : string := "omp-orchestrator-jplf".
Definition GATED_PHASE : string := "jplf.1".
Definition PHASE_GATE_ENABLED : bool := false.
Definition SWITCH_ON_PRECONDITION : string :=
  "at least one NON-EPIC arc member is present in `br ready`; never keyed on jplf.1, which is an epic and is correctly excluded from br ready fleet-wide, so a precondition naming it can never fire".
Definition ARC_CENSUS_POSITIVE_CONTROL : N := 38.

Record Exception := MkException { ex_selector : string; ex_reason : string; ex_is_class : bool }.
Definition EXCEPTION_SET : list Exception :=
  [MkException "omp-orchestrator-selector-blind-to-unpartitioned-open-kt0m" "the arc-visibility defect itself: gating on the arc while the arc is unselectable dispatches nothing. NOTE 2026-09-07: kt0m is now CLOSED, so this entry is inert rather than load-bearing — kept because the CONDITION it protected against persists under different causes (epic exclusion, live blockers, parent-child invisibility) and a reader must not conclude the risk expired with the bead" false;
   MkException "grade" "grading lane, per HD-0015: classes that provably do not read a plan document remain dispatchable under a typed DEGRADED verdict. Withholding grading would starve the only path that CLOSES arc beads" true;
   MkException "hygiene" "hygiene lane, per HD-0015, same clause as grading" true;
   MkException "unblock" "the Phase 0 unblock path: the work that makes the gated phase completable cannot itself be gated behind that phase, which would be circular" true].
Definition exception_set_is_complete : bool :=
  negb (bool_decide (EXCEPTION_SET = []))
  && forallb (λ e, negb (is_empty (trim (ex_selector e))) && negb (is_empty (trim (ex_reason e)))) EXCEPTION_SET.

Inductive GateError := ArcCensusZero | EmptyCandidateSet | ExceptionSetIncomplete.
#[global] Instance GateError_eq_dec : EqDecision GateError.
Proof. solve_decision. Defined.
Definition exit_code (e : GateError) : N :=
  match e with ArcCensusZero => 30 | EmptyCandidateSet => 31 | ExceptionSetIncomplete => 32 end.
Definition code (e : GateError) : string :=
  match e with
  | ArcCensusZero => "arc_census_zero" | EmptyCandidateSet => "empty_candidate_set"
  | ExceptionSetIncomplete => "exception_set_incomplete"
  end.

Definition gate_error_display (e : GateError) : string :=
  "PHASE_GATE_ERROR " +:+ code e +:+
  match e with
  | ArcCensusZero => " — the arc has no members, so every withhold decision would be vacuous; expected around "
                     +:+ show_N ARC_CENSUS_POSITIVE_CONTROL
  | EmptyCandidateSet => " — an unreadable or empty queue is not 'nothing to dispatch'"
  | ExceptionSetIncomplete =>
      " — a gate with no usable exception set is a total halt (HD-0016), not a phase order"
  end.

(** [Withheld::PhaseGate] of admission-reason. *)
Record Withheld := MkWithheld { wh_phase : string; wh_blocking_bead : string }.
Record GateOutcome := MkGateOutcome {
  admitted : list string; withheld : list (string * Withheld); gate_active : bool }.
Definition render (o : GateOutcome) : string :=
  "PHASE_GATE active=" +:+ show_bool (gate_active o) +:+ " admitted=" +:+ show_N (N.of_nat (length (admitted o)))
  +:+ " withheld=" +:+ show_N (N.of_nat (length (withheld o))) +:+ " phase=" +:+ GATED_PHASE
  +:+ " precondition=" +:+ dquote +:+ SWITCH_ON_PRECONDITION +:+ dquote.

Definition is_exempt (candidate : string) : bool :=
  existsb (λ e, if ex_is_class e then contains candidate (ex_selector e)
                else bool_decide (candidate = ex_selector e)) EXCEPTION_SET.
Definition is_arc_member (candidate : string) : bool :=
  bool_decide (candidate = ARC_PREFIX)
  || match strip_prefix ARC_PREFIX candidate with Some rest => starts_with rest "." | None => false end.

Definition withheld_row (candidate : string) : string * Withheld :=
  (candidate, MkWithheld GATED_PHASE (ARC_PREFIX +:+ ".1")).

Definition gate_admits (phase_complete : bool) (c : string) : bool :=
  phase_complete || is_arc_member c || is_exempt c.
Fixpoint gate_loop (phase_complete : bool) (seen candidates : list string) : list string * list (string * Withheld) :=
  match candidates with
  | [] => ([], [])
  | c :: cs =>
      if bool_decide (c ∈ seen) then gate_loop phase_complete seen cs
      else let '(a, w) := gate_loop phase_complete (c :: seen) cs in
           if gate_admits phase_complete c then (c :: a, w)
           else (a, withheld_row c :: w)
  end.

Definition apply_phase_gate (candidates : list string) (arc_census : N) (phase_complete enabled : bool)
    : result GateError GateOutcome :=
  if bool_decide (candidates = []) then Err EmptyCandidateSet
  else if negb enabled then Ok (MkGateOutcome candidates [] false)
  else if negb exception_set_is_complete then Err ExceptionSetIncomplete
  else if (arc_census =? 0)%N then Err ArcCensusZero
  else let '(a, w) := gate_loop phase_complete [] candidates in Ok (MkGateOutcome a w true).
End PhaseGate.

(** The next computation of a chain that ended in [Ok]. *)
Tactic Notation "step_in" hyp(H) "as" simple_intropattern(p) ident(e) :=
  match type of H with
  | mbind _ ?x = Ok _ => destruct x as p eqn:e; [cbn [mbind result_bind] in H|done]
  end.

(** ** Pushing what is not there yet. *)

Lemma push_all out l :
  ∃ tail, foldl push_new out l = app out tail ∧ sublist tail l ∧ (∀ x, x ∈ tail → x ∉ out) ∧
    NoDup tail ∧ ∀ x, x ∈ l → x ∈ app out tail.
Proof.
  revert out. induction l as [|y l IH]; intros out; cbn [foldl].
  { exists []. split_and!; [by rewrite app_nil_r|constructor|by intros x ?%not_elem_of_nil|constructor|by intros x ?%not_elem_of_nil]. }
  unfold push_new at 2. case_bool_decide as Hy.
  - destruct (IH out) as (t & -> & Hs & Hn & Hd & Hin). exists t. split_and!; [done|by constructor|done|done|].
    intros x [->|Hx]%elem_of_cons; [apply elem_of_app; by left|by apply Hin].
  - destruct (IH (app out [y])) as (t & -> & Hs & Hn & Hd & Hin). exists (y :: t). rewrite <- app_assoc. cbn [app] in *.
    split_and!; [done|by constructor| | |].
    + intros x [->|Hx]%elem_of_cons; [done|]. intros Hxo. apply (Hn x Hx). apply elem_of_app. by left.
    + constructor; [|done]. intros Hyt. apply (Hn y Hyt). apply elem_of_app. right. apply list_elem_of_here.
    + intros x [->|Hx]%elem_of_cons; [apply elem_of_app; right; apply list_elem_of_here|].
      specialize (Hin x Hx). rewrite <- app_assoc in Hin. exact Hin.
Qed.

Lemma push_new_NoDup out x : NoDup out → NoDup (push_new out x).
Proof.
  intros Hd. unfold push_new. case_bool_decide; [done|]. apply NoDup_app. split_and!; [done| |].
  - by intros y Hy ->%list_elem_of_singleton.
  - apply NoDup_singleton.
Qed.

Lemma elem_push_new out x y : y ∈ push_new out x ↔ y ∈ out ∨ y = x.
Proof. unfold push_new. case_bool_decide; [set_solver|]. rewrite elem_of_app, list_elem_of_singleton. done. Qed.

Section SelectLemmas.
Context `{SerdeJson} (parse_message : string → string) (show_f64 : spec_float → string).

(** A slot is filled from the beads that may be dispatched. *)
Lemma blocker_ready triage ready assigned id :
  first_actionable_blocker triage ready assigned = Ok (Some id) → id ∈ ready.
Proof.
  unfold first_actionable_blocker. destruct (ok_or _ _) as [v|]; [|done]. cbn [mbind result_bind].
  destruct (ok_or (as_array v) _) as [l|]; [|done]. cbn [mbind result_bind]. intros [= Hf].
  apply find_map_Some in Hf as (l1 & row & l2 & _ & Hrow & _). unfold actionable_id in Hrow.
  destruct (json_get "id" row ≫= as_str) as [i|]; cbn in Hrow; [|done].
  destruct (_ || _) eqn:Hb; [done|]. injection Hrow as ->. unbool. done.
Qed.

Lemma grading_loop_ready reapable grader ready a b id : grading_loop reapable grader ready a b = Offer id → id ∈ ready.
Proof.
  revert a b. induction ready as [|x ready IH]; intros a b; cbn [grading_loop]; [done|].
  destruct (find_first _ _) as [bd|]; [|intros Hg; apply list_elem_of_further; by eapply IH].
  case_bool_decide; [intros Hg; apply list_elem_of_further; by eapply IH|].
  destruct (_ || _); [intros Hg; apply list_elem_of_further; by eapply IH|]. intros [= ->]. apply list_elem_of_here.
Qed.

Lemma grading_ready jsonl ready grader id :
  first_grading_assignment parse_message jsonl ready grader = Some id → id ∈ ready.
Proof.
  unfold first_grading_assignment, grading_slot. destruct (parse_jsonl parse_message jsonl) as [beads|]; [|done].
  case_bool_decide; [done|]. case_bool_decide; [done|]. destruct (negb _); [done|].
  destruct (grading_loop _ _ _ _ _) eqn:Hg; [|done]. intros [= ->]. by eapply grading_loop_ready.
Qed.

Lemma slots_spec triage jsonl avail grader out :
  slots parse_message triage jsonl avail grader = Ok out →
  NoDup out ∧ (length out <= 2)%nat ∧ (∀ x, x ∈ out → x ∈ avail).
Proof.
  unfold slots. destruct (first_actionable_blocker _ _ _) as [ob|] eqn:Hb; [|done]. cbn [mbind result_bind]. intros [= <-].
  set (o := match ob with Some b => [b] | None => [] end).
  assert (NoDup o ∧ (length o <= 1)%nat ∧ ∀ x, x ∈ o → x ∈ avail) as (Hd & Hl & Hin).
  { subst o. destruct ob as [b|]; [|split_and!; [constructor|cbn; lia|by intros x ?%not_elem_of_nil]].
    split_and!; [apply NoDup_singleton|done|]. intros x ->%list_elem_of_singleton. by eapply blocker_ready. }
  destruct (first_grading_assignment _ _ _ _) as [g|] eqn:Hg; [|split_and!; [done|lia|done]].
  split_and!; [by apply push_new_NoDup| |].
  - unfold push_new. case_bool_decide; [lia|]. rewrite length_app. cbn [length]. lia.
  - intros x [Hx | ->]%elem_push_new; [by apply Hin|]. by eapply grading_ready.
Qed.

(** The keys of a page ranking, one per bead and in its order. *)
Lemma page_keys_spec ranks prios ready : ∀ keys,
  page_keys show_f64 ranks prios ready = Ok keys →
  Forall2 (λ id k, page_key show_f64 ranks prios id = Ok k ∧ k.1.2 = id) ready keys.
Proof.
  induction ready as [|id ready IH]; intros keys; cbn [page_keys]; [intros [= <-]; constructor|].
  destruct (page_key _ _ _ id) as [k|] eqn:Hk; [|done]. cbn [mbind result_bind].
  destruct (page_keys _ _ _ ready) as [ks|]; [|done]. cbn [mbind result_bind]. intros [= <-].
  constructor; [|by apply IH]. split; [done|]. revert Hk. unfold page_key.
  destruct (page_score ranks id); [|done]. cbn [mbind result_bind]. destruct (_ || _); [done|].
  destruct (ok_or _ _); [|done]. cbn [mbind result_bind]. destruct (_ || _); [done|]. by intros [= <-].
Qed.

(** A bead's PageRank: what the map holds, zero when it leaves the bead out; and the points
    it is ranked by, in steps of 10^-15. *)
Definition rank_of (ranks : list (string * Json)) (id : string) : spec_float :=
  match map_get id ranks with Some v => default f64_zero (as_f64 v) | None => f64_zero end.
Definition points (ranks : list (string * Json)) (id : string) : Z :=
  f64_round_i64 (f64_mul (rank_of ranks id) (f64_of_Z (10 ^ 15))).
(** More points come first; then the smaller number of the priority; then the name. *)
Definition ranked_before (ranks : list (string * Json)) (prios : list (string * N)) (x y : string) : Prop :=
  ∃ px py, bt_get x prios = Some px ∧ bt_get y prios = Some py ∧
    ((points ranks y < points ranks x)%Z ∨
     (points ranks y = points ranks x ∧ ((px < py)%N ∨ (px = py ∧ String.le x y)))).

Lemma round_positive m e l :
  match binary_round_aux 53 1024 false m e l with S754_zero s | S754_infinity s | S754_finite s _ _ => s = false | S754_nan => True end.
Proof.
  unfold binary_round_aux. destruct (shr_fexp _ _ _ _ _) as [r e1]. destruct (shr_fexp _ _ _ _ _) as [r' e2].
  destruct (shr_m r'); [done| |done]. by destruct (_ <=? _)%Z.
Qed.
Lemma points_positive x :
  SFltb x f64_zero = false → f64_finite x = true → f64_finite (f64_mul x (f64_of_Z (10 ^ 15))) = true →
  (0 <= f64_round_i64 (f64_mul x (f64_of_Z (10 ^ 15))))%Z.
Proof.
  assert (f64_of_Z (10 ^ 15) = S754_finite false 8000000000000000 (-3)) as -> by (vm_compute; reflexivity).
  destruct x as [[]|[]| |[] m e]; try done. intros _ _. cbn [f64_mul SFmul xorb]. unfold f64_mul. cbn [SFmul xorb].
  pose proof (round_positive (Z.pos (m * 8000000000000000)) (e + -3) loc_Exact) as Hs.
  destruct (binary_round_aux _ _ _ _ _ _) as [s|s| |s m' e']; [done|done|done|]. intros _. subst s. cbn [f64_round_i64 signed].
  unfold clamp_i64, i64_min, i64_max. assert (0 <= (f64_twice m' e' + 1) / 2)%Z; [|lia].
  apply Z.div_pos; [|lia]. unfold f64_twice. destruct (_ <=? _)%Z.
  - assert (0 <= 2 ^ (e' + 1))%Z by (apply Z.pow_nonneg; lia). lia.
  - assert (0 <= Z.pos m' / 2 ^ (- (e' + 1)))%Z by (apply Z_div_nonneg_nonneg; [lia|apply Z.pow_nonneg; lia]). lia.
Qed.
Lemma page_key_spec ranks prios id k :
  page_key show_f64 ranks prios id = Ok k → ∃ p, bt_get id prios = Some p ∧ k.1 = ((- points ranks id)%Z, p, id).
Proof.
  unfold page_key. intros (score & Hs & Hr)%bind_ok.
  assert (score = rank_of ranks id) as ->.
  { unfold page_score, rank_of in *. destruct (map_get id ranks) as [v|]; [|by injection Hs as <-].
    destruct (as_f64 v); [by injection Hs as <-|done]. }
  destruct (_ || _) eqn:Hneg; [done|]. apply orb_false_iff in Hneg as [Hfin%negb_false_iff Hneg].
  apply bind_ok in Hr as (p & Hp & Hr). destruct (_ || _) eqn:Hbig; [done|]. apply orb_false_iff in Hbig as [Hscaled%negb_false_iff _].
  assert (0 <= points ranks id)%Z as Hpos by exact (points_positive _ Hneg Hfin Hscaled).
  injection Hr as <-. exists p. split; [by destruct (bt_get id prios); [injection Hp as ->|]|]. cbn [fst].
  change (f64_round_i64 _) with (points ranks id). unfold neg_i64. rewrite bool_decide_eq_false_2; [done|].
  intros Hz. by rewrite Hz in Hpos.
Qed.
Lemma page_lt_before ranks prios x y px py :
  bt_get x prios = Some px → bt_get y prios = Some py →
  page_lt ((- points ranks y)%Z, py, y) ((- points ranks x)%Z, px, x) = false → ranked_before ranks prios x y.
Proof.
  intros Hx Hy Hlt. exists px, py. split_and!; [done..|]. revert Hlt. unfold page_lt, pair_lt. cbn [fst snd].
  destruct (Z.ltb_spec (- points ranks y) (- points ranks x)); [done|].
  destruct (Z.ltb_spec (- points ranks x) (- points ranks y)); cbn [orb andb negb]; [intros _; left; lia|].
  destruct (N.ltb_spec py px); [done|]. destruct (N.ltb_spec px py); cbn [orb andb negb]; [intros _; right; split; [lia|by left]|].
  intros Hle%str_lt_le. right. split; [lia|]. right. split; [by apply N.le_antisymm|done].
Qed.

Lemma rank_page_spec triage ready prios insights o :
  rank_ready_with_pagerank parse_message show_f64 triage ready prios insights = Ok o →
  ∃ tv iv ranks h, from_str triage = Some tv ∧ from_str insights = Some iv ∧
    json_get "data_hash" tv = Some (JString h) ∧ json_get "data_hash" iv = Some (JString h) ∧
    path ["full_stats"; "pagerank"] iv = Some (JObject ranks) ∧
    ids o ≡ₚ ready ∧ StronglySorted (ranked_before ranks prios) (ids o) ∧ window o = RecommendationsOnly ∧ scored o ≠ 0%nat.
Proof.
  unfold rank_ready_with_pagerank, read_json. destruct (from_str triage) as [tv|]; [|done]. cbn [ok_or mbind result_bind].
  destruct (recommendations tv); [|done]. cbn [mbind result_bind]. case_bool_decide; [done|].
  destruct (from_str insights) as [iv|]; [|done]. cbn [ok_or mbind result_bind].
  destruct (page_ranks tv iv) as [ranks|] eqn:Hr; [|done]. cbn [mbind result_bind].
  destruct (page_keys _ _ _ _) as [keys|] eqn:Hk; [|done]. cbn [mbind result_bind].
  case_bool_decide as Hn; [done|]. intros [= <-]. cbn [ids window scored].
  unfold page_ranks in Hr. step_in Hr as [th|] Hx. step_in Hr as [ih|] Hx0.
  case_bool_decide as Heq; [|done]. cbn [negb] in Hr. step_in Hr as [st|] Hx1.
  case_bool_decide; [|done]. cbn [negb] in Hr. step_in Hr as [m|] Hx2. case_bool_decide; [done|]. injection Hr as ->.
  apply page_keys_spec in Hk.
  assert (∀ (oj : option Json) (e t : string), ok_or (oj ≫= as_str) e = Ok t → oj = Some (JString t)) as Hstr
    by (intros [[]|] e t; cbn; intros Ho; simplify_eq; done).
  apply Hstr in Hx. apply Hstr in Hx0. subst.
  assert (path ["full_stats"; "pagerank"] iv = Some (JObject ranks)) as Hpath.
  { destruct (path ["full_stats"; "pagerank"] iv) as [[]|]; cbn in Hx2; by simplify_eq. }
  eexists tv, iv, ranks, _. split_and!; try done.
  - rewrite stable_sort_Permutation. rewrite map_map.
    clear -Hk. induction Hk as [|id k ready keys [_ Hid] _ IH]; cbn [map]; [done|]. by rewrite Hid, IH.
  - pose proof (sorted_by page_lt (map fst keys)) as Hs.
    assert (Forall (λ t, ∃ k, page_key show_f64 ranks prios t.2 = Ok k ∧ k.1 = t) (stable_sort page_lt (map fst keys))) as Hall.
    { rewrite stable_sort_Permutation. clear -Hk. induction Hk as [|id k ready keys [Hkk Hid] _ IH]; constructor; [|done].
      exists k. split; [|done]. by rewrite Hid. }
    clear Hn Hk. induction Hs as [|t l Hl IH Ht']; cbn [map]; [constructor|]. apply Forall_cons in Hall as [Hkt Hall].
    constructor; [by apply IH|]. apply Forall_map. rewrite Forall_forall in Ht', Hall |- *. intros u Hu.
    destruct Hkt as (k1 & (p1 & Hp1 & Hk1)%page_key_spec & Hkt). destruct (Hall u Hu) as (k2 & (p2 & Hp2 & Hk2)%page_key_spec & Hku).
    specialize (Ht' u Hu). rewrite <-Hkt, <-Hku, Hk1, Hk2 in Ht'. by eapply page_lt_before.
Qed.

(** The beads a text marks as filed, not to be claimed. *)
Definition filed_only_id (jsonl id : string) : Prop :=
  ∃ beads b, parse_jsonl parse_message jsonl = Ok beads ∧ b ∈ beads ∧ b_filed_only b = true ∧ b_id b = id.

Lemma dispatchable_spec ready jsonl avail :
  dispatchable_ready_ids parse_message ready jsonl = Ok avail →
  sublist avail ready ∧ ∀ id, id ∈ avail ↔ id ∈ ready ∧ ¬ filed_only_id jsonl id.
Proof.
  unfold dispatchable_ready_ids, filed_only_id. destruct (parse_jsonl parse_message jsonl) as [beads|]; [|done].
  cbn [mbind result_bind]. intros [= <-]. split.
  - induction ready as [|x ready IH]; cbn [List.filter]; [constructor|]. destruct (negb _); by constructor.
  - intros id. rewrite !list_elem_of_In, filter_In, negb_true_iff, bool_decide_eq_false.
    rewrite elem_of_btree_set, list_elem_of_fmap. setoid_rewrite list_elem_of_In. setoid_rewrite filter_In. naive_solver.
Qed.

(** ** Who grades. *)

(** The panes and names a bead's authors go by do not include this pane. *)
Definition stranger (authors : list string) (pane : string) : Prop :=
  authors ≠ [] ∧ pane ∉ authors ∧ ∀ key, pane_assignee_key pane = Some key → key ∉ authors.

Lemma stranger_of authors pane : authors ≠ [] → authors_include_pane authors pane = false → stranger authors pane.
Proof.
  unfold authors_include_pane. intros Hne Hf. unbool. split_and!; [done|done|].
  intros key Hk. rewrite Hk in *. by unbool.
Qed.

Lemma assign_beads_spec ledger g reapable : ∀ missing,
  match assign_beads ledger g reapable missing with
  | (Some id, _) => ∃ b, b ∈ reapable ∧ b_id b = id ∧ author_panes b ledger ≠ [] ∧
                         authors_include_pane (author_panes b ledger) g = false
  | (None, m) =>
      (missing ≠ [] → m ≠ []) ∧
      (m = [] → Forall (λ b, authors_include_pane (author_panes b ledger) g = true) reapable) ∧
      Forall (λ b, author_panes b ledger = [] ∨ authors_include_pane (author_panes b ledger) g = true) reapable
  end.
Proof.
  induction reapable as [|b reapable IH]; intros missing; cbn [assign_beads]; [by split_and!|].
  assert (∀ missing', match assign_beads ledger g reapable missing' with
    | (Some id, _) => ∃ b', b' ∈ b :: reapable ∧ b_id b' = id ∧ author_panes b' ledger ≠ [] ∧
                            authors_include_pane (author_panes b' ledger) g = false
    | _ => True end) as Hsome.
  { intros m'. specialize (IH m'). destruct (assign_beads ledger g reapable m') as [[id|] m]; [|done].
    destruct IH as (b' & Hin & ?). exists b'. split; [by apply list_elem_of_further|done]. }
  case_bool_decide as Ha.
  - specialize (IH (set_insert (b_id b) missing)). specialize (Hsome (set_insert (b_id b) missing)).
    destruct (assign_beads ledger g reapable _) as [[id|] m]; [done|]. destruct IH as (Hm & Hall & Hor).
    assert (m ≠ []) as Hne.
    { apply Hm. intros Hs. apply (not_elem_of_nil (b_id b)). rewrite <- Hs. apply elem_of_btree_set, list_elem_of_here. }
    split_and!; [done|done|]. constructor; [by left|done].
  - specialize (IH missing). specialize (Hsome missing). destruct (authors_include_pane (author_panes b ledger) g) eqn:Hg.
    + destruct (assign_beads ledger g reapable _) as [[id|] m]; [done|]. destruct IH as (Hm & Hall & Hor).
      split_and!; [done|intros Hnil; constructor; [done|by apply Hall]|]. constructor; [by right|done].
    + exists b. split; [apply list_elem_of_here|done].
Qed.

Lemma assign_loop_missing ledger observer reapable idle r : ∀ missing,
  missing ≠ [] → assign_loop ledger observer reapable idle missing ≠ Err (NoEligibleGrader r).
Proof.
  induction idle as [|g idle IH]; intros m Hm; cbn [assign_loop].
  - by rewrite bool_decide_eq_false_2.
  - destruct (pane_assignee_key _); cbn [ok_or mbind result_bind]; [|done].
    pose proof (assign_beads_spec ledger (ob_pane g) reapable m) as Hb.
    destruct (assign_beads _ _ _ m) as [[?|] m1]; [done|]. apply IH. by apply Hb.
Qed.

Lemma assign_loop_spec ledger observer reapable idle : ∀ missing,
  match assign_loop ledger observer reapable idle missing with
  | Ok a => ∃ g b, g ∈ idle ∧ b ∈ reapable ∧ as_grader a = ob_pane g ∧ as_bead a = b_id b ∧ as_observer a = observer ∧
              pane_assignee_key (ob_pane g) = Some (as_assignee a) ∧ stranger (author_panes b ledger) (ob_pane g)
  | Err (NoEligibleGrader r) =>
      r = "no_distinct_idle_peer" ∧
      ∀ g b, g ∈ idle → b ∈ reapable → authors_include_pane (author_panes b ledger) (ob_pane g) = true
  | Err (GraderIdentityUnresolved _) => True
  | Err _ => False
  end.
Proof.
  induction idle as [|g idle IH]; intros missing; cbn [assign_loop].
  { case_bool_decide; cbn [negb]; [|done]. split; [done|]. by intros g b ?%not_elem_of_nil. }
  destruct (pane_assignee_key (ob_pane g)) as [key|] eqn:Hk; cbn [ok_or mbind result_bind]; [|done].
  pose proof (assign_beads_spec ledger (ob_pane g) reapable missing) as Hb.
  destruct (assign_beads ledger (ob_pane g) reapable missing) as [[id|] m].
  - destruct Hb as (b & Hin & <- & Ha & Hg). exists g, b. split_and!; [apply list_elem_of_here|done|done|done|done|done|].
    by apply stranger_of.
  - specialize (IH m). destruct (assign_loop ledger observer reapable idle m) as [a|[]] eqn:He; try done.
    + destruct IH as (g' & b & Hg & ?). exists g', b. split; [by apply list_elem_of_further|done].
    + destruct IH as [-> Hall]. split; [done|]. destruct Hb as (Hm & Hnil & _).
      assert (m = []) as Hm0.
      { destruct (decide (m = [])) as [|Hm']; [done|]. by apply (assign_loop_missing _ _ _ _ _ _ Hm') in He. }
      intros g' b [->|Hg']%elem_of_cons Hb'; [|by apply Hall].
      specialize (Hnil Hm0). rewrite Forall_forall in Hnil. by apply Hnil.
Qed.

(** Nobody grades what they worked on, or what they asked for.  An assignment names a
    pane of the observation other than the observer, seen idle twice and carrying no
    dispatch, under its own name on the server; a bead of the export that is finished,
    open and not filed only; and that bead has authors on file, in the tracker or the
    lifecycle ledger, none of which is that pane.  And when the selection says that there
    is no such peer, then every idle pane is an author of every finished bead. *)
Theorem peer_grade_assignment observer named panes jsonl ledger_jsonl :
  let beads_ok b := ∃ beads, parse_jsonl parse_message jsonl = Ok beads ∧ b ∈ beads ∧ is_reapable b = true in
  let authors b := author_panes b (parse_ledger_authors ledger_jsonl) in
  match assign_peer_grade_inner parse_message observer named panes jsonl ledger_jsonl with
  | Ok a =>
      as_observer a = observer ∧ as_grader a ≠ observer ∧
      (∃ p, p ∈ panes ∧ ob_pane p = as_grader a ∧ is_confirmed_idle p = true) ∧
      pane_assignee_key (as_grader a) = Some (as_assignee a) ∧
      ∃ b, beads_ok b ∧ b_id b = as_bead a ∧ stranger (authors b) (as_grader a)
  | Err (NoEligibleGrader "no_distinct_idle_peer") =>
      ∀ p b, p ∈ panes → ob_pane p ≠ observer → is_confirmed_idle p = true → beads_ok b →
        authors_include_pane (authors b) (ob_pane p) = true
  | Err _ => True
  end.
Proof.
  intros beads_ok authors. unfold assign_peer_grade_inner. destruct (is_empty _); [done|]. case_bool_decide; [done|].
  destruct (match named with Some g => require_idle_grader g panes | None => Ok tt end) as [[]|e] eqn:Hn.
  2:{ cbn [mbind result_bind]. destruct named as [g|]; [|done]. unfold require_idle_grader in Hn.
      destruct (find_first _ panes); [|by injection Hn as <-]. destruct (is_confirmed_idle _); [done|].
      by destruct (ob_working _); injection Hn as <-. }
  cbn [mbind result_bind]. set (others := List.filter _ panes). set (idle := List.filter is_confirmed_idle others).
  assert (∀ p, p ∈ idle ↔ p ∈ panes ∧ ob_pane p ≠ observer ∧ is_confirmed_idle p = true) as Hidle.
  { intros p. subst idle others. rewrite !list_elem_of_In, !filter_In, negb_true_iff, bool_decide_eq_false. tauto. }
  case_bool_decide; [by destruct (_ && _)|]. destruct (parse_jsonl parse_message jsonl) as [beads|] eqn:Hp; [|done].
  cbn [map_err mbind result_bind]. case_bool_decide; [done|].
  assert (∀ b, b ∈ List.filter is_reapable beads ↔ beads_ok b) as Hbeads.
  { intros b. subst beads_ok. rewrite !list_elem_of_In, filter_In. setoid_rewrite list_elem_of_In. naive_solver. }
  pose proof (assign_loop_spec (parse_ledger_authors ledger_jsonl) observer (List.filter is_reapable beads) idle []) as Hl.
  destruct (assign_loop _ _ _ idle []) as [a|[]]; try done.
  - destruct Hl as (g & b & Hg & Hb & Hag & Hab & Hao & Hkey & Hst). apply Hidle in Hg as (Hgp & Hgo & Hgi).
    rewrite Hag. split_and!; [done|done|by exists g|done|]. exists b. split; [by apply Hbeads|done].
  - destruct Hl as [-> Hall]. intros p b Hpin Hpo Hpi Hb. apply Hall; [by apply Hidle|by apply Hbeads].
Qed.

Lemma grading_loop_spec reapable grader ready : ∀ a c,
  match grading_loop reapable grader ready a c with
  | Offer id => ∃ b, id ∈ ready ∧ b ∈ reapable ∧ b_id b = id ∧ author_panes b [] ≠ [] ∧
                     authors_include_pane (author_panes b []) grader = false
  | Skip _ => True
  end.
Proof.
  induction ready as [|x ready IH]; intros a c; cbn [grading_loop]; [done|].
  assert (∀ a c, match grading_loop reapable grader ready a c with
    | Offer id => ∃ b, id ∈ x :: ready ∧ b ∈ reapable ∧ b_id b = id ∧ author_panes b [] ≠ [] ∧
                       authors_include_pane (author_panes b []) grader = false
    | Skip _ => True end) as IH'.
  { intros a' c'. specialize (IH a' c'). destruct (grading_loop _ _ ready a' c'); [|done].
    destruct IH as (b & ? & ?). exists b. split; [by apply list_elem_of_further|done]. }
  destruct (find_first _ reapable) as [b|] eqn:Hf; [|apply IH']. case_bool_decide as Ha; [apply IH'|].
  destruct (authors_include_pane _ _) eqn:Hg; [apply IH'|]. destruct (bool_decide (grader ∈ _)); [apply IH'|].
  apply find_first_Some in Hf as (l1 & l2 & -> & Hb & _). apply bool_decide_eq_true in Hb.
  exists b. split_and!; [apply list_elem_of_here|apply elem_of_app; right; apply list_elem_of_here|done|done|done].
Qed.

(** A bead offered for grading is offered to a peer: the grader is named by its pane,
    and the bead is ready, finished, and was worked on by somebody, none of whom is the
    grader. *)
Theorem grading_slot_peer jsonl ready grader id :
  grading_slot parse_message jsonl ready grader = Offer id →
  pane_scoped grader = true ∧ id ∈ ready ∧
  ∃ beads b, parse_jsonl parse_message jsonl = Ok beads ∧ b ∈ beads ∧ b_id b = id ∧ is_reapable b = true ∧
    stranger (author_panes b []) grader.
Proof.
  unfold grading_slot. destruct (parse_jsonl parse_message jsonl) as [beads|]; [|done].
  case_bool_decide; [done|]. set (reapable := List.filter _ beads). case_bool_decide; [done|].
  destruct (pane_scoped grader) eqn:Hp; cbn [negb]; [|done]. intros Ho.
  pose proof (grading_loop_spec reapable grader ready false false) as Hl. rewrite Ho in Hl.
  destruct Hl as (b & Hr & Hb & Hid & Ha & Hg). split_and!; [done|done|]. exists beads, b.
  apply list_elem_of_In, filter_In in Hb as [Hb [_ Hre]%andb_true_iff].
  split_and!; [done|by apply list_elem_of_In|done|done|]. by apply stranger_of.
Qed.

(** ** The whole order. *)

(** A row of the triage's blockers that a slot may take: it names a bead that may be
    dispatched, is actionable, unblocks something, and no recommendation has the bead
    assigned. *)
Definition actionable_blocker (triage : Json) (avail : list string) (row : Json) (id : string) : Prop :=
  json_get "id" row ≫= as_str = Some id ∧ json_get "actionable" row ≫= as_bool = Some true ∧
  (∃ n, json_get "unblocks_count" row ≫= as_u64 = Some n ∧ n ≠ 0%N) ∧ id ∈ avail ∧
  ¬ ∃ recs r, path ["triage"; "recommendations"] triage ≫= as_array = Some recs ∧ r ∈ recs ∧
      json_get "id" r ≫= as_str = Some id ∧ is_assigned r = true.
(** The first slot: the first such row's bead, and none only when there is no such row. *)
Definition blocker_slot (triage : Json) (avail : list string) (slot : option string) : Prop :=
  ∃ rows, path ["triage"; "blockers_to_clear"] triage ≫= as_array = Some rows ∧
    match slot with
    | Some id => ∃ l1 row l2, rows = app l1 (row :: l2) ∧ actionable_blocker triage avail row id ∧
                   ∀ r x, r ∈ l1 → ¬ actionable_blocker triage avail r x
    | None => ∀ r x, r ∈ rows → ¬ actionable_blocker triage avail r x
    end.
(** The second: the bead the grading lane offers to the grader, one that may be dispatched,
    is finished, and was worked on by others only. *)
Definition peer_slot (jsonl : string) (avail : list string) (grader : string) (slot : option string) : Prop :=
  slot = first_grading_assignment parse_message jsonl avail grader ∧
  ∀ id, slot = Some id → id ∈ avail ∧ ∃ beads b, parse_jsonl parse_message jsonl = Ok beads ∧ b ∈ beads ∧ b_id b = id ∧
    is_reapable b = true ∧ stranger (author_panes b []) grader.
Definition put_ahead (blocker peer : option string) : list string :=
  match blocker, peer with
  | Some b, Some g => if bool_decide (g = b) then [b] else [b; g]
  | Some x, None | None, Some x => [x]
  | None, None => []
  end.

Lemma actionable_id_spec triage avail row id :
  actionable_id avail (assigned_ids triage) row = Some id ↔ actionable_blocker triage avail row id.
Proof.
  assert (∀ x, x ∈ assigned_ids triage ↔ ∃ recs r, path ["triage"; "recommendations"] triage ≫= as_array = Some recs ∧ r ∈ recs ∧
      json_get "id" r ≫= as_str = Some x ∧ is_assigned r = true) as Hassigned.
  { intros x. unfold assigned_ids. destruct (path _ triage ≫= as_array) as [recs|].
    - rewrite elem_of_btree_set, list_elem_of_omap. split.
      + intros (r & Hr & Hx). exists recs, r. destruct (json_get "id" r ≫= as_str) as [i|]; [|done]. cbn in Hx.
        destruct (is_assigned r); [|done]. by injection Hx as ->.
      + intros (recs' & r & [= <-] & Hr & Hi & Ha). exists r. by rewrite Hi, Ha.
    - split; [by intros ?%not_elem_of_nil|]. by intros (? & ? & ? & _). }
  unfold actionable_id, actionable_blocker. rewrite <-Hassigned.
  destruct (json_get "id" row ≫= as_str) as [i|]; cbn [mbind option_bind]; [|naive_solver].
  destruct (json_get "actionable" row ≫= as_bool) as [[]|]; cbn; [|naive_solver..].
  destruct (json_get "unblocks_count" row ≫= as_u64) as [n|]; cbn; [|naive_solver].
  destruct (N.eqb_spec n 0); cbn [orb]; [naive_solver|]. repeat case_bool_decide; cbn; naive_solver.
Qed.
Lemma blocker_slot_spec triage avail slot :
  first_actionable_blocker triage avail (assigned_ids triage) = Ok slot → blocker_slot triage avail slot.
Proof.
  unfold first_actionable_blocker, blocker_slot. intros (v & Hv & (rows & Hrows & [= Hslot])%bind_ok)%bind_ok.
  destruct (path _ triage) as [v'|]; [|done]. injection Hv as ->. cbn [mbind option_bind].
  destruct (as_array v) as [rows'|]; [|done]. injection Hrows as ->. exists rows. split; [done|].
  destruct slot as [id|].
  - apply find_map_Some in Hslot as (l1 & row & l2 & -> & Hrow%actionable_id_spec & Hl). exists l1, row, l2.
    split_and!; [done..|]. intros r x Hr Hx%actionable_id_spec. rewrite Forall_forall in Hl. by rewrite Hl in Hx.
  - intros r x Hr Hx%actionable_id_spec. revert Hslot. apply list_elem_of_split in Hr as (l1 & l2 & ->).
    clear -Hx. induction l1 as [|y l1 IH]; cbn; [by rewrite Hx|]. by destruct (actionable_id _ _ y).
Qed.
Lemma slots_put_ahead triage jsonl avail grader out :
  slots parse_message triage jsonl avail grader = Ok out →
  ∃ blocker peer, blocker_slot triage avail blocker ∧ peer_slot jsonl avail grader peer ∧ out = put_ahead blocker peer.
Proof.
  unfold slots. intros (blocker & Hb%blocker_slot_spec & [= <-])%bind_ok.
  exists blocker, (first_grading_assignment parse_message jsonl avail grader). split; [done|]. split.
  - split; [done|]. intros id. unfold first_grading_assignment. destruct (grading_slot _ _ _ _) as [g|] eqn:Hg; [|done].
    intros [= ->]. by apply grading_slot_peer in Hg as (_ & ? & ?).
  - unfold put_ahead, push_new. destruct blocker as [b|], (first_grading_assignment _ _ _ _) as [g|]; try done.
    rewrite (bool_decide_ext (g ∈ [b]) (g = b)) by apply list_elem_of_singleton. by case_bool_decide.
Qed.

(** C32: The dispatch order is a ranking of exactly the beads that may be dispatched.  When
    the selection succeeds, no bead is listed twice, and the beads listed are the ready
    ones that the export does not mark as filed.  At the head stands the bead of the first
    actionable blocker of the triage, if there is one, then the bead the grading lane
    offers to the grader, if it does and it is another.  The rest, when any bead may be
    dispatched, come in the order of the graph tool's PageRank, higher first, to 15 decimal
    places; then the smaller priority number; then the name; and the PageRank is read from
    a snapshot that is the one the triage was made from. *)
Theorem dispatch_order_complete triage ready prios insights jsonl grader o :
  select_dispatch_order_with_pagerank parse_message show_f64 triage ready prios insights jsonl grader = Ok o →
  NoDup (ids o) ∧
  (∀ id, id ∈ ids o ↔ id ∈ ready ∧ ¬ filed_only_id jsonl id) ∧
  ∃ tv avail blocker peer rest,
    from_str triage = Some tv ∧ sublist avail ready ∧ (∀ id, id ∈ avail ↔ id ∈ ready ∧ ¬ filed_only_id jsonl id) ∧
    blocker_slot tv avail blocker ∧ peer_slot jsonl avail grader peer ∧ ids o = app (put_ahead blocker peer) rest ∧
    (avail = [] ∧ rest = [] ∨ ∃ iv h ranks, from_str insights = Some iv ∧
       json_get "data_hash" tv = Some (JString h) ∧ json_get "data_hash" iv = Some (JString h) ∧
       path ["full_stats"; "pagerank"] iv = Some (JObject ranks) ∧
       StronglySorted (ranked_before ranks prios) rest).
Proof.
  unfold select_dispatch_order_with_pagerank. intros Ho. step_in Ho as [tv0|] Hx.
  assert (from_str triage = Some tv0) as Htriage by (unfold read_json in Hx; by destruct (from_str triage); [injection Hx as ->|]).
  step_in Ho as [a0|] Hx0. step_in Ho as [a1|] Hx1.
  apply dispatchable_spec in Hx0 as [Hsub Hav].
  destruct (slots_put_ahead _ _ _ _ _ Hx1) as (blocker & peer & Hblocker & Hpeer & Hout).
  apply slots_spec in Hx1 as (Hd & Hl & Hin).
  destruct (filtered_filed_only ready a0) eqn:Hf.
  - injection Ho as <-. cbn [ids]. unfold filtered_filed_only in Hf. unbool. subst a0.
    assert (a1 = []) as Hnil by (destruct a1 as [|x a1]; [done|exfalso; apply (not_elem_of_nil x), Hin, list_elem_of_here]).
    rewrite Hnil in *. split_and!; [done|done|]. exists tv0, [], blocker, peer, [].
    split_and!; try done; [by rewrite app_nil_r|by left].
  - step_in Ho as [a2|] Hx2. injection Ho as <-. cbn [ids].
    apply rank_page_spec in Hx2 as (tv & iv & ranks & h & Ht & Hi & Hht & Hhi & Hp & Hperm & Hsort & _).
    rewrite Htriage in Ht. injection Ht as <-.
    destruct (push_all a1 (ids a2)) as (tail & Heq & Hts & Hnew & Htd & Hall). rewrite Heq. split_and!.
    + apply NoDup_app. split_and!; [done| |done]. intros x Hxo Hxt. by apply (Hnew x).
    + intros id. rewrite <- Hav, elem_of_app. split.
      * intros [Hid|Hid]; [by apply Hin|]. rewrite <- Hperm. by eapply elem_of_sublist.
      * intros Hid. rewrite <- elem_of_app. apply Hall. by rewrite Hperm.
    + exists tv0, a0, blocker, peer, tail. split_and!; try done; [by rewrite <-Hout|].
      right. exists iv, h, ranks. split_and!; try done. by eapply sublist_strongly_sorted.
Qed.
End SelectLemmas.

(** ** The quotation scanner. *)

Lemma close_at_bound q e l n : close_at q e l = Some n → (n < length l)%nat.
Proof.
  revert e n. induction l as [|c l IH]; intros e n; cbn [close_at length]; [done|].
  destruct (negb _ && _); [done|]. destruct (_ && _); [intros [= <-]; lia|].
  destruct (close_at q _ l) as [m|] eqn:Hm; [|done]. cbn. intros [= <-]. apply IH in Hm. lia.
Qed.

(** The scanner keeps the number of characters, and the length of the text is fuel enough. *)
Lemma strip_go_length fuel : ∀ l, (length l <= fuel)%nat → length (strip_go fuel l) = length l.
Proof.
  induction fuel as [|fuel IH]; intros [|c l]; cbn [strip_go length]; intros Hl; try done; try lia.
  destruct (negb _); cbn [length]; [by rewrite IH by lia|].
  destruct (close_at c false l) as [n|] eqn:Hc; cbn [length]; [|by rewrite IH by lia].
  apply close_at_bound in Hc. rewrite length_app, length_replicate, IH by (rewrite length_drop; lia).
  rewrite length_drop. lia.
Qed.

(** ** The phase gate. *)
Module PhaseGateFacts.
Import PhaseGate.

#[local] Opaque gate_admits.
Lemma gate_loop_spec complete cs : ∀ seen a w,
  gate_loop complete seen cs = (a, w) →
  sublist a cs ∧ NoDup a ∧
  (∀ c, c ∈ a ↔ c ∈ cs ∧ c ∉ seen ∧ gate_admits complete c = true) ∧
  (∀ c x, (c, x) ∈ w ↔ c ∈ cs ∧ c ∉ seen ∧ x = (withheld_row c).2 ∧ gate_admits complete c = false).
Proof.
  induction cs as [|d cs IH]; intros seen a w; cbn [gate_loop].
  { intros [= <- <-]. split_and!; [constructor|constructor| |]; intros; rewrite !elem_of_nil; tauto. }
  assert (∀ c, c ∈ d :: cs ∧ c ∉ seen ↔ c = d ∧ d ∉ seen ∨ c ∈ cs ∧ c ∉ seen ∧ (d ∈ seen ∨ c ≠ d)) as Hc.
  { intros c. rewrite elem_of_cons. destruct (decide (c = d)) as [->|]; destruct (decide (d ∈ seen)); tauto. }
  case_bool_decide as Hd.
  - intros Hg. apply IH in Hg as (Hs & Hn & Ha & Hw). split_and!; [by constructor|done| |].
    + intros c. specialize (Hc c). rewrite Ha. tauto.
    + intros c x. specialize (Hc c). rewrite Hw. tauto.
  - destruct (gate_loop complete (d :: seen) cs) as [a' w'] eqn:Hg. apply IH in Hg as (Hs & Hn & Ha & Hw).
    assert (∀ c, c ∉ d :: seen ↔ c ≠ d ∧ c ∉ seen) as Hns by (intros c; rewrite elem_of_cons; tauto).
    destruct (gate_admits complete d) eqn:Hok; intros [= <- <-].
    + split_and!; [by constructor| | |].
      * constructor; [|done]. rewrite Ha, Hns. tauto.
      * intros c. specialize (Hc c). rewrite elem_of_cons, Ha, Hns.
        assert (c = d → gate_admits complete c = true) by congruence. tauto.
      * intros c x. specialize (Hc c). rewrite Hw, Hns.
        assert (c = d → gate_admits complete c ≠ false) by congruence. tauto.
    + split_and!; [by constructor|done| |].
      * intros c. specialize (Hc c). rewrite Ha, Hns. assert (c = d → gate_admits complete c ≠ true) by congruence. tauto.
      * intros c x. specialize (Hc c). rewrite elem_of_cons, Hw, Hns. unfold withheld_row.
        assert (c = d → gate_admits complete c = false) by congruence.
        assert ((c, x) = (d, (MkWithheld GATED_PHASE (ARC_PREFIX +:+ ".1"))) ↔
                c = d ∧ x = MkWithheld GATED_PHASE (ARC_PREFIX +:+ ".1")) as -> by (split; [by intros [= -> ->]|by intros [-> ->]]).
        cbn [snd]. tauto.
Qed.

Lemma exception_set_complete : exception_set_is_complete = true.
Proof. vm_compute. reflexivity. Qed.

(** The phase gate, off, passes the candidates on unchanged and says that it is off.
    On, it refuses an empty queue and an arc nobody counted, and else splits the
    candidates: each one once, in order, either admitted - the phase is complete, it is a
    member of the arc at a real separator, or it is a declared exception - or withheld
    with the phase and the bead that block it. *)
Theorem phase_gate_splits cs census complete enabled :
  match apply_phase_gate cs census complete enabled with
  | Err e => e = EmptyCandidateSet ∧ cs = [] ∨ e = ArcCensusZero ∧ census = 0%N ∧ enabled = true ∧ cs ≠ []
  | Ok o =>
      cs ≠ [] ∧ gate_active o = enabled ∧
      if enabled then
        census ≠ 0%N ∧ sublist (admitted o) cs ∧ NoDup (admitted o) ∧
        (∀ c, c ∈ cs ↔ c ∈ admitted o ∨ c ∈ map fst (withheld o)) ∧
        (∀ c, c ∈ admitted o ↔ c ∈ cs ∧ complete || is_arc_member c || is_exempt c = true) ∧
        (∀ c x, (c, x) ∈ withheld o → x = MkWithheld GATED_PHASE (ARC_PREFIX +:+ ".1") ∧ c ∉ admitted o)
      else admitted o = cs ∧ withheld o = []
  end.
Proof.
  unfold apply_phase_gate. case_bool_decide as Hcs; [by left|]. destruct enabled; cbn [negb]; [|done].
  rewrite exception_set_complete. cbn [negb]. destruct (census =? 0)%N eqn:Hc; unbool; [by right|].
  destruct (gate_loop complete [] cs) as [a w] eqn:Hg. apply gate_loop_spec in Hg as (Hs & Hn & Ha & Hw).
  cbn [gate_active admitted withheld]. split_and!; try done.
  - intros c. rewrite Ha, list_elem_of_fmap. split.
    + intros Hin. destruct (gate_admits complete c) eqn:Hok.
      * left. split_and!; [done|apply not_elem_of_nil|done].
      * right. exists (withheld_row c). split; [done|]. apply Hw. split_and!; [done|apply not_elem_of_nil|done|done].
    + intros [(Hin & _)|([c' x] & -> & (Hin & _)%Hw)]; done.
  - intros c. rewrite Ha. split; [naive_solver|]. intros [? ?]. split_and!; [done|apply not_elem_of_nil|done].
  - intros c x (Hin & _ & -> & Hf)%Hw. split; [done|]. rewrite Ha, Hf. naive_solver.
Qed.

#[local] Transparent gate_admits.

(** A name that only begins like the arc is not of the arc. *)
Example lookalike_is_withheld : is_arc_member "omp-orchestrator-jplf-lookalike" = false.
Proof. reflexivity. Qed.
End PhaseGateFacts.

(** ** Examples. *)

(** A parser of four texts: the triage, the insights and two rows of the export. *)
Definition ex_triage : Json :=
  jobj [("data_hash", JString "h1");
        ("triage", jobj [("recommendations", JArray [jobj [("id", JString "b-1")]]);
                         ("blockers_to_clear", JArray [jobj [("id", JString "b-3"); ("actionable", JBool true);
                                                             ("unblocks_count", JNumber (PosInt 2))]])])].
Definition ex_insights : Json :=
  jobj [("data_hash", JString "h1"); ("status", jobj [("PageRank", jobj [("state", JString "computed")])]);
        ("full_stats", jobj [("pagerank", jobj [("b-1", JNumber (PosInt 1)); ("b-2", JNumber (PosInt 3))])])].
Definition ex_filed : Json := jobj [("id", JString "b-4"); ("description", JString "Status: do not claim")].
Definition ex_done : Json :=
  jobj [("id", JString "b-9"); ("status", JString "in_progress"); ("assignee", JString "pane9-%9");
        ("comments", JArray [jobj [("author", JString "pane9-%9"); ("text", JString "DONE b-9")]])].
#[local] Instance ex_serde : SerdeJson := λ s,
  if bool_decide (s = "T") then Some ex_triage else if bool_decide (s = "I") then Some ex_insights
  else if bool_decide (s = "F") then Some ex_filed else if bool_decide (s = "D") then Some ex_done else None.
Definition ex_order : RankedOrder := MkOrder ["b-3"; "b-2"; "b-1"] RecommendationsOnly 2.
Definition ex_ready : list string := ["b-1"; "b-2"; "b-3"; "b-4"].

Example dispatch_order_complete_witness :
  NoDup (ids ex_order) ∧
  (∀ id, id ∈ ids ex_order ↔ id ∈ ex_ready ∧ ¬ filed_only_id (λ _, "") "F" id) ∧
  ∃ tv avail blocker peer rest,
    from_str "T" = Some tv ∧ sublist avail ex_ready ∧ (∀ id, id ∈ avail ↔ id ∈ ex_ready ∧ ¬ filed_only_id (λ _, "") "F" id) ∧
    blocker_slot tv avail blocker ∧ peer_slot (λ _, "") "F" avail "pane4-%4" peer ∧
    ids ex_order = app (put_ahead blocker peer) rest ∧
    (avail = [] ∧ rest = [] ∨ ∃ iv h ranks, from_str "I" = Some iv ∧
       json_get "data_hash" tv = Some (JString h) ∧ json_get "data_hash" iv = Some (JString h) ∧
       path ["full_stats"; "pagerank"] iv = Some (JObject ranks) ∧
       StronglySorted (ranked_before ranks [("b-1", 1%N); ("b-2", 1%N); ("b-3", 0%N)]) rest).
Proof.
  apply (dispatch_order_complete (λ _, "") (λ _, "") "T" ex_ready [("b-1", 1%N); ("b-2", 1%N); ("b-3", 0%N)] "I" "F" "pane4-%4").
  vm_compute. reflexivity.
Defined.

Example grading_slot_peer_witness :
  pane_scoped "pane4-%4" = true ∧ "b-9" ∈ ["b-9"] ∧
  ∃ beads b, parse_jsonl (λ _, "") "D" = Ok beads ∧ b ∈ beads ∧ b_id b = "b-9" ∧ is_reapable b = true ∧
    stranger (author_panes b []) "pane4-%4".
Proof. apply (grading_slot_peer (λ _, "") "D"). vm_compute. reflexivity. Defined.

(** The command line asks for pane %5, which is idle and a stranger to the finished bead;
    the selector takes the first idle pane there is, and the request is refused. *)
Definition ex_idle (p : string) : ObservedPane := MkObserved p "CONFIRMED_IDLE" true false.
Example named_grader_refused_for_another :
  require_idle_grader "%5" [ex_idle "%3"; ex_idle "%5"] = Ok tt ∧
  assign_grade_cli (Some "%5")
    (assign_peer_grade_for_named_grader (λ _, "") "observer" "%5" [ex_idle "%3"; ex_idle "%5"] "D" "")
  = Err "NO_ELIGIBLE_GRADER reason=requested_grader_not_selected requested=%5 selected=%3" ∧
  assign_grade_cli (Some "%5")
    (assign_peer_grade_for_named_grader (λ _, "") "observer" "%5" [ex_idle "%5"] "D" "")
  = Ok "GRADE_ASSIGNED bead=b-9 grader_pane=%5 grader_assignee=pane5-%5 observer_pane=observer".
Proof. vm_compute. done. Qed.

(** A marker that is only quoted does not mark. *)
Example quoted_marker :
  filed_only_marker "the word `file not claim` in a sentence" = false ∧ filed_only_marker "FILE NOT CLAIM" = true.
Proof. vm_compute. done. Qed.
