(* ===== verification/Utf8.v ===== *)
(** * UTF-8: [String::from_utf8] and [String::from_utf8_lossy]

    A text that comes from another process is bytes.  [utf8_chunk] reads one character,
    or the longest prefix of one that went wrong; the lossy text has one replacement
    character for each such prefix. *)

From stdpp Require Import base numbers list option strings.
From Stdlib Require Import NArith Ascii Lia.
From S2P Require Import Prelude RustStr.

Definition byte_in (a b : N) (c : ascii) : bool := let n := N_of_ascii c in ((a <=? n) && (n <=? b))%N.

(** The bytes that may follow a lead byte: how many, and the range of the first. *)
Definition lead (c : ascii) : option (nat * N * N) :=
  if byte_in 0 127 c then Some (0%nat, 128%N, 191%N)
  else if byte_in 194 223 c then Some (1%nat, 128%N, 191%N)
  else if byte_in 224 224 c then Some (2%nat, 160%N, 191%N)
  else if byte_in 225 236 c then Some (2%nat, 128%N, 191%N)
  else if byte_in 237 237 c then Some (2%nat, 128%N, 159%N)
  else if byte_in 238 239 c then Some (2%nat, 128%N, 191%N)
  else if byte_in 240 240 c then Some (3%nat, 144%N, 191%N)
  else if byte_in 241 243 c then Some (3%nat, 128%N, 191%N)
  else if byte_in 244 244 c then Some (3%nat, 128%N, 143%N)
  else None.

(** [more] bytes, the first in a range: whether they are there, and how many of them. *)
Fixpoint continuation (more : nat) (a b : N) (s : string) : bool * nat :=
  match more with
  | O => (true, O)
  | S more =>
      match s with
      | String c s' => if byte_in a b c then let '(ok, n) := continuation more 128%N 191%N s' in (ok, S n)
                       else (false, O)
      | EmptyString => (false, O)
      end
  end.

(** Whether a character starts here, and the bytes consumed. *)
Definition utf8_chunk (c : ascii) (s : string) : bool * nat :=
  match lead c with
  | Some (more, a, b) => let '(ok, n) := continuation more a b s in (ok, S n)
  | None => (false, 1%nat)
  end.

(** Every chunk has at least one byte, so the length is fuel enough. *)
Fixpoint utf8_valid_go (fuel : nat) (s : string) : bool :=
  match fuel, s with
  | S fuel, String c s' =>
      let '(ok, n) := utf8_chunk c s' in ok && utf8_valid_go fuel (str_drop n s)
  | _, _ => true
  end.
Definition utf8_valid (s : string) : bool := utf8_valid_go (String.length s) s.

Definition replacement : string := bytes3 239 191 189.
Fixpoint utf8_lossy_go (fuel : nat) (s : string) : string :=
  match fuel, s with
  | S fuel, String c s' =>
      let '(ok, n) := utf8_chunk c s' in
      (if ok then str_take n s else replacement) +:+ utf8_lossy_go fuel (str_drop n s)
  | _, _ => EmptyString
  end.
Definition utf8_lossy (s : string) : string := utf8_lossy_go (String.length s) s.

Lemma continuation_bound more : ∀ a b s, ((continuation more a b s).2 <= String.length s)%nat.
Proof.
  induction more as [|more IH]; intros a b [|c s]; cbn; try lia. destruct (byte_in a b c); cbn; [|lia].
  specialize (IH 128%N 191%N s). destruct (continuation _ _ _ s). cbn in *. lia.
Qed.

Lemma utf8_chunk_bound c s : (1 <= (utf8_chunk c s).2 <= String.length (String c s))%nat.
Proof.
  unfold utf8_chunk. destruct (lead c) as [[[more a] b]|]; cbn; [|lia].
  pose proof (continuation_bound more a b s). destruct (continuation _ _ _ s). cbn in *. lia.
Qed.

Lemma str_drop_length n s : String.length (str_drop n s) = (String.length s - n)%nat.
Proof. revert s. induction n as [|n IH]; intros [|c s]; cbn; auto. Qed.
Lemma str_take_drop n s : str_take n s +:+ str_drop n s = s.
Proof. revert s. induction n as [|n IH]; intros [|c s]; cbn [str_take str_drop]; [done..|]. by rewrite str_app_cons, IH. Qed.

(** A valid text is its own lossy text. *)
Theorem utf8_lossy_valid s : utf8_valid s = true → utf8_lossy s = s.
Proof.
  unfold utf8_valid, utf8_lossy. assert (String.length s <= String.length s)%nat as Hf by lia. revert Hf.
  generalize (String.length s) at 2 3 4 as fuel. intros fuel. revert s.
  induction fuel as [|fuel IH]; intros [|c s]; cbn [utf8_valid_go utf8_lossy_go]; [done|cbn; lia|done|].
  intros Hf. pose proof (utf8_chunk_bound c s) as Hb. destruct (utf8_chunk c s) as [ok n]. cbn in Hb.
  intros [-> Hv]%andb_true_iff. rewrite IH; [apply str_take_drop| |done].
  rewrite str_drop_length. cbn in *. lia.
Qed.

Lemma ascii_valid s : all_bytes (byte_in 0 127) s = true → utf8_valid s = true.
Proof.
  unfold utf8_valid. induction s as [|c s IH]; [done|]. cbn. intros [Hc Hs]%andb_true_iff.
  unfold utf8_chunk, lead. rewrite Hc. cbn. by apply IH.
Qed.
