(* ===== verification/Packet.v ===== *)
(** * The packet a worker receives, and its admission

    omp-orchestrator/src/dispatch_packet.rs renders a bead as the text a pane is sent, or
    refuses; mutation_minimality.rs is what a grading packet asks of its mutation report;
    packet_admission.rs decides whether a packet may go while the plan documents are
    stale.  The tracker export the renderer reads for a bead's age is its text, if it
    could be read. *)

From stdpp Require Import base numbers list option strings gmap sets.
From Stdlib Require Import NArith Ascii Lia.
From S2P Require Import Prelude RustStr Order Json ClaimFence AckStage QueueSelect.

(** ** Refusals. *)

Inductive PacketError :=
  | PacketFieldMissing (field : string)
  | FiledOnlyRecord (bead marker : string)
  | PacketAddsScope (bead : string) (line : N) (detail : string)
  | BeadNotClaimed (bead expected_pane actual_status : string) (actual_assignee : option string)
  | MutationClauseMissing (bead : string)
  | MutationClauseTooCoarse (bead detail : string)
  | AcceptanceInDescriptionOnly (bead : string).

Definition packet_error_code (e : PacketError) : string :=
  match e with
  | PacketFieldMissing _ => "PACKET_FIELD_MISSING" | FiledOnlyRecord _ _ => "FILED_ONLY_RECORD"
  | PacketAddsScope _ _ _ => "PACKET_ADDS_SCOPE" | BeadNotClaimed _ _ _ _ => "BEAD_NOT_CLAIMED"
  | MutationClauseMissing _ => "MUTATION_CLAUSE_MISSING"
  | MutationClauseTooCoarse _ _ => "MUTATION_CLAUSE_TOO_COARSE"
  | AcceptanceInDescriptionOnly _ => "ACCEPTANCE_IN_DESCRIPTION_ONLY"
  end.

Definition operator_exit_code (e : PacketError) : N :=
  match e with
  | BeadNotClaimed _ _ _ _ => 3 | PacketFieldMissing _ => 2 | AcceptanceInDescriptionOnly _ => 4
  | FiledOnlyRecord _ _ | PacketAddsScope _ _ _ | MutationClauseMissing _ | MutationClauseTooCoarse _ _ => 1
  end.

Definition packet_error_display (e : PacketError) : string :=
  match e with
  | PacketFieldMissing f => "PacketFieldMissing(" +:+ dquote +:+ f +:+ dquote +:+ ")"
  | FiledOnlyRecord b m => "PACKET_REFUSED_FILED_ONLY bead=" +:+ b +:+ " marker=" +:+ m +:+ " reason=record-not-implementable"
  | PacketAddsScope b l d => "PacketAddsScope bead=" +:+ b +:+ " line=" +:+ show_N l +:+ " detail=" +:+ d
      +:+ " remedy=br update " +:+ b +:+ " --acceptance-criteria"
  | BeadNotClaimed b p st who => "BEAD_NOT_CLAIMED bead=" +:+ b +:+ " expected_pane=" +:+ p +:+ " status=" +:+ st
      +:+ " actual_assignee=" +:+ default "unassigned" who +:+ " reason=requires_in_progress_claim_on_receiving_pane"
  | MutationClauseMissing b => "MUTATION_CLAUSE_MISSING bead=" +:+ b +:+ " reason=mutation_demanded_with_empty_clause"
  | MutationClauseTooCoarse b d => "MUTATION_CLAUSE_TOO_COARSE bead=" +:+ b +:+ " detail=" +:+ d
      +:+ " reason=mutation_must_name_file_rs_line"
  | AcceptanceInDescriptionOnly b => "ACCEPTANCE_IN_DESCRIPTION_ONLY bead=" +:+ b +:+ " reason=populate_acceptance_criteria_field"
  end.

Definition nonempty (value : string) : option string :=
  let value := trim value in if is_empty value then None else Some value.

(** One character, as a predicate on the characters of [RustStr]. *)
Definition is_char (c : ascii) (ch : string) : bool := bool_decide (ch = String c EmptyString).
Definition is_char_of (p : ascii → bool) (ch : string) : bool :=
  match ch with String c EmptyString => p c | _ => false end.

(** ** Mutation clauses. *)

Definition MUTATION_SITE_CUTOFF : string := "2026-09-12".

Inductive MutationClauseClass := NoClause | NamedSite | Coarse (detail : string) | Missing.

Definition close_reason_mutation_prefix (lower : string) : bool :=
  contains lower "mutation-verified" || contains lower "mutation-not-required"
  || contains lower "mutation-attributed".

(** A word with no letter or digit on either side. *)
Definition at_word_end (after : string) : bool :=
  match after with EmptyString => true | String c _ => negb (is_ascii_alnum c) end.
Fixpoint word_from (prev : option ascii) (needle s : string) : bool :=
  (match prev with Some c => negb (is_ascii_alnum c) | None => true end
   && match strip_prefix needle s with Some after => at_word_end after | None => false end)
  || match s with String c s' => word_from (Some c) needle s' | EmptyString => false end.
Definition contains_ascii_word (haystack needle : string) : bool :=
  negb (is_empty needle) && word_from None needle haystack.

Definition last_byte (s : string) : option ascii := String.get (String.length s - 1) s.
Definition mutation_heading_body (trimmed lower : string) : option string :=
  '(before, _) ← split_once "mutation:" lower;
  match (if is_empty before then None else last_byte before) with
  | Some c => if Ascii.eqb c "-" || is_ascii_alnum c then None
              else Some (trim (str_drop (String.length before + 9) trimmed))
  | None => Some (trim (str_drop (String.length before + 9) trimmed))
  end.

Definition UNWIRE_WORDS : list string :=
  ["un-call"; "uncall"; "un-wire"; "unwire"; "delete the call"; "comment out"].

Definition mutation_clause_body (line : string) : option string :=
  let trimmed := trim line in
  if is_empty trimmed then None
  else let lower := to_ascii_lowercase trimmed in
       if close_reason_mutation_prefix lower then None
       else match mutation_heading_body trimmed lower with
            | Some body => Some body
            | None => if existsb (contains_ascii_word lower) UNWIRE_WORDS then Some trimmed else None
            end.

Definition site_byte (c : ascii) : bool :=
  is_ascii_alnum c || Ascii.eqb c "_" || Ascii.eqb c "-" || Ascii.eqb c "/".
(** A name, [.rs:] and a digit. *)
Fixpoint site_from (prev : option ascii) (s : string) : bool :=
  (match prev with Some c => site_byte c | None => false end
   && match strip_prefix ".rs:" s with Some (String d _) => is_ascii_digit d | _ => false end)
  || match s with String c s' => site_from (Some c) s' | EmptyString => false end.
Definition names_file_rs_line (text : string) : bool := site_from None text.

Definition clause_bodies (acceptance : string) : list string := omap mutation_clause_body (lines acceptance).

(** The pass over the lines: a missing body, the first coarse body, a named site. *)
Record ClauseScan := MkScan { sc_missing : bool; sc_coarse : option string; sc_named : bool }.
Definition scan_line (s : ClauseScan) (line : string) : ClauseScan :=
  match mutation_clause_body line with
  | None => s
  | Some body =>
      if is_empty body then MkScan true (sc_coarse s) (sc_named s)
      else if names_file_rs_line body then MkScan (sc_missing s) (sc_coarse s) true
      else MkScan (sc_missing s) (match sc_coarse s with Some d => Some d | None => Some body end) (sc_named s)
  end.
Definition classify_mutation_clause (acceptance : string) : MutationClauseClass :=
  let s := foldl scan_line (MkScan false None false) (lines acceptance) in
  if sc_missing s then Missing
  else match sc_coarse s with
       | Some detail => Coarse detail
       | None => if sc_named s then NamedSite else NoClause
       end.

(** ** What a bead offers. *)

Definition to_ascii_uppercase (s : string) : string :=
  let up c := let n := N_of_ascii c in if ((97 <=? n) && (n <=? 122))%N then ascii_of_N (n - 32) else c in
  (fix go s := match s with String c s' => String (up c) (go s') | EmptyString => EmptyString end) s.

(** The lines after a heading, up to a line that ends the section; [None] before it. *)
Definition normalized (line : string) : string := trim (trim_start_matches (is_char "#") (trim line)).
Definition is_heading (heading line : string) : bool :=
  eq_ignore_ascii_case (trim_end_matches (is_char ":") (normalized line)) heading.
Definition ends_section (line : string) : bool :=
  let upper := to_ascii_uppercase (normalized line) in
  starts_with (normalized line) "## " || starts_with upper "NO-CLAIM" || starts_with upper "NO CLAIM"
  || starts_with upper "NON-GOAL".
Fixpoint section_lines (heading : string) (found : bool) (l : list string) : list string :=
  match l with
  | [] => []
  | line :: l =>
      if is_heading heading line then section_lines heading true l
      else if found then
        if ends_section line then [] else trim_end line :: section_lines heading found l
      else section_lines heading found l
  end.
Definition section_from_description (description heading : string) : option string :=
  nonempty (trim (join lf_str (section_lines heading false (lines description)))).

Inductive AcceptanceResolution := Field (text : string) | DescriptionOnly | NoAcceptance.

Definition resolve_acceptance (s : BeadSnapshot) : AcceptanceResolution :=
  match nonempty (acceptance_criteria s) with
  | Some _ => Field (trim (acceptance_criteria s))
  | None => match section_from_description (description s) "ACCEPTANCE" with
            | Some _ => DescriptionOnly
            | None => NoAcceptance
            end
  end.
Definition has_typed_acceptance (s : BeadSnapshot) : bool :=
  match resolve_acceptance s with Field _ => true | _ => false end.
Definition acceptance_text (s : BeadSnapshot) : option string :=
  match resolve_acceptance s with Field t => Some t | DescriptionOnly | NoAcceptance => None end.
Definition packet_acceptance (s : BeadSnapshot) (bead : string) : result PacketError string :=
  match resolve_acceptance s with
  | Field t => Ok t
  | DescriptionOnly => Err (AcceptanceInDescriptionOnly bead)
  | NoAcceptance => Err (PacketFieldMissing "acceptance")
  end.

(** The same scanner as the selector's; here the marker is named. *)
Definition filed_only_name (text : string) : option string :=
  let lower := to_ascii_lowercase (strip_nonsemantic text) in
  if contains lower "file not claim" then Some "FILE NOT CLAIM"
  else if contains lower "filed only" then Some "filed only"
  else if existsb (λ line, let line := trim_start line in
            (starts_with line "status:" || starts_with line "stage:" || starts_with line "marker:")
            && contains line "do not claim") (lines lower)
       then Some "do not claim" else None.
Definition filed_only_marker_for (s : BeadSnapshot) : option string :=
  match filed_only_name (description s) with
  | Some m => Some m
  | None => filed_only_name (acceptance_criteria s)
  end.

Definition scope (s : BeadSnapshot) : string :=
  match section_from_description (description s) "SCOPE" with
  | Some t => t
  | None => default "the bead's named files, commands, and acceptance surface"
              (section_from_description (description s) "OWNED FILES")
  end.

(** A line that names an exit code is the done signal; otherwise the tracker protocol. *)
Definition exit_code_of (line : string) : option N :=
  '(_, tail) ← split_once "exit" (to_ascii_lowercase line);
  parse_u8 (concat_chars (take_while (is_char_of is_ascii_digit)
              (drop_while (λ ch, negb (is_char_of is_ascii_digit ch)) (chars tail)))).
Definition done_line (line : string) : option string :=
  code ← exit_code_of line;
  let command := trim_matches (is_char "`") (trim line) in
  if is_empty command then None
  else Some ("Done: re-run " +:+ command +:+ "; expect exit code " +:+ show_N code +:+ ".").
Definition explicit_done_signal (bead acceptance : string) : option string :=
  match head (omap done_line (lines acceptance)) with
  | Some d => Some d
  | None => Some ("Done: br comments add " +:+ bead +:+ " --actor <you> " +:+ dquote +:+ "DONE ..." +:+ dquote
      +:+ " then a DIFFERENT agent: br close " +:+ bead +:+ " --actor <grader> --reason " +:+ dquote
      +:+ "MUTATION-VERIFIED ..." +:+ dquote
      +:+ " (grader re-runs the bead's acceptance; read status back)")
  end.

(** ** What a caller may not add. *)

Definition numbered_must (line : string) : bool :=
  let cs := chars (trim_start line) in
  let digits := take_while (is_char_of is_ascii_digit) cs in
  match digits, drop (length digits) cs with
  | _ :: _, separator :: rest =>
      is_char_of (λ c, Ascii.eqb c "." || Ascii.eqb c ")" || Ascii.eqb c ":") separator
      && existsb (λ word, eq_ignore_ascii_case
                    (trim_matches (λ ch, negb (is_char_of is_ascii_alpha ch)) word) "must")
           (split_whitespace (concat_chars rest))
  | _, _ => false
  end.
Definition adds_scope (line : string) : bool :=
  let normalized := trim (trim_start_matches (is_char "#") line) in
  starts_with (to_ascii_uppercase (trim_end_matches (is_char ":") normalized)) "ACCEPTANCE"
  || numbered_must line.
Fixpoint reject_lines (bead : string) (n : N) (l : list string) : result PacketError unit :=
  match l with
  | [] => Ok tt
  | line :: l => if adds_scope line then Err (PacketAddsScope bead n (trim line))
                 else reject_lines bead (n + 1) l
  end.
Definition reject_scope_additions (bead traps : string) : result PacketError unit :=
  reject_lines bead 1 (lines traps).

(** ** The age of a bead. *)

Section Render.
Context `{SerdeJson}.

(** The first row of the export that names the bead; a row that is no JSON is passed. *)
Fixpoint created_day_in (bead_id : string) (l : list string) : option string :=
  match l with
  | [] => None
  | line :: l =>
      if is_empty (trim line)
         || negb (contains line (dquote +:+ "id" +:+ dquote +:+ ":" +:+ dquote +:+ bead_id +:+ dquote))
      then created_day_in bead_id l
      else match from_str line with
           | None => created_day_in bead_id l
           | Some value =>
               if negb (bool_decide ((json_get "id" value ≫= as_str) = Some bead_id)) then created_day_in bead_id l
               else created ← json_get "created_at" value ≫= as_str;
                    let day := concat_chars (take 10 (chars created)) in
                    if (String.length day =? 10)%nat then Some day else None
           end
  end.
Definition bead_created_day (issues : option string) (bead_id : string) : option string :=
  text ← issues; created_day_in bead_id (lines text).
Definition is_grandfathered (issues : option string) (bead_id : string) : bool :=
  match bead_created_day issues bead_id with
  | Some day => str_lt day MUTATION_SITE_CUTOFF
  | None => false
  end.
Definition reject_coarse_mutation_clause (bead acceptance : string) (issues : option string) : result PacketError unit :=
  match classify_mutation_clause acceptance with
  | NoClause | NamedSite => Ok tt
  | Missing => Err (MutationClauseMissing bead)
  | Coarse detail => if is_grandfathered issues bead then Ok tt else Err (MutationClauseTooCoarse bead detail)
  end.

(** ** The claim a packet presupposes. *)

Definition pane_digits (pane : string) : bool :=
  match strip_prefix "%" pane with Some rest => all_bytes is_ascii_digit rest | None => false end.
Definition assignee_pane (assignee : string) : option string :=
  match head (omap (strip_prefix "pane=") (split_char ";" assignee)) with
  | Some pane => if starts_with pane "%" then Some pane else
      '(_, p) ← rsplit_once "-" assignee; if pane_digits p then Some p else None
  | None => '(_, p) ← rsplit_once "-" assignee; if pane_digits p then Some p else None
  end.

Definition validate_bead_claim (s : BeadSnapshot) (expected_pane : string) : result PacketError unit :=
  bead ← ok_or (nonempty (id s)) (PacketFieldMissing "objective");
  expected_pane ← ok_or (nonempty expected_pane) (PacketFieldMissing "pane");
  if bool_decide (status_label s = "in_progress")
     && bool_decide ((assignee s ≫= assignee_pane) = Some expected_pane) then Ok tt
  else Err (BeadNotClaimed bead expected_pane (status_label s) (assignee s)).

(** ** Rendering. *)

Definition STOP : string :=
  "when acceptance is met, when blocked on a named external, or when the packet contradicts the bead — say which".

Definition handoff_line (bead : string) (receiver_agent owner : option string) : string :=
  match owner with
  | Some owner =>
      if starts_with owner "supervisor:" then
        "Handoff: " +:+ owner +:+ " holds this bead; "
        +:+ match receiver_agent ≫= nonempty with
            | None => "the receiver must claim it before working"
            | Some receiver => "claim it as " +:+ receiver +:+ ": br update " +:+ bead +:+ " --assignee " +:+ receiver
                               +:+ " --status in_progress --actor " +:+ receiver
            end +:+ "." +:+ lf_str
      else EmptyString
  | None => EmptyString
  end.

(** The fields that must not be blank, in the order they are checked. *)
Definition check_fields (l : list (string * string)) : result PacketError unit :=
  match head (omap (λ fv, match nonempty fv.2 with None => Some fv.1 | Some _ => None end) l) with
  | Some f => Err (PacketFieldMissing f)
  | None => Ok tt
  end.

Definition packet_body (bead objective target pane_line handoff scope acceptance done : string) : string :=
  "Objective: " +:+ objective +:+ lf_str +:+ lf_str +:+ "Target: " +:+ target +:+ ". Read br show " +:+ bead
  +:+ " --json IN FULL before starting." +:+ lf_str
  +:+ "Every bead requires current-state validation: re-run br show " +:+ bead
  +:+ " --json immediately before editing; validate the bead's assumptions against the current repository and DAG; if the bead, plan, owner, files, dependencies, or acceptance changed, STOP and report it."
  +:+ lf_str +:+ pane_line +:+ handoff +:+ lf_str +:+ "Scope:" +:+ lf_str +:+ scope +:+ lf_str +:+ lf_str
  +:+ "Acceptance:" +:+ lf_str +:+ acceptance +:+ lf_str +:+ lf_str +:+ done +:+ lf_str +:+ lf_str
  +:+ "Receiver ACK (required; run exactly):" +:+ lf_str +:+ ack_instruction bead +:+ lf_str
  +:+ "The ACK line must begin byte-exactly with ACK <token> on <pane_id> --. An ACK proves arrival and reading, never the work."
  +:+ lf_str +:+ lf_str +:+ "Stop: " +:+ STOP +:+ "." +:+ lf_str.

Definition render_with_pane (issues : option string) (s : BeadSnapshot) (target : string)
    (pane receiver_agent why_now traps : option string) : result PacketError string :=
  bead ← ok_or (nonempty (id s)) (PacketFieldMissing "objective");
  _ ← match pane with Some p => validate_bead_claim s p | None => Ok tt end;
  _ ← match filed_only_marker_for s with Some m => Err (FiledOnlyRecord bead m) | None => Ok tt end;
  let objective := "Complete bead " +:+ bead +:+ ": " +:+ trim (title s) in
  acceptance ← packet_acceptance s bead;
  _ ← reject_coarse_mutation_clause bead acceptance issues;
  done ← ok_or (explicit_done_signal bead acceptance) (PacketFieldMissing "done");
  _ ← check_fields [("objective", objective); ("target", target); ("scope", scope s);
                    ("acceptance", acceptance); ("stop", STOP)];
  _ ← match traps with Some t => reject_scope_additions bead t | None => Ok tt end;
  let pane_line := match pane ≫= nonempty with
                   | Some p => "Pane: " +:+ p +:+ lf_str | None => EmptyString end in
  Ok (packet_body bead objective target pane_line (handoff_line bead receiver_agent (assignee s))
        (scope s) acceptance done
      +:+ match why_now ≫= nonempty with
          | Some w => lf_str +:+ "Why this, why now: " +:+ w +:+ lf_str | None => EmptyString end
      +:+ match traps ≫= nonempty with
          | Some t => lf_str +:+ "Additional traps (non-normative):" +:+ lf_str +:+ t +:+ lf_str
          | None => EmptyString end).

Definition render (issues : option string) (s : BeadSnapshot) (target : string) (why_now traps : option string) :=
  render_with_pane issues s target None None why_now traps.
End Render.

(** ** Mutation minimality. *)

Inductive MutationMinimality := Minimal | Superset | Inert.
Definition minimality_label (m : MutationMinimality) : string :=
  match m with Minimal => "MINIMAL" | Superset => "SUPERSET" | Inert => "INERT" end.
Inductive MutationMinimalityError :=
  EmptyDeclared | Subset (missing : gset string) | Incomparable (extra missing : gset string).

Definition classify_mutation_minimality (declared reddened : gset string)
    : result MutationMinimalityError MutationMinimality :=
  if bool_decide (declared = ∅) then Err EmptyDeclared
  else if bool_decide (reddened = ∅) then Ok Inert
  else if bool_decide (reddened = declared) then Ok Minimal
  else if bool_decide (declared ⊆ reddened) then Ok Superset
  else if bool_decide (reddened ⊆ declared) then Err (Subset (declared ∖ reddened))
  else Err (Incomparable (reddened ∖ declared) (declared ∖ reddened)).

Definition poumg_declared : gset string := {["live_wrapper_reddens_on_broken_row_repairs_clean"]}.
Definition dwj4v_declared : gset string := {["validate_workflows_route"]}.
Definition dwj4v_coarse_reddened : gset string :=
  {["validate_workflows_route"; "serde_duplicate_block_mapping"; "block_scanner_downstream"]}.

(** The four fixtures are asserted before the text is built: [None] is their panic. *)
Definition grading_fixtures : bool :=
  match classify_mutation_minimality poumg_declared poumg_declared,
        classify_mutation_minimality dwj4v_declared dwj4v_coarse_reddened,
        classify_mutation_minimality ∅ ∅,
        classify_mutation_minimality poumg_declared ∅ with
  | Ok Minimal, Ok Superset, Err EmptyDeclared, Ok Inert => true
  | _, _, _, _ => false
  end.
Definition grading_instruction : option string :=
  if grading_fixtures then Some
    (lf_str +:+ "MUTATION MINIMALITY (fhsyv; call site mutation_minimality::classify_mutation_minimality):" +:+ lf_str
     +:+ "Report DECLARED leg set and REDDENED leg set from the mutation run." +:+ lf_str
     +:+ minimality_label Minimal +:+ " = sets equal; only this supports MUTATION-VERIFIED." +:+ lf_str
     +:+ minimality_label Superset +:+ " = reddened strictly contains declared; the mutation is wrong." +:+ lf_str
     +:+ minimality_label Inert +:+ " = reddened empty; the subject is not load-bearing." +:+ lf_str
     +:+ "Empty DECLARED is an ERROR, not a trivially-equal match." +:+ lf_str)
  else None.

Section Grading.
Context `{SerdeJson}.

Definition grading_body (observer grader work : string) : string :=
  "GRADE ASSIGNMENT (not implementation)" +:+ lf_str +:+ "Observer: " +:+ observer
  +:+ " (may be WORKING; observer is not the grader)." +:+ lf_str +:+ "Grader pane: " +:+ grader +:+ lf_str
  +:+ "Do not implement. Re-run the bead's acceptance. Close with MUTATION-VERIFIED if it holds; otherwise GAP/UNKNOWN."
  +:+ lf_str +:+ "You are not the author if your pane is distinct from ACK pane-scoped keys." +:+ lf_str +:+ lf_str
  +:+ "CLOSE-REASON POLICY (emitted here because a packet that omits it owns the" +:+ lf_str
  +:+ "silence it gets): if your close reason CITES A CARGO TEST FIGURE it MUST also" +:+ lf_str
  +:+ "name where that figure was produced -- `worker=<name>` for a remote run, or" +:+ lf_str
  +:+ "`local`. ack-spine refuses the row otherwise (CLOSE_REASON_WORKER_MISSING)." +:+ lf_str
  +:+ "Measured 2026-09-11: 40 closes across six agents were left unlandable because" +:+ lf_str
  +:+ "no packet said this, so a whole session of grading could not reach the tree --" +:+ lf_str
  +:+ "and nobody but the closing agent can honestly supply the token afterwards." +:+ lf_str +:+ lf_str +:+ work.

Definition render_grading_packet (issues : option string) (s : BeadSnapshot)
    (target grader_pane observer_pane : string) : result PacketError string :=
  grader_pane ← ok_or (nonempty grader_pane) (PacketFieldMissing "grader_pane");
  observer_pane ← ok_or (nonempty observer_pane) (PacketFieldMissing "observer_pane");
  if bool_decide (grader_pane = observer_pane)
  then Err (PacketAddsScope (default "unknown" (nonempty (id s))) 0 "grader_pane must differ from observer_pane")
  else work ← render_with_pane issues s target (Some grader_pane) None
                (Some "peer grade assignment — re-run acceptance, do not implement") None;
       Ok (grading_body observer_pane grader_pane work +:+ default EmptyString grading_instruction).
End Grading.

(** ** Admission (packet_admission.rs). *)

Definition DISPATCH_PACKET_MARKERS : list string :=
  ["Objective: "; "Target: "; "Scope:" +:+ lf_str; "Acceptance:" +:+ lf_str; "Done: "; "Stop: "].
Definition packet_is_complete (packet : string) : bool :=
  negb (is_empty (trim packet)) && forallb (contains packet) DISPATCH_PACKET_MARKERS.

Inductive DispatchPacketClass := Work | Grading | PlanDependent.
Definition class_str (c : DispatchPacketClass) : string :=
  match c with Work => "work" | Grading => "grading" | PlanDependent => "plan_dependent" end.

Inductive DispatchAdmissibility :=
  AUnknown | Allowed | ARefused | Degraded (refused_class : DispatchPacketClass) (naming_gate : string).
Definition admissibility_str (a : DispatchAdmissibility) : string :=
  match a with AUnknown => "unknown" | Allowed => "allowed" | ARefused => "refused" | Degraded _ _ => "degraded" end.
Definition NAMING_GATE : string := "name_the_failing_gate".
Definition degraded (c : DispatchPacketClass) : DispatchAdmissibility := Degraded c NAMING_GATE.
Definition refused_class (a : DispatchAdmissibility) : option DispatchPacketClass :=
  match a with Degraded c _ => Some c | AUnknown | Allowed | ARefused => None end.
Definition naming_gate (a : DispatchAdmissibility) : option string :=
  match a with Degraded _ g => Some g | AUnknown | Allowed | ARefused => None end.

Definition PLAN_NEEDLES : list string := ["PLAN.md"; "docs/plan"].
Definition GRADING_MARKER : string := "GRADE ASSIGNMENT (not implementation)".

Inductive PacketAdmissionError := EmptyPacket.
Definition admission_error_display (e : PacketAdmissionError) : string :=
  match e with
  | EmptyPacket => "PACKET_ADMISSION_ERROR reason=EMPTY_PACKET_CLASS -- no renderer input was classified"
  end.

Record PacketAdmission := MkAdmission {
  packet_class : DispatchPacketClass; adm_verdict : DispatchAdmissibility;
  adm_reads_plan : bool; adm_reason : string }.
Definition is_admitted (a : PacketAdmission) : bool :=
  match adm_verdict a with Allowed | Degraded _ _ => true | _ => false end.

Definition classify_packet (packet : string) : result PacketAdmissionError DispatchPacketClass :=
  if is_empty (trim packet) then Err EmptyPacket
  else if contains packet GRADING_MARKER then Ok Grading else Ok Work.

Definition plan_line (line : string) : bool :=
  negb (starts_with (trim_start line) "#") && existsb (contains line) PLAN_NEEDLES.
Definition reads_plan_document (packet : string) : bool := existsb plan_line (lines packet).

Definition evaluate_for_class (packet : string) (c : DispatchPacketClass) (docs_stale degraded_authorized : bool)
    : result PacketAdmissionError PacketAdmission :=
  if is_empty (trim packet) then Err EmptyPacket
  else let plan := reads_plan_document packet in
       let '(v, reason) :=
         if negb docs_stale then (Allowed, "docs_fresh")
         else if plan then (ARefused, "packet_contains_plan_document_input")
         else if degraded_authorized then (degraded PlanDependent, "naming_gate=" +:+ NAMING_GATE)
         else (ARefused, "HD-0015_missing_or_unconfirmed") in
       Ok (MkAdmission c v plan reason).
Definition evaluate (packet : string) (docs_stale degraded_authorized : bool)
    : result PacketAdmissionError PacketAdmission :=
  c ← classify_packet packet; evaluate_for_class packet c docs_stale degraded_authorized.

(** The durable row that authorizes the degraded arm. *)
Definition authorizing_row `{SerdeJson} (line : string) : bool :=
  match from_str line with
  | Some row =>
      bool_decide ((json_get "id" row ≫= as_str) = Some "HD-0015")
      && match json_get "decision" row ≫= as_str with Some d => contains d "SCOPE IT" | None => false end
      && match json_get "condition" row ≫= as_str with Some d => contains d "DEGRADED" | None => false end
  | None => false
  end.
Definition authority_allows_degraded `{SerdeJson} (decisions_jsonl : string) : bool :=
  existsb authorizing_row (lines decisions_jsonl).

(** ** What a rendered packet presupposes and holds. *)

Lemma contains_mid a s b p : contains s p = true → contains (a +:+ s +:+ b) p = true.
Proof.
  rewrite !contains_spec. intros (x & y & ->). exists (a +:+ x), (y +:+ b). by rewrite !str_app_assoc.
Qed.
Lemma contains_self a p b : contains (a +:+ p +:+ b) p = true.
Proof. apply contains_spec. by exists a, b. Qed.

(** The scan is the list of the clause bodies, read once. *)
Lemma clause_scan_spec l s0 :
  foldl scan_line s0 l =
  let bs := omap mutation_clause_body l in
  MkScan (sc_missing s0 || existsb is_empty bs)
    (match sc_coarse s0 with
     | Some d => Some d
     | None => find_first (λ b, negb (is_empty b) && negb (names_file_rs_line b)) bs
     end)
    (sc_named s0 || existsb (λ b, negb (is_empty b) && names_file_rs_line b) bs).
Proof.
  revert s0. induction l as [|x l IH]; intros [m c n]; cbn.
  - by rewrite !orb_false_r; destruct c.
  - rewrite IH. unfold scan_line. cbn. destruct (mutation_clause_body x) as [b|]; cbn; [|done].
    destruct (is_empty b) eqn:He; cbn; [by rewrite ?He, ?orb_true_r; destruct c|].
    destruct (names_file_rs_line b) eqn:Hn; cbn; rewrite ?He, ?Hn; cbn; rewrite ?orb_true_r; destruct c; done.
Qed.

Lemma find_nonempty (p : string → bool) bs : existsb is_empty bs = false →
  find_first (λ b, negb (is_empty b) && p b) bs = find_first p bs.
Proof.
  induction bs as [|b bs IH]; [done|]. cbn. intros [He Hbs]%orb_false_iff. rewrite He. cbn. by rewrite IH.
Qed.

Lemma classify_clause_spec a :
  classify_mutation_clause a =
  let bs := clause_bodies a in
  if existsb is_empty bs then Missing
  else match find_first (λ b, negb (names_file_rs_line b)) bs with
       | Some d => Coarse d
       | None => match bs with [] => NoClause | _ => NamedSite end
       end.
Proof.
  unfold classify_mutation_clause. rewrite clause_scan_spec. cbn [sc_missing sc_coarse sc_named orb].
  fold (clause_bodies a). cbn zeta. destruct (existsb is_empty (clause_bodies a)) eqn:He; [done|].
  rewrite find_nonempty by done. destruct (find_first _ _) eqn:Hf; [done|].
  destruct (clause_bodies a) as [|b bs]; [done|]. apply find_first_None in Hf. inversion_clear Hf as [|?? Hb].
  cbn in He |- *. apply orb_false_iff in He as [He _]. apply negb_false_iff in Hb. by rewrite He, Hb.
Qed.

(** A clause that names no site is let through only for a bead older than the cutoff. *)
Definition clauses_admissible `{SerdeJson} (issues : option string) (bead acceptance : string) : Prop :=
  Forall (λ b, is_empty b = false) (clause_bodies acceptance) ∧
  (Forall (λ b, names_file_rs_line b = true) (clause_bodies acceptance) ∨ is_grandfathered issues bead = true).

Lemma reject_clause_ok `{SerdeJson} bead a issues :
  reject_coarse_mutation_clause bead a issues = Ok tt ↔ clauses_admissible issues bead a.
Proof.
  unfold reject_coarse_mutation_clause, clauses_admissible. rewrite classify_clause_spec. cbn zeta.
  rewrite <-existsb_false_Forall. destruct (existsb is_empty _); [naive_solver|].
  assert (Hf : find_first (λ b, negb (names_file_rs_line b)) (clause_bodies a) = None ↔
               Forall (λ b, names_file_rs_line b = true) (clause_bodies a)).
  { rewrite find_first_None. apply Forall_proper; [|done]. intros b. by rewrite negb_false_iff. }
  destruct (find_first _ _) as [d|].
  - destruct (is_grandfathered issues bead); [naive_solver|]. split; [done|].
    intros [_ [Hall|?]]; [by apply Hf in Hall|done].
  - destruct (clause_bodies a); naive_solver.
Qed.

Lemma reject_lines_ok bead l : ∀ n, reject_lines bead n l = Ok tt ↔ Forall (λ x, adds_scope x = false) l.
Proof.
  induction l as [|x l IH]; intros n; cbn; [split; [constructor|done]|].
  rewrite Forall_cons. destruct (adds_scope x); [naive_solver|]. rewrite IH. naive_solver.
Qed.

Lemma nonempty_Some v w : nonempty v = Some w → w = trim v ∧ nonempty w = Some w.
Proof.
  unfold nonempty. destruct (is_empty (trim v)) eqn:He; [done|]. intros [= <-]. split; [done|].
  by rewrite trim_idem, He.
Qed.

Lemma scope_nonblank s : nonempty (scope s) ≠ None.
Proof.
  unfold scope, section_from_description.
  destruct (nonempty (trim (join lf_str (section_lines "SCOPE" _ _)))) as [t|] eqn:H1;
    [apply nonempty_Some in H1 as [_ ->]; done|].
  destruct (nonempty (trim (join lf_str (section_lines "OWNED FILES" _ _)))) as [t|] eqn:H2.
  - change (nonempty t ≠ None). apply nonempty_Some in H2 as [_ ->]. done.
  - by vm_compute.
Qed.

Lemma packet_acceptance_ok s bead a :
  packet_acceptance s bead = Ok a ↔ nonempty (acceptance_criteria s) = Some a.
Proof.
  unfold packet_acceptance, resolve_acceptance.
  destruct (nonempty (acceptance_criteria s)) as [t|] eqn:Hn.
  - apply nonempty_Some in Hn as [-> _]. naive_solver.
  - destruct (section_from_description _ _); naive_solver.
Qed.

(** The bead is claimed by the pane the packet is rendered for. *)
Definition claimed_by (s : BeadSnapshot) (pane : string) : Prop :=
  nonempty pane ≠ None ∧ status_label s = "in_progress" ∧ (assignee s ≫= assignee_pane) = nonempty pane.

Lemma validate_claim_ok s pane : nonempty (id s) ≠ None →
  validate_bead_claim s pane = Ok tt ↔ claimed_by s pane.
Proof.
  intros Hid. unfold validate_bead_claim, claimed_by.
  destruct (nonempty (id s)) as [b|]; [|done]. cbn. destruct (nonempty pane) as [p|]; cbn; [|naive_solver].
  repeat case_bool_decide; cbn; naive_solver.
Qed.

Lemma explicit_done_some bead a : explicit_done_signal bead a ≠ None.
Proof. unfold explicit_done_signal. by destruct (head _). Qed.

(** The exact condition under which a bead is rendered, for a pane or for none. *)
Definition renderable `{SerdeJson} (issues : option string) (s : BeadSnapshot) (target : string)
    (pane traps : option string) : Prop :=
  ∃ bead acceptance, nonempty (id s) = Some bead ∧ nonempty (acceptance_criteria s) = Some acceptance ∧
    (∀ p, pane = Some p → claimed_by s p) ∧ filed_only_marker_for s = None ∧
    clauses_admissible issues bead acceptance ∧ nonempty target ≠ None ∧
    (∀ t, traps = Some t → Forall (λ x, adds_scope x = false) (lines t)).

Lemma check_fields_ok objective target s acceptance :
  nonempty objective ≠ None → nonempty acceptance = Some acceptance →
  check_fields [("objective", objective); ("target", target); ("scope", scope s);
                ("acceptance", acceptance); ("stop", STOP)] = Ok tt ↔ nonempty target ≠ None.
Proof.
  intros Ho Ha. pose proof (scope_nonblank s) as Hs. unfold check_fields. cbn [omap list_omap snd fst].
  destruct (nonempty objective); [|done]. destruct (nonempty (scope s)); [|done]. rewrite Ha.
  assert (nonempty STOP ≠ None) as Hst by by vm_compute. destruct (nonempty STOP); [|done].
  destruct (nonempty target); cbn; naive_solver.
Qed.

Lemma objective_nonblank rest : nonempty ("Complete bead " +:+ rest) ≠ None.
Proof.
  unfold nonempty. destruct (is_empty _) eqn:He; [|done].
  assert (trim ("Complete bead " +:+ rest) ≠ EmptyString) as Hne.
  { change ("Complete bead " +:+ rest) with (String "C" (String "o" ("mplete bead " +:+ rest))).
    eapply trim_not_blank; [by apply chars_cons_starts|done]. }
  by destruct (trim _).
Qed.

(** A packet is rendered exactly for a bead that is claimed by its pane, is no filed-only
    record, has typed acceptance with admissible mutation clauses, and whose caller adds
    no acceptance of its own. *)
Lemma render_renderable `{SerdeJson} issues s target pane recv why traps :
  is_ok (render_with_pane issues s target pane recv why traps) = true ↔ renderable issues s target pane traps.
Proof.
  unfold renderable, render_with_pane.
  destruct (nonempty (id s)) as [bead|] eqn:Hid; [|cbn; naive_solver]. cbn [ok_or mbind result_bind].
  assert ((match pane with Some p => validate_bead_claim s p | None => Ok tt end) = Ok tt ↔
          ∀ p, pane = Some p → claimed_by s p) as Hclaim.
  { destruct pane as [p|]; [|naive_solver]. rewrite validate_claim_ok by congruence. naive_solver. }
  destruct (match pane with Some p => _ | None => _ end) as [[]|e]; cbn; [|naive_solver].
  destruct (filed_only_marker_for s); cbn; [naive_solver|].
  destruct (packet_acceptance s bead) as [a|e] eqn:Ha; cbn.
  2: { split; [done|]. intros (b & a & _ & Hacc & _). apply (packet_acceptance_ok s bead) in Hacc. congruence. }
  apply packet_acceptance_ok in Ha. pose proof (reject_clause_ok bead a issues) as Hclause.
  destruct (reject_coarse_mutation_clause bead a issues) as [[]|e]; cbn; [|naive_solver].
  pose proof (explicit_done_some bead a) as Hdone. destruct (explicit_done_signal bead a) as [d|]; [|done]. cbn.
  pose proof (check_fields_ok _ target s a (objective_nonblank (bead +:+ ": " +:+ trim (title s)))
    (proj2 (nonempty_Some _ _ Ha))) as Hfields.
  destruct (check_fields _) as [[]|e]; cbn; [|naive_solver].
  assert ((match traps with Some t => reject_scope_additions bead t | None => Ok tt end) = Ok tt ↔
          ∀ t, traps = Some t → Forall (λ x, adds_scope x = false) (lines t)) as Htraps.
  { destruct traps as [t|]; [|naive_solver]. unfold reject_scope_additions. rewrite reject_lines_ok. naive_solver. }
  destruct (match traps with Some t => _ | None => _ end) as [[]|e]; cbn; naive_solver.
Qed.

Lemma contains_here p b : contains (p +:+ b) p = true.
Proof. apply (contains_self EmptyString). Qed.
Lemma contains_here2 p q b : contains (p +:+ q +:+ b) (p +:+ q) = true.
Proof. rewrite str_app_assoc. apply contains_here. Qed.
Lemma contains_tail a b p : contains b p = true → contains (a +:+ b) p = true.
Proof. intros Hb. pose proof (contains_mid a b EmptyString p Hb) as H. by rewrite str_app_nil_r in H. Qed.
Lemma contains_front a b p : contains a p = true → contains (a +:+ b) p = true.
Proof. apply (contains_mid EmptyString a b p). Qed.
Ltac contains_chain :=
  repeat first [apply contains_here | apply contains_here2 | apply contains_tail].

Lemma done_signal_done bead a d : explicit_done_signal bead a = Some d → ∃ rest, d = "Done: " +:+ rest.
Proof.
  unfold explicit_done_signal. destruct (head _) as [d'|] eqn:Hh; intros [= <-].
  - apply head_Some_elem_of in Hh. apply list_elem_of_omap in Hh as (line & _ & Hl). unfold done_line in Hl.
    destruct (exit_code_of line); [|done]. cbn in Hl. destruct (is_empty _); [done|]. injection Hl as <-.
    by eexists ("re-run " +:+ _).
  - by eexists ("br comments add " +:+ _).
Qed.

(** The parts a packet always has. *)
Lemma packet_body_complete bead objective target pane_line handoff scope acceptance done rest :
  packet_is_complete (packet_body bead objective target pane_line handoff scope acceptance ("Done: " +:+ done) +:+ rest) = true.
Proof.
  unfold packet_is_complete. apply andb_true_iff. split.
  - apply negb_true_iff. destruct (is_empty _) eqn:He; [|done].
    assert (∃ r, packet_body bead objective target pane_line handoff scope acceptance ("Done: " +:+ done) +:+ rest
                 = String "O" (String "b" r)) as [r Hr] by by eexists.
    rewrite Hr in He. assert (trim (String "O" (String "b" r)) ≠ EmptyString) as Hne.
    { eapply trim_not_blank; [by apply chars_cons_starts|done]. }
    by destruct (trim _).
  - cbn [forallb DISPATCH_PACKET_MARKERS]. rewrite !andb_true_iff.
    unfold packet_body. repeat split; apply contains_front; rewrite <-!str_app_assoc; contains_chain.
Qed.

Lemma nonempty_trim v : nonempty (trim v) = nonempty v.
Proof. unfold nonempty. by rewrite trim_idem. Qed.

Section Rendered.
Context `{SerdeJson}.

Lemma render_body issues s target pane recv why traps p :
  render_with_pane issues s target pane recv why traps = Ok p →
  ∃ bead acceptance objective pane_line handoff done rest,
    nonempty (id s) = Some bead ∧ nonempty (acceptance_criteria s) = Some acceptance ∧
    p = packet_body bead objective target pane_line handoff (scope s) acceptance ("Done: " +:+ done) +:+ rest.
Proof.
  unfold render_with_pane. rewrite bind_Ok. intros (bead & Hid%ok_or_Ok & Hr).
  do 2 (rewrite bind_Ok in Hr; destruct Hr as ([] & _ & Hr)).
  rewrite bind_Ok in Hr. destruct Hr as (a & Ha%packet_acceptance_ok & Hr).
  rewrite bind_Ok in Hr. destruct Hr as ([] & _ & Hr).
  rewrite bind_Ok in Hr. destruct Hr as (d & Hd%ok_or_Ok & Hr). apply done_signal_done in Hd as [d' ->].
  do 2 (rewrite bind_Ok in Hr; destruct Hr as ([] & _ & Hr)). injection Hr as <-.
  repeat eexists; eauto.
Qed.

(** A rendered packet has every part the preflight asks for, the bead's own acceptance and
    the acknowledgement the receiver is to give. *)
Lemma render_complete issues s target pane recv why traps p :
  render_with_pane issues s target pane recv why traps = Ok p →
  packet_is_complete p = true ∧
  ∃ bead acceptance, nonempty (id s) = Some bead ∧ nonempty (acceptance_criteria s) = Some acceptance ∧
    contains p acceptance = true ∧ contains p (ack_instruction bead) = true.
Proof.
  intros (bead & a & obj & pl & ho & d & rest & Hid & Ha & ->)%render_body.
  split; [apply packet_body_complete|]. exists bead, a. split_and!; [done|done|..];
    apply contains_front; unfold packet_body; contains_chain.
Qed.

(** C28: a packet is rendered exactly for a bead with an id that is not blank, that is claimed
    by the pane the packet is for, is no filed-only record and has typed acceptance with
    admissible mutation clauses, at a target that is not blank, and if no line of the caller's
    text adds acceptance of its own.  A packet for no pane needs no claim. *)
Theorem render_ok_iff issues s target pane recv why traps :
  is_ok (render_with_pane issues s target pane recv why traps) = true ↔ renderable issues s target pane traps.
Proof. apply render_renderable. Qed.

(** a grading packet is recognised as one, and its grader is not its observer. *)
Theorem grading_packet_classified issues s target grader observer p :
  render_grading_packet issues s target grader observer = Ok p →
  classify_packet p = Ok Grading ∧ packet_is_complete p = true ∧ trim grader ≠ trim observer ∧
  claimed_by s grader.
Proof.
  unfold render_grading_packet. rewrite bind_Ok. intros (g & Hg%ok_or_Ok & Hr).
  rewrite bind_Ok in Hr. destruct Hr as (o & Ho%ok_or_Ok & Hr).
  apply nonempty_Some in Hg as [-> Hg], Ho as [-> Ho].
  case_bool_decide as Hne; [done|]. rewrite bind_Ok in Hr. destruct Hr as (w & Hw & [= <-]).
  assert (is_ok (render_with_pane issues s target (Some (trim grader)) None
            (Some "peer grade assignment — re-run acceptance, do not implement") None) = true) as Hok by by rewrite Hw.
  apply render_renderable in Hok as (b & a & _ & _ & Hc & _). specialize (Hc _ eq_refl).
  apply render_complete in Hw as [Hw _].
  set (text := grading_body _ _ _ +:+ _).
  assert (contains text GRADING_MARKER = true) as Hmark.
  { unfold text, grading_body. rewrite <-!str_app_assoc. apply contains_here. }
  assert (is_empty (trim text) = false) as Htext.
  { destruct (is_empty (trim text)) eqn:He; [|done].
    assert (∃ r, text = String "G" (String "R" r)) as [r Hr] by by eexists.
    assert (trim (String "G" (String "R" r)) ≠ EmptyString) as Hnb.
    { eapply trim_not_blank; [by apply chars_cons_starts|done]. }
    rewrite Hr in He. by destruct (trim (String "G" (String "R" r))). }
  split_and!; [by unfold classify_packet; rewrite Htext, Hmark| |done|].
  - unfold packet_is_complete in Hw |- *. rewrite Htext. apply andb_true_iff in Hw as [_ Hw]. cbn [negb andb].
    rewrite forallb_forall in Hw |- *. intros m Hm. apply contains_front. unfold grading_body.
    repeat apply contains_tail. by apply Hw.
  - unfold claimed_by in *. by rewrite nonempty_trim in Hc.
Qed.
End Rendered.

(** ** Mutation minimality. *)

(** the verdict is the relation of the two sets: equal, superset, empty, or refused. *)
Theorem minimality_iff declared reddened :
  (classify_mutation_minimality declared reddened = Ok Minimal ↔ declared ≠ ∅ ∧ reddened = declared) ∧
  (classify_mutation_minimality declared reddened = Ok Superset ↔ declared ≠ ∅ ∧ declared ⊂ reddened) ∧
  (classify_mutation_minimality declared reddened = Ok Inert ↔ declared ≠ ∅ ∧ reddened = ∅) ∧
  (is_ok (classify_mutation_minimality declared reddened) = false ↔
     declared = ∅ ∨ (reddened ≠ ∅ ∧ ¬ declared ⊆ reddened)).
Proof.
  unfold classify_mutation_minimality.
  repeat case_bool_decide; cbn; subst; split_and!; split; try done; intros ?; destruct_and?; destruct_or?;
    try done; try set_solver.
Qed.

Example fixtures_hold : grading_fixtures = true.
Proof. by vm_compute. Qed.

(** ** Admission. *)

(** The packet has a line, no comment, that names the plan document. *)
Definition names_plan (packet : string) : Prop :=
  ∃ line, line ∈ lines packet ∧ starts_with (trim_start line) "#" = false ∧
    (contains line "PLAN.md" = true ∨ contains line "docs/plan" = true).

Lemma plan_line_iff line :
  plan_line line = true ↔
  starts_with (trim_start line) "#" = false ∧ (contains line "PLAN.md" = true ∨ contains line "docs/plan" = true).
Proof.
  unfold plan_line. cbn [existsb PLAN_NEEDLES]. rewrite andb_true_iff, negb_true_iff, !orb_true_iff. naive_solver.
Qed.

Lemma reads_plan_iff packet : reads_plan_document packet = true ↔ names_plan packet.
Proof.
  unfold reads_plan_document, names_plan. rewrite existsb_exists.
  setoid_rewrite <-list_elem_of_In. by setoid_rewrite plan_line_iff.
Qed.

(** C36: a packet that is not blank is always classified: as grading if it bears the marker of
    a grade assignment, as work otherwise.  While the documents are fresh it is allowed.  While
    they are stale it is refused if a line of it that is no comment names the plan document or
    if the degraded arm is not authorized, and otherwise admitted as degraded, with the class
    it may not do and the gate it is to name.  So it is admitted exactly if the documents are
    fresh, or it names no plan document and the degraded arm is authorized. *)
Theorem admitted_iff packet stale auth :
  ((∃ a, evaluate packet stale auth = Ok a ∧ is_admitted a = true) ↔
     trim packet ≠ "" ∧ (stale = false ∨ (¬ names_plan packet ∧ auth = true))) ∧
  (is_ok (evaluate packet stale auth) = true ↔ trim packet ≠ "") ∧
  (∀ a, evaluate packet stale auth = Ok a →
     (adm_reads_plan a = true ↔ names_plan packet) ∧
     packet_class a = (if contains packet "GRADE ASSIGNMENT (not implementation)" then Grading else Work) ∧
     (stale = false → adm_verdict a = Allowed) ∧
     (stale = true → names_plan packet ∨ auth = false → adm_verdict a = ARefused) ∧
     (stale = true → ¬ names_plan packet → auth = true →
        adm_verdict a = Degraded PlanDependent "name_the_failing_gate")).
Proof.
  setoid_rewrite <-reads_plan_iff. unfold evaluate, classify_packet, evaluate_for_class.
  destruct (is_empty (trim packet)) eqn:He.
  { cbn. destruct (trim packet); [|done]. naive_solver. }
  assert (trim packet ≠ "") as Hne by by destruct (trim packet).
  unfold mbind, result_bind. change "GRADE ASSIGNMENT (not implementation)" with GRADING_MARKER.
  destruct (contains packet GRADING_MARKER), stale, (reads_plan_document packet), auth; cbn;
    split_and!; try intros a [= <-]; cbn; naive_solver.
Qed.

(** A second heading does not end the section before it. *)
Example section_runs_past_heading :
  section_from_description ("SCOPE:" +:+ lf_str +:+ "src/a.rs" +:+ lf_str +:+ "## Background" +:+ lf_str +:+ "why") "SCOPE"
  = Some ("src/a.rs" +:+ lf_str +:+ "## Background" +:+ lf_str +:+ "why").
Proof. by vm_compute. Qed.

(** ** Witnesses. *)

Definition ex_bead : BeadSnapshot :=
  new_with_acceptance "omp-7" "Fix the reader" ("SCOPE:" +:+ lf_str +:+ "src/a.rs")
    ("MUTATION: delete the guard at src/a.rs:10" +:+ lf_str +:+ "exit 0 from cargo test")
    "in_progress" (Some "pane=%7;incarnation=3;agent=Moss").

Example ex_packet_complete :
  match render_with_pane (H := λ _, None) None ex_bead "/repo" (Some "%7") (Some "Moss") None None with
  | Ok p => packet_is_complete p = true
  | Err _ => False
  end.
Proof. by vm_compute. Qed.

Lemma grading_packet_classified_witness :
  ∃ p, render_grading_packet (H := λ _, None) None ex_bead "/repo" "%7" "%1" = Ok p ∧ classify_packet p = Ok Grading.
Proof.
  eexists. split; [vm_compute; reflexivity|].
  by eapply (grading_packet_classified (H := λ _, None) None ex_bead "/repo" "%7" "%1").
Defined.
