(* ===== verification/Activity.v ===== *)
(** * NTM's activity report (ntm-fleet-monitor/src/ntm.rs)

    One row per agent of a session, with two state fields that must agree, the freshness
    of the capture and a producer-side identity of its output.  A row authorizes a
    dispatch only when all of them say so. *)

From stdpp Require Import base numbers list option strings sets.
From Stdlib Require Import NArith Lia.
From S2P Require Import Prelude RustStr Json ClaimFence AckStage.

Inductive OmpVariant := Generic | Claude | Grok.
Definition variant_str (v : OmpVariant) : string :=
  match v with Generic => "omp" | Claude => "omp-claude" | Grok => "omp-grok" end.

Inductive AgentKind := Omp (v : OmpVariant) | UnknownAgent (name : string).
Definition AgentKind_parse (name : string) : AgentKind :=
  match find_first (λ v, bool_decide (variant_str v = name)) [Generic; Claude; Grok] with
  | Some v => Omp v
  | None => UnknownAgent name
  end.
Definition is_omp (k : AgentKind) : bool := match k with Omp _ => true | UnknownAgent _ => false end.
Definition is_omp_family (k : AgentKind) : bool :=
  match k with
  | Omp _ => true
  | UnknownAgent name => bool_decide (name = "omp") || starts_with name "omp-"
  end.
Definition kind_str (k : AgentKind) : string := match k with Omp v => variant_str v | UnknownAgent n => n end.

Inductive SignalState := SIdle | SWorking | SError | SUnknown.
#[global] Instance SignalState_eq_dec : EqDecision SignalState.
Proof. solve_decision. Defined.
Inductive Readiness := RIdle | RWorking | RError | RConflicting | RUnknown.
#[global] Instance Readiness_eq_dec : EqDecision Readiness.
Proof. solve_decision. Defined.
Definition readiness_str (r : Readiness) : string :=
  match r with
  | RIdle => "idle" | RWorking => "working" | RError => "error" | RConflicting => "conflicting"
  | RUnknown => "unknown"
  end.
Inductive EvidenceFreshness := FLive | FStale | FMissing.
#[global] Instance EvidenceFreshness_eq_dec : EqDecision EvidenceFreshness.
Proof. solve_decision. Defined.
Definition freshness_str (f : EvidenceFreshness) : string :=
  match f with FLive => "live" | FStale => "stale" | FMissing => "missing" end.

Record OutputSequence := MkSequence { os_epoch : string; os_sequence : N; os_changed_at : string }.
Record AgentObservation := MkAgent {
  ag_pane : string; ag_kind : AgentKind; ag_state : SignalState; ag_observation : SignalState;
  ag_readiness : Readiness; ag_safe : bool; ag_freshness : EvidenceFreshness;
  ag_collected_at : option string; ag_confidence : option string; ag_sequence : option OutputSequence }.

Inductive ActivityError :=
  | InvalidJson (detail : string) | RootNotObject | NtmReportedFailure (detail : string)
  | MissingField (name : string) | AgentsNotArray | EmptyAgents | AgentNotObject | PaneNotString
  | OutputSequenceNotObject | InvalidOutputSequence.
Definition activity_error_display (e : ActivityError) : string :=
  match e with
  | InvalidJson d => "invalid NTM JSON: " +:+ d
  | RootNotObject => "NTM response root is not an object"
  | NtmReportedFailure d => "NTM reported failure: " +:+ d
  | MissingField n => "NTM response missing field: " +:+ n
  | AgentsNotArray => "NTM response agents is not an array"
  | EmptyAgents => "NTM response agents is empty; observation is unknown"
  | AgentNotObject => "NTM response contains a non-object agent"
  | PaneNotString => "NTM response pane is not a string"
  | OutputSequenceNotObject => "NTM response output_sequence is not an object"
  | InvalidOutputSequence => "NTM response output_sequence is invalid"
  end.

Definition dispatchable (a : AgentObservation) : bool :=
  is_omp (ag_kind a) && bool_decide (ag_readiness a = RIdle) && bool_decide (ag_freshness a = FLive) && ag_safe a.
Definition output_identity (a : AgentObservation) : result ActivityError OutputSequence :=
  ok_or (ag_sequence a) (MissingField "agents[].output_sequence").
Definition capture_eligible (a : AgentObservation) : bool :=
  is_omp (ag_kind a) && bool_decide (ag_observation a = SIdle)
  && negb (match ag_readiness a with RError | RConflicting => true | _ => false end)
  && bool_decide (ag_freshness a = FLive) && ag_safe a.
Definition omp_agents (l : list AgentObservation) : list AgentObservation := List.filter (λ a, is_omp (ag_kind a)) l.
Definition dispatchable_omp_count (l : list AgentObservation) : nat :=
  length (List.filter dispatchable (omp_agents l)).

(** ** Reading a row. *)

Definition lower_field (k : string) (v : Json) : option string := to_ascii_lowercase <$> (json_get k v ≫= as_str).

Definition signal_state (v : option Json) : SignalState :=
  match v ≫= as_str with
  | None => SUnknown
  | Some s =>
      let s := to_ascii_lowercase s in
      if bool_decide (s ∈ ["idle"; "ready"]) then SIdle
      else if bool_decide (s ∈ ["busy"; "working"; "thinking"]) then SWorking
      else if bool_decide (s ∈ ["error"; "failed"]) then SError else SUnknown
  end.

Definition source_stale (source : Json) : bool :=
  match lower_field "status" source with
  | Some s => negb (bool_decide (s = "fresh") || bool_decide (s = "live"))
  | None => true
  end.
Definition source_health_stale (root : list (string * Json)) : bool :=
  match map_get "source_health" root with
  | None => false
  | Some h => match as_object h with
              | None => true
              | Some sources => existsb (λ kv, source_stale kv.2) sources
              end
  end.

Definition freshness (agent : Json) (source_health_is_stale : bool) : EvidenceFreshness :=
  if source_health_is_stale then FStale
  else let p := lower_field "capture_provenance" agent in
       let f := lower_field "observation_freshness" agent in
       if bool_decide (p = Some "live") && bool_decide (f = Some "fresh") then FLive
       else if bool_decide (p = Some "stale") || bool_decide (f = Some "stale") then FStale else FMissing.

Definition readiness (state observation : SignalState) : Readiness :=
  if bool_decide (state = SError) || bool_decide (observation = SError) then RError
  else if bool_decide (state = SUnknown) || bool_decide (observation = SUnknown) then RUnknown
  else if negb (bool_decide (state = observation)) then RConflicting
  else match state with SIdle => RIdle | SWorking => RWorking | SError | SUnknown => RUnknown end.

Definition parse_output_sequence (agent : list (string * Json)) : result ActivityError (option OutputSequence) :=
  match map_get "output_sequence" agent with
  | None => Ok None
  | Some value =>
      object ← ok_or (as_object value) OutputSequenceNotObject;
      epoch ← ok_or (s ← map_get "epoch" object ≫= as_str; if is_empty s then None else Some s)
                (MissingField "agents[].output_sequence.epoch");
      sequence ← ok_or (map_get "sequence" object ≫= as_u64) InvalidOutputSequence;
      changed_at ← match map_get "changed_at" object with
                   | None => Ok EmptyString
                   | Some v => ok_or (as_str v) InvalidOutputSequence
                   end;
      Ok (Some (MkSequence epoch sequence changed_at))
  end.

Section Activity.
Context `{SerdeJson, ToJson} (json_error : string → string).

Definition parse_agent (stale : bool) (value : Json) : result ActivityError AgentObservation :=
  agent ← ok_or (as_object value) AgentNotObject;
  pane ← match map_get "pane" agent with
         | Some (JString s) => Ok s
         | Some (JNumber n) => Ok (to_string (JNumber n))
         | Some _ => Err PaneNotString
         | None => Err (MissingField "agents[].pane")
         end;
  kind_name ← ok_or (match map_get "agent_type" agent with
                     | Some v => as_str v
                     | None => map_get "agent" agent ≫= as_str
                     end) (MissingField "agents[].agent_type");
  let state := signal_state (map_get "state" agent) in
  let observation := signal_state (map_get "observation_state" agent) in
  sequence ← parse_output_sequence agent;
  Ok (MkAgent pane (AgentKind_parse kind_name) state observation (readiness state observation)
        (default false (map_get "safe_to_dispatch" agent ≫= as_bool)) (freshness (JObject agent) stale)
        (map_get "capture_collected_at" agent ≫= as_str) (to_string <$> map_get "observation_confidence" agent)
        sequence).

Definition parse_activity_json (input : string) : result ActivityError (list AgentObservation) :=
  root ← ok_or (from_str input) (InvalidJson (json_error input));
  root ← ok_or (as_object root) RootNotObject;
  if negb (bool_decide ((map_get "success" root ≫= as_bool) = Some true))
  then Err (NtmReportedFailure (default "success was not true" (map_get "error" root ≫= as_str)))
  else
    rows ← ok_or (match map_get "agents" root with Some v => Some v | None => map_get "panes" root end)
             (MissingField "agents");
    agents ← ok_or (as_array rows) AgentsNotArray;
    match agents with
    | [] => Err EmptyAgents
    | _ => collect (parse_agent (source_health_stale root)) agents
    end.

(** ** A dispatchable row. *)

Lemma readiness_idle_iff s o : readiness s o = RIdle ↔ s = SIdle ∧ o = SIdle.
Proof. unfold readiness. destruct s, o; cbn; naive_solver. Qed.

Lemma freshness_live_iff a stale :
  freshness a stale = FLive ↔
  stale = false ∧ lower_field "capture_provenance" a = Some "live" ∧ lower_field "observation_freshness" a = Some "fresh".
Proof. unfold freshness. destruct stale; repeat case_bool_decide; cbn; naive_solver. Qed.

Lemma kind_omp_iff n : is_omp (AgentKind_parse n) = true ↔ n ∈ ["omp"; "omp-claude"; "omp-grok"].
Proof.
  unfold AgentKind_parse. cbn [find_first variant_str]. repeat case_bool_decide; cbn; subst; set_solver.
Qed.

Lemma collect_elem {A B E} (f : A → result E B) l rs b :
  collect f l = Ok rs → b ∈ rs ↔ ∃ a, a ∈ l ∧ f a = Ok b.
Proof.
  revert rs. induction l as [|a l IH]; cbn; intros rs.
  - intros [= <-]. setoid_rewrite elem_of_nil. naive_solver.
  - destruct (f a) as [b0|e] eqn:Hf; cbn; [|done]. destruct (collect f l) as [rs'|e]; cbn; [|done].
    intros [= <-]. rewrite elem_of_cons, (IH rs') by done. split.
    + intros [->|(y & Hy & Hfy)]; [exists a|exists y]; rewrite elem_of_cons; auto.
    + intros (y & [->|Hy]%elem_of_cons & Hfy); [left; congruence|right; eauto].
Qed.

Lemma safe_true (o : option Json) : default false (o ≫= as_bool) = true ↔ o = Some (JBool true).
Proof. destruct o as [[]|]; cbn; naive_solver. Qed.

(** What a dispatchable row says, field by field. *)
Record says_idle (row : list (string * Json)) : Prop := {
  si_kind : ∃ kind, kind ∈ ["omp"; "omp-claude"; "omp-grok"] ∧
      (match map_get "agent_type" row with Some v => as_str v | None => map_get "agent" row ≫= as_str end) = Some kind;
  si_state : signal_state (map_get "state" row) = SIdle;
  si_observation : signal_state (map_get "observation_state" row) = SIdle;
  si_provenance : lower_field "capture_provenance" (JObject row) = Some "live";
  si_freshness : lower_field "observation_freshness" (JObject row) = Some "fresh";
  si_safe : map_get "safe_to_dispatch" row = Some (JBool true) }.

Lemma parse_agent_dispatchable stale value a :
  parse_agent stale value = Ok a →
  dispatchable a = true ↔ ∃ row, value = JObject row ∧ stale = false ∧ says_idle row.
Proof.
  unfold parse_agent. rewrite bind_Ok. intros (row & Hrow%ok_or_Ok & Ha).
  assert (value = JObject row) as -> by by destruct value; naive_solver.
  rewrite bind_Ok in Ha. destruct Ha as (pane & _ & Ha).
  rewrite bind_Ok in Ha. destruct Ha as (kind & Hk%ok_or_Ok & Ha).
  rewrite bind_Ok in Ha. destruct Ha as (sq & _ & [= <-]).
  unfold dispatchable. cbn [ag_kind ag_readiness ag_freshness ag_safe].
  rewrite !andb_true_iff, !bool_decide_eq_true, kind_omp_iff, readiness_idle_iff, freshness_live_iff, safe_true.
  split.
  - intros [[[Hkind [Hs Ho]] (-> & Hp & Hf)] Hsafe]. exists row. split_and!; [done..|]. split; eauto.
  - intros (row' & [= <-] & -> & [(k & Hkind & Hk') ? ? ? ? ?]). rewrite Hk in Hk'. injection Hk' as ->. done.
Qed.

(** the report, read: a row of it is dispatchable exactly when it comes from an object
    that names a known plugin, whose two state fields both say idle, whose capture was
    live and fresh, which NTM calls safe, and no source of the report is stale. *)
Theorem activity_dispatchable_iff input rows a :
  parse_activity_json input = Ok rows → a ∈ rows →
  ∃ root row, from_str input = Some (JObject root) ∧
    parse_agent (source_health_stale root) row = Ok a ∧
    (dispatchable a = true ↔ ∃ fields, row = JObject fields ∧ source_health_stale root = false ∧ says_idle fields).
Proof.
  unfold parse_activity_json. rewrite bind_Ok. intros (v & Hv%ok_or_Ok & Hr) Ha.
  rewrite bind_Ok in Hr. destruct Hr as (root & Hroot%ok_or_Ok & Hr).
  assert (v = JObject root) as -> by by destruct v; naive_solver.
  destruct (negb _); [done|]. rewrite bind_Ok in Hr. destruct Hr as (rv & _ & Hr).
  rewrite bind_Ok in Hr. destruct Hr as (agents & _ & Hr). destruct agents as [|x l]; [done|].
  apply (collect_elem _ _ _ a Hr) in Ha as (row & _ & Hrow). exists root, row. split_and!; [done..|].
  by apply parse_agent_dispatchable.
Qed.
End Activity.
