(* ===== verification/Resident.v ===== *)
(** * The supervisor's process: its world, its environment, and the commands it runs

    omp-orchestrator/src/resident.rs as a program that acts: it runs commands (tmux, ntm,
    br), reads clocks, writes its heartbeat and its lifecycle ledger, and keeps the
    incarnations of its panes.  Every effect is appended to a trace, newest first; what
    the outside answers is a function of the trace, so a theorem over all environments is
    about every schedule, fault and answer.  This file holds that monad, the reading of
    the commands' outputs, the durable send receipt of NTM and the incarnation check. *)

From stdpp Require Import base numbers list option strings pretty gmap.
From Stdlib Require Import NArith ZArith Ascii Lia.
From S2P Require Import Prelude RustStr Utf8 Json DecisionLedger ClaimFence PaneFence Lifecycle LifeLedger.
From S2P Require Import TickMonitor Receipt AckStage Pending Packet Activity.

(** ** Outputs and effects. *)

Record Output := MkOutput { o_code : option Z; o_stdout : string; o_stderr : string }.
Definition success (o : Output) : bool := bool_decide (o_code o = Some 0%Z).
(** What became of a command: it exited, it could not be run, or its time ran out. *)
Inductive RunAnswer := Exited (o : Output) | RunFailed (e : string) | RunTimedOut.

Definition show_Z (z : Z) : string := pretty z.
Definition exit_label (code : option Z) : string :=
  match code with Some c => show_Z c | None => "signal" end.

Inductive Effect :=
  | ERun (program : string) (args : list string)
  | EBeat (status detail : string) (written : bool)
  | EJournal (event : string) (accepted : bool)
  | EAdmit (session pane : string)
  | EMail (pane bead : string)
  | EClock
  | EStage (path text : string)
  | EUnstage (path : string)
  | EAppend (path text : string)
  | ESleep.
#[global] Instance Effect_eq_dec : EqDecision Effect.
Proof. solve_decision. Defined.

(** The process: its trace, its marker directory and heartbeat, the lifecycle ledger, and
    the occupancies of its panes with their mint. *)
Record RWorld := MkR {
  r_trace : list Effect; r_pend : Pending.World; r_ledger : option string;
  r_mint : IncarnationMint; r_occ : gmap string Occupancy }.
Definition log (e : Effect) (w : RWorld) : RWorld :=
  MkR (e :: r_trace w) (r_pend w) (r_ledger w) (r_mint w) (r_occ w).
Definition with_ledger (f : option string) (w : RWorld) : RWorld :=
  MkR (r_trace w) (r_pend w) f (r_mint w) (r_occ w).

Record RConfig := MkRConfig {
  rc :> Pending.Config;
  rc_br : string; rc_ntm : string; rc_am : string; rc_ompo : string; rc_reap : string;
  rc_receiver_agent : string; rc_interval_secs : N; rc_timeout_secs : N; rc_temp_dir : string;
  rc_registry_path : string }.

(** The outside, as a function of the trace. *)
Record Env := MkEnv {
  e_cfg : RConfig;
  e_run : list Effect → RunAnswer;
  e_cancelled : list Effect → bool;
  e_now : list Effect → N;
  e_instant : list Effect → N;
  e_hb : list Effect → HbEnv;
  e_call : list Effect → CallEnv;
  e_stage : list Effect → option string;
  e_marker_fault : list Effect → bool;
  e_issues : list Effect → option string;
  e_ledger_fault : list Effect → option string;
  e_pane_map : list Effect → option string;
  e_sender : list Effect → result string string;
  e_agents : list Effect → result string (list string);
  e_registry : list Effect → result string string;
  e_invoker : InvokerClass }.

(** What the standard library and the crates outside the repository compute. *)
Class Host := {
  host_json_error : string → string;
  host_hash : string → N;
  host_object_text : string → string → string → string → option Z → string;
  host_sha256 : string → string;
  host_debug_admission : AdmissionRefusal → string }.

Notation RM := (StM RWorld string).

Definition TMUX : string := "tmux".
Definition SEND_KEYS : string := "send-keys".
Definition CAPTURE_PANE : string := "capture-pane".
Definition NTM : string := "ntm".
Definition ntm_send_arg (session : string) : string := "--robot-send=" +:+ session.

Section Resident.
Context `{SerdeJson, ToJson, Unicode, Host} (env : Env).
Notation cfg := (e_cfg env).

Definition emit (e : Effect) : RM unit := stm_modify (log e).
Definition trace_of : RM (list Effect) := λ w, (w, Ok (r_trace w)).
Definition checkpoint (message : string) : RM unit :=
  t ← trace_of; stm_refuse (e_cancelled env t) message.
Definition now_unix : RM N := _ ← emit EClock; t ← trace_of; mret (e_now env t).
Definition instant : RM N := t ← trace_of; mret (e_instant env t).
Definition rsleep : RM unit := emit ESleep.

Definition invoke (program : string) (args : list string) : RM Output :=
  _ ← checkpoint "CANCELLED supervisor context";
  _ ← emit (ERun program args);
  t ← trace_of;
  match e_run env t with
  | Exited o => mret o
  | RunFailed e => stm_fail (program +:+ ": " +:+ e)
  | RunTimedOut => stm_fail ("TIMEOUT program=" +:+ program +:+ " after=" +:+ show_N (rc_timeout_secs cfg) +:+ "s")
  end.

Definition require_success (program : string) (o : Output) : result string string :=
  if success o then Ok (o_stdout o)
  else Err (program +:+ " exited=" +:+ exit_label (o_code o) +:+ " stderr=" +:+ trim (utf8_lossy (o_stderr o))).

Definition run_ok (name program : string) (args : list string) : RM string :=
  o ← invoke program args; stm_lift (require_success name o).

(** [match call { Ok(..) => .., Err(..) => .. }]: the error is a value, the effects stay. *)
Definition attempt {A} (m : RM A) : RM (result string A) := λ w, let '(w', r) := m w in (w', Ok r).
Definition rename_error {A} (f : string → string) (m : RM A) : RM A := λ w, let '(w', r) := m w in (w', map_err f r).

Definition beat (tick : N) (status detail : string) : RM unit := λ w,
  let '(p, r) := write_heartbeat host_json_error cfg (e_hb env (r_trace w)) tick status detail (r_pend w) in
  (MkR (EBeat status detail (is_ok r) :: r_trace w) p (r_ledger w) (r_mint w) (r_occ w), r).

(** One call on the lifecycle ledger, with the machine it moves. *)
Definition ledger_call (event : string) (refused : LfError → string)
    (m : CallEnv → StM LState LfError (list AppendOutcome)) (l : BeadLifecycle) : RM BeadLifecycle := λ w,
  match m (e_call env (r_trace w)) (MkLState (r_ledger w) l) with
  | (s, Ok _) => (with_ledger (l_file s) (log (EJournal event true) w), Ok (l_life s))
  | (s, Err e) => (with_ledger (l_file s) (log (EJournal event false) w), Err (refused e))
  end.

(** ** Texts of a process. *)

Definition one_line_detail (detail : string) : string :=
  concat_chars (map (λ ch, if bool_decide (ch = String cr EmptyString) || bool_decide (ch = lf_str) then " " else ch)
                  (chars detail)).

Definition process_output_text (program : string) (o : Output) : string :=
  let stdout := trim (utf8_lossy (o_stdout o)) in
  let stderr := trim (utf8_lossy (o_stderr o)) in
  let head := program +:+ " exited=" +:+ exit_label (o_code o) in
  match is_empty stdout, is_empty stderr with
  | true, true => head
  | false, true => head +:+ " stdout=" +:+ stdout
  | true, false => head +:+ " stderr=" +:+ stderr
  | false, false => head +:+ " stderr=" +:+ stderr +:+ " stdout=" +:+ stdout
  end.

Definition lifecycle_run_id : string := cf_run_id cfg.
Definition run_scoped_event_key (kind bead : string) (tick : N) (suffix : string) : string :=
  bead +:+ ":" +:+ kind +:+ ":" +:+ lifecycle_run_id +:+ ":" +:+ show_N tick +:+ suffix.
Definition selected_event_key_for_run (bead : string) (tick : N) (run_id : string) : string :=
  bead +:+ ":selected:" +:+ run_id +:+ ":" +:+ show_N tick.

(** ** The incarnation check before a send. *)

Definition occupancy_key (session pane : string) : string := session +:+ String "000" EmptyString +:+ pane.

Definition admit_immediately_before_send (session pane : string) : RM PaneIncarnation := λ w,
  let live := cf_pid cfg in
  let key := occupancy_key session pane in
  let occupancy := default (unminted session pane) (r_occ w !! key) in
  let put m o := MkR (r_trace w) (r_pend w) (r_ledger w) m (<[key := o]> (r_occ w)) in
  let '(m, o) := match PaneFence.current occupancy with
                 | Some _ => (r_mint w, occupancy)
                 | None => match occupy occupancy (r_mint w) live with
                           | (m, Some (o, _)) => (m, o)
                           | (m, None) => (m, occupancy)
                           end
                 end in
  match PaneFence.current o with
  | None => (put m o, Err "INCARNATION_NOT_MINTED")
  | Some i =>
      match admit_at_send o (MkPresented session pane (Some i) (Some live)) live with
      | Ok _ => (log (EAdmit session pane) (put m o), Ok i)
      | Err refusal => (put m o, Err ("DISPATCH_BLOCKED pane=" +:+ pane +:+ " incarnation_refused=" +:+ host_debug_admission refusal))
      end
  end.
End Resident.

(** ** What a program does to the trace.

    [Effects P m]: whatever the outcome of [m], the effects it adds all satisfy [P].  The
    lemmas below are the [effects] hints, so that the effects of a program composed of the
    operations above are read off its text. *)

Definition extends (P : Effect → Prop) (w w' : RWorld) : Prop :=
  ∃ t, r_trace w' = app t (r_trace w) ∧ Forall P t.
#[global] Instance extends_refl P : Reflexive (extends P).
Proof. intros w. by exists []. Qed.
#[global] Instance extends_trans P : Transitive (extends P).
Proof.
  intros w1 w2 w3 (t1 & H1 & HP1) (t2 & H2 & HP2). exists (app t2 t1).
  rewrite H2, H1, app_assoc. split; [done|]. by apply Forall_app.
Qed.
Lemma extends_weaken (P Q : Effect → Prop) w w' : (∀ e, P e → Q e) → extends P w w' → extends Q w w'.
Proof. intros HPQ (t & Ht & HP). exists t. split; [done|]. by eapply Forall_impl. Qed.

Definition Effects {A} (P : Effect → Prop) (m : RM A) : Prop := ∀ w, extends P w (m w).1.

Section EffectLemmas.
Context (P : Effect → Prop).

Lemma effects_same {A} (m : RM A) : (∀ w, r_trace (m w).1 = r_trace w) → Effects P m.
Proof. intros Hm w. exists []. by rewrite Hm. Qed.
Lemma effects_ret {A} (a : A) : Effects P (mret a).
Proof. by apply effects_same. Qed.
Lemma effects_fail {A} (e : string) : Effects P (stm_fail e : RM A).
Proof. by apply effects_same. Qed.
Lemma effects_lift {A} (r : result string A) : Effects P (stm_lift r).
Proof. by apply effects_same. Qed.
Lemma effects_get : Effects P (stm_get : RM RWorld).
Proof. by apply effects_same. Qed.
Lemma effects_require b (e : string) : Effects P (stm_require b e : RM unit).
Proof. apply effects_same. intros w. by destruct b. Qed.
Lemma effects_refuse b (e : string) : Effects P (stm_refuse b e : RM unit).
Proof. apply effects_same. intros w. by destruct b. Qed.
Lemma effects_trace : Effects P trace_of.
Proof. by apply effects_same. Qed.

(** The rest of a program may use what its first part returned. *)
Lemma effects_bind_with {A B} (m : RM A) (f : A → RM B) :
  Effects P m → (∀ w w' a, m w = (w', Ok a) → extends P w' (f a w').1) → Effects P (m ≫= f).
Proof.
  intros Hm Hf w. specialize (Hm w). unfold mbind, stm_bind.
  destruct (m w) as [w' [a|e]] eqn:Hw; [|done]. etrans; [done|]. by apply (Hf _ _ _ Hw).
Qed.
Lemma effects_bind {A B} (m : RM A) (f : A → RM B) :
  Effects P m → (∀ a, Effects P (f a)) → Effects P (m ≫= f).
Proof. intros Hm Hf. apply effects_bind_with; [done|]. intros. apply Hf. Qed.

Lemma effects_attempt {A} (m : RM A) : Effects P m → Effects P (attempt m).
Proof. intros Hm w. specialize (Hm w). unfold attempt. by destruct (m w). Qed.
Lemma effects_rename {A} f (m : RM A) : Effects P m → Effects P (rename_error f m).
Proof. intros Hm w. specialize (Hm w). unfold rename_error. by destruct (m w). Qed.
Lemma effects_emit e : P e → Effects P (emit e).
Proof. intros He w. exists [e]. by repeat constructor. Qed.
Lemma effects_sleep : P ESleep → Effects P rsleep.
Proof. apply effects_emit. Qed.

Context `{SerdeJson, ToJson, Unicode, Host} (env : Env).

Lemma effects_checkpoint m : Effects P (checkpoint env m).
Proof. apply effects_bind; [apply effects_trace|]. intros t. apply effects_refuse. Qed.
Lemma effects_now : P EClock → Effects P (now_unix env).
Proof.
  intros Hc. apply effects_bind; [by apply effects_emit|]. intros _.
  apply effects_bind; [apply effects_trace|]. intros t. apply effects_ret.
Qed.
Lemma effects_instant : Effects P (instant env).
Proof. apply effects_bind; [apply effects_trace|]. intros t. apply effects_ret. Qed.
Lemma effects_invoke program args : P (ERun program args) → Effects P (invoke env program args).
Proof.
  intros Hr. apply effects_bind; [apply effects_checkpoint|]. intros _.
  apply effects_bind; [by apply effects_emit|]. intros _. apply effects_bind; [apply effects_trace|]. intros t.
  destruct (e_run env t); [apply effects_ret|apply effects_fail..].
Qed.
Lemma effects_run_ok name program args : P (ERun program args) → Effects P (run_ok env name program args).
Proof. intros Hr. apply effects_bind; [by apply effects_invoke|]. intros o. apply effects_lift. Qed.
Lemma effects_beat tick status detail : (∀ ok, P (EBeat status detail ok)) → Effects P (beat env tick status detail).
Proof.
  intros Hb w. unfold beat. destruct (write_heartbeat _ _ _ _ _ _ _) as [p r].
  exists [EBeat status detail (is_ok r)]. by repeat constructor.
Qed.
Lemma effects_ledger event refused m l : (∀ ok, P (EJournal event ok)) → Effects P (ledger_call env event refused m l).
Proof.
  intros Hj w. unfold ledger_call. destruct (m _ _) as [s [o|e]];
    [exists [EJournal event true]|exists [EJournal event false]]; by repeat constructor.
Qed.
Lemma effects_admit session pane : P (EAdmit session pane) → Effects P (admit_immediately_before_send env session pane).
Proof.
  intros Ha w. unfold admit_immediately_before_send.
  destruct (match PaneFence.current _ with Some _ => _ | None => _ end) as [m o].
  destruct (PaneFence.current o); [|by exists []]. destruct (admit_at_send _ _ _); [|by exists []].
  exists [EAdmit session pane]. by repeat constructor.
Qed.

(** What a command that answered leaves behind. *)
Lemma attempt_ok {A} (m : RM A) w w' r : attempt m w = (w', Ok r) ↔ m w = (w', r).
Proof. unfold attempt. destruct (m w) as [w1 r1]. by split; intros [= -> ->]. Qed.
Lemma invoke_ok program args w w' o :
  invoke env program args w = (w', Ok o) → w' = log (ERun program args) w ∧ e_run env (r_trace w') = Exited o.
Proof.
  unfold invoke. rewrite stm_bind_ok. intros (w1 & u & Hc & Hr). revert Hr.
  unfold checkpoint in Hc. rewrite stm_bind_ok in Hc. destruct Hc as (w2 & t & [= <- <-] & [_ ->]%stm_refuse_ok).
  rewrite stm_bind_ok. intros (w3 & u3 & [= <-] & Hr). revert Hr. rewrite stm_bind_ok. intros (w4 & t & [= <- <-] & Hr). revert Hr.
  destruct (e_run env _) as [x| |] eqn:Hx; [|done..]. intros [= <- <-]. done.
Qed.
Lemma invoke_calm program args w w' o :
  invoke env program args w = (w', Ok o) → e_cancelled env (r_trace w) = false.
Proof.
  unfold invoke. rewrite stm_bind_ok. intros (w1 & u & Hc & _).
  unfold checkpoint in Hc. rewrite stm_bind_ok in Hc. by destruct Hc as (w2 & t & [= <- <-] & [? _]%stm_refuse_ok).
Qed.
Lemma run_ok_ok name program args w w' out :
  run_ok env name program args w = (w', Ok out) →
  w' = log (ERun program args) w ∧ ∃ o, e_run env (r_trace w') = Exited o ∧ success o = true ∧ out = o_stdout o.
Proof.
  unfold run_ok. rewrite stm_bind_ok. intros (w1 & o & [-> Ho]%invoke_ok & Hr). apply stm_lift_ok in Hr as [-> Hr].
  unfold require_success in Hr. destruct (success o) eqn:Hs; [|done]. injection Hr as <-. eauto.
Qed.

(** What a step leaves at the head of the trace says what became of it. *)
Lemma beat_traced tick status detail w w' r :
  beat env tick status detail w = (w', r) → r_trace w' = EBeat status detail (is_ok r) :: r_trace w.
Proof. unfold beat. destruct (write_heartbeat _ _ _ _ _ _ _) as [p r0]. by intros [= <- <-]. Qed.
Lemma ledger_call_traced event refused m l w w' r :
  ledger_call env event refused m l w = (w', r) → r_trace w' = EJournal event (is_ok r) :: r_trace w.
Proof. unfold ledger_call. destruct (m _ _) as [s [o|e]]; by intros [= <- <-]. Qed.
Lemma admit_traced session pane w w' i :
  admit_immediately_before_send env session pane w = (w', Ok i) → r_trace w' = EAdmit session pane :: r_trace w.
Proof.
  unfold admit_immediately_before_send.
  destruct (match PaneFence.current _ with Some _ => _ | None => _ end) as [m o].
  destruct (PaneFence.current o); [|done]. destruct (admit_at_send _ _ _); [|done]. by intros [= <- _].
Qed.
End EffectLemmas.

#[export] Hint Resolve effects_ret effects_fail effects_lift effects_get effects_require effects_refuse effects_trace
  effects_attempt effects_rename effects_emit effects_sleep effects_checkpoint effects_now effects_instant effects_invoke
  effects_run_ok effects_beat effects_ledger effects_admit : effects.

(** Walk through a program: binds, branches, and the operations' own lemmas; what is left
    are the effects themselves. *)
Ltac effects_step :=
  match goal with
  | |- Effects _ (_ ≫= _) => apply effects_bind; [|intros ?]
  | |- Effects _ (if ?b then _ else _) => destruct b
  | |- Effects _ (match ?x with _ => _ end) => destruct x
  | |- Effects _ (let _ := _ in _) => cbv zeta
  | |- Effects _ _ =>
      first [ solve [auto with effects] | apply effects_run_ok | apply effects_invoke | apply effects_beat
            | apply effects_ledger | apply effects_emit | apply effects_now | apply effects_attempt
            | apply effects_rename ]
  end.
Ltac effects_walk := repeat effects_step.

(** ** What a run establishes: the outcome and the world it leaves. *)

Definition runs {A} (m : RM A) (w : RWorld) (Q : RWorld → result string A → Prop) : Prop := Q (m w).1 (m w).2.
Lemma runs_bind {A B} (m : RM A) (f : A → RM B) w Q :
  runs m w (λ w' r, match r with Ok a => runs (f a) w' Q | Err e => Q w' (Err e) end) → runs (m ≫= f) w Q.
Proof. unfold runs, mbind, stm_bind. by destruct (m w) as [w' [a|e]]. Qed.
Lemma runs_effects {A} P (m : RM A) w (Q : RWorld → result string A → Prop) :
  Effects P m → (∀ w' r, extends P w w' → Q w' r) → runs m w Q.
Proof. intros Hm HQ. by apply HQ. Qed.
Lemma runs_ret {A} (a : A) w (Q : RWorld → result string A → Prop) : Q w (Ok a) → runs (mret a) w Q.
Proof. done. Qed.
Lemma runs_lift {A} (r : result string A) w (Q : RWorld → result string A → Prop) : Q w r → runs (stm_lift r) w Q.
Proof. done. Qed.
Lemma runs_weaken {A} (m : RM A) w (Q Q' : RWorld → result string A → Prop) :
  runs m w Q → (∀ w' r, Q w' r → Q' w' r) → runs m w Q'.
Proof. intros Hm HQ. by apply HQ. Qed.

(** ** A calm outside, for concrete runs. *)

Definition ex_rconfig : RConfig :=
  MkRConfig (MkConfig "omp" "/repo" "build" "run" 42 "omp.pending-dispatch" "/state" "/state/heartbeat" "File exists")
    "br" "ntm" "am" "ompo" "reap" "Moss" 60 30 "/tmp" "/state/subagents.json".
Definition ex_call : CallEnv := MkCallEnv 10 None 10 None None None None None None None None.
(** Every command exits with success and the given output; nothing fails. *)
Definition calm_env (run : list Effect → RunAnswer) (instant : list Effect → N) : Env := {|
  e_cfg := ex_rconfig; e_run := run; e_cancelled := λ _, false; e_now := λ t, N.of_nat (length t); e_instant := instant;
  e_hb := λ _, MkHbEnv 10 None None None DecisionLedger.calm;
  e_call := λ _, ex_call; e_stage := λ _, None; e_marker_fault := λ _, false; e_issues := λ _, None;
  e_ledger_fault := λ _, None; e_pane_map := λ _, None;
  e_sender := λ _, Ok ("FROM: a" +:+ lf_str +:+ "REPLY-VIA: b" +:+ lf_str);
  e_agents := λ _, Ok ["Moss"]; e_registry := λ _, Ok "[]"; e_invoker := Scheduled |}.
Definition ex_world : RWorld := MkR [] (MkWorld ∅ "" None) None IncarnationMint_new ∅.
