(* ===== verification/Transport.v ===== *)
(** * Sending through NTM, and its durable receipt

    omp-orchestrator/src/resident.rs: the send command answers at once, and a second
    command reads the durable record of the operation back; only a record of this very
    operation, packet and pane is accepted. *)

From stdpp Require Import base numbers list option strings gmap.
From Stdlib Require Import NArith ZArith Ascii Lia.
From S2P Require Import Prelude RustStr Utf8 Json DecisionLedger ClaimFence PaneFence Lifecycle LifeLedger.
From S2P Require Import TickMonitor Receipt AckStage Pending Packet Activity Resident.

Local Open Scope rust_scope.

Record NtmSendAdmission := MkSendAdmission { sa_target : string; sa_state : string }.
Record NtmSendReceipt := MkSendReceipt {
  sr_raw : string; sr_operation : string; sr_status : string; sr_sha256 : string; sr_bytes : N;
  sr_admissions : list NtmSendAdmission; sr_successful : list string; sr_failed : list string }.

Definition malformed (field reason : string) : string :=
  "NTM_SEND_RECEIPT_MALFORMED field=" +:+ field +:+ " reason=" +:+ reason.

Definition receipt_string (object : list (string * Json)) (field : string) : result string string :=
  match map_get field object with
  | Some (JString v) => if is_empty v then Err (malformed field "empty") else Ok v
  | Some _ => Err (malformed field "wrong_type")
  | None => Err (malformed field "missing")
  end.

Definition receipt_strings (object : list (string * Json)) (field : string) : result string (list string) :=
  value ← ok_or (map_get field object) (malformed field "missing");
  values ← ok_or (as_array value) (malformed field "wrong_type");
  collect (λ v, ok_or (as_str v) (malformed field "wrong_item_type")) values.

Definition receipt_failure (code : option Z) (error_code message stderr : string) : string :=
  "NTM_SEND_RECEIPT_FAILED exit=" +:+ exit_label code +:+ " error_code=" +:+ error_code
  +:+ " message=" +:+ message +:+ " stderr=" +:+ trim (utf8_lossy stderr).

Definition send_admission (v : Json) : result string NtmSendAdmission :=
  a ← ok_or (as_object v) (malformed "operation.admissions" "wrong_item_type");
  target ← receipt_string a "target";
  st ← receipt_string a "state";
  Ok (MkSendAdmission target st).

Definition lower_hex (s : string) : bool := all_bytes (λ c, is_ascii_digit c || byte_in 97 102 c) s.

Section Transport.
Context `{SerdeJson, ToJson, Unicode, Host}.

Definition parse_ntm_send_receipt (code : option Z) (stdout stderr : string) : result string NtmSendReceipt :=
  let failure c m := receipt_failure code c m stderr in
  guard! utf8_valid stdout else failure "INVALID_UTF8" "receipt stdout is not UTF-8";
  value ← ok_or (from_str stdout) (failure "INVALID_JSON" ("receipt stdout is invalid JSON: " +:+ host_json_error stdout));
  object ← ok_or (as_object value) (failure "NOT_AN_OBJECT" "receipt response is not a JSON object");
  let text k d := default d (map_get k object ≫= as_str) in
  guard! bool_decide (code = Some 0%Z) else failure (text "error_code" "UNKNOWN") (text "error" "missing daemon error message");
  guard! bool_decide ((map_get "success" object ≫= as_bool) = Some true) else
    failure (text "error_code" "UNSUCCESSFUL") (text "error" "receipt response did not report success");
  operation ← ok_or (map_get "operation" object ≫= as_object) (malformed "operation" "missing");
  outcome ← ok_or (map_get "outcome" object ≫= as_object) (malformed "outcome" "missing");
  guard! bool_decide ((map_get "success" outcome ≫= as_bool) = Some true) else malformed "outcome.success" "not_true";
  values ← ok_or (map_get "admissions" operation ≫= as_array) (malformed "operation.admissions" "missing_or_wrong_type");
  guard! negb (bool_decide (length values = 0%nat)) else malformed "operation.admissions" "empty";
  admissions ← collect send_admission values;
  sha ← receipt_string operation "payload_sha256";
  guard! (String.length sha =? 64)%nat && lower_hex sha else malformed "operation.payload_sha256" "not_lower_hex_sha256";
  bytes ← ok_or (map_get "payload_bytes" operation ≫= as_u64) (malformed "operation.payload_bytes" "missing_or_wrong_type");
  op ← receipt_string operation "operation_id";
  st ← receipt_string operation "status";
  ok ← receipt_strings outcome "successful";
  bad ← receipt_strings outcome "failed";
  Ok (MkSendReceipt stdout op st sha bytes admissions ok bad).

Definition ntm_operation_id_component (value : string) : string :=
  concat_chars (map (λ ch, if is_char_of is_ascii_alnum ch then ch else "-") (chars value)).
Definition ntm_send_operation_id (run_id bead pane : string) (tick : N) : string :=
  "omp-ntm-send-" +:+ ntm_operation_id_component run_id +:+ "-" +:+ show_N tick +:+ "-"
  +:+ ntm_operation_id_component pane +:+ "-" +:+ ntm_operation_id_component bead.
Definition ntm_send_args (session pane staged operation_id : string) : list string :=
  [ntm_send_arg session; "--panes=" +:+ pane; "--msg-file=" +:+ staged; "--op-id=" +:+ operation_id].
Definition ntm_send_receipt_args (operation_id : string) : list string :=
  ["--robot-send-receipt=" +:+ operation_id].

Definition without_percent : string → string := trim_start_matches (is_char "%").
Definition ntm_target_matches (target pane : string) : bool :=
  bool_decide (target = pane) || bool_decide (without_percent target = without_percent pane).

Definition refused (reason : string) : string := "NTM_SEND_RECEIPT_REFUSED reason=" +:+ reason.

Definition validate_ntm_send_receipt (r : NtmSendReceipt) (operation_id packet pane : string) : result string unit :=
  guard! bool_decide (sr_operation r = operation_id) else
    refused ("operation_id_mismatch expected=" +:+ operation_id +:+ " got=" +:+ sr_operation r);
  guard! bool_decide (sr_status r = "completed") else refused ("operation_not_completed status=" +:+ sr_status r);
  let sha := host_sha256 packet in
  guard! bool_decide (sr_sha256 r = sha) else
    refused ("payload_digest_mismatch expected=" +:+ sha +:+ " got=" +:+ sr_sha256 r);
  let len := N.of_nat (String.length packet) in
  guard! (sr_bytes r =? len)%N else
    refused ("payload_bytes_mismatch expected=" +:+ show_N len +:+ " got=" +:+ show_N (sr_bytes r));
  a ← ok_or (find_first (λ a, ntm_target_matches (sa_target a) pane) (sr_admissions r))
        (refused ("target_admission_missing pane=" +:+ pane));
  guard! bool_decide (sa_state a = "submitted") else
    refused ("target_not_submitted pane=" +:+ pane +:+ " state=" +:+ sa_state a);
  guard! existsb (λ t, ntm_target_matches t pane) (sr_successful r) else refused ("target_not_successful pane=" +:+ pane);
  guard! negb (existsb (λ t, ntm_target_matches t pane) (sr_failed r)) else refused ("target_failed pane=" +:+ pane);
  Ok tt.

Context (env : Env).
Notation cfg := (e_cfg env).

Definition query_ntm_send_receipt (operation_id pane : string) : RM NtmSendReceipt :=
  let pre := "NTM_SEND_RECEIPT_REFUSED pane=" +:+ pane +:+ " operation_id=" +:+ operation_id in
  o ← rename_error (λ e, pre +:+ " error=" +:+ e) (invoke env (rc_ntm cfg) (ntm_send_receipt_args operation_id));
  stm_lift (map_err (λ e, pre +:+ " " +:+ e) (parse_ntm_send_receipt (o_code o) (o_stdout o) (o_stderr o))).

Definition ntm_receipt_detail (pane bead : string) (r : NtmSendReceipt) : Json :=
  jobj [("bead", JString bead); ("pane", JString pane); ("operation_id", JString (sr_operation r));
        ("status", JString (sr_status r)); ("payload_sha256", JString (sr_sha256 r));
        ("payload_bytes", JNumber (PosInt (sr_bytes r)));
        ("admissions", JArray (map (λ a, jobj [("target", JString (sa_target a)); ("state", JString (sa_state a))])
                                 (sr_admissions r)));
        ("successful", JArray (map JString (sr_successful r))); ("failed", JArray (map JString (sr_failed r)));
        ("raw_json", JString (sr_raw r))].
Definition write_ntm_send_receipt (tick : N) (pane bead : string) (r : NtmSendReceipt) : RM unit :=
  beat env tick "NTM_SEND_RECEIPT_RECORDED" (to_string (ntm_receipt_detail pane bead r)).

Definition send_ntm_with_receipt (pane bead packet staged : string) (tick : N) : RM TransportReceipt :=
  let operation_id := ntm_send_operation_id (lifecycle_run_id env) bead pane tick in
  o ← invoke env (rc_ntm cfg) (ntm_send_args (cf_session cfg) pane staged operation_id);
  stdout ← stm_lift (require_success (rc_ntm cfg) o);
  transport ← stm_lift (map_err (λ e, "DISPATCH_BLOCKED bead=" +:+ bead +:+ " malformed ntm receipt: " +:+ transport_error_display e)
                          (capture_ntm utf8_valid host_json_error stdout));
  durable ← query_ntm_send_receipt operation_id pane;
  _ ← stm_lift (map_err (λ e, "DISPATCH_BLOCKED bead=" +:+ bead +:+ " pane=" +:+ pane +:+ " " +:+ e)
                  (validate_ntm_send_receipt durable operation_id packet pane));
  _ ← write_ntm_send_receipt tick pane bead durable;
  mret transport.
End Transport.

(** ** What an accepted send rests on. *)

(** The durable record names this operation, completed, with this packet's digest and
    length; the first admission for the pane was submitted, and the pane is among the
    successful targets and not among the failed ones. *)
Record receipt_of `{Host} (r : NtmSendReceipt) (operation_id packet pane : string) : Prop := {
  ro_operation : sr_operation r = operation_id;
  ro_status : sr_status r = "completed";
  ro_digest : sr_sha256 r = host_sha256 packet;
  ro_bytes : sr_bytes r = N.of_nat (String.length packet);
  ro_admission : ∃ a, find_first (λ a, ntm_target_matches (sa_target a) pane) (sr_admissions r) = Some a ∧ sa_state a = "submitted";
  ro_successful : ∃ t, t ∈ sr_successful r ∧ ntm_target_matches t pane = true;
  ro_failed : ∀ t, t ∈ sr_failed r → ntm_target_matches t pane = false }.

Lemma validate_iff `{Host} r op packet pane :
  validate_ntm_send_receipt r op packet pane = Ok tt ↔ receipt_of r op packet pane.
Proof.
  unfold validate_ntm_send_receipt. split.
  - repeat case_bool_decide; try done. destruct (N.eqb_spec (sr_bytes r) (N.of_nat (String.length packet))); [|done].
    destruct (find_first _ _) as [a|] eqn:Ha; cbn; [|done]. case_bool_decide; [|done].
    destruct (existsb _ (sr_successful r)) eqn:Hs; [|done]. destruct (existsb _ (sr_failed r)) eqn:Hf; [done|]. intros _.
    apply existsb_exists in Hs as (t & Ht & Hm). rewrite existsb_false_Forall, Forall_forall in Hf.
    split; eauto. exists t. by rewrite list_elem_of_In.
  - intros [-> -> -> -> (a & -> & Ha) (t & Ht & Hm) Hf]. rewrite !bool_decide_true, N.eqb_refl by done. cbn.
    rewrite bool_decide_true by done.
    assert (existsb (λ t, ntm_target_matches t pane) (sr_successful r) = true) as ->.
    { apply existsb_exists. exists t. by rewrite <-list_elem_of_In. }
    assert (existsb (λ t, ntm_target_matches t pane) (sr_failed r) = false) as ->; [|done].
    apply existsb_false_Forall, Forall_forall. eauto.
Qed.

Section Accepted.
Context `{SerdeJson, ToJson, Unicode, Host} (env : Env).
Notation cfg := (e_cfg env).

(** C16: a send through NTM is accepted only when the send command succeeded, a second
    command read the durable record of this very operation back, the record names this
    operation, packet and pane as submitted and successful, and the heartbeat ledger took
    the row that holds it, the last thing the send does. *)
Theorem ntm_send_accepted pane bead packet staged tick w :
  runs (send_ntm_with_receipt env pane bead packet staged tick) w (λ w' r, ∀ t, r = Ok t →
    let op := ntm_send_operation_id (lifecycle_run_id env) bead pane tick in
    ∃ ws o wr durable,
      invoke env (rc_ntm cfg) (ntm_send_args (cf_session cfg) pane staged op) w = (ws, Ok o) ∧ o_code o = Some 0%Z ∧
      capture_ntm utf8_valid host_json_error (o_stdout o) = Ok t ∧
      query_ntm_send_receipt env op pane ws = (wr, Ok durable) ∧ receipt_of durable op packet pane ∧
      r_trace w' = EBeat "NTM_SEND_RECEIPT_RECORDED" (to_string (ntm_receipt_detail pane bead durable)) true :: r_trace wr).
Proof.
  unfold runs. destruct (send_ntm_with_receipt _ _ _ _ _ _ w) as [w' r] eqn:Hr. cbn [fst snd]. intros t ->.
  revert Hr. unfold send_ntm_with_receipt. set (op := ntm_send_operation_id _ _ _ _).
  rewrite stm_bind_ok. intros (ws & o & Hsend & Hr). revert Hr.
  rewrite stm_bind_ok. intros (w1 & stdout & [-> Hok]%stm_lift_ok & Hr). revert Hr.
  rewrite stm_bind_ok. intros (w2 & t' & [-> Hcap]%stm_lift_ok & Hr). revert Hr.
  rewrite stm_bind_ok. intros (wr & durable & Hq & Hr). revert Hr.
  rewrite stm_bind_ok. intros (w3 & [] & [-> Hv]%stm_lift_ok & Hr). revert Hr.
  rewrite stm_bind_ok. intros (w4 & [] & Hbeat & [= <- ->]).
  unfold require_success in Hok. destruct (success o) eqn:Hs; [|done]. injection Hok as <-.
  exists ws, o, wr, durable. split_and!.
  - done.
  - unfold success in Hs. by apply bool_decide_eq_true in Hs.
  - destruct (capture_ntm _ _ _); cbn in Hcap; congruence.
  - done.
  - apply validate_iff. by destruct (validate_ntm_send_receipt _ _ _ _) as [[]|].
  - by apply beat_traced in Hbeat.
Qed.
End Accepted.
