(* ===== verification/Receiver.v ===== *)
(** * Watching the receiver of a packet

    omp-orchestrator/src/resident.rs: the reads between a send and its verdict.  Is the
    pane a Codex pane, what does it show, which output does the producer attest, and
    which acknowledgement does the tracker hold.  A read that fails leaves no
    observation, never a favourable one. *)

From stdpp Require Import base numbers list option strings gmap.
From Stdlib Require Import NArith ZArith Ascii Lia.
From S2P Require Import Prelude RustStr Utf8 Json DecisionLedger ClaimFence PaneFence Lifecycle LifeLedger.
From S2P Require Import TickMonitor Receipt AckStage Pending Packet Activity Resident Transport.

Section Receiver.
Context `{SerdeJson, ToJson, Unicode, Host} (env : Env).
Notation cfg := (e_cfg env).

Definition capture_pane (pane : string) : RM string :=
  run_ok env (TMUX +:+ " " +:+ CAPTURE_PANE) TMUX [CAPTURE_PANE; "-p"; "-t"; pane; "-S"; "-14"].

Definition receiver_is_codex (pane : string) : RM bool :=
  bytes ← run_ok env "tmux display-message" TMUX ["display-message"; "-p"; "-t"; pane; "#{pane_title}"];
  let title := to_ascii_lowercase (trim (utf8_lossy bytes)) in
  mret (contains title "__cod_" || contains title "codex").

(** The identity of the pane's output: exactly one row must come back, with an identity. *)
Definition identity_of (pane text : string) : result string OutputSequence :=
  match parse_activity_json host_json_error text with
  | Err EmptyAgents => Err ("IDENTITY_ROW_ABSENT pane=" +:+ pane +:+ " rows=0")
  | Err e => Err ("IDENTITY_ROW_PARSE_REFUSED pane=" +:+ pane +:+ " detail=" +:+ activity_error_display e)
  | Ok [] => Err ("IDENTITY_ROW_ABSENT pane=" +:+ pane +:+ " rows=0")
  | Ok [agent] =>
      map_err (λ e, "IDENTITY_ROW_IDENTITY_MISSING pane=" +:+ pane +:+ " detail=" +:+ activity_error_display e)
        (output_identity agent)
  | Ok _ => Err ("IDENTITY_ROW_KEY_MISMATCH pane=" +:+ pane +:+ " expected=one-server-selected-row")
  end.
Definition ntm_output_identity (pane : string) : RM OutputSequence :=
  bytes ← run_ok env "ntm robot-activity" (rc_ntm cfg)
            ["--robot-activity=" +:+ cf_session cfg; "--panes"; pane];
  stm_lift (identity_of pane (utf8_lossy bytes)).

Definition observe (pane text : string) (t : N) (i : OutputSequence) : Observation :=
  observe_capture host_hash pane text t (os_epoch i) (os_sequence i) (os_changed_at i).

Definition pane_ids_of (text : string) : list string :=
  List.filter (λ i, negb (is_empty i)) (map trim (lines text)).
Definition list_panes_args : list string := ["list-panes"; "-t"; cf_session cfg; "-F"; "#{pane_id}"].

(** What the pane shows after a send, with the captured text; only a Codex pane is read. *)
Definition post_send_observation (pane : string) (codex : bool) : RM (PostSendObservation * option string) :=
  if negb codex then mret (PostMissing, None)
  else
    list_out ← attempt (run_ok env "tmux list-panes" TMUX list_panes_args);
    match list_out with
    | Err _ => mret (PostMissing, None)
    | Ok bytes =>
        let ids := pane_ids_of (utf8_lossy bytes) in
        if bool_decide (ids = []) then mret (PostEmptyPaneList, None)
        else if negb (existsb (λ i, bool_decide (i = pane)) ids) then mret (PostAbsent, None)
        else
          capture ← attempt (capture_pane pane);
          match capture with
          | Err _ => mret (PostMissing, None)
          | Ok bytes =>
              let text := utf8_lossy bytes in
              t ← now_unix env;
              identity ← attempt (ntm_output_identity pane);
              match identity with
              | Err _ => mret (PostMissing, Some text)
              | Ok i => mret (PostPresent (observe pane text t i), Some text)
              end
          end
    end.

(** The session's panes, for scoping an acknowledgement; the pane itself when unreadable. *)
Definition session_panes (pane : string) : RM (list string) :=
  out ← attempt (run_ok env "tmux list-panes" TMUX list_panes_args);
  mret (match out with Ok bytes => pane_ids_of (utf8_lossy bytes) | Err _ => [pane] end).

(** The time the marker was written at, read at [base.with_extension(pane)]. *)
Definition marker_name (pane : string) : string :=
  with_extension (trim_start_matches (is_char "%") pane) (cf_base cfg).
Definition dispatch_marker_issued_at (pane : string) : RM (option N) := λ w,
  (w, Ok (if e_marker_fault env (r_trace w) then None
          else text ← markers (r_pend w) !! marker_name pane;
               value ← from_str (trim text);
               json_get "issued_at" value ≫= as_u64)).

Definition read_ack_readback (bead pane : string) : RM AckReadback :=
  bytes ← run_ok env "br comments list" (rc_br cfg) ["comments"; "list"; bead; "--json"];
  readback ← stm_lift (map_err
     (λ e, "ACK_STAGE_INDETERMINATE bead=" +:+ bead +:+ " pane=" +:+ pane +:+ " comment read-back: "
           +:+ readback_error_display e)
     (from_comments_json_pending host_json_error bead pane bytes));
  issued ← dispatch_marker_issued_at pane;
  mret (match issued with Some t => with_dispatch_issued_at readback t | None => readback end).
End Receiver.

(** ** The marker of a pane is not where the acknowledgement's age is looked up. *)

Section Marker.
Context `{SerdeJson, ToJson, Unicode, Host} (env : Env).
Notation cfg := (e_cfg env).

Lemma marker_name_misses b e pane q :
  cf_base cfg = b +:+ "." +:+ e → b ≠ EmptyString → no_byte "." e →
  no_byte "." (without_percent pane) → without_percent pane ≠ e →
  marker_name env pane ≠ pending_dispatch_path cfg q.
Proof.
  intros Hbase Hb He Hdot Hne. unfold marker_name, pending_dispatch_path. rewrite Hbase.
  rewrite with_extension_dot by done.
  destruct (is_empty (pane_slug q)); [by intros ?%str_app_inj_l%str_app_inj_l|].
  rewrite <-!str_app_assoc. intros Hx%str_app_inj_l%str_app_inj_l. revert Hdot.
  unfold without_percent in *. unfold no_byte. rewrite Hx, !all_bytes_app. cbn. by rewrite andb_false_r.
Qed.

(** when the marker's name has an extension, and the pane's number is neither that
    extension nor dotted, the time of the dispatch is never found among the markers the
    dispatches write: the pane's marker is [base.pane], and [stem.pane] is read. *)
Theorem marker_never_read b e pane w :
  cf_base cfg = b +:+ "." +:+ e → b ≠ EmptyString → no_byte "." e →
  no_byte "." (without_percent pane) → without_percent pane ≠ e →
  (∀ name, is_Some (markers (r_pend w) !! name) → ∃ q, name = pending_dispatch_path cfg q) →
  dispatch_marker_issued_at env pane w = (w, Ok None).
Proof.
  intros Hbase Hb He Hdot Hne Hall. unfold dispatch_marker_issued_at. destruct (e_marker_fault _ _); [done|].
  destruct (markers (r_pend w) !! marker_name env pane) as [text|] eqn:Hm; [|done].
  destruct (Hall _ (mk_is_Some _ _ Hm)) as [q Hq]. by apply marker_name_misses with (1 := Hbase) in Hq.
Qed.
End Marker.

(** The marker of the pane [%7] is there, written at 5, and no time is found. *)
Section Example.
#[local] Instance ex_serde : SerdeJson := λ s, if bool_decide (s = "row") then Some (JObject [("issued_at", JNumber (PosInt 5))]) else None.
Definition marked_world : RWorld :=
  MkR [] (MkWorld {[ pending_dispatch_path ex_rconfig "%7" := "row" ]} "" None) None IncarnationMint_new ∅.
Lemma marker_never_read_witness :
  from_str "row" = Some (JObject [("issued_at", JNumber (PosInt 5))]) ∧
  markers (r_pend marked_world) !! pending_dispatch_path ex_rconfig "%7" = Some "row" ∧
  dispatch_marker_issued_at (calm_env (λ _, RunTimedOut) (λ _, 0%N)) "%7" marked_world = (marked_world, Ok None).
Proof.
  split_and!; [reflexivity..|].
  apply (marker_never_read (calm_env (λ _, RunTimedOut) (λ _, 0%N)) "omp" "pending-dispatch"); [reflexivity|done|reflexivity..|done|].
  cbn [marked_world r_pend markers]. intros name [x Hx]. exists "%7". by apply lookup_singleton_Some in Hx as [<- _].
Defined.
End Example.
