(* ===== verification/Preflight.v ===== *)
(** * Before a packet is sent: the preparation of a dispatch

    omp-orchestrator/src/resident.rs, from the bead's row to the claimed and authorized
    snapshot: the tracker is read, the receiver is named and resolved, the bead's holders
    are checked, the packet is rendered and admitted, the pane is proven idle, and the
    claim is written and read back. *)

From stdpp Require Import base numbers list option strings gmap.
From Stdlib Require Import NArith ZArith Ascii Lia.
From S2P Require Import Prelude RustStr Utf8 Json BeadHolder DecisionLedger ClaimFence PaneFence Lifecycle.
From S2P Require Import LifeLedger TickMonitor Receipt AckStage Pending Supervisor Packet Activity Resident.
From S2P Require Import Receiver.

(** ** Texts. *)

Definition verdict_str (v : WaveVerdict) : string :=
  match v with Autonomous => "autonomous" | Required _ => "required" | Refuse _ => "refuse" end.
Definition approval_debug (k : ApprovalKind) : string :=
  match k with Spend => "Spend" | Credentials => "Credentials" | Deploy => "Deploy" | GateWeaken => "GateWeaken" end.
Definition refusal_debug (r : Refusal) : string :=
  match r with
  | PaneNotDispatchable => "PaneNotDispatchable" | FindingWithoutBead => "FindingWithoutBead"
  | PacketIncomplete => "PacketIncomplete" | SingleCaptureLiveness => "SingleCaptureLiveness"
  | UnknownAction => "UnknownAction"
  end.
Definition not_approved_debug (e : NotApproved) : string :=
  match e with
  | NeedsApproval k => "Required { kind: " +:+ approval_debug k +:+ " }"
  | Refused r => "Refused { reason: " +:+ refusal_debug r +:+ " }"
  end.
Definition bool_str (b : bool) : string := if b then "true" else "false".
Definition blocked_on (bead pane rest : string) : string :=
  "DISPATCH_BLOCKED bead=" +:+ bead +:+ " pane=" +:+ pane +:+ " " +:+ rest.

(** ** Assignees that name a pane. *)

Definition assignee_part (key assignee : string) : option string :=
  head (omap (strip_prefix key) (split_char ";" assignee)).
Definition tracker_assignee_agent (assignee : string) : option string :=
  a ← assignee_part "agent=" assignee; if is_empty a then None else Some a.
Definition tracker_assignee_pane : string → option string := assignee_pane.

Definition tracker_assignee_with_composite (composite : bool) (receiver_agent pane : string)
    (incarnation : PaneIncarnation) : result string string :=
  if negb composite then Ok receiver_agent
  else if is_empty (trim pane) || negb (starts_with pane "%")
  then Err ("ASSIGNEE_UNRESOLVABLE pane=" +:+ pane +:+ " reason=pane_not_a_tmux_id")
  else if is_empty (trim receiver_agent) then Err "ASSIGNEE_UNRESOLVABLE agent= reason=receiver_agent_empty"
  else Ok ("pane=" +:+ pane +:+ ";incarnation=" +:+ show_N (PaneFence.get incarnation) +:+ ";agent=" +:+ receiver_agent).

(** ** Statuses and captures at the moment of sending. *)

Definition refuse_terminal_status_at_send (bead status : string) : result string unit :=
  if bool_decide (status = "open") || bool_decide (status = "in_progress") then Ok tt
  else Err ("DISPATCH_BLOCKED bead=" +:+ bead +:+ " reason=STALE_QUEUE_SNAPSHOT status=" +:+ status
            +:+ " next_action=skip-closed-bead").

Record AtSendCapture := MkCapture {
  as_status : string; as_assignee : string; as_has_acceptance : bool; as_filed_only : bool }.
Definition capture_of (s : BeadSnapshot) : AtSendCapture :=
  MkCapture (status_label s) (default "" (assignee s)) (has_typed_acceptance s)
    (contains (to_ascii_lowercase (description s)) "filed only").
Definition capture_detail (c : AtSendCapture) (bead pane : string) : string :=
  "bead=" +:+ bead +:+ " pane=" +:+ pane +:+ " at_send_status=" +:+ as_status c +:+ " at_send_assignee="
  +:+ (if is_empty (as_assignee c) then "none" else as_assignee c)
  +:+ " at_send_has_acceptance=" +:+ bool_str (as_has_acceptance c)
  +:+ " at_send_filed_only=" +:+ bool_str (as_filed_only c).

Inductive AlignmentClass := APass | AFail | AUnknownAlignment.
Definition alignment_label (a : AlignmentClass) : string :=
  match a with APass => "PASS" | AFail => "FAIL" | AUnknownAlignment => "UNKNOWN" end.
Definition classify_send_alignment (detail : string) : AlignmentClass :=
  match field_after detail "at_send_status=", field_after detail "at_send_assignee=",
        field_after detail "at_send_has_acceptance=", field_after detail "at_send_filed_only=" with
  | Some status, Some who, Some acc, Some fld =>
      if negb (bool_decide (who = "none")) && negb (is_empty who) && bool_decide (acc = "true")
         && negb (existsb (λ t, bool_decide (status = t)) ["closed"; "blocked"; "tombstone"])
         && bool_decide (fld = "false")
      then APass else AFail
  | _, _, _, _ => AUnknownAlignment
  end.
Definition classify_alignment_window (details : list string) : result string (list AlignmentClass) :=
  match details with
  | [] => Err "ALIGNMENT_SCAN_EMPTY -- an empty send window is an ERROR, never a pass"
  | _ => Ok (map classify_send_alignment details)
  end.

(** ** The claim state in the tracker's answer. *)

Section Preflight.
Context `{SerdeJson, ToJson, Unicode, BrShowDecode, Host} (env : Env).
Notation cfg := (e_cfg env).

(** Unreadable bytes are left to the parser of the snapshot. *)
Definition claim_state_finding (show bead : string) : option StateFinding :=
  value ← from_str show;
  row ← match value with JArray rows => head rows | other => Some other end;
  status ← json_get "status" row ≫= as_str;
  classify_state bead status (default "" (json_get "assignee" row ≫= as_str)).
Definition refuse_illegal_claim_state (show bead : string) : result string unit :=
  match claim_state_finding show bead with
  | Some f => Err ("DISPATCH_BLOCKED " +:+ finding_display f)
  | None => Ok tt
  end.
Definition load_bead_snapshot (bead : string) : RM BeadSnapshot :=
  show ← run_ok env (rc_br cfg) (rc_br cfg) ["show"; bead; "--json"];
  _ ← stm_lift (refuse_illegal_claim_state show bead);
  stm_lift (map_err (λ e, "DISPATCH_BLOCKED bead=" +:+ bead +:+ " " +:+ parse_error_display e) (parse_br_show_json show)).

(** ** Registries. *)

Definition registry_error (rest : string) : string :=
  "IDENTITY_REGISTRY_UNAVAILABLE checked=agent_mail,subagents missing=subagents path=" +:+ rc_registry_path cfg
  +:+ " error=" +:+ rest.
Definition trimmed_field (o : option Json) : option string :=
  s ← o ≫= as_str; nonempty s.
Definition subagent_entry (index : N) (row : Json) : result string IdentityRecord :=
  object ← ok_or (as_object row) (registry_error ("entry_" +:+ show_N index +:+ "_not_object"));
  name ← ok_or (trimmed_field (map_get "name" object)) (registry_error ("entry_" +:+ show_N index +:+ "_name_missing"));
  actor ← ok_or (trimmed_field (match map_get "actor_id" object with Some v => Some v | None => map_get "id" object end))
            (registry_error ("entry_" +:+ show_N index +:+ "_actor_id_missing"));
  Ok (subagent_record name actor).
Definition load_subagent_identity_records (file : result string string) : result string (list IdentityRecord) :=
  text ← map_err registry_error file;
  value ← ok_or (from_str text) (registry_error ("invalid_json:" +:+ host_json_error text));
  rows ← ok_or (match value with
                | JArray rows => Some rows
                | JObject o => map_get "subagents" o ≫= as_array
                | _ => None
                end) (registry_error "expected_array_or_subagents_array");
  collect (λ ir, subagent_entry ir.1 ir.2) (enumerate 0 rows).
Definition load_identity_registries : RM IdentityRegistries :=
  t ← trace_of;
  names ← stm_lift (map_err (λ e, "IDENTITY_REGISTRY_UNAVAILABLE checked=agent_mail,subagents missing=agent_mail error=" +:+ e)
                      (e_agents env t));
  subagents ← stm_lift (load_subagent_identity_records (e_registry env t));
  mret (MkRegistries (map (λ n, agent_mail_record n n) names) subagents).

Definition ensure_dispatch_receiver_identity (ids : IdentityRegistries) (bead pane receiver : string) : result string unit :=
  _ ← map_err (λ e, blocked_on bead pane ("reason=" +:+ identity_error_display e +:+ " receiver_agent=" +:+ receiver))
        (resolve ids receiver);
  Ok tt.

(** ** Who receives. *)

(** The contract's table: the pane in the second column, the agent in the third. *)
Definition pane_row (pane line : string) : option string :=
  match map trim (split_char "|" line) with
  | _ :: p :: a :: _ =>
      if bool_decide (p = "`" +:+ pane +:+ "`")
      then let a := trim (trim_matches (is_char "*") a) in if is_empty a then None else Some a
      else None
  | _ => None
  end.
Definition agent_for_pane (contract : option string) (pane : string) : option string :=
  text ← contract; head (omap (pane_row pane) (lines text)).

Definition receiver_agent_for_dispatch (contract : option string) (pane bead : string) (s : BeadSnapshot)
    : result string string :=
  let missing := blocked_on bead pane "receiver agent is missing owner=josh next_action=claim-bead" in
  if negb (is_empty (trim (rc_receiver_agent cfg))) then Ok (trim (rc_receiver_agent cfg))
  else match (a ← agent_for_pane contract pane; _ ← nonempty a; Some a) with
       | Some agent => Ok agent
       | None =>
           match assignee s with
           | Some who =>
               match tracker_assignee_agent who with
               | Some agent => Ok agent
               | None => if negb (is_empty (trim who)) && negb (starts_with who "supervisor:") then Ok who
                         else Err missing
               end
           | None => Err missing
           end
       end.

Definition validate_receiver_pane (contract : option string) (pane bead receiver : string) : result string unit :=
  match agent_for_pane contract pane with
  | Some mapped =>
      if bool_decide (mapped = receiver) then Ok tt
      else Err (blocked_on bead pane ("receiver_agent=" +:+ receiver +:+ " mapped_agent=" +:+ mapped
                  +:+ " owner=josh next_action=select-matching-pane"))
  | None =>
      if is_empty (trim (rc_receiver_agent cfg))
      then Err (blocked_on bead pane ("receiver_agent=" +:+ receiver +:+ " owner=josh next_action=configure-pane-agent-map"))
      else Ok tt
  end.

(** ** Authorization of the claimed snapshot. *)

Definition claim_authorization (bead claim_owner receiver_agent : string) (s : BeadSnapshot) (ids : IdentityRegistries)
    : result ClaimFenceError DispatchPermit :=
  let resolved who permit := _ ← map_err AssigneeIdentity (resolve ids who); Ok permit in
  match tracker_assignee_agent claim_owner with
  | Some claim_identity =>
      let canonical := new_with_acceptance (id s) (title s) (description s) (acceptance_criteria s) (status_label s)
                         (Some claim_owner) in
      permit ← ClaimFence.authorize (Bead bead claim_owner) (Some canonical);
      resolved (if bool_decide (claim_identity = receiver_agent) then claim_identity else receiver_agent) permit
  | None =>
      if bool_decide (claim_owner = receiver_agent)
      then authorize_with_identities (Bead bead claim_owner) (Some s) ids
      else permit ← ClaimFence.authorize (Bead bead claim_owner) (Some s); resolved receiver_agent permit
  end.
Definition authorize_bead_dispatch_as (contract : option string) (pane bead : string) (s : BeadSnapshot)
    (claim_owner : string) (ids : IdentityRegistries) : result string string :=
  receiver_agent ← receiver_agent_for_dispatch contract pane bead s;
  match claim_authorization bead claim_owner receiver_agent s ids with
  | Ok _ => Ok receiver_agent
  | Err e => Err (blocked_on bead pane ("reason=" +:+ code e +:+ " detail=" +:+ error_display e +:+ " status="
      +:+ status_label s +:+ " assignee=" +:+ default "unassigned" (assignee s) +:+ " receiver_agent=" +:+ receiver_agent
      +:+ " claim_owner=" +:+ claim_owner +:+ " owner=josh next_action=claim-bead command=" +:+ dquote
      +:+ default "br update <bead> --assignee <agent> --status in_progress" (command e) +:+ dquote))
  end.

(** ** The claim. *)

Definition supervisor_claim_owner : string := "supervisor:" +:+ cf_session cfg.

Definition claim_bead_for_supervisor (pane bead : string) (s : BeadSnapshot) (receiver_agent : string)
    (incarnation : PaneIncarnation) (tick : N) (claim_enabled : bool) : RM (BeadSnapshot * string) :=
  let status := status_label s in
  let who := default "" (assignee s) in
  let shown := if is_empty who then "unassigned" else who in
  let required next := blocked_on bead pane ("reason=CLAIM_REQUIRED status=open assignee=" +:+ shown
        +:+ " receiver_agent=" +:+ receiver_agent +:+ " owner=josh next_action=" +:+ next) in
  let open := bool_decide (status = "open") in
  _ ← stm_require (open || bool_decide (status = "in_progress"))
        (blocked_on bead pane ("reason=BEAD_NOT_DISPATCHABLE status=" +:+ status +:+ " assignee="
           +:+ default "unassigned" (assignee s) +:+ " receiver_agent=" +:+ receiver_agent
           +:+ " owner=josh next_action=skip-closed-bead"));
  tracker_assignee ← stm_lift (map_err (λ r, blocked_on bead pane ("reason=" +:+ r +:+ " receiver_agent="
           +:+ receiver_agent +:+ " owner=josh next_action=fix-identity"))
           (tracker_assignee_with_composite true receiver_agent pane incarnation));
  let unclaimed := open && is_empty who in
  let half_claimed := open && negb (is_empty who)
      && (bool_decide (who = receiver_agent) || bool_decide (who = tracker_assignee)
          || bool_decide (tracker_assignee_agent who = Some receiver_agent)) in
  if negb open then mret (s, who)
  else
    _ ← stm_require (unclaimed || half_claimed) (required "claim-bead");
    _ ← stm_require claim_enabled (required "enable-supervisor-claim");
    let failed e := blocked_on bead pane ("reason=CLAIM_COMMAND_FAILED receiver_agent=" +:+ receiver_agent +:+ " error=" +:+ e) in
    let args := if unclaimed then ["update"; bead; "--claim"; "--actor"; tracker_assignee]
                else ["update"; bead; "--assignee"; tracker_assignee; "--status"; "in_progress"] in
    _ ← rename_error failed (run_ok env (rc_br cfg) (rc_br cfg) args);
    claimed ← load_bead_snapshot bead;
    _ ← stm_require (bool_decide (status_label claimed = "in_progress") && bool_decide (assignee claimed = Some tracker_assignee))
          (blocked_on bead pane ("reason=CLAIM_READBACK_FAILED status=" +:+ status_label claimed +:+ " assignee="
             +:+ default "unassigned" (assignee claimed) +:+ " receiver_agent=" +:+ receiver_agent
             +:+ " expected_assignee=" +:+ tracker_assignee +:+ " owner=josh next_action=inspect-claim"));
    _ ← rename_error (λ e, blocked_on bead pane ("reason=CLAIM_HEARTBEAT_FAILED receiver_agent=" +:+ receiver_agent
             +:+ " error=" +:+ e))
          (beat env tick "DISPATCH_CLAIMED" ("bead=" +:+ bead +:+ " pane=" +:+ pane +:+ " assignee=" +:+ tracker_assignee
             +:+ " receiver_agent=" +:+ receiver_agent +:+ " claim_owner=" +:+ supervisor_claim_owner));
    mret (claimed, tracker_assignee).

(** ** The packet, with the sender's header. *)

Definition packet_sender_header (formatted : result string string) : result string string :=
  header ← formatted;
  if negb (starts_with header "FROM:")
     || negb (match lines header with _ :: second :: _ => starts_with second "REPLY-VIA:" | _ => false end)
  then Err "SENDER_IDENTITY_REFUSED reason=malformed_header" else Ok header.
Definition render_packet_with_sender (s : BeadSnapshot) (pane receiver_agent why_now traps : option string) : RM string :=
  t ← trace_of;
  header ← stm_lift (packet_sender_header (e_sender env t));
  packet ← stm_lift (map_err (λ e, "DISPATCH_PACKET_REFUSED bead=" +:+ id s +:+ " pane=" +:+ default "<none>" pane
                                   +:+ " error=" +:+ packet_error_display e)
                       (render_with_pane (e_issues env t) s (cf_repo cfg) pane receiver_agent why_now traps));
  mret (header +:+ packet).

(** ** The preflight. *)

Definition proven_label (liveness : string) : bool :=
  bool_decide (liveness = "CONFIRMED_IDLE") || bool_decide (liveness = "NEWLY_IDLE").
Definition dispatch_intent (p : PaneObservation) (packet bead : string) : Intent :=
  MkIntent DispatchPacket (Supervisor.is_dispatchable p) (proven_label (Supervisor.pane_liveness p))
    (packet_is_complete packet) (negb (is_empty (trim bead))).
Definition authorize_dispatch_preflight (p : PaneObservation) (packet bead pane : string) : result string unit :=
  let intent := dispatch_intent p packet bead in
  let wave := Lifecycle.classify intent in
  _ ← map_err (λ e, "DISPATCH_PREFLIGHT_REFUSED bead=" +:+ bead +:+ " pane=" +:+ pane +:+ " verdict="
         +:+ verdict_str (verdict wave) +:+ " reason=" +:+ not_approved_debug e +:+ " pane_dispatchable="
         +:+ bool_str (pane_dispatchable intent) +:+ " two_captures=" +:+ bool_str (two_captures intent)
         +:+ " packet_complete=" +:+ bool_str (packet_complete intent))
        (Lifecycle.authorize wave);
  Ok tt.

Definition admit_packet (tick : N) (bead pane : string) (count : N) (a : PacketAdmission) : RM unit :=
  let refuse rest := stm_fail ("ADMISSION_REFUSED bead=" +:+ bead +:+ " pane=" +:+ pane +:+ " packet_class="
        +:+ class_str (packet_class a) +:+ rest) in
  match adm_verdict a with
  | Allowed => mret tt
  | Degraded c g =>
      beat env tick "ADMISSION_DEGRADED" ("admission=degraded packet_class=" +:+ class_str (packet_class a)
        +:+ " refused_class=" +:+ class_str c +:+ " naming_gate=" +:+ g +:+ " admitted_pane_count=" +:+ show_N count
        +:+ " reason=" +:+ adm_reason a)
  | ARefused => refuse (" gate=docs-stale reason=" +:+ adm_reason a)
  | AUnknown => refuse " reason=unknown-admission"
  end.

Definition prepare_bead_dispatch (pane : string) (p : PaneObservation) (bead : string) (ids : IdentityRegistries)
    (tick : N) (claim_enabled : bool) (hold : HoldIntent) (docs_fresh degraded_authorized : bool) (count : N)
    : RM (BeadSnapshot * string * PacketAdmission) :=
  initial ← load_bead_snapshot bead;
  t ← trace_of;
  receiver_agent ← stm_lift (receiver_agent_for_dispatch (e_pane_map env t) pane bead initial);
  _ ← stm_lift (ensure_dispatch_receiver_identity ids bead pane receiver_agent);
  _ ← stm_lift (validate_receiver_pane (e_pane_map env t) pane bead receiver_agent);
  w ← stm_get;
  in_flight ← stm_lift (map_err (λ e, blocked_on bead pane ("reason=LIFECYCLE_LEDGER_UNREADABLE error=" +:+ lf_error_display e))
                          (in_flight_for_bead (e_ledger_fault env t) (r_ledger w) bead));
  _ ← stm_lift (map_err (λ e, blocked_on bead pane ("reason=" +:+ cross_pane_display e
                                +:+ " owner=josh next_action=wait-for-reap-or-abandon"))
                  (admit_with_intent hold bead pane (status_label initial) in_flight));
  packet ← render_packet_with_sender initial (Some pane) (Some receiver_agent) None None;
  let refused e := "PACKET_ADMISSION_REFUSED bead=" +:+ bead +:+ " error=" +:+ admission_error_display e in
  class ← stm_lift (match hold with
                    | Grade => Ok Packet.Grading
                    | LifeLedger.Work => map_err refused (classify_packet packet)
                    end);
  admission ← stm_lift (map_err refused (evaluate_for_class packet class (negb docs_fresh) degraded_authorized));
  _ ← admit_packet tick bead pane count admission;
  _ ← stm_lift (authorize_dispatch_preflight p packet bead pane);
  incarnation ← admit_immediately_before_send env (cf_session cfg) pane;
  '(snapshot, claim_owner) ← claim_bead_for_supervisor pane bead initial receiver_agent incarnation tick claim_enabled;
  t ← trace_of;
  receiver_agent ← stm_lift (authorize_bead_dispatch_as (e_pane_map env t) pane bead snapshot claim_owner ids);
  mret (snapshot, receiver_agent, admission).
End Preflight.

(** ** What a preparation does, and what it guarantees. *)

Section PreflightLemmas.
Context `{SerdeJson, ToJson, Unicode, BrShowDecode, Host} (env : Env).
Notation cfg := (e_cfg env).

Lemma load_effects P bead : P (ERun (rc_br cfg) ["show"; bead; "--json"]) → Effects P (load_bead_snapshot env bead).
Proof. intros HP. unfold load_bead_snapshot. by effects_walk. Qed.
Lemma render_effects P s pane recv why traps : Effects P (render_packet_with_sender env s pane recv why traps).
Proof. unfold render_packet_with_sender. effects_walk. Qed.
Lemma admit_packet_effects P tick bead pane count a :
  (∀ d ok, P (EBeat "ADMISSION_DEGRADED" d ok)) → Effects P (admit_packet env tick bead pane count a).
Proof. intros HP. unfold admit_packet. effects_walk. Qed.

(** What a successful step of the preparation leaves behind. *)
Lemma render_sender_ok s pane recv why traps w w' p :
  render_packet_with_sender env s (Some pane) recv why traps w = (w', Ok p) →
  w' = w ∧ claimed_by s pane ∧ ∃ header body issues, p = header +:+ body ∧
    render_with_pane issues s (cf_repo cfg) (Some pane) recv why traps = Ok body.
Proof.
  unfold render_packet_with_sender. intros Hr. rewrite stm_bind_ok in Hr. destruct Hr as (w1 & t & [= <- <-] & Hr).
  rewrite stm_bind_ok in Hr. destruct Hr as (w1 & h & Hh & Hr). injection Hh as <- _.
  rewrite stm_bind_ok in Hr. destruct Hr as (w2 & b & Hb & Hr). injection Hb as <- Hb. injection Hr as <- <-.
  destruct (render_with_pane _ s _ _ _ _ _) as [body|e] eqn:Hbody; [|done]. injection Hb as <-.
  assert (is_ok (render_with_pane (e_issues env (r_trace w)) s (cf_repo cfg) (Some pane) recv why traps) = true) as Hok
    by by rewrite Hbody.
  apply render_renderable in Hok as (? & ? & _ & _ & Hc & _). eauto 10.
Qed.

Lemma claimed_in_progress s pane : claimed_by s pane → status_label s = "in_progress".
Proof. by intros (_ & ? & _). Qed.

(** A bead that is in progress is not claimed again. *)
Lemma claim_in_progress pane bead s recv inc tick en w w' r :
  status_label s = "in_progress" → claim_bead_for_supervisor env pane bead s recv inc tick en w = (w', r) →
  w' = w ∧ (∀ x, r = Ok x → x = (s, default "" (assignee s)) ∧ pane ≠ "").
Proof.
  intros Hs. unfold claim_bead_for_supervisor. rewrite Hs. cbn [bool_decide orb].
  unfold mbind, stm_bind. cbn. unfold tracker_assignee_with_composite. cbn [negb].
  destruct (is_empty (trim pane) || negb (starts_with pane "%")) eqn:Hp; cbn; [by intros [= <- <-]|].
  destruct (is_empty (trim recv)); cbn; [by intros [= <- <-]|].
  intros [= <- <-]. split; [done|]. intros x [= <-]. split; [done|]. by intros ->.
Qed.

Definition no_tracker_update (e : Effect) : Prop :=
  match e with ERun _ args => head args ≠ Some "update" | _ => True end.

(** the packet is rendered for its pane before the bead is claimed, and a bead is only
    rendered for a pane that already holds it: a preparation never claims a bead. *)
Theorem preparation_never_claims pane p bead ids tick en hold docs deg count w :
  extends no_tracker_update w (prepare_bead_dispatch env pane p bead ids tick en hold docs deg count w).1.
Proof.
  revert w. change (Effects no_tracker_update (prepare_bead_dispatch env pane p bead ids tick en hold docs deg count)).
  unfold prepare_bead_dispatch. apply effects_bind; [by apply load_effects|]. intros initial.
  do 6 (apply effects_bind; [auto with effects|]; intros ?). apply effects_bind; [auto with effects|]. intros _.
  apply effects_bind_with; [apply render_effects|]. intros w w' packet (-> & Hc%claimed_in_progress & _)%render_sender_ok.
  revert w. do 2 (apply effects_bind; [auto with effects|]; intros ?).
  apply effects_bind; [by apply admit_packet_effects|]. intros _.
  apply effects_bind; [auto with effects|]. intros _. apply effects_bind; [by apply effects_admit|]. intros inc.
  apply effects_bind.
  - intros w. destruct (claim_bead_for_supervisor _ _ _ _ _ _ _ _ w) as [w' r] eqn:Hclaim.
    apply claim_in_progress in Hclaim as [-> _]; [done|done].
  - intros [s owner]. effects_walk.
Qed.

(** The tracker's own answer, as a snapshot that shows no illegal claim. *)
Definition tracker_says (bead : string) (s : BeadSnapshot) (t : list Effect) : Prop :=
  ∃ o, e_run env (ERun (rc_br cfg) ["show"; bead; "--json"] :: t) = Exited o ∧ success o = true ∧
    claim_state_finding (o_stdout o) bead = None ∧ parse_br_show_json (o_stdout o) = Ok s.

Lemma load_ok bead w w' s :
  load_bead_snapshot env bead w = (w', Ok s) →
  w' = log (ERun (rc_br cfg) ["show"; bead; "--json"]) w ∧ tracker_says bead s (r_trace w).
Proof.
  unfold load_bead_snapshot. rewrite stm_bind_ok. intros (w1 & show & (-> & o & Ho & Hs & ->)%run_ok_ok & Hr). revert Hr.
  rewrite stm_bind_ok. intros (w2 & [] & [-> Hf]%stm_lift_ok & Hr). apply stm_lift_ok in Hr as [-> Hp].
  split; [done|]. exists o. split_and!; [done..| |].
  - unfold refuse_illegal_claim_state in Hf. by destruct (claim_state_finding _ _).
  - by destruct (parse_br_show_json _); [|done]; injection Hp as ->.
Qed.

(** The pane's occupancy after a passed check: the pane's own incarnation, admitting. *)
Definition occupied (session pane : string) (w : RWorld) : Prop :=
  ∃ o i, r_occ w !! occupancy_key session pane = Some o ∧ PaneFence.current o = Some i ∧ lease_byte o = lease_to_u8 Admitting.

Lemma admit_ok session pane w w' i :
  admit_immediately_before_send env session pane w = (w', Ok i) →
  r_trace w' = EAdmit session pane :: r_trace w ∧ r_ledger w' = r_ledger w ∧ occupied session pane w'.
Proof.
  unfold admit_immediately_before_send.
  destruct (match PaneFence.current _ with Some _ => _ | None => _ end) as [m o].
  destruct (PaneFence.current o) as [c|] eqn:Hc; [|done]. destruct (admit_at_send o _ _) as [a|e] eqn:Ha; [|done].
  intros [= <- <-]. cbn. split_and!; [done..|]. exists o, c. cbn. rewrite lookup_insert_eq. split_and!; [done..|].
  unfold admit_at_send in Ha. rewrite Hc in Ha. cbn in Ha. destruct (negb _); [done|]. destruct (negb _); [done|].
  unfold lease, ok_or in Ha. destruct (from_u8 (lease_byte o)) as [l|] eqn:Hl; [|done].
  case_bool_decide as Hadm; [|done]. subst l. unfold from_u8 in Hl. split_cases; unbool; try done; congruence.
Qed.

Lemma beat_keeps tick st d w w' r : beat env tick st d w = (w', r) → r_ledger w' = r_ledger w ∧ r_occ w' = r_occ w.
Proof. unfold beat. destruct (write_heartbeat _ _ _ _ _ _ _). by intros [= <- _]. Qed.

Lemma admit_packet_ok tick bead pane count a w w' :
  admit_packet env tick bead pane count a w = (w', Ok tt) → is_admitted a = true ∧ r_ledger w' = r_ledger w.
Proof.
  unfold admit_packet, is_admitted. destruct (adm_verdict a); try done.
  - by intros [= <-].
  - intros Hb%beat_keeps. by destruct Hb.
Qed.

Lemma preflight_ok p packet bead pane :
  authorize_dispatch_preflight p packet bead pane = Ok tt →
  Supervisor.is_dispatchable p = true ∧ proven_label (pane_liveness p) = true ∧ packet_is_complete packet = true.
Proof.
  unfold authorize_dispatch_preflight. cbv zeta. unfold Lifecycle.authorize, Lifecycle.classify, dispatch_intent.
  cbn. destruct (proven_label _), (Supervisor.is_dispatchable p), (packet_is_complete packet); done.
Qed.

Lemma claim_authorization_ok bead owner recv s ids permit :
  claim_authorization bead owner recv s ids = Ok permit → is_ok (resolve ids recv) = true.
Proof.
  assert (∀ P (k : result ClaimFenceError DispatchPermit), (permit' ← k; (_ ← map_err AssigneeIdentity (resolve ids recv); Ok permit')) = Ok P →
            is_ok (resolve ids recv) = true) as Hk.
  { intros P k. destruct k; cbn; [|done]. by destruct (resolve ids recv). }
  unfold claim_authorization, authorize_with_identities. destruct (tracker_assignee_agent owner) as [who|].
  - cbv zeta. case_bool_decide; subst; apply Hk.
  - cbv zeta. case_bool_decide; subst; apply Hk.
Qed.

Lemma claim_authorization_bead bead owner recv s ids permit :
  trim (id s) = id s → claim_authorization bead owner recv s ids = Ok permit → id s = bead.
Proof.
  intros Ht. unfold claim_authorization, authorize_with_identities.
  destruct (tracker_assignee_agent owner) as [who|]; cbv zeta; [|case_bool_decide];
    destruct (ClaimFence.authorize _ _) as [permit'|] eqn:Ha; try done; intros _;
    apply authorize_bead_Ok in Ha as (_ & _ & _ & s' & [= <-] & Hid & _); [|done..].
  cbn in Hid. congruence.
Qed.

Lemma authorize_as_ok contract pane bead s owner ids recv :
  authorize_bead_dispatch_as env contract pane bead s owner ids = Ok recv →
  is_ok (resolve ids recv) = true ∧ (trim (id s) = id s → id s = bead).
Proof.
  unfold authorize_bead_dispatch_as. destruct (receiver_agent_for_dispatch _ _ _ _ _) as [r|e]; cbn; [|done].
  destruct (claim_authorization _ _ _ _ _) eqn:Hc; [|done]. intros [= <-].
  split; [by eapply claim_authorization_ok|]. intros Ht. by eapply claim_authorization_bead.
Qed.

Lemma parsed_id show s : parse_br_show_json show = Ok s → trim (id s) = id s.
Proof.
  unfold parse_br_show_json. rewrite bind_Ok. intros (p & _ & Hr). revert Hr. rewrite bind_Ok. intros (row & _ & Hr).
  destruct (is_empty (trim (br_id row))); [done|]. destruct (is_empty (trim (br_status row))); [done|].
  injection Hr as <-. cbn. apply trim_idem.
Qed.

(** The agent the contract's table names for the pane; where it names none, the agent the
    configuration fixes. *)
Definition receives (contract : option string) (pane recv : string) : Prop :=
  agent_for_pane contract pane = Some recv ∨
  (agent_for_pane contract pane = None ∧ trim (rc_receiver_agent cfg) ≠ "" ∧ recv = trim (rc_receiver_agent cfg)).

Lemma receives_ok contract pane bead s recv :
  receiver_agent_for_dispatch env contract pane bead s = Ok recv →
  validate_receiver_pane env contract pane bead recv = Ok tt → receives contract pane recv.
Proof.
  unfold receiver_agent_for_dispatch, validate_receiver_pane, receives.
  destruct (agent_for_pane contract pane) as [mapped|]; [case_bool_decide; naive_solver|].
  destruct (is_empty (trim _)) eqn:He; [done|]. cbn. intros [= <-] _. right. split_and!; [done| |done].
  intros Heq. by rewrite Heq in He.
Qed.

(** The packet that was admitted is the one rendered from the snapshot for this pane and its
    registered receiver, as grading when the hold is for grading and as what its text says
    otherwise. *)
Definition packet_admitted (contract : option string) (ids : IdentityRegistries) (s : BeadSnapshot) (pane : string) (hold : HoldIntent) (docs_fresh degraded_authorized : bool)
    (adm : PacketAdmission) : Prop :=
  ∃ issues recv header body class,
    receives contract pane recv ∧ is_ok (resolve ids recv) = true ∧
    render_with_pane issues s (cf_repo cfg) (Some pane) (Some recv) None None = Ok body ∧
    match hold with Grade => class = Packet.Grading | LifeLedger.Work => classify_packet (header +:+ body) = Ok class end ∧
    evaluate_for_class (header +:+ body) class (negb docs_fresh) degraded_authorized = Ok adm ∧
    (adm_verdict adm = Allowed ∨ ∃ c g, adm_verdict adm = Degraded c g).

(** No dispatch of the bead that the lifecycle ledger has under way is another pane's. *)
Definition unheld_elsewhere (bead pane : string) (fault file : option string) : Prop :=
  ∃ rows, read_rows fault file = Ok rows ∧
    ∀ i st, last_row_of rows bead i st → st ∉ ["closed"; "blocked"; "redispatch_required"] →
      Lifecycle.pane (id_target i) = pane.

(** What a prepared dispatch rests on.  A hold for grading is not asked who holds the bead,
    only the ledger must be readable. *)
Record prepared (pane bead : string) (p : PaneObservation) (ids : IdentityRegistries) (hold : HoldIntent)
    (docs_fresh degraded_authorized : bool) (s : BeadSnapshot) (recv : string) (adm : PacketAdmission) (w w' : RWorld) : Prop := {
  pr_read : tracker_says bead s (r_trace w);
  pr_claimed : id s = bead ∧ claimed_by s pane;
  pr_readable : ∃ fault, is_ok (read_rows fault (r_ledger w)) = true ∧
      (hold = LifeLedger.Work → unheld_elsewhere bead pane fault (r_ledger w));
  pr_registered : is_ok (resolve ids recv) = true;
  pr_admitted : packet_admitted (e_pane_map env (ERun (rc_br cfg) ["show"; bead; "--json"] :: r_trace w)) ids s pane hold docs_fresh degraded_authorized adm;
  pr_idle : Supervisor.is_dispatchable p = true ∧
      (Supervisor.pane_liveness p = "CONFIRMED_IDLE" ∨ Supervisor.pane_liveness p = "NEWLY_IDLE");
  pr_occupied : occupied (cf_session cfg) pane w' ∧ head (r_trace w') = Some (EAdmit (cf_session cfg) pane) }.

Lemma unheld_ok bead pane fault file l :
  in_flight_for_bead fault file bead = Ok l →
  is_ok (read_rows fault file) = true ∧
  (admit_with_intent LifeLedger.Work bead pane "in_progress" l = Ok tt → unheld_elsewhere bead pane fault file).
Proof.
  intros Hl. assert (∃ rows, read_rows fault file = Ok rows) as [rows Hrows].
  { unfold in_flight_for_bead in Hl. destruct (read_rows fault file) as [rows|]; [by eexists|done]. }
  rewrite Hrows. split; [done|]. intros [?|Hall]%hold_admits_iff; [done|]. exists rows. split; [done|].
  intros i st Hi Hst. eapply in_flight_complete in Hi; [|done..]. by apply Hall in Hi as [_ ?].
Qed.

(** C14: a dispatch is prepared only on the tracker's answer of this run that this very pane
    holds the bead in progress, a registered receiver -- the one the contract names for the
    pane, or the configured one where it names none --, the packet rendered for it from that
    answer admitted, two captures proving the pane idle, and the pane's own incarnation
    admitting, last of all.  A dispatch of work also rests on the lifecycle ledger: no
    dispatch of the bead that is still under way there is another pane's.  A dispatch for
    grading needs the ledger readable and is not asked who holds the bead. *)
Theorem prepared_dispatch_rests_on pane p bead ids tick en hold docs deg count w w' s recv adm :
  prepare_bead_dispatch env pane p bead ids tick en hold docs deg count w = (w', Ok (s, recv, adm)) →
  prepared pane bead p ids hold docs deg s recv adm w w'.
Proof.
  unfold prepare_bead_dispatch. intros Hr.
  rewrite stm_bind_ok in Hr. destruct Hr as (w1 & initial & [-> Hsays]%load_ok & Hr).
  rewrite stm_bind_ok in Hr. destruct Hr as (w2 & t & [= <- <-] & Hr).
  rewrite stm_bind_ok in Hr. destruct Hr as (w2 & recv0 & [-> Hrecv]%stm_lift_ok & Hr).
  rewrite stm_bind_ok in Hr. destruct Hr as (w2 & [] & [-> Hknown]%stm_lift_ok & Hr).
  rewrite stm_bind_ok in Hr. destruct Hr as (w2 & [] & [-> Hpane]%stm_lift_ok & Hr).
  rewrite stm_bind_ok in Hr. destruct Hr as (w2 & wl & [= <- <-] & Hr).
  rewrite stm_bind_ok in Hr. destruct Hr as (w2 & l & [-> Hflight]%stm_lift_ok & Hr).
  rewrite stm_bind_ok in Hr. destruct Hr as (w2 & [] & [-> Hhold]%stm_lift_ok & Hr).
  rewrite stm_bind_ok in Hr. destruct Hr as (w2 & packet & (-> & Hclaimed & header & body & issues & -> & Hbody)%render_sender_ok & Hr).
  rewrite stm_bind_ok in Hr. destruct Hr as (w2 & class & [-> Hclass]%stm_lift_ok & Hr).
  rewrite stm_bind_ok in Hr. destruct Hr as (w2 & a & [-> Heval]%stm_lift_ok & Hr).
  rewrite stm_bind_ok in Hr. destruct Hr as (w2 & [] & [Hadm Hl2]%admit_packet_ok & Hr).
  rewrite stm_bind_ok in Hr. destruct Hr as (w3 & [] & [-> (Hd & Hp & _)%preflight_ok]%stm_lift_ok & Hr).
  rewrite stm_bind_ok in Hr. destruct Hr as (w3 & inc & (Htr & _ & Hocc)%admit_ok & Hr).
  rewrite stm_bind_ok in Hr. destruct Hr as (w4 & [s' owner] & Hclaim & Hr).
  pose proof (claimed_in_progress _ _ Hclaimed) as Hst.
  apply (claim_in_progress _ _ _ _ _ _ _ _ _ _ Hst) in Hclaim as [-> Hx]. destruct (Hx _ eq_refl) as [[= -> ->] _].
  rewrite stm_bind_ok in Hr. destruct Hr as (w4 & t & [= <- <-] & Hr).
  rewrite stm_bind_ok in Hr. destruct Hr as (w4 & recv' & [-> [Hreg Hbead]%authorize_as_ok]%stm_lift_ok & Hr).
  injection Hr as <- <- <- <-. cbn [log r_trace r_ledger] in Hflight. split.
  - done.
  - split; [|done]. destruct Hsays as (o & _ & _ & _ & Hparse). by apply Hbead, (parsed_id (o_stdout o)).
  - exists (e_ledger_fault env (ERun (rc_br cfg) ["show"; bead; "--json"] :: r_trace w)).
    destruct (in_flight_for_bead _ _ _) as [l'|e] eqn:Hf; [|done]. injection Hflight as ->.
    destruct (unheld_ok bead pane _ _ _ Hf) as [Hok Hun]. split; [done|]. intros ->. apply Hun. rewrite Hst in Hhold.
    by destruct (admit_with_intent _ _ _ _ _) as [[]|e].
  - done.
  - exists issues, recv0, header, body, class. split; [by eapply receives_ok|]. split.
    { unfold ensure_dispatch_receiver_identity in Hknown. by destruct (resolve ids recv0). }
    split; [done|]. split.
    { destruct hold; [|by injection Hclass]. destruct (classify_packet _); [|done]. by injection Hclass as ->. }
    split; [destruct (evaluate_for_class _ _ _ _); [by injection Heval as ->|done]|].
    unfold is_admitted in Hadm. destruct (adm_verdict a); try done; eauto.
  - split; [done|]. unfold proven_label in Hp. apply orb_true_iff in Hp as [Hp|Hp]; apply bool_decide_eq_true in Hp; auto.
  - split; [done|]. by rewrite Htr.
Qed.
End PreflightLemmas.

(** ** A concrete run. *)

#[local] Instance ex_serde : SerdeJson := λ _, None.
#[local] Instance ex_to_json : ToJson := λ _, "row".
#[local] Instance ex_unicode : Unicode := ascii_only.
#[local] Instance ex_host : Host := {|
  host_json_error := λ _, "json"; host_hash := λ s, N.of_nat (String.length s);
  host_object_text := λ _ _ _ _ _, "{}"; host_sha256 := λ _, "sha"; host_debug_admission := λ _, "refused" |}.
#[local] Instance ex_decode : BrShowDecode := λ _,
  Ok (Row (MkBrShowRow "omp-7" "Fix the reader" "" (Some "exit 0 from cargo test") "in_progress"
             (Some "pane=%7;incarnation=3;agent=Moss"))).

Definition ex_pane : PaneObservation := MkPane "%7" "IDLE" "CONFIRMED_IDLE" true true false false.
Definition ex_ids : IdentityRegistries := MkRegistries [agent_mail_record "Moss" "m1"] [subagent_record "Fern" "f1"].
Definition ex_env : Env := calm_env (λ _, Exited (MkOutput (Some 0%Z) "row" "")) (λ _, 0%N).

Lemma prepared_dispatch_rests_on_witness :
  ∃ w' s recv adm,
    prepare_bead_dispatch ex_env "%7" ex_pane "omp-7" ex_ids 1 true LifeLedger.Work true false 1 ex_world = (w', Ok (s, recv, adm)) ∧
    prepared ex_env "%7" "omp-7" ex_pane ex_ids LifeLedger.Work true false s recv adm ex_world w'.
Proof.
  do 4 eexists. split; [vm_compute; reflexivity|].
  eapply (prepared_dispatch_rests_on ex_env "%7" ex_pane "omp-7" ex_ids 1 true LifeLedger.Work true false 1).
  vm_compute; reflexivity.
Defined.
