(* ===== verification/SendVerify.v ===== *)
(** * Sending a packet and verifying that it arrived

    omp-orchestrator/src/resident.rs, [send_and_verify]: the bead's status is read once
    more, the dispatch is journaled, the incarnation is checked, the packet goes out, and
    the receiver is polled until an acknowledgement is read back, the answer can be told,
    or the window closes.  The loop has the number of polls as fuel; [send_terminates]
    shows that a window of so many sleeps is enough. *)

From stdpp Require Import base numbers list option strings gmap.
From Stdlib Require Import NArith ZArith Ascii Lia.
From S2P Require Import Prelude RustStr Utf8 Json Composer DecisionLedger ClaimFence PaneFence Lifecycle.
From S2P Require Import LifeLedger Supervisor TickMonitor Receipt AckStage Pending Packet Activity Resident.
From S2P Require Import Transport Receiver Preflight.

Definition RECEIPT_TIMEOUT_SECS : N := OBSERVATION_WINDOW_MIN_SECS + 15.
Definition RECEIPT_POLL_MS : N := 250.
Definition RECEIPT_TIMEOUT_MS : N := RECEIPT_TIMEOUT_SECS * 1000.

(** What a send came to. *)
Inductive SendVerdict :=
  | Delivered (stage : AckStageResult)
  | SIndeterminate (reason transport : string)
  | SAckPending (after_secs : N) (discriminator : string)
  | SFailed (detail : string).
Definition send_status_word (v : SendVerdict) : string :=
  match v with
  | Delivered _ => "DISPATCHED" | SIndeterminate _ _ => "DISPATCH_INDETERMINATE"
  | SAckPending _ _ => "ACK_PENDING" | SFailed _ => "DISPATCH_FAILED"
  end.

(** What is kept between two polls. *)
Record Poll := MkPoll {
  po_attempts : N; po_first : option Observation; po_latest : option Observation }.
Definition poll_start : Poll := MkPoll 0 None None.

Definition is_working_state (s : PaneState) : bool := match s with Working _ => true | _ => false end.
Definition saw (post : PostSendObservation) (s : Poll) : Poll :=
  match post with
  | PostPresent o =>
      MkPoll (po_attempts s)
        (match po_first s with
         | Some f => Some f
         | None => if is_working_state (state o) then Some o else None
         end) (Some o)
  | _ => s
  end.

Definition send_text_args (pane packet : string) : list string := [SEND_KEYS; "-t"; pane; "-l"; packet].
Definition send_enter_args (pane : string) : list string := [SEND_KEYS; "-t"; pane; "Enter"].

Definition irc_refusal_display (e : PaneIrcRefusal) : string :=
  match e with
  | PaneTransportHasNoIrcReceipt t x =>
      "PANE_TRANSPORT_HAS_NO_IRC_RECEIPT transport=" +:+ t +:+ " sender_exit=" +:+ show_Z x
      +:+ " upstream=IrcDeliveryReceipt plane=irc-bus — ntm/tmux cannot emit this type"
  end.
Definition irc_missing (t : TransportReceipt) : string :=
  match pane_transport_cannot_use_irc_receipt (kind_label (kind t)) 0 with
  | Err e => irc_refusal_display e
  | Ok _ => EmptyString
  end.

(** The recovery an unreceived packet calls for: only an idle, unchanged, captured pane. *)
Definition recovery_for (stage : AckStageResult) (post : PostSendObservation) (capture : option string)
    : option NonDeliveryEscalation :=
  match delivery stage, post, capture with
  | NoReceipt _ IdleUnchanged, PostPresent o, Some text =>
      Some (escalate_non_delivery (state o) (if is_typed text default_rules then Typed else Free))
  | _, _, _ => None
  end.

Definition discriminate (s : Poll) : option AckWaitVerdict :=
  match po_first s, po_latest s with Some f, Some l => Some (classify_ack_wait f l) | _, _ => None end.
Definition wait_action (stage : AckStageResult) (d : option AckWaitVerdict) : string :=
  match d with
  | Some v => if wait_owes_a_human v then action_label (AckStage.action stage) else Receipt.next_action v
  | None => action_label (AckStage.action stage)
  end.
Definition discriminator_text (d : option AckWaitVerdict) : string :=
  match d with
  | Some v => " discriminator=" +:+ wait_label v +:+ " discriminator_reason="
      +:+ (if is_empty (reason_or_empty v) then "NONE" else reason_or_empty v)
      +:+ " owes_human=" +:+ bool_str (wait_owes_a_human v)
  | None => " discriminator=NO_WORKING_CAPTURE owes_human=unknown"
  end.

Section Send.
Context `{SerdeJson, ToJson, Unicode, BrShowDecode, Host} (env : Env).
Notation cfg := (e_cfg env).
Context (pane bead receiver_agent : string) (tick : N).

Definition objective : string := "dispatch bead " +:+ bead.
Definition lifecycle_err {A} (r : result LifecycleError A) : RM A := stm_lift (map_err lifecycle_error_display r).
Definition lf_err {A} (r : result LfError A) : RM A := stm_lift (map_err lf_error_display r).
Definition ledger_refused (e : string) : string :=
  "LIFECYCLE_LEDGER_REFUSED bead=" +:+ bead +:+ " pane=" +:+ pane +:+ " error=" +:+ e.
Definition ledger_refused_lf (e : LfError) : string := ledger_refused (lf_error_display e).
Definition now_ms : RM N := t ← now_unix env; mret (N.min (t * 1000) u64_max).

(** ** The lifecycle row that opens the dispatch. *)

Definition selected_fields (adm : PacketAdmission) (count : N) : list (string * string) :=
  app [("decision", "dispatch preflight passed pane=" +:+ pane); ("run_id", lifecycle_run_id env);
       ("build_id", cf_build_id cfg); ("pid", show_N (cf_pid cfg));
       ("admission", admissibility_str (adm_verdict adm)); ("packet_class", class_str (packet_class adm))]
    (match adm_verdict adm with
     | Degraded c g => [("refused_class", class_str c); ("naming_gate", g); ("admitted_pane_count", show_N count)]
     | _ => []
     end).

Definition start_lifecycle (i : LifecycleIdentity) (approval : Approved) (e : LedgerEvidence) : RM BeadLifecycle := λ w,
  match Ledger.start i objective (e_call env (r_trace w)) approval e (r_ledger w) with
  | (f, Ok l) => (with_ledger f (log (EJournal "selected" true) w), Ok l)
  | (f, Err err) => (with_ledger f (log (EJournal "selected" false) w), Err (lf_error_display err))
  end.

Definition begin_dispatch_lifecycle (p : PaneObservation) (packet : string) (adm : PacketAdmission) (count : N)
    : RM (LifecycleIdentity * BeadLifecycle) :=
  b ← lifecycle_err (BeadId_new bead);
  target ← lifecycle_err (DispatchTarget_new (cf_session cfg) pane);
  now ← now_ms;
  approval ← stm_lift (map_err (λ e, "lifecycle selection is not approved: " +:+ not_approved_debug e)
                         (Lifecycle.authorize (Lifecycle.classify (dispatch_intent p packet bead))));
  i ← lf_err (LifecycleIdentity_new b (cf_repo cfg) target ("sha256:" +:+ host_sha256 packet) (e_invoker env));
  selected_id ← lifecycle_err (EventId_new (selected_event_key_for_run bead tick (lifecycle_run_id env)));
  selected ← lf_err (LedgerEvidence_new selected_id now (MkPolicy now 0) (selected_fields adm count));
  l ← start_lifecycle i approval selected;
  mret (i, l).

(** ** The dispatch row. *)

Definition journal_dispatch (i : LifecycleIdentity) (l : BeadLifecycle) (packet : string) : RM BeadLifecycle :=
  at_ms ← now_ms;
  event ← lifecycle_err (EventId_new (run_scoped_event_key env "dispatch" bead tick ""));
  b ← lifecycle_err (BeadId_new bead);
  target ← lifecycle_err (DispatchTarget_new (cf_session cfg) pane);
  receipt ← lifecycle_err (DispatchReceipt_new event b target objective at_ms);
  evidence ← lf_err (LedgerEvidence_single event at_ms (MkPolicy at_ms 0) "packet_bytes"
                       (show_N (N.of_nat (String.length packet))));
  ledger_call env "dispatch_receipt" ledger_refused_lf (λ c, Ledger.dispatch i objective c receipt evidence) l.

(** ** The send. *)

Definition send_packet (codex : bool) (packet staged : string) : RM TransportReceipt :=
  if codex then
    typed ← run_ok env (TMUX +:+ " " +:+ SEND_KEYS +:+ " -l") TMUX (send_text_args pane packet);
    enter ← run_ok env (TMUX +:+ " " +:+ SEND_KEYS +:+ " Enter") TMUX (send_enter_args pane);
    mret (capture_codex utf8_lossy host_object_text
            (TMUX +:+ " " +:+ SEND_KEYS +:+ " -l; " +:+ TMUX +:+ " " +:+ SEND_KEYS +:+ " Enter") typed enter (Some 0%Z))
  else send_ntm_with_receipt env pane bead packet staged tick.

Definition write_transport_receipt (t : TransportReceipt) : RM unit :=
  beat env tick "TRANSPORT_RECEIPT_CAPTURED" (to_string (jobj
    [("bead", JString bead); ("pane", JString pane); ("transport", JString (kind_label (kind t)));
     ("raw_transport_json", JString (raw_json t)); ("irc_delivery", JString (irc_missing t))])).

(** ** One poll. *)

Definition confirm (i : LifecycleIdentity) (l : BeadLifecycle) (stage : AckStageResult) : RM SendVerdict :=
  at_ms ← now_ms;
  event ← lifecycle_err (EventId_new (run_scoped_event_key env "receiver" bead tick ""));
  b ← lifecycle_err (BeadId_new bead);
  target ← lifecycle_err (DispatchTarget_new (cf_session cfg) pane);
  receiver ← lifecycle_err (ReceiverEvidence_new event b target objective at_ms);
  evidence ← lf_err (LedgerEvidence_new event at_ms (MkPolicy at_ms 0)
     [("transport", kind_label (kind (transport stage))); ("ack_action", action_label (AckStage.action stage));
      ("receiver_agent", receiver_agent)]);
  _ ← ledger_call env "receiver_verified" ledger_refused_lf (λ c, Ledger.verify_receiver i objective c receiver evidence) l;
  mret (Delivered stage).

Definition recover (packet : string) (r : option NonDeliveryEscalation) (s : Poll) : RM Poll :=
  let note name := beat env tick "RECEIVER_RECOVERY" ("pane=" +:+ pane +:+ " bead=" +:+ bead +:+ " action=" +:+ name
        +:+ " attempts=" +:+ show_N (po_attempts s + 1)) in
  let again := MkPoll (po_attempts s + 1) (po_first s) (po_latest s) in
  match r with
  | Some ResendDirect =>
      _ ← admit_immediately_before_send env (cf_session cfg) pane;
      _ ← run_ok env "tmux resend send-keys -l" TMUX (send_text_args pane packet);
      _ ← run_ok env "tmux resend Enter" TMUX (send_enter_args pane);
      _ ← note "RESEND_DIRECT"; mret again
  | Some SubmitParked =>
      _ ← admit_immediately_before_send env (cf_session cfg) pane;
      _ ← run_ok env "tmux recovery Enter" TMUX (send_enter_args pane);
      _ ← note "SUBMIT_PARKED"; mret again
  | Some KeepPolling | None => mret s
  end.

(** The window is over: the wait is told apart as far as it can be, and the bead is owed
    another dispatch. *)
Definition expire (i : LifecycleIdentity) (l : BeadLifecycle) (stage : AckStageResult) (s : Poll) : RM SendVerdict :=
  let d := discriminate s in
  _ ← match d with
      | Some v => if wait_owes_a_human v then mret tt
                  else beat env tick "ACK_WAIT_PENDING" ("pane=" +:+ pane +:+ " bead=" +:+ bead +:+ " verdict=" +:+ wait_label v
                     +:+ " reason=" +:+ reason_or_empty v +:+ " next_action=" +:+ Receipt.next_action v
                     +:+ " after=" +:+ show_N RECEIPT_TIMEOUT_SECS +:+ "s")
      | None => mret tt
      end;
  let action := wait_action stage d in
  at_ms ← now_ms;
  event ← lifecycle_err (EventId_new (run_scoped_event_key env "redispatch-required" bead tick ""));
  b ← lifecycle_err (BeadId_new bead);
  target ← lifecycle_err (DispatchTarget_new (cf_session cfg) pane);
  plan ← lifecycle_err (RedispatchPlan_new event b target ("receiver_not_reported action=" +:+ action));
  evidence ← lf_err (LedgerEvidence_new event at_ms (MkPolicy at_ms 0)
     [("reason", "receiver_not_reported"); ("action", action); ("delivery", verdict_label (delivery stage))]);
  _ ← ledger_call env "redispatch_required" ledger_refused_lf (λ c, Ledger.require_redispatch i objective c plan evidence) l;
  mret (SAckPending RECEIPT_TIMEOUT_SECS (discriminator_text d)).

(** What the loop does with an assessed poll. *)
Definition awaiting_ack (stage : AckStageResult) : bool :=
  match delivery stage with Indeterminate _ AckReadbackMissing => true | _ => false end.
Definition retry_exhausted (stage : AckStageResult) : bool :=
  match AckStage.action stage with RetryExhausted _ _ => true | _ => false end.
Definition indeterminate_of (stage : AckStageResult) (t : TransportReceipt) : SendVerdict :=
  SIndeterminate (match verdict_reason (delivery stage) with Some r => reason_display r | None => "unclassified" end)
    (kind_label (kind t)).

Definition poll (i : LifecycleIdentity) (l : BeadLifecycle) (packet : string) (codex : bool) (t : TransportReceipt)
    (pre : Observation) (panes : list string) (deadline : N) (s : Poll) : RM (Poll + SendVerdict) :=
  _ ← checkpoint env "CANCELLED while verifying receiver receipt";
  '(post, capture) ← post_send_observation env pane codex;
  let s := saw post s in
  ack ← read_ack_readback env bead pane;
  let stage := assess (MkInput bead pane t pre post ack (po_attempts s) panes) in
  if is_confirmed stage then v ← confirm i l stage; mret (inr v)
  else
    s ← (if is_retry (AckStage.action stage) then recover packet (recovery_for stage post capture) s else mret s);
    if negb (is_retry (AckStage.action stage)) && negb (retry_exhausted stage) && negb (awaiting_ack stage)
    then mret (inr (indeterminate_of stage t))
    else
      now ← instant env;
      if retry_exhausted stage || (deadline <=? now)%N then v ← expire i l stage s; mret (inr v)
      else _ ← rsleep; mret (inl s).

Fixpoint verify_loop (fuel : nat) i l packet codex t pre panes deadline (s : Poll) : RM (option SendVerdict) :=
  match fuel with
  | O => mret None
  | S fuel =>
      r ← poll i l packet codex t pre panes deadline s;
      match r with
      | inr v => mret (Some v)
      | inl s => verify_loop fuel i l packet codex t pre panes deadline s
      end
  end.

(** ** The whole. *)

Definition staged_path : string :=
  rc_temp_dir cfg +:+ "/omp-orchestrator-dispatch-" +:+ show_N (cf_pid cfg) +:+ "-"
  +:+ trim_start_matches (is_char "%") pane +:+ "-" +:+ bead +:+ ".txt".
Definition stage_packet (packet : string) : RM unit :=
  _ ← emit (EStage staged_path packet);
  t ← trace_of;
  match e_stage env t with
  | Some e => stm_fail ("DISPATCH_BLOCKED bead=" +:+ bead +:+ " stage packet: " +:+ e)
  | None => mret tt
  end.

(** Everything up to the packet being on its way. *)
Definition send_phase (p : PaneObservation) (s : BeadSnapshot) (before : string) (adm : PacketAdmission) (count : N)
    : RM (LifecycleIdentity * BeadLifecycle * string * bool * TransportReceipt * Observation) :=
  at_send ← load_bead_snapshot env bead;
  _ ← stm_lift (refuse_terminal_status_at_send bead (status_label at_send));
  _ ← beat env tick "AT_SEND_CAPTURE" (capture_detail (capture_of at_send) bead pane);
  packet ← render_packet_with_sender env s (Some pane) (Some receiver_agent) None None;
  _ ← stage_packet packet;
  pre_at ← now_unix env;
  identity ← ntm_output_identity env pane;
  let pre := observe pane (utf8_lossy before) pre_at identity in
  '(i, l) ← rename_error ledger_refused (begin_dispatch_lifecycle p packet adm count);
  l ← journal_dispatch i l packet;
  _ ← admit_immediately_before_send env (cf_session cfg) pane;
  codex ← receiver_is_codex env pane;
  t ← send_packet codex packet staged_path;
  _ ← emit (EUnstage staged_path);
  _ ← write_transport_receipt t;
  mret (i, l, packet, codex, t, pre).

Definition send_and_verify (fuel : nat) (p : PaneObservation) (s : BeadSnapshot) (before : string)
    (adm : PacketAdmission) (count : N) : RM (option SendVerdict) :=
  '(i, l, packet, codex, t, pre) ← send_phase p s before adm count;
  start ← instant env;
  panes ← session_panes env pane;
  verify_loop fuel i l packet codex t pre panes (start + RECEIPT_TIMEOUT_MS) poll_start.
End Send.

(** ** Sends, counted. *)

(** A command that puts the packet into a pane: typed text, or NTM's send. *)
Definition is_send (e : Effect) : bool :=
  match e with
  | ERun _ (a :: rest) =>
      (bool_decide (a = SEND_KEYS) && match rest with [_; _; l; _] => bool_decide (l = "-l") | _ => false end)
      || starts_with a "--robot-send="
  | _ => false
  end.
Definition quiet (e : Effect) : Prop := is_send e = false.
Definition count_of (p : Effect → bool) (w : RWorld) : nat := length (List.filter p (r_trace w)).
Definition sends : RWorld → nat := count_of is_send.

Lemma extends_quiet w w' : extends quiet w w' → sends w' = sends w.
Proof.
  intros (t & Ht & Hq). unfold sends, count_of. rewrite Ht, List.filter_app, length_app.
  assert (List.filter is_send t = []) as ->; [|done].
  clear Ht. induction Hq as [|e t He _ IH]; [done|]. unfold quiet in He. cbn. by rewrite He.
Qed.

Definition any (e : Effect) : Prop := True.
Lemma any_effect e : any e.
Proof. done. Qed.
#[export] Hint Resolve any_effect : effects.

(** [Sends n m]: whatever its outcome, [m] adds at most [n] sends. *)
Definition Sends {A} (n : nat) (m : RM A) : Prop := ∀ w, (sends (m w).1 <= sends w + n)%nat.
Lemma sends_quiet {A} (m : RM A) : Effects quiet m → Sends 0 m.
Proof. intros Hm w. specialize (Hm w). apply extends_quiet in Hm. lia. Qed.
Lemma sends_bind {A B} (m : RM A) (f : A → RM B) a b n :
  Sends a m → (∀ x, Sends b (f x)) → (a + b <= n)%nat → Sends n (m ≫= f).
Proof.
  intros Hm Hf Hn w. specialize (Hm w). unfold mbind, stm_bind. destruct (m w) as [w' [x|e]]; cbn in *; [|lia].
  specialize (Hf x w'). lia.
Qed.
Lemma sends_weaken {A} (m : RM A) a b : Sends a m → (a <= b)%nat → Sends b m.
Proof. intros Hm Hab w. specialize (Hm w). lia. Qed.

Section Quiet.
Context (P : Effect → Prop) (HP : ∀ e, is_send e = false → P e).
Context `{SerdeJson, ToJson, Unicode, BrShowDecode, Host} (env : Env).
Notation cfg := (e_cfg env).
Context (pane bead receiver_agent : string) (tick : N).

Ltac quiet_walk l := effects_walk; try (by apply l); try (intros; by apply HP).
Ltac quiet_walk2 l l' := quiet_walk l; try (by apply l').
Lemma quiet_load : Effects P (load_bead_snapshot env bead).
Proof. apply load_effects. by apply HP. Qed.
Lemma quiet_beat st d : Effects P (beat env tick st d).
Proof. apply effects_beat. intros ok. by apply HP. Qed.
Lemma quiet_now : Effects P (now_ms env).
Proof. unfold now_ms. quiet_walk HP. Qed.
Lemma quiet_identity : Effects P (ntm_output_identity env pane).
Proof. unfold ntm_output_identity. quiet_walk HP. Qed.
Lemma quiet_marker : Effects P (dispatch_marker_issued_at env pane).
Proof. by apply effects_same. Qed.
Lemma quiet_ack : Effects P (read_ack_readback env bead pane).
Proof. unfold read_ack_readback. quiet_walk quiet_marker. Qed.
Lemma quiet_observation codex : Effects P (post_send_observation env pane codex).
Proof. unfold post_send_observation, capture_pane. quiet_walk quiet_identity. Qed.
Lemma quiet_panes : Effects P (session_panes env pane).
Proof. unfold session_panes. quiet_walk HP. Qed.
Lemma quiet_codex : Effects P (receiver_is_codex env pane).
Proof. unfold receiver_is_codex. quiet_walk HP. Qed.
Lemma quiet_start i a e : Effects P (start_lifecycle env bead i a e).
Proof.
  intros w. unfold start_lifecycle. destruct (Ledger.start _ _ _ _ _ _) as [f [l|err]];
    [exists [EJournal "selected" true]|exists [EJournal "selected" false]];
    split; try done; constructor; try done; by apply HP.
Qed.
Lemma quiet_begin p packet adm count : Effects P (begin_dispatch_lifecycle env pane bead tick p packet adm count).
Proof. unfold begin_dispatch_lifecycle, lifecycle_err, lf_err. quiet_walk2 quiet_now quiet_start. Qed.
Lemma quiet_journal i l packet : Effects P (journal_dispatch env pane bead tick i l packet).
Proof. unfold journal_dispatch, lifecycle_err, lf_err. quiet_walk quiet_now. Qed.
Lemma quiet_confirm i l stage : Effects P (confirm env pane bead receiver_agent tick i l stage).
Proof. unfold confirm, lifecycle_err, lf_err. quiet_walk quiet_now. Qed.
Lemma quiet_expire i l stage s : Effects P (expire env pane bead tick i l stage s).
Proof. unfold expire, lifecycle_err, lf_err. quiet_walk quiet_now. Qed.
Lemma quiet_stage packet : Effects P (stage_packet env pane bead packet).
Proof. unfold stage_packet. quiet_walk HP. Qed.
Lemma quiet_transport t : Effects P (write_transport_receipt env pane bead tick t).
Proof. unfold write_transport_receipt. quiet_walk HP. Qed.
Lemma quiet_sleep : Effects P rsleep.
Proof. apply effects_sleep. by apply HP. Qed.
Lemma quiet_query op : Effects P (query_ntm_send_receipt env op pane).
Proof. unfold query_ntm_send_receipt. quiet_walk HP. Qed.
Lemma quiet_write_receipt r : Effects P (write_ntm_send_receipt env tick pane bead r).
Proof. apply quiet_beat. Qed.
Lemma quiet_unstage path : Effects P (emit (EUnstage path)).
Proof. apply effects_emit. by apply HP. Qed.
Lemma quiet_clock : Effects P (now_unix env).
Proof. apply effects_now. by apply HP. Qed.
Lemma quiet_admit session : Effects P (admit_immediately_before_send env session pane).
Proof. apply effects_admit. by apply HP. Qed.
End Quiet.
#[export] Hint Resolve render_effects quiet_admit quiet_sleep quiet_unstage quiet_clock quiet_load quiet_beat quiet_now quiet_identity quiet_ack quiet_observation quiet_panes quiet_codex
  quiet_begin quiet_journal quiet_confirm quiet_expire quiet_stage quiet_transport : effects.

(** ** The number of sends is bounded. *)

Section Bound.
Context `{SerdeJson, ToJson, Unicode, BrShowDecode, Host} (env : Env).
Notation cfg := (e_cfg env).
Context (pane bead receiver_agent : string) (tick : N).
Notation poll := (poll env pane bead receiver_agent tick).
Notation verify_loop := (verify_loop env pane bead receiver_agent tick).

Lemma sends_emit e : Sends 1 (emit e).
Proof. intros w. unfold sends, count_of. cbn. destruct (is_send e); cbn; lia. Qed.
Lemma sends_run_ok name program args : Sends 1 (run_ok env name program args).
Proof.
  eapply (sends_bind _ _ 1 0); [|intros; apply sends_quiet; auto with effects|lia].
  eapply (sends_bind _ _ 0 1); [apply sends_quiet; auto with effects| |lia]. intros _.
  eapply (sends_bind _ _ 1 0); [apply sends_emit| |lia]. intros _.
  apply sends_quiet. effects_walk.
Qed.

Lemma quiet_enter name : Effects quiet (run_ok env name TMUX (send_enter_args pane)).
Proof. by apply effects_run_ok. Qed.

Lemma sends_recover packet r s : Sends 1 (recover env pane bead tick packet r s).
Proof.
  unfold recover. destruct r as [[]|]; try solve [apply (sends_weaken _ 0); [apply sends_quiet; auto with effects|lia]].
  - eapply (sends_bind _ _ 0 1); [apply sends_quiet; auto with effects| |lia]. intros _.
    eapply (sends_bind _ _ 1 0); [apply sends_run_ok| |lia]. intros _.
    apply sends_quiet. effects_walk; by try first [apply quiet_enter | apply quiet_beat].
  - apply (sends_weaken _ 0); [|lia]. apply sends_quiet. effects_walk; by try first [apply quiet_enter | apply quiet_beat].
Qed.

(** A recovery that sent anything, or might have, counts as an attempt. *)
Lemma recover_attempts packet r s w w' s' :
  recover env pane bead tick packet r s w = (w', Ok s') →
  (s' = s ∧ w' = w) ∨ po_attempts s' = (po_attempts s + 1)%N.
Proof.
  unfold recover. destruct r as [[]|]; try (intros [= <- <-]; by left).
  - do 4 (rewrite stm_bind_ok; intros (? & ? & _ & Hr); revert Hr). intros [= _ <-]. by right.
  - do 3 (rewrite stm_bind_ok; intros (? & ? & _ & Hr); revert Hr). intros [= _ <-]. by right.
Qed.

Lemma retry_attempts i s : assess i = s → is_retry (AckStage.action s) = true → (attempts_so_far i < MAX_RETRY_ATTEMPTS)%N.
Proof.
  intros <-. unfold assess. cbn [AckStage.action]. unfold decide, decide_remeasure.
  destruct (_ <? _)%N eqn:Hlt; [by intros _; apply N.ltb_lt in Hlt|].
  intros Hr. exfalso. revert Hr. split_cases; done.
Qed.

Lemma saw_attempts post s : po_attempts (saw post s) = po_attempts s.
Proof. by destruct post. Qed.

(** One step of a run whose effects are quiet. *)
Ltac runs_quiet w' r Hq :=
  apply runs_bind; eapply (runs_effects quiet); [solve [auto with effects | effects_walk; auto with effects]|];
  intros w' r Hq; apply extends_quiet in Hq.

(** What a poll may send is paid for by the attempts it counts. *)
Definition paid (s : Poll) (w w' : RWorld) (r : result string (Poll + SendVerdict)) : Prop :=
  match r with
  | Ok (inl s') => (sends w' + N.to_nat (po_attempts s) <= sends w + N.to_nat (po_attempts s'))%nat
                   ∧ (po_attempts s' <= MAX_RETRY_ATTEMPTS)%N
  | _ => (sends w' + N.to_nat (po_attempts s) <= sends w + N.to_nat MAX_RETRY_ATTEMPTS)%nat
  end.

Lemma poll_paid i l packet codex t pre panes deadline s w :
  (po_attempts s <= MAX_RETRY_ATTEMPTS)%N →
  runs (poll i l packet codex t pre panes deadline s) w (paid s w).
Proof.
  intros Hs. assert (N.to_nat (po_attempts s) <= N.to_nat MAX_RETRY_ATTEMPTS)%nat as Hn by lia.
  unfold SendVerify.poll.
  runs_quiet w1 r1 K1. destruct r1 as [[]|e]; [|cbn; lia].
  runs_quiet w2 r2 K2. destruct r2 as [[post capture]|e]; [|cbn; lia].
  runs_quiet w3 r3 K3. destruct r3 as [ack|e]; [|cbn; lia].
  set (s1 := saw post s). assert (po_attempts s1 = po_attempts s) as Hs1 by apply saw_attempts.
  set (stage := assess _). destruct (is_confirmed stage).
  { runs_quiet w4 r4 K4. destruct r4 as [v|e]; cbn; lia. }
  apply runs_bind. unfold runs at 1.
  destruct ((if is_retry (AckStage.action stage) then recover env pane bead tick packet (recovery_for stage post capture) s1
             else mret s1) w3) as [w4 r4] eqn:Hrec. cbn [fst snd].
  assert ((sends w4 + N.to_nat (po_attempts s) <= sends w3 + N.to_nat MAX_RETRY_ATTEMPTS)%nat ∧
          ∀ s4, r4 = Ok s4 → (sends w4 + N.to_nat (po_attempts s) <= sends w3 + N.to_nat (po_attempts s4))%nat ∧
                             (po_attempts s4 <= MAX_RETRY_ATTEMPTS)%N) as [Hsend Hatt].
  { destruct (is_retry _) eqn:Hretry.
    - pose proof (retry_attempts _ _ eq_refl Hretry) as Hlt. cbn [attempts_so_far] in Hlt.
      pose proof (sends_recover packet (recovery_for stage post capture) s1 w3) as Hone. rewrite Hrec in Hone. cbn in Hone.
      split; [lia|]. intros s4 ->. apply recover_attempts in Hrec as [[-> ->]|Ha]; lia.
    - injection Hrec as <- <-. split; [lia|]. intros s4 [= <-]. lia. }
  destruct r4 as [s4|e]; [|cbn; lia]. destruct (Hatt _ eq_refl) as [Hpay Hmax].
  destruct (_ && _); [cbn; lia|].
  runs_quiet w5 r5 K5. destruct r5 as [now|e]; [|cbn; lia].
  destruct (_ || _).
  - runs_quiet w6 r6 K6. destruct r6 as [v|e]; cbn; lia.
  - runs_quiet w6 r6 K6. destruct r6 as [[]|e]; cbn; lia.
Qed.

Lemma loop_paid fuel : ∀ i l packet codex t pre panes deadline s w,
  (po_attempts s <= MAX_RETRY_ATTEMPTS)%N →
  runs (verify_loop fuel i l packet codex t pre panes deadline s) w (λ w' _,
    (sends w' + N.to_nat (po_attempts s) <= sends w + N.to_nat MAX_RETRY_ATTEMPTS)%nat).
Proof.
  induction fuel as [|fuel IH]; intros * Hs; [unfold runs; cbn; lia|].
  cbn [SendVerify.verify_loop]. apply runs_bind. eapply runs_weaken; [by apply poll_paid|].
  intros w' [[s'|v]|e] Hp; cbn in Hp; [|unfold runs; cbn; lia..]. destruct Hp as [Hp Hs'].
  eapply runs_weaken; [by apply IH|]. cbn. lia.
Qed.

Lemma sends_invoke program args : Sends 1 (invoke env program args).
Proof.
  eapply (sends_bind _ _ 0 1); [apply sends_quiet; auto with effects| |lia]. intros _.
  eapply (sends_bind _ _ 1 0); [apply sends_emit| |lia]. intros _. apply sends_quiet. effects_walk.
Qed.
Lemma sends_packet codex packet staged : Sends 1 (send_packet env pane bead tick codex packet staged).
Proof.
  unfold send_packet. destruct codex.
  - eapply (sends_bind _ _ 1 0); [apply sends_run_ok| |lia]. intros typed. apply sends_quiet. effects_walk.
    by try apply quiet_enter.
  - unfold send_ntm_with_receipt. eapply (sends_bind _ _ 1 0); [apply sends_invoke| |lia]. intros o.
    apply sends_quiet. effects_walk; first [done | by apply quiet_query].
Qed.

Lemma effects_run {A} P (m : RM A) w w' r : Effects P m → m w = (w', r) → extends P w w'.
Proof. intros Hm Hr. specialize (Hm w). by rewrite Hr in Hm. Qed.
Lemma any_recover packet r s : Effects any (recover env pane bead tick packet r s).
Proof. unfold recover. effects_walk; auto with effects. Qed.
Lemma any_packet codex packet staged : Effects any (send_packet env pane bead tick codex packet staged).
Proof.
  unfold send_packet, send_ntm_with_receipt. effects_walk; auto with effects.
  by apply quiet_query.
Qed.
Hint Resolve any_recover any_packet : effects.
Lemma any_poll i l packet codex t pre panes deadline s : Effects any (poll i l packet codex t pre panes deadline s).
Proof. unfold SendVerify.poll. effects_walk; auto with effects. Qed.
Hint Resolve any_poll : effects.
Lemma any_loop fuel : ∀ i l packet codex t pre panes deadline s,
  Effects any (verify_loop fuel i l packet codex t pre panes deadline s).
Proof. induction fuel as [|fuel IH]; intros; cbn [SendVerify.verify_loop]; effects_walk; auto with effects. Qed.

(** Everything the run added after its effects up to [w] comes after these: the bead's
    status was read first of all, and was one that can still be worked on; nothing was sent
    before the lifecycle ledger accepted the dispatch row; and the pane's incarnation was
    admitted right after that. *)
Definition sent_after_journal (w w' : RWorld) : Prop :=
  ∃ at_send before after,
    tracker_says env bead at_send (r_trace w) ∧
    (status_label at_send = "open" ∨ status_label at_send = "in_progress") ∧
    r_trace w' = app after (EAdmit (cf_session cfg) pane :: EJournal "dispatch_receipt" true ::
                   app before (ERun (rc_br cfg) ["show"; bead; "--json"] :: r_trace w)) ∧
    Forall quiet before.
Lemma sent_after_more w w1 w2 : sent_after_journal w w1 → extends any w1 w2 → sent_after_journal w w2.
Proof.
  intros (at_send & before & after & Hsays & Hst & Ht & Hq) (t & Ht2 & _).
  exists at_send, before, (app t after). split_and!; [done..| |done]. by rewrite Ht2, Ht, app_assoc.
Qed.

Lemma status_open_ok b st : refuse_terminal_status_at_send b st = Ok tt → st = "open" ∨ st = "in_progress".
Proof. unfold refuse_terminal_status_at_send. repeat case_bool_decide; cbn; [auto..|done]. Qed.

(** A call on the ledger that was accepted: its row is the last thing the step did. *)
Lemma journal_ok i l packet w w' l' :
  journal_dispatch env pane bead tick i l packet w = (w', Ok l') →
  ∃ t, r_trace w' = EJournal "dispatch_receipt" true :: app t (r_trace w) ∧ Forall quiet t.
Proof.
  unfold journal_dispatch, lifecycle_err, lf_err. rewrite stm_bind_ok.
  intros (w1 & at_ms & (t & Ht & Hq)%(effects_run quiet _ _ _ _ (quiet_now quiet (λ _ He, He) env)) & Hr). revert Hr.
  do 5 (rewrite stm_bind_ok; intros (? & ? & [-> _]%stm_lift_ok & Hr); revert Hr).
  intros Hl%ledger_call_traced. exists t. by rewrite Hl, Ht.
Qed.

Lemma runs_with {A} P (m : RM A) w (Q : RWorld → result string A → Prop) :
  Effects P m → (∀ w' r, m w = (w', r) → extends P w w' → Q w' r) → runs m w Q.
Proof. intros Hm HQ. apply HQ; [by destruct (m w)|apply Hm]. Qed.

(** A quiet step of a run whose outcome is kept, and with it that all was quiet so far. *)
Ltac runs_kept w' r Hw Hq :=
  apply runs_bind; eapply (runs_with quiet); [solve [auto with effects | effects_walk; auto with effects]|];
  intros w' r Hw Hq;
  lazymatch goal with H : extends quiet _ ?w1, H' : extends quiet ?w1 _ |- _ => apply (extends_trans quiet _ _ _ H) in H'; clear H end.

(** Before the send nothing is sent, and what was established then holds after it. *)
Definition sent_once {A} (w w' : RWorld) (r : result string A) : Prop :=
  (is_ok r = false ∧ extends quiet w w') ∨ (sent_after_journal w w' ∧ (sends w' <= S (sends w))%nat).

Lemma send_phase_sends p s before adm count w :
  runs (send_phase env pane bead receiver_agent tick p s before adm count) w (sent_once w).
Proof.
  unfold send_phase.
  apply runs_bind. eapply (runs_with quiet); [by auto with effects|]. intros w1 r1 E1 K1.
  destruct r1 as [at_send|e]; [|by left]. apply load_ok in E1 as [-> Hsays].
  apply runs_bind, runs_lift. destruct (refuse_terminal_status_at_send _ _) as [[]|e] eqn:Hst; [|by left].
  apply status_open_ok in Hst. set (w1 := log _ w) in *. assert (extends quiet w1 w1) as K by done.
  runs_kept w2 r2 E2 K2. destruct r2 as [[]|e]; [|left; split; [done|by etrans]].
  runs_kept w3 r3 E3 K3. destruct r3 as [packet|e]; [|left; split; [done|by etrans]].
  runs_kept w4 r4 E4 K4. destruct r4 as [[]|e]; [|left; split; [done|by etrans]].
  runs_kept w5 r5 E5 K5. destruct r5 as [pre_at|e]; [|left; split; [done|by etrans]].
  runs_kept w6 r6 E6 K6. destruct r6 as [identity|e]; [|left; split; [done|by etrans]].
  runs_kept w7 r7 E7 K7. destruct r7 as [[i l]|e]; [|left; split; [done|by etrans]].
  apply runs_bind. eapply (runs_with quiet); [by auto with effects|]. intros w8 r8 E8 K8.
  destruct r8 as [l'|e]; [|left; split; [done|do 2 (etrans; [done|]); done]].
  apply runs_bind. eapply (runs_with quiet); [by auto with effects|]. intros w9 r9 E9 K9.
  destruct r9 as [inc|e]; [|left; split; [done|do 3 (etrans; [done|]); done]].
  assert (sent_after_journal w w9) as Hpre.
  { apply journal_ok in E8 as (t8 & Ht8 & Hq8). destruct K7 as (t7 & Ht7 & Hq7). apply admit_traced in E9.
    exists at_send, (app t8 t7), []. split_and!; [done..| |by apply Forall_app].
    by rewrite E9, Ht8, Ht7, app_assoc. }
  assert (sends w9 = sends w) as Hsame by (apply extends_quiet; do 3 (etrans; [done|]); done).
  right. set (m := (codex ← _; _)). split.
  - apply (sent_after_more _ _ _ Hpre). assert (Effects any m) as Hm; [|apply Hm].
    unfold m. effects_walk; auto with effects.
  - rewrite <-Hsame, <-Nat.add_1_r. assert (Sends 1 m) as Hm; [|apply Hm]. unfold m.
    eapply (sends_bind _ _ 0 1); [apply sends_quiet; auto with effects| |lia]. intros codex.
    eapply (sends_bind _ _ 1 0); [apply sends_packet| |lia]. intros t. apply sends_quiet.
    effects_walk; auto with effects.
Qed.

(** One dispatch puts the packet into a pane at most once, and once more for each retry. *)
Lemma send_and_verify_sends fuel p s before adm count w :
  runs (send_and_verify env pane bead receiver_agent tick fuel p s before adm count) w (λ w' _,
    extends quiet w w' ∨
    (sent_after_journal w w' ∧ (sends w' <= sends w + 1 + N.to_nat MAX_RETRY_ATTEMPTS)%nat)).
Proof.
  unfold send_and_verify. apply runs_bind. eapply runs_weaken; [apply send_phase_sends|].
  intros w1 r1 [[Hr Hs]|[Hpre Hs]].
  { destruct r1 as [x|e]; [done|by left]. }
  destruct r1 as [[[[[[i l] packet] codex] t] pre]|e]; [|right; split; [done|lia]].
  apply runs_bind. eapply (runs_with any); [by auto with effects|]. intros w2 r2 [= <- <-] _.
  apply runs_bind. eapply (runs_with quiet); [by auto with effects|]. intros w3 r3 _ K3.
  assert (sent_after_journal w w3) as Hpre3 by (eapply sent_after_more; [done|by eapply extends_weaken]).
  apply extends_quiet in K3. destruct r3 as [panes|e]; [|right; split; [done|lia]].
  right. split.
  - eapply sent_after_more; [done|]. apply any_loop.
  - pose proof (loop_paid fuel i l packet codex t pre panes (e_instant env (r_trace w1) + RECEIPT_TIMEOUT_MS) poll_start w3) as Hl.
    unfold runs in Hl. cbn [poll_start po_attempts] in Hl. lia.
Qed.
End Bound.

(** ** What a delivery means. *)

(** One step of a run that went on, and what the run did so far. *)
Ltac goes w' x :=
  rewrite stm_bind_ok;
  let Hm := fresh "Hm" in let Hr := fresh "Hr" in
  intros (w' & x & Hm & Hr); revert Hr;
  apply (effects_run any) in Hm; [|solve [auto with effects | effects_walk; auto with effects]];
  lazymatch goal with
  | H : extends any ?w ?w1, H' : extends any ?w1 w' |- _ =>
      apply (extends_trans any _ _ _ H) in H'; clear H
  | _ => idtac
  end.

Section Meaning.
Context `{SerdeJson, ToJson, Unicode, BrShowDecode, Host} (env : Env).
Notation cfg := (e_cfg env).
Context (pane bead receiver_agent : string) (tick : N).

(** The run read the tracker's comments on the bead, and the newest acknowledgement among
    them was this pane's; the last thing it did is the receiver row, which the lifecycle
    ledger accepted. *)
Definition acknowledged (stage : AckStageResult) (w w' : RWorld) : Prop :=
  ∃ before after wm o read ack panes k c,
    r_trace w' = EJournal "receiver_verified" true :: app after (r_trace wm) ∧
    r_trace wm = ERun (rc_br cfg) ["comments"; "list"; bead; "--json"] :: app before (r_trace w) ∧
    e_run env (r_trace wm) = Exited o ∧ success o = true ∧
    from_comments_json_pending host_json_error bead pane (o_stdout o) = Ok read ∧
    (ack = read ∨ ∃ issued, dispatch_marker_issued_at env pane wm = (wm, Ok (Some issued)) ∧
                            ack = with_dispatch_issued_at read issued) ∧
    newest_ack ack bead pane panes k c pane ∧ ack_comment stage = Some (text c).
Lemma acknowledged_later stage w w1 w' : extends any w w1 → acknowledged stage w1 w' → acknowledged stage w w'.
Proof.
  intros (t & Ht & _) (before & after & wm & o & read & ack & panes & k & c & Hj & Hm & Hr).
  exists (app before t), after, wm, o, read, ack, panes, k, c. split; [done|]. split; [|done]. by rewrite Hm, Ht, app_assoc.
Qed.

(** What the reading of the acknowledgements leaves behind. *)
Lemma ack_read_ok w w' ack :
  read_ack_readback env bead pane w = (w', Ok ack) →
  ∃ o read, r_trace w' = ERun (rc_br cfg) ["comments"; "list"; bead; "--json"] :: r_trace w ∧
    e_run env (r_trace w') = Exited o ∧ success o = true ∧
    from_comments_json_pending host_json_error bead pane (o_stdout o) = Ok read ∧
    (ack = read ∨ ∃ issued, dispatch_marker_issued_at env pane w' = (w', Ok (Some issued)) ∧
                            ack = with_dispatch_issued_at read issued).
Proof.
  unfold read_ack_readback. rewrite stm_bind_ok. intros (w1 & bytes & (-> & o & Ho & Hs & ->)%run_ok_ok & Hr). revert Hr.
  rewrite stm_bind_ok. intros (w2 & read & [-> Hread]%stm_lift_ok & Hr). revert Hr.
  rewrite stm_bind_ok. intros (w3 & issued & Hi & Hr). injection Hr as <- <-.
  assert (w3 = log (ERun (rc_br cfg) ["comments"; "list"; bead; "--json"]) w) as -> by (by injection Hi as <- _).
  exists o, read. split_and!; try done.
  - by destruct (from_comments_json_pending _ _ _ _) as [r|e]; [|done]; injection Hread as ->.
  - destruct issued as [t|]; [right; by exists t|by left].
Qed.

Lemma confirm_delivered i l stage w w' v :
  confirm env pane bead receiver_agent tick i l stage w = (w', Ok v) →
  v = Delivered stage ∧ ∃ t, r_trace w' = EJournal "receiver_verified" true :: app t (r_trace w).
Proof.
  unfold confirm, lifecycle_err, lf_err. rewrite stm_bind_ok.
  intros (w1 & at_ms & (t & Ht & _)%(effects_run quiet _ _ _ _ (quiet_now quiet (λ _ He, He) env)) & Hr). revert Hr.
  do 5 (rewrite stm_bind_ok; intros (? & ? & [-> _]%stm_lift_ok & Hr); revert Hr).
  rewrite stm_bind_ok. intros (wl & l' & Hl%ledger_call_traced & Hr). injection Hr as <- <-.
  split; [done|]. exists t. by rewrite Hl, Ht.
Qed.

(** A packet typed into a Codex pane is no claim of delivery. *)
Lemma codex_proves_nothing packet staged w w' t :
  send_packet env pane bead tick true packet staged w = (w', Ok t) → supports_delivery_claim t = false.
Proof.
  unfold send_packet. do 2 (rewrite stm_bind_ok; intros (? & ? & _ & Hr); revert Hr). by intros [= _ <-].
Qed.

Lemma poll_delivered i l packet codex t pre panes deadline s w w' stage :
  poll env pane bead receiver_agent tick i l packet codex t pre panes deadline s w = (w', Ok (inr (Delivered stage))) →
  acknowledged stage w w' ∧ transport stage = t ∧ supports_delivery_claim t = true.
Proof.
  unfold poll. goes w1 u1. goes w2 oc. destruct oc as [post capture].
  rewrite stm_bind_ok. intros (w3 & ack & Hack & Hr). revert Hr.
  set (stage' := assess _). destruct (is_confirmed stage') eqn:Hconf.
  - rewrite stm_bind_ok. intros (w4 & v & (-> & after & Hj)%confirm_delivered & Hr). injection Hr as <- <-.
    pose proof Hconf as Hc. apply assess_confirmed in Hc as (Hs & c & Hm). cbn [in_transport] in Hs.
    split; [|done]. eapply acknowledged_later; [done|].
    apply ack_read_ok in Hack as (o & read & Ht & Hack).
    cbn [AckStage.ack in_bead_id in_pane_id session_pane_ids] in Hm.
    pose proof (newest_ack_wins ack bead pane panes) as [Hown _]. pose proof Hm as (_ & k & cm & Hnew & <-)%Hown.
    exists [], after, w3, o, read, ack, panes, k, cm. destruct Hack as (? & ? & ? & ?).
    split_and!; [done..|]. unfold stage', assess. cbn [ack_comment]. cbn [AckStage.ack in_bead_id in_pane_id session_pane_ids]. by rewrite Hm.
  - rewrite stm_bind_ok. intros (w4 & s4 & _ & Hr). revert Hr.
    destruct (_ && _); [done|]. rewrite stm_bind_ok. intros (w5 & now & _ & Hr). revert Hr.
    destruct (_ || _); rewrite stm_bind_ok; [|by intros (? & ? & _ & ?)].
    intros (w6 & v & Hexp & Hr). injection Hr as _ ->. exfalso. revert Hexp. unfold expire.
    do 8 (rewrite stm_bind_ok; intros (? & ? & _ & Hr); revert Hr). done.
Qed.

Lemma loop_delivered fuel : ∀ i l packet codex t pre panes deadline s w w' stage,
  verify_loop env pane bead receiver_agent tick fuel i l packet codex t pre panes deadline s w = (w', Ok (Some (Delivered stage))) →
  acknowledged stage w w' ∧ transport stage = t ∧ supports_delivery_claim t = true.
Proof.
  induction fuel as [|fuel IH]; intros *; [done|]. cbn [verify_loop]. rewrite stm_bind_ok.
  intros (w1 & [s'|v] & Hp & Hr).
  - apply IH in Hr as (Hack & Hr). split; [|done]. eapply acknowledged_later; [|done].
    by eapply (effects_run any), Hp; apply any_poll.
  - injection Hr as -> ->. by eapply poll_delivered.
Qed.

(** A phase that ends in a packet over ntm asked the pane, and it was not a Codex agent's. *)
Lemma phase_codex p s before adm count w w' i l packet codex t pre :
  send_phase env pane bead receiver_agent tick p s before adm count w = (w', Ok (i, l, packet, codex, t, pre)) →
  supports_delivery_claim t = true →
  ∃ wc wc', extends any w wc ∧ receiver_is_codex env pane wc = (wc', Ok false) ∧ extends any wc' w'.
Proof.
  intros Hphase Hs. revert Hphase. unfold send_phase.
  goes w1 x1. goes w2 x2. goes w3 x3. goes w4 x4. goes w5 x5. goes w6 x6. goes w7 x7.
  goes w8 x8. destruct x8 as [i0 l0]. goes w9 x9. goes wc x10.
  rewrite stm_bind_ok. intros (wc' & is_codex & Hcodex & Hr). revert Hr.
  assert (extends any wc' wc') as Hrest by done.
  rewrite stm_bind_ok. intros (wt & t' & Hsend & Hr). pose proof Hsend as Hgo%(effects_run any); [revert Hr|apply any_packet].
  goes w13 x13. goes w14 x14. intros [= <- -> -> -> -> -> _].
  destruct codex; [by apply codex_proves_nothing in Hsend; congruence|]. by exists wc, wc'.
Qed.
End Meaning.

(** ** The loop ends. *)

Lemma verify_loop_unfold `{SerdeJson, ToJson, Unicode, BrShowDecode, Host} env pane bead agent tick fuel i l packet codex t pre panes deadline s :
  verify_loop env pane bead agent tick (S fuel) i l packet codex t pre panes deadline s =
  (r ← poll env pane bead agent tick i l packet codex t pre panes deadline s;
   match r with
   | inr v => mret (Some v)
   | inl s => verify_loop env pane bead agent tick fuel i l packet codex t pre panes deadline s
   end).
Proof. done. Qed.

Section Ends.
Context `{SerdeJson, ToJson, Unicode, BrShowDecode, Host} (env : Env).
Notation cfg := (e_cfg env).
Context (pane bead receiver_agent : string) (tick : N).

(** A clock that never runs backwards and has moved by the sleep when the sleep is over. *)
Definition steady_clock : Prop :=
  (∀ e t, e_instant env t <= e_instant env (e :: t))%N ∧
  (∀ t, e_instant env t + RECEIPT_POLL_MS <= e_instant env (ESleep :: t))%N.
Context (Hclock : steady_clock).
Definition at_instant (w : RWorld) : N := e_instant env (r_trace w).

Lemma instant_extends P w w' : extends P w w' → (at_instant w <= at_instant w')%N.
Proof.
  intros (t & Ht & _). unfold at_instant. rewrite Ht. clear Ht. induction t as [|e t IH]; [done|].
  cbn. etrans; [apply IH|]. apply Hclock.
Qed.

Hint Resolve any_recover : effects.

(** One step of a run that went on: no time was lost. *)
Ltac passes w' x :=
  rewrite stm_bind_ok;
  let Hm := fresh in let Hr := fresh in let Hle := fresh in
  intros (w' & x & Hm & Hr); revert Hr;
  lazymatch type of Hm with ?m ?w = _ =>
    assert (at_instant w <= at_instant w')%N as Hle;
    [ let Heff := fresh in assert (Effects any m) as Heff by (auto with effects || (effects_walk; auto with effects));
      specialize (Heff w); rewrite Hm in Heff; by apply instant_extends in Heff
    | ]
  end.

(** One more poll: time has passed, and the window was still open. *)
Lemma poll_waits i l packet codex t pre panes deadline s w w' s' :
  poll env pane bead receiver_agent tick i l packet codex t pre panes deadline s w = (w', Ok (inl s')) →
  (at_instant w + RECEIPT_POLL_MS <= at_instant w')%N ∧ (at_instant w < deadline)%N.
Proof.
  unfold poll. passes w1 u1. passes w2 o2. destruct o2 as [post capture]. passes w3 ak.
  set (stage := assess _). destruct (is_confirmed stage); [rewrite stm_bind_ok; by intros (? & ? & _ & ?)|].
  passes w4 s4. destruct (_ && _); [done|].
  rewrite stm_bind_ok. intros (w5 & now & Hnow & Hr). revert Hr. injection Hnow as <- <-.
  destruct (_ || _) eqn:Hend; [rewrite stm_bind_ok; by intros (? & ? & _ & ?)|].
  apply orb_false_iff in Hend as [_ Hend%N.leb_gt].
  rewrite stm_bind_ok. intros (w6 & [] & Hsleep & Hr). injection Hr as <- _. injection Hsleep as <-.
  pose proof (proj2 Hclock (r_trace w4)). unfold at_instant in *. cbn [log r_trace]. lia.
Qed.

Lemma loop_ends fuel : ∀ i l packet codex t pre panes deadline s w w',
  (deadline <= at_instant w + RECEIPT_POLL_MS * N.of_nat fuel)%N →
  verify_loop env pane bead receiver_agent tick (S fuel) i l packet codex t pre panes deadline s w ≠ (w', Ok None).
Proof.
  induction fuel as [|fuel IH]; intros * Hd Hr; revert Hr; rewrite verify_loop_unfold, stm_bind_ok;
    intros (w1 & [s'|v] & Hp & Hr); try done; apply poll_waits in Hp as [Hw Hlt]; [lia|].
  revert Hr. apply IH. lia.
Qed.
End Ends.

Lemma verify_loop_more `{SerdeJson, ToJson, Unicode, BrShowDecode, Host} env pane bead agent tick fuel :
  ∀ i l packet codex t pre panes deadline s w w' r m,
  verify_loop env pane bead agent tick fuel i l packet codex t pre panes deadline s w = (w', r) → r ≠ Ok None → (fuel <= m)%nat →
  verify_loop env pane bead agent tick m i l packet codex t pre panes deadline s w = (w', r).
Proof.
  induction fuel as [|fuel IH]; intros * Hr Hn Hm; [by injection Hr as <- <-|].
  destruct m as [|m]; [lia|]. revert Hr. rewrite !verify_loop_unfold. unfold mbind, stm_bind.
  destruct (poll _ _ _ _ _ _ _ _ _ _ _ _ _ _ w) as [w1 [[s'|v]|e]]; try done.
  intros Hr. apply (IH _ _ _ _ _ _ _ _ _ _ _ _ _ Hr Hn). lia.
Qed.

(** From [n] units of fuel on, the run has one outcome, and it is not the want of fuel. *)
Definition settled {A} (n : nat) (f : nat → RM (option A)) (w : RWorld) : Prop :=
  ∃ w' r, r ≠ Ok None ∧ ∀ fuel, (n <= fuel)%nat → f fuel w = (w', r).
Lemma settled_bind {A B} n (m : RM A) (f : nat → A → RM (option B)) w :
  (∀ w' a, m w = (w', Ok a) → settled n (λ k, f k a) w') → settled n (λ k, m ≫= f k) w.
Proof.
  intros Hf. unfold settled, mbind, stm_bind. destruct (m w) as [w' [a|e]] eqn:Hm.
  - destruct (Hf _ _ eq_refl) as (w2 & r & Hn & Hr). by exists w2, r.
  - by exists w', (Err e).
Qed.

(** ** The properties of a dispatch. *)

Section Dispatch.
Context `{SerdeJson, ToJson, Unicode, BrShowDecode, Host} (env : Env).
Notation cfg := (e_cfg env).

(** C3: whatever the panes, commands, clocks and faults do, one dispatch puts the packet
    into a pane at most once plus once per retry the acknowledgement stage allows, four
    times in all. *)
Theorem sends_bounded pane bead agent tick fuel p s before adm count w :
  (sends (send_and_verify env pane bead agent tick fuel p s before adm count w).1 <= sends w + 4)%nat.
Proof.
  pose proof (send_and_verify_sends env pane bead agent tick fuel p s before adm count w) as Hs.
  change (N.to_nat MAX_RETRY_ATTEMPTS) with 3%nat in Hs. destruct Hs as [Hs%extends_quiet|[_ Hs]]; lia.
Qed.

(** C7: a run either puts nothing into a pane, or it first of all read the bead's status
    from the tracker and found it open or in progress, then, having sent nothing, got the
    dispatch row accepted by the lifecycle ledger, and directly after that had the pane's
    incarnation admitted; whatever it sent it sent after that. *)
Theorem nothing_sent_unjournaled pane bead agent tick fuel p s before adm count w :
  runs (send_and_verify env pane bead agent tick fuel p s before adm count) w (λ w' _,
    extends quiet w w' ∨ sent_after_journal env pane bead w w').
Proof.
  pose proof (send_and_verify_sends env pane bead agent tick fuel p s before adm count w) as [?|[? _]]; [by left|by right].
Qed.

(** C15: a dispatch reported as delivered read, in this run, the tracker's comments on the
    bead, and the newest acknowledgement among them was this pane's own; the last thing the
    run did is the receiver row, and the lifecycle ledger accepted it; the packet went over
    ntm's send, and the pane, asked in this run, was not one of a Codex agent, whose typed
    packet never is a delivery. *)
Theorem delivered_is_acknowledged pane bead agent tick fuel p s before adm count w :
  runs (send_and_verify env pane bead agent tick fuel p s before adm count) w (λ w' r,
    ∀ stage, r = Ok (Some (Delivered stage)) →
      acknowledged env pane bead stage w w' ∧ kind (transport stage) = KNtmRobotSend ∧
      ∃ wc wc', extends any w wc ∧ receiver_is_codex env pane wc = (wc', Ok false) ∧ extends any wc' w').
Proof.
  unfold runs. destruct (send_and_verify _ _ _ _ _ _ _ _ _ _ _ w) as [w' r] eqn:Hr. cbn [fst snd].
  intros stage ->. revert Hr. unfold send_and_verify. rewrite stm_bind_ok.
  intros (w1 & [[[[[i l] packet] codex] t] pre] & Hphase & Hr). revert Hr.
  rewrite stm_bind_ok. intros (w2 & start & [= <- <-] & Hr). revert Hr. rewrite stm_bind_ok.
  intros (w3 & panes & Hb3%(effects_run any) & Hr); [|by auto with effects].
  pose proof Hr as Hb4%(effects_run any); [|apply any_loop].
  apply loop_delivered in Hr as (Hack & <- & Hs).
  pose proof Hphase as Hcodex. eapply phase_codex in Hcodex as (wc & wc' & Hc & Hcodex & Hc'); [|done].
  split.
  { pose proof Hcodex as Hasked%(effects_run any); [|by auto with effects].
    eapply acknowledged_later, Hack. do 3 (etrans; [done|]). done. }
  split; [unfold supports_delivery_claim in Hs; by destruct (kind (transport stage))|].
  exists wc, wc'. split_and!; [done..|]. do 2 (etrans; [done|]). done.
Qed.

(** C8: with a clock that does not run backwards and that has moved by the poll interval
    when a sleep is over, the verification ends within 361 polls, whatever the panes,
    commands and faults do, and no more polls are ever made. *)
Theorem send_terminates pane bead agent tick p s before adm count w :
  steady_clock env →
  ∃ w' r, r ≠ Ok None ∧
    ∀ fuel, (361 <= fuel)%nat → send_and_verify env pane bead agent tick fuel p s before adm count w = (w', r).
Proof.
  intros Hclock. apply (settled_bind 361 _ (λ fuel '(i, l, packet, codex, t, pre), _)).
  intros w1 [[[[[i l] packet] codex] t] pre] _. apply (settled_bind 361 _ (λ fuel start, _)).
  intros w2 start [= <- <-]. apply (settled_bind 361 _ (λ fuel panes, _)). intros w3 panes Hp.
  assert (at_instant env w1 <= at_instant env w3)%N as Hle.
  { apply (instant_extends _ Hclock any). assert (Effects any (session_panes env pane)) as He by (apply quiet_panes; done).
    specialize (He w1). by rewrite Hp in He. }
  destruct (verify_loop env pane bead agent tick 361 i l packet codex t pre panes
              (e_instant env (r_trace w1) + RECEIPT_TIMEOUT_MS) poll_start w3) as [w' r] eqn:Hr.
  assert (r ≠ Ok None) as Hn.
  { intros ->. revert Hr. apply loop_ends; [done|]. unfold at_instant in *.
    change RECEIPT_TIMEOUT_MS with 90000%N. change RECEIPT_POLL_MS with 250%N. lia. }
  exists w', r. split; [done|]. intros fuel Hf. by eapply verify_loop_more.
Qed.
End Dispatch.

(** ** A concrete clock, and a concrete run. *)

Section Example.
(** A codec that the run can be evaluated with: strings, arrays and objects are preceded by
    their lengths. *)
Definition enc_len (c : string) (n : N) : string := c +:+ show_N n +:+ ":".
Definition enc_str (s : string) : string := enc_len "S" (N.of_nat (String.length s)) +:+ s.
Fixpoint enc (v : Json) : string :=
  match v with
  | JNull => "-" | JBool b => if b then "T" else "F"
  | JNumber (PosInt n) => enc_len "N" n
  | JNumber _ => "?"
  | JString s => enc_str s
  | JArray l => enc_len "A" (N.of_nat (length l)) +:+ String.concat "" (map enc l)
  | JObject l => enc_len "O" (N.of_nat (length l)) +:+ String.concat "" (map (λ '(k, v), enc_str k +:+ enc v) l)
  end.
Definition dec_len (s : string) : option (N * string) :=
  '(d, rest) ← split_once ":" s; n ← parse_u64 d; Some (n, rest).
Definition dec_str (s : string) : option (string * string) :=
  '(n, rest) ← dec_len s;
  let n := N.to_nat n in
  Some (String.substring 0 n rest, String.substring n (String.length rest - n) rest).
Definition dec_many {A} (one : string → option (A * string)) : nat → string → option (list A * string) :=
  fix go n s := match n with
                | O => Some ([], s)
                | S n => '(a, s) ← one s; '(l, s) ← go n s; Some (a :: l, s)
                end.
Fixpoint dec (fuel : nat) (s : string) : option (Json * string) :=
  match fuel, s with
  | S fuel, String c rest =>
      match String c EmptyString with
      | "-" => Some (JNull, rest) | "T" => Some (JBool true, rest) | "F" => Some (JBool false, rest)
      | "N" => '(n, r) ← dec_len rest; Some (JNumber (PosInt n), r)
      | "S" => '(t, r) ← dec_str rest; Some (JString t, r)
      | "A" => '(n, r) ← dec_len rest; '(l, r) ← dec_many (dec fuel) (N.to_nat n) r; Some (JArray l, r)
      | "O" => '(n, r) ← dec_len rest;
               '(l, r) ← dec_many (λ s, s ← strip_prefix "S" s; '(k, s) ← dec_str s; '(v, s) ← dec fuel s; Some ((k, v), s))
                           (N.to_nat n) r;
               Some (JObject l, r)
      | _ => None
      end
  | _, _ => None
  end.
#[local] Instance ex_serde : SerdeJson := λ s, match dec 20 s with Some (v, EmptyString) => Some v | _ => None end.
#[local] Instance ex_to_json : ToJson := enc.
#[local] Instance ex_unicode : Unicode := ascii_only.
#[local] Instance ex_host : Host := {|
  host_json_error := λ _, "json"; host_hash := λ s, N.of_nat (String.length s);
  host_object_text := λ _ _ _ _ _, "{}"; host_sha256 := λ _, "sha"; host_debug_admission := λ _, "refused" |}.
#[local] Instance ex_decode : BrShowDecode := λ _,
  Ok (Row (MkBrShowRow "omp-7" "Fix the reader" "" (Some "exit 0 from cargo test") "in_progress"
             (Some "pane=%7;incarnation=3;agent=Moss"))).

Definition ex_activity : Json :=
  JObject [("success", JBool true);
    ("agents", JArray [JObject [("pane", JString "%7"); ("agent_type", JString "codex");
       ("output_sequence", JObject [("epoch", JString "e1"); ("sequence", JNumber (PosInt 7)); ("changed_at", JString "t")])]])].

(** A clock that only sleeping moves. *)
Definition slept (t : list Effect) : N := 250 * N.of_nat (length (List.filter (λ e, bool_decide (e = ESleep)) t)).
(** The pane [%7], a Codex pane that answers every capture with the same text. *)
Definition codex_answers (screen : string) (t : list Effect) : RunAnswer :=
  let out s := Exited (MkOutput (Some 0%Z) s "") in
  match t with
  | ERun "tmux" ("display-message" :: _) :: _ => out "codex"
  | ERun "tmux" ("list-panes" :: _) :: _ => out "%7"
  | ERun "tmux" ("capture-pane" :: _) :: _ => out screen
  | ERun "ntm" _ :: _ => out (enc ex_activity)
  | ERun "br" ("comments" :: _) :: _ => out (enc (JArray []))
  | _ => out ""
  end.
Definition sleeping_env (screen : string) : Env := calm_env (codex_answers screen) slept.
Lemma sleeping_env_steady screen : steady_clock (sleeping_env screen).
Proof.
  split; intros; change (e_instant (sleeping_env screen)) with slept; unfold slept, RECEIPT_POLL_MS; cbn [List.filter].
  - case_bool_decide; cbn [length]; lia.
  - rewrite bool_decide_true by done. cbn [length]. lia.
Qed.
Definition ex_snapshot : BeadSnapshot :=
  MkSnapshot "omp-7" "Fix the reader" "" "exit 0 from cargo test" InProgress (Some "pane=%7;incarnation=3;agent=Moss").
Definition ex_run (screen : string) (fuel : nat) : RWorld * result string (option SendVerdict) :=
  send_and_verify (sleeping_env screen) "%7" "omp-7" "Moss" 1 fuel ex_pane ex_snapshot screen
    (MkAdmission Packet.Work Allowed false "") 1 ex_world.
Definition journaled (w : RWorld) : list string := omap (λ e, match e with EJournal s true => Some s | _ => None end) (r_trace w).

(** A pane whose screen says nothing is sent to once, an idle one once more per retry. *)
Example unreadable_pane : let '(w, r) := ex_run "before" 361 in
  sends w = 1%nat ∧ journaled w = ["redispatch_required"; "dispatch_receipt"; "selected"] ∧
  r = Ok (Some (SAckPending 90 " discriminator=NO_WORKING_CAPTURE owes_human=unknown")).
Proof. vm_compute. auto. Qed.
Example idle_pane : let '(w, r) := ex_run "π" 361 in
  sends w = 4%nat ∧ journaled w = ["redispatch_required"; "dispatch_receipt"; "selected"] ∧
  r = Ok (Some (SAckPending 90 " discriminator=NO_WORKING_CAPTURE owes_human=unknown")).
Proof. vm_compute. auto. Qed.

Lemma send_terminates_witness :
  steady_clock (sleeping_env "π") ∧
  ∃ w' r, r ≠ Ok None ∧ ∀ fuel, (361 <= fuel)%nat →
    send_and_verify (sleeping_env "π") "%7" "omp-7" "Moss" 1 fuel ex_pane ex_snapshot "π"
      (MkAdmission Packet.Work Allowed false "") 1 ex_world = (w', r).
Proof. split; [apply sleeping_env_steady|]. apply (send_terminates (sleeping_env "π")). apply sleeping_env_steady. Defined.
End Example.
