(* ===== verification/OracleCompare.v ===== *)
(** * Two readers of one fact, compared

    oracle-compare/src/lib.rs compares the count or the set one reader reports with
    another's, and never takes an empty or unreadable arm for agreement;
    fleet-reconcile/src/lib.rs compares NTM's sessions with tmux's in the same spirit.
    The rules can be switched off one by one, to show that each one is needed. *)

From stdpp Require Import base numbers list option strings pretty gmap.
From Stdlib Require Import NArith ZArith Ascii Lia.
From S2P Require Import Prelude RustStr Order Json.

(** Iterating over a [BTreeSet]. *)
Definition btree_elems (s : gset string) : list string := sort_strings (elements s).
Definition set_len (s : gset string) : N := N.of_nat (size s).

(** [Debug] of a list of strings, for a [Debug] of one. *)
Definition debug_list (debug : string → string) (l : list string) : string :=
  "[" +:+ join ", " (map debug l) +:+ "]".

(** ** The comparator. *)

Inductive OracleCompareRule := DisagreeIsFinding | EmptyOracleIsError | UnreadableIsError | EmptyProductIsDisagreement.
Definition ALL : list OracleCompareRule :=
  [DisagreeIsFinding; EmptyOracleIsError; UnreadableIsError; EmptyProductIsDisagreement].
Definition compare_rule_str (r : OracleCompareRule) : string :=
  match r with
  | DisagreeIsFinding => "disagree_is_finding" | EmptyOracleIsError => "empty_oracle_is_error"
  | UnreadableIsError => "unreadable_is_error" | EmptyProductIsDisagreement => "empty_product_is_disagreement"
  end.
Definition compare_rule_parse (name : string) : option OracleCompareRule :=
  find_first (λ r, bool_decide (compare_rule_str r = name)) ALL.

Record OracleCompareRules := MkCompareRules {
  disagree_is_finding : bool; empty_oracle_is_error : bool; unreadable_is_error : bool;
  empty_product_is_disagreement : bool }.
Definition default_compare_rules : OracleCompareRules := MkCompareRules true true true true.
Definition compare_disable (name : string) (r : OracleCompareRules) : OracleCompareRules * bool :=
  let '(MkCompareRules d e u p) := r in
  match compare_rule_parse name with
  | None => (r, false)
  | Some DisagreeIsFinding => (MkCompareRules false e u p, true)
  | Some EmptyOracleIsError => (MkCompareRules d false u p, true)
  | Some UnreadableIsError => (MkCompareRules d e false p, true)
  | Some EmptyProductIsDisagreement => (MkCompareRules d e u false, true)
  end.

Inductive CountArm := CountUnreadable | CountValue (n : N).
Inductive SetArm := SetUnreadable | SetValue (s : gset string).
Inductive OracleCompareVerdict := Agree (n : N) | Disagree (oracle_n product_n : N) | Unmeasurable (why : string).
Definition compare_exit_code (v : OracleCompareVerdict) : Z :=
  match v with Agree _ => 0 | Disagree _ _ => 1 | Unmeasurable _ => 2 end.

Definition compare_counts (oracle product : CountArm) (session_visible : bool) (rules : OracleCompareRules)
    : OracleCompareVerdict :=
  match oracle, product with
  | CountUnreadable, _ | _, CountUnreadable =>
      if unreadable_is_error rules then Unmeasurable "unreadable_subject" else Agree 0
  | CountValue o, CountValue p =>
      if (o =? 0)%N && negb session_visible then
        if empty_oracle_is_error rules then Unmeasurable "session_not_visible" else Agree p
      else if (o =? 0)%N && (p =? 0)%N then Agree 0
      else if (o =? p)%N then Agree o
      else if disagree_is_finding rules then Disagree o p else Agree o
  end.

Definition compare_sets (oracle product : SetArm) (rules : OracleCompareRules) : OracleCompareVerdict :=
  match oracle, product with
  | SetUnreadable, _ | _, SetUnreadable =>
      if unreadable_is_error rules then Unmeasurable "unreadable_arm" else Agree 0
  | SetValue o, SetValue p =>
      if bool_decide (o = ∅) then
        if empty_oracle_is_error rules then Unmeasurable "empty_oracle" else Agree 0
      else if bool_decide (p = ∅) then
        if empty_product_is_disagreement rules then Disagree (set_len o) 0 else Agree (set_len o)
      else if bool_decide (o = p) then Agree (set_len o)
      else if disagree_is_finding rules then Disagree (set_len o) (set_len p) else Agree (set_len o)
  end.

Definition set_delta (oracle product : gset string) : list string * list string :=
  (btree_elems (oracle ∖ product), btree_elems (product ∖ oracle)).

(** One row is expected where something is ready. *)
Definition harvest_expect (ready : N) : N := if (0 <? ready)%N then 1 else 0.
Definition harvest_verdict (ready selected : N) (rules : OracleCompareRules) : OracleCompareVerdict :=
  compare_counts (CountValue (harvest_expect ready)) (CountValue selected) true rules.

(** ** Sessions (fleet-reconcile). *)

Definition FAIL_MODE : string := "fail_closed_on_ntm_tmux_disagree; fail_open_and_loud_on_ft_unavailable".
Definition RECONCILE_SCHEMA : string := "zs.fleet-reconcile.v1".

Inductive FleetReconcileRule := EmptySuccessFailsClosed | ListEmptyTextFailsClosed | NameSetsMustAgree | UnparseableIsFail.
Definition RECONCILE_ALL : list FleetReconcileRule :=
  [EmptySuccessFailsClosed; ListEmptyTextFailsClosed; NameSetsMustAgree; UnparseableIsFail].
Definition reconcile_rule_str (r : FleetReconcileRule) : string :=
  match r with
  | EmptySuccessFailsClosed => "empty_success_fails_closed" | ListEmptyTextFailsClosed => "list_empty_text_fails_closed"
  | NameSetsMustAgree => "name_sets_must_agree" | UnparseableIsFail => "unparseable_is_fail"
  end.
Definition reconcile_rule_parse (name : string) : option FleetReconcileRule :=
  find_first (λ r, bool_decide (reconcile_rule_str r = name)) RECONCILE_ALL.

Record FleetReconcileRules := MkReconcileRules {
  empty_success_fails_closed : bool; list_empty_text_fails_closed : bool; name_sets_must_agree : bool;
  unparseable_is_fail : bool }.
Definition default_reconcile_rules : FleetReconcileRules := MkReconcileRules true true true true.
Definition reconcile_disable (name : string) (r : FleetReconcileRules) : FleetReconcileRules * bool :=
  let '(MkReconcileRules e l n u) := r in
  match reconcile_rule_parse name with
  | None => (r, false)
  | Some EmptySuccessFailsClosed => (MkReconcileRules false l n u, true)
  | Some ListEmptyTextFailsClosed => (MkReconcileRules e false n u, true)
  | Some NameSetsMustAgree => (MkReconcileRules e l false u, true)
  | Some UnparseableIsFail => (MkReconcileRules e l n false, true)
  end.
Definition reconcile_known_names_csv : string := join ", " (map reconcile_rule_str RECONCILE_ALL).

Record InnerVerdict := MkInner {
  iv_detector : string; iv_verdict : string; iv_tmux : Z; iv_ntm : Z; iv_detail : string }.
Definition observe_blocks_dispatch (verdict : string) (rc : Z) : bool :=
  negb (rc =? 0)%Z || negb (bool_decide (verdict = "PASS")).
Definition exit_for (verdict : string) : Z := if bool_decide (verdict = "PASS") then 0 else 1.

(** *** Who started the run. *)

Record FleetReconcileInvoker := MkInvoker { fi_invoker : string; fi_proof : string }.
#[global] Instance FleetReconcileInvoker_eq_dec : EqDecision FleetReconcileInvoker.
Proof. solve_decision. Defined.
Definition MANUAL : FleetReconcileInvoker := MkInvoker "MANUAL" "unproven_parent".
Definition SCHEDULED : FleetReconcileInvoker := MkInvoker "SCHEDULED" "cron_parent".
Record FleetReconcileAncestorRow := MkAncestor { ar_uid : N; ar_ppid : N; ar_comm : string }.

Definition ancestor_row (line : string) : option FleetReconcileAncestorRow :=
  match split_whitespace line with
  | uid :: ppid :: comm :: _ => u ← parse_u32 uid; p ← parse_u32 ppid; Some (MkAncestor u p comm)
  | _ => None
  end.
Definition parse_ancestor_rows (text : string) : list FleetReconcileAncestorRow := omap ancestor_row (lines text).
Definition is_cron (row : FleetReconcileAncestorRow) : bool :=
  (ar_uid row =? 0)%N && (ar_ppid row =? 1)%N && bool_decide (ar_comm row = "/usr/sbin/cron").
Definition invoker_from_chain (chain : list FleetReconcileAncestorRow) : FleetReconcileInvoker :=
  if existsb is_cron chain then SCHEDULED else MANUAL.
Definition invoker_resolve_env (inv proof : string) (own_chain : list FleetReconcileAncestorRow) : FleetReconcileInvoker :=
  if bool_decide (inv = "SCHEDULED") && bool_decide (proof = "cron_parent") then
    if bool_decide (invoker_from_chain own_chain = SCHEDULED) then SCHEDULED else MANUAL
  else invoker_from_chain own_chain.

(** *** The verdict. *)

Definition parse_session_names (text : string) : gset string :=
  list_to_set (List.filter (λ l, negb (is_empty l)) (map trim (lines text))).

Section Reconcile.
Context `{SerdeJson} (debug : string → string).

Definition is_true (v : option Json) : bool := match v with Some (JBool true) => true | _ => false end.
Definition classify_ft (raw : string) : string :=
  if is_empty (trim raw) then "unavailable"
  else match from_str raw with
       | Some d => if is_true (json_get "ok" d) then "ok" else "degraded"
       | None => "degraded"
       end.

Definition fail (detector detail : string) (tmux ntm : gset string) (actually_fail : bool) : InnerVerdict :=
  let t := Z.of_nat (size tmux) in let n := Z.of_nat (size ntm) in
  if actually_fail then MkInner detector "FAIL" t n detail
  else MkInner "ntm_tmux_agree" "PASS" t n "mutation disabled this fail-closed detector".

(** [as_i64], and a larger count as its two's complement. *)
Definition total_sessions (snap : Json) : option Z :=
  let v := json_get "total_sessions" (default JNull (json_get "summary" snap)) in
  match v ≫= as_i64 with
  | Some z => Some z
  | None => (λ n, Z.of_N n - 2 ^ 64)%Z <$> (v ≫= as_u64)
  end.
Definition session_name (row : Json) : option string :=
  n ← json_get "name" row ≫= as_str; if is_empty n then None else Some n.
Definition snapshot_names (snap : Json) : gset string :=
  match json_get "sessions" snap with Some (JArray rows) => list_to_set (omap session_name rows) | _ => ∅ end.

Definition show_total (t : option Z) : string := match t with Some z => pretty z | None => "None" end.

Definition reconcile_object (tmux : gset string) (list_text : string) (snap : Json) (rules : FleetReconcileRules)
    : InnerVerdict :=
  let successish := is_true (json_get "success" snap) || is_true (json_get "ok" snap) in
  let total := total_sessions snap in
  let ntm := snapshot_names snap in
  let live := negb (bool_decide (tmux = ∅)) in
  if list_empty_text_fails_closed rules && contains (to_ascii_lowercase list_text) "no tmux sessions" && live then
    fail "ntm_list_empty_text"
      ("ntm list printed empty-fleet text while tmux has " +:+ show_N (set_len tmux)
       +:+ " session(s); exit-code checks cannot see this") tmux ntm true
  else
    let empty_success :=
      successish && (bool_decide (total = Some 0%Z) || (bool_decide (total = None) && bool_decide (ntm = ∅))) && live in
    if empty_success_fails_closed rules && empty_success then
      fail "ntm_empty_success_with_live_tmux"
        ("ntm --robot-snapshot success/ok with total_sessions=" +:+ show_total total +:+ " names=" +:+ show_N (set_len ntm)
         +:+ " while tmux has " +:+ show_N (set_len tmux) +:+ " live session(s)") tmux ntm true
    else if name_sets_must_agree rules && negb (bool_decide (ntm = tmux)) then
      fail "ntm_tmux_disagree"
        ("session name sets differ; only_tmux=" +:+ debug_list debug (btree_elems (tmux ∖ ntm))
         +:+ " only_ntm=" +:+ debug_list debug (btree_elems (ntm ∖ tmux))) tmux ntm true
    else MkInner "ntm_tmux_agree" "PASS" (Z.of_nat (size tmux)) (Z.of_nat (size ntm))
           ("ntm and tmux agree on " +:+ show_N (set_len tmux) +:+ " session(s)").

Definition reconcile_inner (tmux_text list_text snap_raw : string) (rules : FleetReconcileRules) : InnerVerdict :=
  let tmux := parse_session_names tmux_text in
  let unparseable detail := fail "ntm_snapshot_unparseable" detail tmux ∅ (unparseable_is_fail rules) in
  if is_empty (trim snap_raw) then unparseable "ntm --robot-snapshot was not a JSON object"
  else match from_str snap_raw with
       | None => unparseable "ntm --robot-snapshot did not parse as JSON"
       | Some (JObject o) => reconcile_object tmux list_text (JObject o) rules
       | Some _ => unparseable "ntm --robot-snapshot was not a JSON object"
       end.

Definition emit_envelope (inner : InnerVerdict) (ft_status invoker invoker_proof : string) : Json :=
  let number z := JNumber (if (0 <=? z)%Z then PosInt (Z.to_N z) else NegInt z) in
  jobj [("detail", JString (if bool_decide (ft_status = "ok") then iv_detail inner
           else iv_detail inner +:+ "; FT " +:+ ft_status +:+ " (fail-open-and-loud: NTM remains dispatch authority)"));
        ("detector", JString (iv_detector inner)); ("fail_mode", JString FAIL_MODE);
        ("ft_status", JString ft_status); ("invoker", JString invoker); ("invoker_proof", JString invoker_proof);
        ("ntm_count", number (iv_ntm inner)); ("schema", JString RECONCILE_SCHEMA);
        ("tmux_count", number (iv_tmux inner)); ("verdict", JString (iv_verdict inner))].
End Reconcile.

(** ** Agreement is never vacuous. *)

(** The sets agree exactly when both arms are readable, are the same set, and hold
    something; the verdict then counts it. *)
Theorem compare_agrees_iff oracle product n :
  compare_sets oracle product default_compare_rules = Agree n ↔
  ∃ s, s ≠ ∅ ∧ oracle = SetValue s ∧ product = SetValue s ∧ n = set_len s.
Proof.
  unfold compare_sets. cbn. split.
  - destruct oracle as [|o], product as [|p]; try done. repeat case_bool_decide; try done. intros [= <-]. subst. eauto.
  - intros (s & Hs & -> & -> & ->). by rewrite bool_decide_false, (bool_decide_true (s = s)).
Qed.

Lemma compare_counts_agrees_iff oracle product visible n :
  compare_counts oracle product visible default_compare_rules = Agree n ↔
  oracle = CountValue n ∧ product = CountValue n ∧ (n = 0%N → visible = true).
Proof.
  unfold compare_counts. cbn. split.
  - destruct oracle as [|o], product as [|p]; try done. destruct visible; cbn; rewrite ?andb_false_r, ?andb_true_r.
    + destruct (N.eqb_spec o 0), (N.eqb_spec p 0), (N.eqb_spec o p); cbn; try done; intros [= <-]; subst; split_and!; congruence.
    + destruct (N.eqb_spec o 0), (N.eqb_spec p 0), (N.eqb_spec o p); cbn; try done; intros [= <-]; subst; split_and!; congruence.
  - intros (-> & -> & Hv). destruct (N.eqb_spec n 0) as [->|Hn]; [by rewrite Hv|]. cbn. by rewrite N.eqb_refl.
Qed.

(** Under the default rules NTM passes exactly when its snapshot is an object, its list
    does not call a live fleet empty, it does not report success over no session while
    tmux has some, and it names the sessions tmux has. *)
Theorem reconcile_passes_iff `{SerdeJson} debug tmux_text list_text snap_raw :
  iv_verdict (reconcile_inner debug tmux_text list_text snap_raw default_reconcile_rules) = "PASS" ↔
  let tmux := parse_session_names tmux_text in
  trim snap_raw ≠ "" ∧ ∃ o, from_str snap_raw = Some (JObject o) ∧ snapshot_names (JObject o) = tmux ∧
    (tmux ≠ ∅ → contains (to_ascii_lowercase list_text) "no tmux sessions" = false ∧
       (is_true (json_get "success" (JObject o)) || is_true (json_get "ok" (JObject o)) = true →
        total_sessions (JObject o) ≠ Some 0%Z)).
Proof.
  cbv zeta. unfold reconcile_inner. destruct (is_empty (trim snap_raw)) eqn:He.
  { cbn. split; [done|]. intros [Hne _]. by destruct (trim snap_raw). }
  assert (trim snap_raw ≠ "") as Hne by by destruct (trim snap_raw).
  destruct (from_str snap_raw) as [[| | | | |o]|] eqn:Hf; try (cbn; split; [done|naive_solver]).
  set (tmux := parse_session_names tmux_text). unfold reconcile_object.
  cbn [default_reconcile_rules list_empty_text_fails_closed empty_success_fails_closed name_sets_must_agree andb].
  set (ok := is_true _ || is_true _). set (ntm := snapshot_names _).
  assert (∀ (a b c : bool) x y z v, iv_verdict v = "PASS" → iv_verdict x = "FAIL" → iv_verdict y = "FAIL" → iv_verdict z = "FAIL" →
    iv_verdict (if a then x else if b then y else if c then z else v) = "PASS" ↔ a = false ∧ b = false ∧ c = false) as Hcases.
  { intros a b c x y z v Hv Hx Hy Hz. destruct a, b, c; rewrite ?Hv, ?Hx, ?Hy, ?Hz; naive_solver. }
  rewrite Hcases by done. rewrite negb_false_iff, bool_decide_eq_true, !andb_false_iff, orb_false_iff, andb_false_iff,
    negb_false_iff, bool_decide_eq_true, !bool_decide_eq_false.
  split.
  - intros (Hl & Hs & Hn). split; [done|]. exists o. split_and!; [done..|]. intros Ht. fold ok. split; [naive_solver|].
    intros Hok. rewrite Hok in Hs. naive_solver.
  - intros [_ (o' & [= <-] & Hn & Hl)]. fold ntm ok in Hn, Hl. destruct (decide (tmux = ∅)) as [|Ht]; [by auto|].
    destruct (Hl Ht) as [Hc Hz]. split_and!; [by left| |done].
    destruct ok; [|by auto]. left; right. split; [by apply Hz|]. right. congruence.
Qed.
