(* ===== verification/Refill.v ===== *)
(** * Which idle panes may be refilled, and with what

    refill-idle-panes/src/lib.rs reads two surfaces, NTM's activity report and the
    readiness oracle, and joins them pane by pane with three values: only a pane both
    call idle is capacity, and one that cannot be observed is never called busy.  The
    beads come from the ranked recommendations or from the ready queue, and the pairing
    of panes with beads is a proposal, never an order.  Maps and sets iterate in the order
    of their keys. *)

From stdpp Require Import base numbers list option strings pretty gmap sorting.
From Stdlib Require Import NArith ZArith Ascii SpecFloat Lia.
From S2P Require Import Prelude RustStr Order Json Activity OracleCompare QueueSelect.

(** ** One surface. *)

Inductive PaneReading := Idle | Busy | Unknown.
#[global] Instance PaneReading_eq_dec : EqDecision PaneReading.
Proof. solve_decision. Defined.
Definition reading_str (o : PaneReading) : string :=
  match o with Idle => "idle" | Busy => "busy" | Unknown => "unknown" end.
Definition is_confident (o : PaneReading) : bool := negb (bool_decide (o = Unknown)).

Record SurfaceView := MkView { sv_panes : gmap string PaneReading; coverage_not_spoken : N }.
Definition roster (v : SurfaceView) : gset string := dom (sv_panes v).
Definition confident (v : SurfaceView) : gset string := dom (filter (λ po, is_confident po.2 = true) (sv_panes v)).
Definition reading (v : SurfaceView) (pane : string) : PaneReading := default Unknown (sv_panes v !! pane).

Section Parse.
Context `{SerdeJson, ToJson}.

Definition pane_id (v : option Json) : option string :=
  match v with Some (JString s) => Some s | Some (JNumber n) => Some (to_string (JNumber n)) | _ => None end.

Definition evidence_is_live (agent : Json) : bool :=
  bool_decide (lower_field "capture_provenance" agent = Some "live")
  && bool_decide (lower_field "observation_freshness" agent = Some "fresh").

(** [state] and [confidence] are not consulted. *)
Definition activity_observation (agent : Json) : PaneReading :=
  if negb (evidence_is_live agent) then Unknown
  else match json_get "observation_state" agent ≫= as_str with
       | Some s => if bool_decide (s = "idle") then Idle else if bool_decide (s = "working") then Busy else Unknown
       | None => Unknown
       end.

(** The rows in order: a later row of a pane replaces the earlier one. *)
Definition view_of (observation : Json → PaneReading) (rows : list Json) : gmap string PaneReading :=
  foldl (λ m row, match pane_id (json_get "pane" row) with
                  | Some p => <[p := observation row]> m
                  | None => m
                  end) ∅ rows.

Definition parse_activity_view (text : string) : option SurfaceView :=
  value ← from_str text;
  agents ← json_get "agents" value ≫= as_array;
  Some (MkView (view_of activity_observation agents) 0).

Definition roster_readability (stdout : string) : option string :=
  if is_empty (trim stdout) then None else Some stdout.

Inductive FreeConfirmation := Measured | Unmeasured | NotSpoken.
#[global] Instance FreeConfirmation_eq_dec : EqDecision FreeConfirmation.
Proof. solve_decision. Defined.
Definition free_confirmation (coverage : option string) : FreeConfirmation :=
  match coverage with
  | None => NotSpoken
  | Some c => if bool_decide (c = "measured_free") || bool_decide (c = "measured_limited") then Measured else Unmeasured
  end.
Definition row_confirmation (row : Json) : FreeConfirmation :=
  free_confirmation (json_get "rate_limit" row ≫= as_str).
Definition oracle_observation (row : Json) : PaneReading :=
  match json_get "state" row ≫= as_str with
  | Some s =>
      if bool_decide (s = "FREE") then
        match row_confirmation row with Measured | NotSpoken => Idle | Unmeasured => Unknown end
      else if bool_decide (s = "BUSY") || bool_decide (s = "NO_AGENT") then Busy else Unknown
  | None => Unknown
  end.
Definition not_spoken (row : Json) : bool :=
  match pane_id (json_get "pane" row) with Some _ => bool_decide (row_confirmation row = NotSpoken) | None => false end.
Definition parse_oracle_view (text : string) : option SurfaceView :=
  value ← from_str text;
  entries ← json_get "panes" value ≫= as_array;
  Some (MkView (view_of oracle_observation entries) (N.of_nat (length (List.filter not_spoken entries)))).

Definition coverage_inertia_notice (oracle : SurfaceView) : option string :=
  let rows := N.of_nat (size (sv_panes oracle)) in
  if (rows =? 0)%N || negb (coverage_not_spoken oracle =? rows)%N then None
  else Some ("refill: GUARD_INERT detector=rate_limit_coverage rows=" +:+ show_N rows +:+ " not_spoken=" +:+ show_N rows
    +:+ " why=no oracle row carried `rate_limit`, so the installed pane-dispatch-ready predates 8557c07 and the rate-limit withholding fired on nothing probe=`pane-dispatch-ready <session> --json | head -c 400` remedy=reinstall pane-dispatch-ready; until then every FREE above is unconfirmed on the rate-limit axis").
End Parse.

(** ** Both surfaces. *)

Inductive Resolution := Dispatch | Hold | Conflict | Unconfirmed | Unknowable.
#[global] Instance Resolution_eq_dec : EqDecision Resolution.
Proof. solve_decision. Defined.
Definition resolution_str (r : Resolution) : string :=
  match r with
  | Dispatch => "dispatch" | Hold => "hold" | Conflict => "conflict" | Unconfirmed => "unconfirmed"
  | Unknowable => "unknowable"
  end.
Definition resolve (activity oracle : PaneReading) : Resolution :=
  match activity, oracle with
  | Idle, Idle => Dispatch
  | Idle, Busy | Busy, Idle => Conflict
  | Idle, Unknown | Unknown, Idle => Unconfirmed
  | Unknown, Unknown => Unknowable
  | _, _ => Hold
  end.

(** ** Exclusions. *)

Record PaneRow := MkPaneRow { pr_pane_id : string; pr_session : string; pr_index : string }.
Definition pane_row_of (line : string) : option PaneRow :=
  match split_whitespace line with
  | pane_id :: session :: index :: _ =>
      if negb (starts_with pane_id "%") || bool_decide (parse_u64 index = None) then None
      else Some (MkPaneRow pane_id session index)
  | _ => None
  end.
Definition parse_pane_table (text : string) : option (list PaneRow) :=
  match omap pane_row_of (lines text) with [] => None | rows => Some rows end.
Definition session_of_pane (rows : list PaneRow) (pane_id : string) : option string :=
  pr_session <$> find_first (λ r, bool_decide (pr_pane_id r = pane_id)) rows.
Definition session_is_live (rows : list PaneRow) (session : string) : bool :=
  existsb (λ r, bool_decide (pr_session r = session)) rows.
Definition index_map (rows : list PaneRow) (session : string) : gmap string string :=
  foldl (λ m r, if bool_decide (pr_session r = session) then <[pr_pane_id r := pr_index r]> m else m) ∅ rows.
Definition pane_index_map (rows : list PaneRow) (session : string) : option (gmap string string) :=
  let m := index_map rows session in if bool_decide (m = ∅) then None else Some m.

Record ExclusionSet := MkExclusions { ex_indices : gset string; ex_unmatched : list string }.
Definition unmeasurable_spec (spec : string) : string :=
  "refill: UNMEASURABLE detector=pane_index_map spec=" +:+ spec
  +:+ " why=an exclusion named a tmux pane id and the pane table was unreadable probe=`tmux list-panes -a -F '#{pane_id} #{session_name} #{pane_index}'` remedy=an unresolvable exclusion is not an absent exclusion; refusing rather than proposing the pane the exclusion exists to protect".
Definition usage_spec (spec : string) : string :=
  "refill: usage detector=exclude_pane spec=" +:+ spec
  +:+ " why=neither a tmux pane id (`%6`) nor a pane index (`1`) remedy=an unparsed exclusion would silently exclude nothing; pass the shape `tick-monitor watch --exclude-pane %6` uses, or the index the rosters key on".
Definition exclude_step (pane_map : option (gmap string string)) (set : ExclusionSet) (raw : string)
    : result string ExclusionSet :=
  let spec := trim raw in
  if is_empty spec then Ok set
  else if starts_with spec "%" then
    match pane_map with
    | None => Err (unmeasurable_spec spec)
    | Some m => Ok match m !! spec with
                   | Some index => MkExclusions ({[ index ]} ∪ ex_indices set) (ex_unmatched set)
                   | None => MkExclusions (ex_indices set) (app (ex_unmatched set) [spec])
                   end
    end
  else match parse_u64 spec with
       | Some _ => Ok (MkExclusions ({[ spec ]} ∪ ex_indices set) (ex_unmatched set))
       | None => Err (usage_spec spec)
       end.
Fixpoint exclude_all (pane_map : option (gmap string string)) (set : ExclusionSet) (specs : list string)
    : result string ExclusionSet :=
  match specs with
  | [] => Ok set
  | raw :: specs => set ← exclude_step pane_map set raw; exclude_all pane_map set specs
  end.
Definition resolve_exclusions (specs : list string) (pane_map : option (gmap string string)) : result string ExclusionSet :=
  exclude_all pane_map (MkExclusions ∅ []) specs.

(** ** The decision. *)

(** By number where both are numbers, else as text: an order on the numeric names that the
    surfaces use. *)
Definition pane_lt (a b : string) : bool :=
  match parse_u64 a, parse_u64 b with Some x, Some y => (x <? y)%N | _, _ => str_lt a b end.
Definition sort_panes (panes : list string) : list string := stable_sort pane_lt panes.

Record Decision := MkDecision {
  dispatchable : list string; conflicts : list string; unconfirmed : list string; unknowable : list string;
  held : list string; excluded : list string; withheld : list string }.
Definition observed (d : Decision) : nat :=
  length (dispatchable d) + length (conflicts d) + length (unconfirmed d) + length (unknowable d) + length (held d)
  + length (withheld d).
Definition resolution_of (a o : SurfaceView) (pane : string) : Resolution := resolve (reading a pane) (reading o pane).
Definition bucket (a o : SurfaceView) (r : Resolution) : list string :=
  sort_panes (List.filter (λ p, bool_decide (resolution_of a o p = r)) (btree_elems (roster a ∪ roster o))).
Definition decide_panes (a o : SurfaceView) : Decision :=
  MkDecision (bucket a o Dispatch) (bucket a o Conflict) (bucket a o Unconfirmed) (bucket a o Unknowable)
    (bucket a o Hold) [] [].
Definition withhold (e : ExclusionSet) (d : Decision) : Decision :=
  let out p := bool_decide (p ∈ ex_indices e) in
  MkDecision (List.filter (λ p, negb (out p)) (dispatchable d)) (conflicts d) (unconfirmed d) (unknowable d) (held d)
    (sort_panes (btree_elems (ex_indices e))) (sort_panes (List.filter out (dispatchable d))).
Definition decide_capacity (a o : SurfaceView) (e : ExclusionSet) : Decision := withhold e (decide_panes a o).

(** ** The surfaces compared. *)

Definition measurability_rules : OracleCompareRules := MkCompareRules false true true true.
Definition conflict_rules : OracleCompareRules := MkCompareRules true false true false.
Definition arm_of (v : option SurfaceView) : SetArm :=
  match v with Some v => SetValue (roster v) | None => SetUnreadable end.
Definition measurability_verdict `{SerdeJson, ToJson} (activity_text oracle_text : string) : OracleCompareVerdict :=
  compare_sets (arm_of (parse_oracle_view oracle_text)) (arm_of (parse_activity_view activity_text)) measurability_rules.

Definition verdict_label (v : SurfaceView) (pane : string) : string := pane +:+ "=" +:+ reading_str (reading v pane).
Definition verdict_labels (v : SurfaceView) (domain : gset string) : gset string := set_map (verdict_label v) domain.
Definition confident_domain (a o : SurfaceView) : gset string := confident a ∩ confident o.
Definition conflict_verdict (a o : SurfaceView) : OracleCompareVerdict :=
  let domain := confident_domain a o in
  compare_sets (SetValue (verdict_labels o domain)) (SetValue (verdict_labels a domain)) conflict_rules.
Definition conflicting_panes (a o : SurfaceView) : list string :=
  let domain := confident_domain a o in
  let oracle_only := (set_delta (verdict_labels o domain) (verdict_labels a domain)).1 in
  sort_panes (omap (λ label, fst <$> split_once "=" label) oracle_only).

(** ** Outcomes. *)

Record RefillOutcome := MkOutcome { ro_message : string; ro_code : N }.
Definition measurability_refusal (v : OracleCompareVerdict) : option RefillOutcome :=
  match v with
  | Agree _ => None
  | OracleCompare.Unmeasurable why => Some (MkOutcome
      ("refill: UNMEASURABLE detector=pane_roster why=" +:+ why
       +:+ " probe=`ntm --robot-activity=<session>` vs `pane-dispatch-ready <session> --json` remedy=an empty or unreadable roster is a broken probe, never a quiet fleet") 2)
  | Disagree o p => Some (MkOutcome
      ("refill: SURFACE_DISAGREEMENT detector=pane_roster oracle=`pane-dispatch-ready` panes=" +:+ show_N o
       +:+ " product=`ntm --robot-activity` panes=" +:+ show_N p
       +:+ " remedy=the ntm projection lost the roster (ntm#254 class); refusing rather than reading an empty projection as an idle-free fleet") 1)
  end.

Section Outcome.
Context (debug : string → string).
Notation dbg := (debug_list debug).

Definition verdict_debug (v : OracleCompareVerdict) : string :=
  match v with
  | Agree n => "Agree { n: " +:+ show_N n +:+ " }"
  | Disagree o p => "Disagree { oracle_n: " +:+ show_N o +:+ ", product_n: " +:+ show_N p +:+ " }"
  | OracleCompare.Unmeasurable why => "Unmeasurable { why: " +:+ debug why +:+ " }"
  end.
Definition count (l : list string) : string := show_N (N.of_nat (length l)).
Definition nothing (l : list string) : bool := bool_decide (l = []).

Definition run_outcome (d : Decision) (conflict : OracleCompareVerdict) : RefillOutcome :=
  if negb (nothing (conflicts d)) then MkOutcome
    ("refill: SURFACE_CONFLICT detector=pane_state panes=" +:+ dbg (conflicts d) +:+ " verdict=" +:+ verdict_debug conflict
     +:+ " remedy=both surfaces are confident and contradict each other; one classifier is wrong and neither may be trusted for these panes") 1
  else if nothing (dispatchable d) && (negb (nothing (unknowable d)) || negb (nothing (unconfirmed d))) then MkOutcome
    ("refill: UNMEASURABLE detector=pane_state_not_established unknown_on_both=" +:+ dbg (unknowable d)
     +:+ " unconfirmed_positive=" +:+ dbg (unconfirmed d)
     +:+ " probe=`ntm --robot-activity` vs `pane-dispatch-ready <session> --json` remedy=an unobservable pane is NOT a busy pane, and a positive read only one surface can see is NOT a confirmed free pane (pane_readiness_contract 2.2.1); fix the probe or read the panes by hand — this is not a quiet fleet") 2
  else if nothing (dispatchable d) && negb (nothing (withheld d)) then MkOutcome
    ("refill: every dispatchable pane is EXCLUDED from capacity (withheld=" +:+ dbg (withheld d) +:+ ", excluded="
     +:+ dbg (excluded d) +:+ ", held=" +:+ count (held d)
     +:+ ") — the fleet has no WORKER capacity, and an excluded pane is not capacity") 0
  else if nothing (dispatchable d) then MkOutcome
    ("refill: every observed pane is confidently unavailable (observed=" +:+ show_N (N.of_nat (observed d)) +:+ ", held="
     +:+ count (held d) +:+ ") — genuine no-work") 0
  else MkOutcome
    ("refill: " +:+ count (dispatchable d) +:+ " dispatchable pane(s) " +:+ dbg (dispatchable d) +:+ " (held="
     +:+ count (held d) +:+ ", unconfirmed=" +:+ count (unconfirmed d) +:+ ", unknowable=" +:+ count (unknowable d)
     +:+ ", excluded=" +:+ dbg (excluded d) +:+ ", withheld=" +:+ dbg (withheld d) +:+ ")") 0.
End Outcome.

Definition reconciliation_failure (v : InnerVerdict) : option string :=
  if bool_decide (iv_verdict v = "PASS") then None
  else Some ("refill: SURFACE_DISAGREEMENT detector=" +:+ iv_detector v +:+ " verdict=" +:+ iv_verdict v +:+ " tmux="
             +:+ pretty (iv_tmux v) +:+ " ntm=" +:+ pretty (iv_ntm v) +:+ " detail=" +:+ iv_detail v).

(** ** Which beads. *)

Record SkippedPick := MkSkipped { sp_bead : string; sp_reason : string }.
Definition DISPATCHABLE_STATUSES : list string := ["open"; "ready"].
Definition dispatch_refusal (r : Json) : option string :=
  let epic := match json_get "type" r ≫= as_str with Some k => eq_ignore_ascii_case k "epic" | None => false end in
  if epic then Some "type=epic"
  else match json_get "status" r ≫= as_str with
       | Some s => if existsb (λ ok, eq_ignore_ascii_case ok s) DISPATCHABLE_STATUSES then None else Some ("status=" +:+ s)
       | None => None
       end.

(** A row either ranks, is skipped with its reason, or is no row at all. *)
Inductive Pick (K : Type) := Ranked (key : K) (bead : string) | Skipped (s : SkippedPick).
Arguments Ranked {K} key bead.
Arguments Skipped {K} s.
Definition skipped_of {K} (p : Pick K) : option SkippedPick := match p with Skipped s => Some s | Ranked _ _ => None end.
Definition ranked_of {K} (p : Pick K) : option (K * string) := match p with Ranked k b => Some (k, b) | Skipped _ => None end.
Fixpoint positions {A} (i : N) (l : list A) : list (N * A) :=
  match l with [] => [] | a :: l => (i, a) :: positions (i + 1) l end.
(** The picks in the order of their keys, then of their positions. *)
Definition ranking {K} (lt : K → K → bool) (row : Json → option (Pick K)) (rows : list Json) : list string * list SkippedPick :=
  let picks := omap (λ ir, (λ p, (ir.1, p)) <$> row ir.2) (positions 0 rows) in
  let ranked := omap (λ ip, (λ kb, (kb.1, ip.1, kb.2)) <$> ranked_of ip.2) picks in
  (map snd (stable_sort (λ x y, pair_lt lt N.ltb x.1 y.1) ranked), omap (λ ip, skipped_of ip.2) picks).

Definition recommendation (r : Json) : option (Pick spec_float) :=
  id ← json_get "id" r ≫= as_str;
  score ← json_get "score" r ≫= as_f64;
  if negb (f64_finite score) then None
  else Some (match dispatch_refusal r with Some reason => Skipped (MkSkipped id reason) | None => Ranked score id end).
(** Descending scores. *)
Definition score_lt (a b : spec_float) : bool := SFltb b a.

Section Beads.
Context `{SerdeJson}.

Definition recommendations_of (text : string) : option (list Json) :=
  value ← from_str text; (json_get "triage" value ≫= json_get "recommendations") ≫= as_array.
Definition parse_recommendations_with_skips (text : string) : list string * list SkippedPick :=
  match recommendations_of text with None => ([], []) | Some rows => ranking score_lt recommendation rows end.
Definition parse_recommendations (text : string) : list string := (parse_recommendations_with_skips text).1.

Definition ready_rows (value : Json) : list Json :=
  match value with
  | JArray rows => rows
  | JObject o => default [] (map_get "issues" o ≫= as_array)
  | _ => []
  end.
(** The type and the status under the names the refusal reads. *)
Definition ready_probe (row : Json) : Json :=
  let kind := match json_get "issue_type" row with Some k => Some k | None => json_get "type" row end in
  jobj (app (match kind with Some k => [("type", k)] | None => [] end)
            (match json_get "status" row with Some s => [("status", s)] | None => [] end)).
Definition is_assigned (row : Json) : bool :=
  match json_get "assignee" row ≫= as_str with Some a => negb (is_empty a) | None => false end.
Definition ready_pick (row : Json) : option (Pick Z) :=
  id ← json_get "id" row ≫= as_str;
  Some (match dispatch_refusal (ready_probe row) with
        | Some reason => Skipped (MkSkipped id reason)
        | None => if is_assigned row then Skipped (MkSkipped id "assigned")
                  else Ranked (default (2 ^ 63 - 1)%Z (json_get "priority" row ≫= as_i64)) id
        end).
Definition parse_ready_fallback (text : string) : list string * list SkippedPick :=
  match from_str text with None => ([], []) | Some value => ranking Z.ltb ready_pick (ready_rows value) end.
End Beads.

(** ** The plan. *)

Record Assignment := MkAssignment { pa_pane : string; pa_bead : string }.
Definition plan (panes beads : list string) (max : nat) : list Assignment :=
  map (λ pb, MkAssignment pb.1 pb.2) (take max (zip panes beads)).
Definition MIN_PACKET_BYTES : N := 400.
Definition packet_is_sendable (bytes : N) : bool := (MIN_PACKET_BYTES <? bytes)%N.
Definition APPROVAL_MARKER : string := "APPROVAL_REQUIRED".
Definition APPROVAL_REASON : string := "reap-and-document-before-refill".
Definition plan_line (a : Assignment) (bytes : N) : string :=
  "PLAN  pane=" +:+ pa_pane a +:+ " bead=" +:+ pa_bead a +:+ " bytes=" +:+ show_N bytes +:+ " " +:+ APPROVAL_MARKER +:+ "="
  +:+ APPROVAL_REASON +:+ " note=refill-idle-panes PROPOSES this pairing; it does not authorize it".
Definition authorize_plan_line (line : string) (approval : option string) : result string unit :=
  if negb (contains line APPROVAL_MARKER) then Err
    ("refill: PLAN_UNMARKED detector=plan_provenance why=a plan line without `" +:+ APPROVAL_MARKER
     +:+ "` cannot be shown to have come from a refill proposal remedy=an unestablished provenance is not a permissive one; refusing")
  else match trimmed_nonempty approval with
       | Some _ => Ok tt
       | None => Err
          ("refill: " +:+ APPROVAL_MARKER +:+ " detector=plan_consumed_unapproved reason=" +:+ APPROVAL_REASON
           +:+ " why=this row is a PROPOSAL and carries no approval remedy=reap the finished work, update the docs, then approve; a plan is not an authorization")
       end.
Definition actuation_refusal : RefillOutcome := MkOutcome
  ("refill: " +:+ APPROVAL_MARKER +:+ " detector=actuation_withheld verb=--apply reason=" +:+ APPROVAL_REASON
   +:+ " why=the selection half proposes and stops; auto-refill is withheld until the reap-and-document process is proven remedy=run `--plan`, reap and document the finished work, then dispatch under an approval that is not this plan") 2.

(** ** Capacity. *)

Lemma elem_of_btree_elems p s : p ∈ btree_elems s ↔ p ∈ s.
Proof. unfold btree_elems, sort_strings. by rewrite (merge_sort_Permutation String.le), elem_of_elements. Qed.
Lemma NoDup_btree_elems s : NoDup (btree_elems s).
Proof. unfold btree_elems, sort_strings. rewrite (merge_sort_Permutation String.le). apply NoDup_elements. Qed.

Lemma elem_of_filter_list {A} (p : A → bool) (l : list A) x : x ∈ List.filter p l ↔ x ∈ l ∧ p x = true.
Proof. by rewrite !list_elem_of_In, filter_In. Qed.

Lemma elem_of_bucket a o r p : p ∈ bucket a o r ↔ (p ∈ roster a ∨ p ∈ roster o) ∧ resolution_of a o p = r.
Proof.
  unfold bucket, sort_panes. rewrite stable_sort_Permutation, elem_of_filter_list, elem_of_btree_elems, elem_of_union,
    bool_decide_eq_true. done.
Qed.

Lemma reading_not_unknown v p : reading v p ≠ Unknown → p ∈ roster v.
Proof. unfold reading, roster. rewrite elem_of_dom. destruct (sv_panes v !! p); [eauto|done]. Qed.

Lemma resolve_dispatch a o : resolve a o = Dispatch ↔ a = Idle ∧ o = Idle.
Proof. destruct a, o; cbn; naive_solver. Qed.

Lemma capacity_readings a o e p :
  p ∈ dispatchable (decide_capacity a o e) ↔ reading a p = Idle ∧ reading o p = Idle ∧ p ∉ ex_indices e.
Proof.
  cbn. rewrite elem_of_filter_list, elem_of_bucket, negb_true_iff, bool_decide_eq_false. unfold resolution_of.
  rewrite resolve_dispatch. split; [naive_solver|]. intros (Ha & Ho & He). split_and!; [|done..].
  left. apply reading_not_unknown. congruence.
Qed.

(** The row a surface is read from: the last one that names the pane. *)
Definition names (p : string) `{ToJson} (row : Json) : bool := bool_decide (pane_id (json_get "pane" row) = Some p).
Definition row_of `{ToJson} (p : string) (rows : list Json) : option Json := last (List.filter (names p) rows).

Lemma last_app_cons {A} (l : list A) x : last (app l [x]) = Some x.
Proof. induction l as [|y l IH]; [done|]. cbn. destruct (app l [x]) eqn:Hl; [by destruct l|]. done. Qed.

Lemma view_of_lookup `{ToJson} f rows p : view_of f rows !! p = f <$> row_of p rows.
Proof.
  induction rows as [|row rows IH] using rev_ind; [done|]. unfold view_of, row_of in *.
  rewrite foldl_snoc, List.filter_app. cbn [List.filter]. unfold names at 2.
  destruct (pane_id (json_get "pane" row)) as [q|]; [|rewrite bool_decide_false, app_nil_r by done; apply IH].
  case_bool_decide as Hq.
  - injection Hq as ->. by rewrite lookup_insert_eq, last_app_cons.
  - rewrite lookup_insert_ne by congruence. rewrite app_nil_r. apply IH.
Qed.

Lemma reading_row `{ToJson} f rows n p r : r ≠ Unknown →
  reading (MkView (view_of f rows) n) p = r ↔ ∃ row, row_of p rows = Some row ∧ f row = r.
Proof.
  intros Hr. unfold reading. cbn. rewrite view_of_lookup. destruct (row_of p rows); cbn; naive_solver.
Qed.

Lemma activity_idle row :
  activity_observation row = Idle ↔
  evidence_is_live row = true ∧ (json_get "observation_state" row ≫= as_str) = Some "idle".
Proof.
  unfold activity_observation. destruct (evidence_is_live row); cbn; [|naive_solver].
  destruct (_ ≫= _) as [s|]; [|naive_solver]. repeat case_bool_decide; naive_solver.
Qed.
Lemma oracle_idle row :
  oracle_observation row = Idle ↔
  (json_get "state" row ≫= as_str) = Some "FREE" ∧ row_confirmation row ≠ Unmeasured.
Proof.
  unfold oracle_observation. destruct (_ ≫= _) as [s|]; [|naive_solver].
  repeat case_bool_decide; destruct (row_confirmation row); cbn; naive_solver.
Qed.

(** read from the two texts, a pane is capacity exactly when the last activity row
    that names it is a live and fresh capture of an idle agent, the last oracle row that
    names it is free and not left unmeasured, and it is not excluded. *)
Theorem capacity_rests_on_rows `{SerdeJson, ToJson} activity_text oracle_text a o e p :
  parse_activity_view activity_text = Some a → parse_oracle_view oracle_text = Some o →
  p ∈ dispatchable (decide_capacity a o e) ↔
  ∃ agents entries row row', (from_str activity_text ≫= json_get "agents") = Some (JArray agents) ∧
    (from_str oracle_text ≫= json_get "panes") = Some (JArray entries) ∧
    row_of p agents = Some row ∧ row_of p entries = Some row' ∧
    evidence_is_live row = true ∧ (json_get "observation_state" row ≫= as_str) = Some "idle" ∧
    (json_get "state" row' ≫= as_str) = Some "FREE" ∧ row_confirmation row' ≠ Unmeasured ∧ p ∉ ex_indices e.
Proof.
  unfold parse_activity_view, parse_oracle_view. intros Ha Ho.
  destruct (from_str activity_text) as [va|]; [|done]. cbn in Ha. destruct (json_get "agents" va) as [aa|] eqn:Haa; [|done].
  destruct aa; try done. cbn in Ha. injection Ha as <-.
  destruct (from_str oracle_text) as [vo|]; [|done]. cbn in Ho. destruct (json_get "panes" vo) as [oo|] eqn:Hoo; [|done].
  destruct oo; try done. cbn in Ho. injection Ho as <-.
  rewrite capacity_readings, !reading_row by done. setoid_rewrite activity_idle. setoid_rewrite oracle_idle.
  cbn. rewrite Haa, Hoo. naive_solver.
Qed.

(** ** Nothing is lost. *)

Lemma resolutions_partition {A} (f : A → Resolution) (l : list A) :
  let part r := List.filter (λ x, bool_decide (f x = r)) l in
  app (part Dispatch) (app (part Conflict) (app (part Unconfirmed) (app (part Unknowable) (part Hold)))) ≡ₚ l.
Proof.
  cbv zeta. induction l as [|x l IH]; [done|]. cbn [List.filter].
  destruct (f x); repeat case_bool_decide; try congruence; cbn; rewrite <-?Permutation_middle; by rewrite IH.
Qed.

Lemma filter_split {A} (p : A → bool) (l : list A) : app (List.filter (λ x, negb (p x)) l) (List.filter p l) ≡ₚ l.
Proof. induction l as [|x l IH]; [done|]. cbn. destruct (p x); cbn; rewrite <-?Permutation_middle; by rewrite IH. Qed.

(** every pane that either surface names is in the decision once: as capacity, as a
    conflict, unconfirmed, unknowable, held, or withheld from capacity. *)
Theorem decision_partitions a o e :
  let d := decide_capacity a o e in
  app (dispatchable d) (app (withheld d) (app (conflicts d) (app (unconfirmed d) (app (unknowable d) (held d)))))
    ≡ₚ elements (roster a ∪ roster o) ∧ observed d = size (roster a ∪ roster o).
Proof.
  cbv zeta.
  assert (app (dispatchable (decide_capacity a o e)) (app (withheld (decide_capacity a o e))
    (app (conflicts (decide_capacity a o e)) (app (unconfirmed (decide_capacity a o e)) (app (unknowable (decide_capacity a o e))
      (held (decide_capacity a o e)))))) ≡ₚ elements (roster a ∪ roster o)) as Hp.
  { cbn [decide_capacity withhold decide_panes dispatchable withheld conflicts unconfirmed unknowable held].
    unfold sort_panes at 1. rewrite stable_sort_Permutation, app_assoc, filter_split. unfold bucket, sort_panes.
    rewrite !stable_sort_Permutation, resolutions_partition. unfold btree_elems, sort_strings.
    by rewrite (merge_sort_Permutation String.le). }
  split; [done|]. apply Permutation_length in Hp. rewrite !length_app in Hp. unfold observed, size, set_size.
  cbn [compose]. lia.
Qed.

(** ** What the exit says. *)

Lemma nothing_bucket a o r :
  nothing (bucket a o r) = true ↔ ∀ p, p ∈ roster a ∨ p ∈ roster o → resolution_of a o p ≠ r.
Proof.
  unfold nothing. rewrite bool_decide_eq_true. split.
  - intros He p Hp Hr. assert (p ∈ bucket a o r) as Hin by by apply elem_of_bucket. rewrite He in Hin. by apply not_elem_of_nil in Hin.
  - intros Hn. destruct (bucket a o r) as [|p l] eqn:Hb; [done|].
    assert (p ∈ bucket a o r) as Hin by (rewrite Hb; apply list_elem_of_here). apply elem_of_bucket in Hin as [Hp Hr].
    by apply Hn in Hp.
Qed.

(** the run exits with success exactly when no two confident readings contradict each
    other, and either some pane is capacity or every pane of either surface is held or
    free: an unobserved pane never reads as a quiet fleet. *)
Theorem quiet_exit_iff debug a o e v :
  ro_code (run_outcome debug (decide_capacity a o e) v) = 0%N ↔
  (∀ p, p ∈ roster a ∨ p ∈ roster o → resolution_of a o p ≠ Conflict) ∧
  ((∃ p, p ∈ dispatchable (decide_capacity a o e)) ∨
   ∀ p, p ∈ roster a ∨ p ∈ roster o → resolution_of a o p = Dispatch ∨ resolution_of a o p = Hold).
Proof.
  pose proof (nothing_bucket a o Conflict) as Hc. pose proof (nothing_bucket a o Unknowable) as Hu.
  pose proof (nothing_bucket a o Unconfirmed) as Hn.
  assert (nothing (dispatchable (decide_capacity a o e)) = false ↔ ∃ p, p ∈ dispatchable (decide_capacity a o e)) as Hfree.
  { unfold nothing. rewrite bool_decide_eq_false. destruct (dispatchable _) as [|p l]; [set_solver|]. split; [|done].
    intros _. exists p. apply list_elem_of_here. }
  assert ((∀ p, p ∈ roster a ∨ p ∈ roster o → resolution_of a o p ≠ Conflict) →
          (∀ p, p ∈ roster a ∨ p ∈ roster o → resolution_of a o p = Dispatch ∨ resolution_of a o p = Hold) ↔
          nothing (bucket a o Unknowable) = true ∧ nothing (bucket a o Unconfirmed) = true) as Hquiet.
  { intros Hnc. rewrite Hu, Hn. split.
    - intros Hall. split; intros p Hp; destruct (Hall p Hp) as [-> | ->]; done.
    - intros [Hu' Hn'] p Hp. specialize (Hnc p Hp). specialize (Hu' p Hp). specialize (Hn' p Hp).
      destruct (resolution_of a o p); naive_solver. }
  unfold run_outcome.
  change (conflicts (decide_capacity a o e)) with (bucket a o Conflict).
  change (unknowable (decide_capacity a o e)) with (bucket a o Unknowable).
  change (unconfirmed (decide_capacity a o e)) with (bucket a o Unconfirmed).
  destruct (nothing (bucket a o Conflict)); cbn [negb]; [|cbn; split; [done|intros [Hx _]; by apply Hc in Hx]].
  specialize (Hquiet (proj1 Hc eq_refl)). rewrite Hquiet, <-Hfree. clear Hquiet Hfree Hu Hn.
  destruct (nothing (dispatchable _)), (nothing (bucket a o Unknowable)), (nothing (bucket a o Unconfirmed));
    cbn; try (destruct (negb _); cbn); intuition congruence.
Qed.

(** ** The comparator and the join agree on what a conflict is. *)

Lemma elem_of_confident v p : p ∈ confident v ↔ reading v p ≠ Unknown.
Proof.
  unfold confident, reading. rewrite elem_of_dom. unfold is_Some. setoid_rewrite map_lookup_filter_Some. cbn.
  unfold is_confident. setoid_rewrite negb_true_iff. setoid_rewrite bool_decide_eq_false.
  destruct (sv_panes v !! p) as [x|]; cbn; naive_solver.
Qed.

Lemma resolve_conflict a o : resolve a o = Conflict ↔ a ≠ Unknown ∧ o ≠ Unknown ∧ a ≠ o.
Proof. destruct a, o; cbn; naive_solver. Qed.

Lemma rsplit_last (p q x y : string) :
  no_byte "=" x → no_byte "=" y → p +:+ "=" +:+ x = q +:+ "=" +:+ y → p = q ∧ x = y.
Proof.
  intros Hx Hy Heq.
  assert (∀ r z, no_byte "=" z → rsplit_once "=" (r +:+ "=" +:+ z) = Some (r, z)) as Hr.
  { intros r z Hz. change ("=" +:+ z) with (String "=" z). apply rsplit_once_char. revert Hz. apply all_bytes_impl.
    intros d Hd. apply negb_true_iff in Hd. apply negb_true_iff, bool_decide_eq_false. intros <-. done. }
  pose proof (Hr p x Hx) as Hp. rewrite Heq, (Hr q y Hy) in Hp. by injection Hp as -> ->.
Qed.

Lemma verdict_label_inj v v' p q : verdict_label v p = verdict_label v' q → p = q ∧ reading v p = reading v' q.
Proof.
  unfold verdict_label. intros Heq%rsplit_last; [|by destruct (reading v p)..|by destruct (reading v' q)].
  destruct Heq as [-> Heq]. split; [done|]. by destruct (reading v q), (reading v' q).
Qed.

(** the kernel's comparison of the confident readings disagrees exactly when the join
    finds a pane the two surfaces contradict each other on. *)
Theorem conflict_routes_agree a o :
  (∃ x y, conflict_verdict a o = Disagree x y) ↔ conflicts (decide_panes a o) ≠ [].
Proof.
  change (conflicts (decide_panes a o)) with (bucket a o Conflict).
  assert (bucket a o Conflict ≠ [] ↔ ∃ p, reading a p ≠ Unknown ∧ reading o p ≠ Unknown ∧ reading a p ≠ reading o p) as ->.
  { split.
    - intros Hne. destruct (bucket a o Conflict) as [|p l] eqn:Hb; [done|].
      assert (p ∈ bucket a o Conflict) as Hin by (rewrite Hb; apply list_elem_of_here).
      apply elem_of_bucket in Hin as [_ Hr%resolve_conflict]. eauto.
    - intros (p & Hr) Hb. assert (p ∈ bucket a o Conflict) as Hin; [|rewrite Hb in Hin; by apply not_elem_of_nil in Hin].
      apply elem_of_bucket. split; [left; apply reading_not_unknown; naive_solver|by apply resolve_conflict]. }
  unfold conflict_verdict, compare_sets. cbn [conflict_rules empty_oracle_is_error empty_product_is_disagreement
    unreadable_is_error disagree_is_finding].
  set (D := confident_domain a o).
  assert (∀ p, p ∈ D ↔ reading a p ≠ Unknown ∧ reading o p ≠ Unknown) as HD.
  { intros p. unfold D, confident_domain. by rewrite elem_of_intersection, !elem_of_confident. }
  split.
  - intros (x & y & Hv). case_bool_decide; [done|]. case_bool_decide; [done|]. case_bool_decide as Heq; [done|].
    destruct (decide (set_Exists (λ p, reading a p ≠ reading o p) D)) as [(p & [??]%HD & ?)|Hno]; [by eauto|].
    destruct Heq. unfold verdict_labels. apply set_eq. intros l. rewrite !elem_of_map.
    assert (∀ p, p ∈ D → verdict_label o p = verdict_label a p) as Hsame.
    { intros p Hp. unfold verdict_label. destruct (decide (reading a p = reading o p)) as [->|Hd]; [done|].
      destruct Hno. by exists p. }
    split; intros (p & -> & Hp); exists p; by rewrite Hsame.
  - intros (p & Ha & Ho & Hne). assert (p ∈ D) as Hp by by apply HD.
    assert (verdict_label o p ∈ verdict_labels o D) as Hlo by by apply elem_of_map_2.
    assert (verdict_label a p ∈ verdict_labels a D) as Hla by by apply elem_of_map_2.
    rewrite !bool_decide_false; [by eauto| |set_solver..].
    intros Heq. rewrite Heq in Hlo. apply elem_of_map in Hlo as (q & Hq & _). apply verdict_label_inj in Hq as [<- ?]. congruence.
Qed.

(** ** A concrete fleet. *)

Section Example.
Definition ex_agent (pane : string) : Json :=
  jobj [("pane", JString pane); ("capture_provenance", JString "live"); ("observation_freshness", JString "fresh");
        ("observation_state", JString "idle")].
Definition ex_entry (pane : string) (limit : list (string * Json)) : Json :=
  jobj (("pane", JString pane) :: ("state", JString "FREE") :: limit).
#[local] Instance ex_refill_serde : SerdeJson := λ s,
  if bool_decide (s = "activity") then Some (jobj [("agents", JArray [ex_agent "1"; ex_agent "2"; ex_agent "3"])])
  else if bool_decide (s = "oracle") then
    Some (jobj [("panes", JArray [ex_entry "1" [("rate_limit", JString "measured_free")];
                                  ex_entry "2" [("rate_limit", JString "unmeasured")]; ex_entry "3" []])])
  else None.
#[local] Instance ex_refill_json : ToJson := λ _, "".

Definition ex_decision (excluded : gset string) : option (list string * list string * list string * N) :=
  a ← parse_activity_view "activity"; o ← parse_oracle_view "oracle";
  let d := decide_capacity a o (MkExclusions excluded []) in
  Some (dispatchable d, unconfirmed d, withheld d, ro_code (run_outcome id d (conflict_verdict a o))).
Example ex_fleet : ex_decision {[ "3" ]} = Some (["1"], ["2"], ["3"], 0%N).
Proof. by vm_compute. Qed.
Example ex_all_excluded : ex_decision {[ "1"; "3" ]} = Some ([], ["2"], ["1"; "3"], 2%N).
Proof. by vm_compute. Qed.

Lemma capacity_rests_on_rows_witness :
  ∃ a o, parse_activity_view "activity" = Some a ∧ parse_oracle_view "oracle" = Some o ∧
    ("1" ∈ dispatchable (decide_capacity a o (MkExclusions ∅ [])) ↔
     ∃ agents entries row row', (from_str "activity" ≫= json_get "agents") = Some (JArray agents) ∧
       (from_str "oracle" ≫= json_get "panes") = Some (JArray entries) ∧
       row_of "1" agents = Some row ∧ row_of "1" entries = Some row' ∧
       evidence_is_live row = true ∧ (json_get "observation_state" row ≫= as_str) = Some "idle" ∧
       (json_get "state" row' ≫= as_str) = Some "FREE" ∧ row_confirmation row' ≠ Unmeasured ∧ "1" ∉ (∅ : gset string)).
Proof.
  do 2 eexists. split; [reflexivity|]. split; [reflexivity|].
  apply (capacity_rests_on_rows "activity" "oracle" _ _ (MkExclusions ∅ []) "1"); reflexivity.
Defined.
End Example.
