(* ===== verification/Availability.v ===== *)
(** * Which beads the dependency graph leaves free

    bead-availability/src/lib.rs: a bead is available when every bead that blocks it is
    closed, and the ready and blocked lists of [br] are reconciled with that graph.  Maps
    and sets iterate in the order of their keys. *)

From stdpp Require Import base numbers list option strings pretty gmap sorting.
From Stdlib Require Import NArith ZArith Ascii Lia.
From S2P Require Import Prelude RustStr Order Json OracleCompare.

(** ** The data. *)

Inductive IssueStatus := Open | InProgress | Grading | StBlocked | Tombstone | Closed | StUnknown.
#[global] Instance IssueStatus_eq_dec : EqDecision IssueStatus.
Proof. solve_decision. Defined.
Definition parse_status (value : string) : IssueStatus :=
  if bool_decide (value = "open") then Open
  else if bool_decide (value = "in_progress") then InProgress
  else if bool_decide (value = "grading") then Grading
  else if bool_decide (value = "blocked") then StBlocked
  else if bool_decide (value = "tombstone") then Tombstone
  else if bool_decide (value = "closed") then Closed else StUnknown.
Definition is_terminal (s : IssueStatus) : bool := match s with Closed | Tombstone => true | _ => false end.
Definition is_non_terminal (s : IssueStatus) : bool := negb (is_terminal s).
Definition status_str (s : IssueStatus) : string :=
  match s with
  | Open => "open" | InProgress => "in_progress" | Grading => "grading" | StBlocked => "blocked"
  | Tombstone => "tombstone" | Closed => "closed" | StUnknown => "unknown"
  end.

Record IssueRecord := MkIssue { ir_id : string; ir_status : IssueStatus }.
Record BlockerEdge := MkEdge { child_id : string; blocker_id : string }.
Inductive BlockerState := Blocking | Released | StaleEdgeState.
#[global] Instance BlockerState_eq_dec : EqDecision BlockerState.
Proof. solve_decision. Defined.
Inductive Availability := Available | AvBlocked | AvUnknown.
#[global] Instance Availability_eq_dec : EqDecision Availability.
Proof. solve_decision. Defined.
Inductive Unblocks := Known (count : N) | UnblocksUnknown (reason : string).
Definition is_unknown (u : Unblocks) : bool := match u with UnblocksUnknown _ => true | Known _ => false end.

Record BlockerReport := MkBlocker {
  br_blocker_id : string; br_blocker_status : IssueStatus; br_state : BlockerState; br_reason : string }.
Record BeadAvailability := MkBead {
  bead_id : string; ba_status : IssueStatus; availability : Availability; ba_blockers : list BlockerReport;
  unblocks : Unblocks }.
Record StaleEdge := MkStale { se_child_id : string; se_blocker_id : string; se_reason : string }.
Record GraphReport := MkGraph { g_schema : string; g_issues : list BeadAvailability; stale_edges : list StaleEdge }.
Record QueueIssue := MkQueue {
  q_id : string; q_status : IssueStatus; q_priority : N; issue_type : string; assignee : string }.
Record InvisibleQueueIssue := MkInvisible { iq_issue : QueueIssue; iq_reason : string }.
Record ReadinessReport := MkReadiness {
  r_schema : string; open_candidates : list QueueIssue; admitted : list QueueIssue; recovered : list QueueIssue;
  refused : list InvisibleQueueIssue; open_count : N; ready_count : N; blocked_count : N; r_residual_count : N;
  projection_gap_count : N }.
Record ParentChildMembership := MkMembership {
  pc_source : string; epic_id : string; epic_status : IssueStatus; child_ids : list string;
  non_terminal_ids : list string }.

Definition R7_DEPENDENCY_SOURCE : string := ".beads/issues.jsonl".
Definition count_of {A} (l : list A) : N := N.of_nat (length l).
Definition residual_count (m : ParentChildMembership) : N :=
  (count_of (non_terminal_ids m) + if is_terminal (epic_status m) then 0 else 1)%N.
Definition recovered_ids (r : ReadinessReport) : list string := map q_id (recovered r).

Inductive GraphError :=
  | EmptyIssueSet | EmptyReadySurface | EmptyCandidateSet | EmptyDependencySource
  | EmptyParentChildIntersection (epic : string) | MalformedDependency (detail : string) | DuplicateIssue (id : string)
  | DuplicateQueueIssue (id : string) | UnknownQueueIssue (id : string) | QueueSurfaceOverlap (id : string)
  | MissingGraphIssue (id : string) | MissingQueueField (field : string) | UnaccountedOpenIssue (count : N)
  | MalformedIssues (detail : string) | MalformedEdges (detail : string).
Definition graph_error_str (e : GraphError) : string :=
  match e with
  | EmptyIssueSet => "EMPTY_ISSUE_SET: br list returned no issues"
  | EmptyReadySurface => "EMPTY_READY_SURFACE: br ready returned no candidates"
  | EmptyCandidateSet => "EMPTY_CANDIDATE_SET: no open unassigned non-epic candidates"
  | EmptyDependencySource => "EMPTY_DEPENDENCY_SOURCE: dependency source contained no edges"
  | EmptyParentChildIntersection epic =>
      "EMPTY_PARENT_CHILD_INTERSECTION: epic=" +:+ epic +:+ " has no parent-child in-edges"
  | MalformedDependency detail => "MALFORMED_DEPENDENCY: " +:+ detail
  | DuplicateIssue id => "DUPLICATE_ISSUE: " +:+ id
  | DuplicateQueueIssue id => "DUPLICATE_QUEUE_ISSUE: " +:+ id
  | UnknownQueueIssue id => "UNKNOWN_QUEUE_ISSUE: " +:+ id
  | QueueSurfaceOverlap id => "QUEUE_SURFACE_OVERLAP: " +:+ id
  | MissingGraphIssue id => "MISSING_GRAPH_ISSUE: " +:+ id
  | UnaccountedOpenIssue count => "UNACCOUNTED_OPEN_ISSUES: " +:+ show_N count
  | MissingQueueField field => "MISSING_QUEUE_FIELD: " +:+ field
  | MalformedIssues detail => "MALFORMED_ISSUES: " +:+ detail
  | MalformedEdges detail => "MALFORMED_EDGES: " +:+ detail
  end.

(** ** Text. *)

Definition render_unblocks (u : Unblocks) : string :=
  match u with Known count => show_N count | UnblocksUnknown reason => "UNKNOWN(" +:+ reason +:+ ")" end.
Definition availability_str (a : Availability) : string :=
  match a with Available => "AVAILABLE" | AvBlocked => "BLOCKED" | AvUnknown => "UNKNOWN" end.
Definition blocker_state_str (s : BlockerState) : string :=
  match s with Blocking => "BLOCKING" | Released => "RELEASED" | StaleEdgeState => "STALE_EDGE" end.
Definition render_blocker (b : BlockerReport) : string :=
  "  BLOCKER id=" +:+ br_blocker_id b +:+ " status=" +:+ status_str (br_blocker_status b) +:+ " state="
  +:+ blocker_state_str (br_state b) +:+ " reason=" +:+ br_reason b +:+ lf_str.
Definition render_bead (b : BeadAvailability) : string :=
  "BEAD id=" +:+ bead_id b +:+ " status=" +:+ status_str (ba_status b) +:+ " availability="
  +:+ availability_str (availability b) +:+ " unblocks=" +:+ render_unblocks (unblocks b) +:+ lf_str
  +:+ concat_chars (map render_blocker (ba_blockers b)).
Definition render_stale (e : StaleEdge) : string :=
  "STALE_EDGE child=" +:+ se_child_id e +:+ " blocker=" +:+ se_blocker_id e +:+ " reason=" +:+ se_reason e +:+ lf_str.
Definition render_graph (g : GraphReport) : string :=
  "schema=bead-availability/v1 issues=" +:+ show_N (count_of (g_issues g)) +:+ lf_str
  +:+ concat_chars (map render_bead (g_issues g)) +:+ concat_chars (map render_stale (stale_edges g)).

Definition render_recovered (i : QueueIssue) : string :=
  "QUEUE_READY_RECOVERED id=" +:+ q_id i +:+ " priority=" +:+ show_N (q_priority i) +:+ lf_str.
Definition render_refused (r : InvisibleQueueIssue) : string :=
  "QUEUE_READY_REFUSED id=" +:+ q_id (iq_issue r) +:+ " reason=" +:+ iq_reason r +:+ lf_str.
Definition render_readiness (r : ReadinessReport) : string :=
  "READINESS open=" +:+ show_N (open_count r) +:+ " ready=" +:+ show_N (ready_count r) +:+ " blocked="
  +:+ show_N (blocked_count r) +:+ " residual=" +:+ show_N (r_residual_count r) +:+ " projection_gap="
  +:+ show_N (projection_gap_count r) +:+ " recovered=" +:+ show_N (count_of (recovered r)) +:+ " refused="
  +:+ show_N (count_of (refused r)) +:+ lf_str
  +:+ concat_chars (map render_recovered (recovered r)) +:+ concat_chars (map render_refused (refused r)).

(** ** The graph. *)

Definition graph_issue (g : GraphReport) (id : string) : option BeadAvailability :=
  find_first (λ b, bool_decide (bead_id b = id)) (g_issues g).

Definition status_map (issues : list IssueRecord) : gmap string IssueStatus :=
  foldl (λ m i, <[ir_id i := ir_status i]> m) ∅ issues.

(** The first text of the list that occurs before in it. *)
Fixpoint first_duplicate (seen : gset string) (ids : list string) : option string :=
  match ids with
  | [] => None
  | id :: ids => if bool_decide (id ∈ seen) then Some id else first_duplicate ({[ id ]} ∪ seen) ids
  end.

(** The state of the loop over the edges. *)
Record Edges := MkEdges {
  blockers_by_child : gmap string (list string); dependents_by_blocker : gmap string N; es_stale : list StaleEdge }.
Definition push_blocker (child blocker : string) (m : gmap string (list string)) : gmap string (list string) :=
  <[child := app (default [] (m !! child)) [blocker]]> m.
Definition count_dependent (blocker : string) (m : gmap string N) : gmap string N :=
  <[blocker := (default 0 (m !! blocker) + 1)%N]> m.
Definition add_edge (statuses : gmap string IssueStatus) (st : Edges) (e : BlockerEdge) : Edges :=
  match statuses !! child_id e with
  | None => MkEdges (blockers_by_child st) (dependents_by_blocker st)
      (app (es_stale st) [MkStale (child_id e) (blocker_id e) "child id is absent from br list -a"])
  | Some child =>
      let blockers := push_blocker (child_id e) (blocker_id e) (blockers_by_child st) in
      match statuses !! blocker_id e with
      | None => MkEdges blockers (dependents_by_blocker st)
          (app (es_stale st) [MkStale (child_id e) (blocker_id e) "blocker id is absent from br list -a"])
      | Some _ => MkEdges blockers
          (if is_non_terminal child then count_dependent (blocker_id e) (dependents_by_blocker st)
           else dependents_by_blocker st) (es_stale st)
      end
  end.
Definition edges_of (statuses : gmap string IssueStatus) (edges : list BlockerEdge) : Edges :=
  foldl (add_edge statuses) (MkEdges ∅ ∅ []) edges.

Definition blocker_report (statuses : gmap string IssueStatus) (id : string) : BlockerReport :=
  match statuses !! id with
  | Some Closed => MkBlocker id Closed Released "closed blocker releases this child"
  | Some s =>
      if is_non_terminal s then MkBlocker id s Blocking "non-terminal blocker still holds this child"
      else MkBlocker id s StaleEdgeState "blocker status is not a recognized terminal or live state"
  | None => MkBlocker id StUnknown StaleEdgeState "blocker id is absent from br list -a"
  end.
Definition availability_of (blockers : list BlockerReport) : Availability :=
  if existsb (λ b, bool_decide (br_state b = StaleEdgeState)) blockers then AvUnknown
  else if existsb (λ b, bool_decide (br_state b = Blocking)) blockers then AvBlocked else Available.
Definition bead_report (statuses : gmap string IssueStatus) (st : Edges) (i : IssueRecord) : BeadAvailability :=
  let blockers := map (blocker_report statuses) (default [] (blockers_by_child st !! ir_id i)) in
  MkBead (ir_id i) (ir_status i) (availability_of blockers) blockers
    (match statuses !! ir_id i with
     | Some _ => Known (default 0%N (dependents_by_blocker st !! ir_id i))
     | None => UnblocksUnknown "issue status unavailable"
     end).

Definition evaluate_graph (issues : list IssueRecord) (edges : list BlockerEdge) : result GraphError GraphReport :=
  if bool_decide (length issues = 0) then Err EmptyIssueSet
  else
    let statuses := status_map issues in
    if negb (bool_decide (size statuses = length issues)) then
      Err (DuplicateIssue (default "<unknown>" (first_duplicate ∅ (map ir_id issues))))
    else
      let st := edges_of statuses edges in
      Ok (MkGraph "bead-availability/v1"
            (stable_sort (λ a b, str_lt (bead_id a) (bead_id b)) (map (bead_report statuses st) issues)) (es_stale st)).

(** ** The ready and blocked lists against the graph. *)

(** A list of identifiers as a set: each one known, and named once. *)
Fixpoint surface_ids (known seen : gset string) (ids : list string) : result GraphError (gset string) :=
  match ids with
  | [] => Ok seen
  | id :: ids =>
      if negb (bool_decide (id ∈ known)) then Err (UnknownQueueIssue id)
      else if bool_decide (id ∈ seen) then Err (DuplicateQueueIssue id)
      else surface_ids known ({[ id ]} ∪ seen) ids
  end.

Definition queue_dispatchable (i : QueueIssue) : bool :=
  negb (bool_decide (issue_type i = "epic")) && is_empty (trim (assignee i)).

(** What the loop does with an open row. *)
Inductive Placement := Admit | AlreadyBlocked | Recover | Refuse (reason : string).
Definition place (ready blocked : gset string) (g : GraphReport) (i : QueueIssue) : result GraphError Placement :=
  if bool_decide (q_id i ∈ ready) && queue_dispatchable i then Ok Admit
  else if bool_decide (q_id i ∈ blocked) then Ok AlreadyBlocked
  else
    b ← ok_or (graph_issue g (q_id i)) (MissingGraphIssue (q_id i));
    if negb (queue_dispatchable i) then
      Ok (Refuse "row is an epic or carries an assignee; selector must not dispatch it")
    else match availability b with
         | Available => Ok Recover
         | AvBlocked => Ok (Refuse "graph reports a non-terminal blocker; blocked projection omitted this row")
         | AvUnknown => Ok (Refuse "graph availability is unknown; selector must not guess")
         end.

Record Accounts := MkAccounts {
  ac_admitted : list QueueIssue; ac_recovered : list QueueIssue; ac_refused : list InvisibleQueueIssue;
  accounted : gset string }.
Definition account (a : Accounts) (i : QueueIssue) (p : Placement) : Accounts :=
  let seen := {[ q_id i ]} ∪ accounted a in
  match p with
  | Admit => MkAccounts (app (ac_admitted a) [i]) (ac_recovered a) (ac_refused a) seen
  | AlreadyBlocked => MkAccounts (ac_admitted a) (ac_recovered a) (ac_refused a) seen
  | Recover => MkAccounts (app (ac_admitted a) [i]) (app (ac_recovered a) [i]) (ac_refused a) seen
  | Refuse reason => MkAccounts (ac_admitted a) (ac_recovered a) (app (ac_refused a) [MkInvisible i reason]) seen
  end.
Fixpoint account_all (ready blocked : gset string) (g : GraphReport) (a : Accounts) (l : list QueueIssue)
    : result GraphError Accounts :=
  match l with
  | [] => Ok a
  | i :: l => p ← place ready blocked g i; account_all ready blocked g (account a i p) l
  end.

Definition is_open (i : QueueIssue) : bool := bool_decide (q_status i = Open).
Definition queue_lt (a b : QueueIssue) : bool := str_lt (q_id a) (q_id b).
Definition count_in (s open : gset string) : N := N.of_nat (size (s ∩ open)).
Definition reconcile_readiness (issues : list QueueIssue) (ready_ids blocked_ids : list string) (g : GraphReport)
    : result GraphError ReadinessReport :=
  if bool_decide (length issues = 0) then Err EmptyIssueSet
  else if bool_decide (length ready_ids = 0) then Err EmptyReadySurface
  else
    let known : gset string := list_to_set (map q_id issues) in
    ready ← surface_ids known ∅ ready_ids;
    blocked ← surface_ids known ∅ blocked_ids;
    match btree_elems (ready ∩ blocked) with
    | id :: _ => Err (QueueSurfaceOverlap id)
    | [] =>
        let open := List.filter is_open issues in
        if bool_decide (length open = 0) then Err EmptyCandidateSet
        else
          let ids : gset string := list_to_set (map q_id open) in
          let gap := count_of (List.filter
                       (λ i, negb (bool_decide (q_id i ∈ ready)) && negb (bool_decide (q_id i ∈ blocked))) open) in
          a ← account_all ready blocked g (MkAccounts [] [] [] ∅) open;
          let residual := count_of (List.filter (λ i, negb (bool_decide (q_id i ∈ accounted a))) open) in
          if negb (residual =? 0)%N then Err (UnaccountedOpenIssue residual)
          else Ok (MkReadiness "bead-availability/readiness-v1" open (stable_sort queue_lt (ac_admitted a))
                 (stable_sort queue_lt (ac_recovered a))
                 (stable_sort (λ x y, queue_lt (iq_issue x) (iq_issue y)) (ac_refused a))
                 (N.of_nat (size ids)) (count_in ready ids) (count_in blocked ids) gap gap)
    end.

(** ** The answers of [br]. *)

Definition nonblank (o : option string) : option string :=
  match o with Some s => if is_empty (trim s) then None else Some s | None => None end.
Definition or_get (k k' : string) (v : Json) : option Json :=
  match json_get k v with Some x => Some x | None => json_get k' v end.

Definition parse_queue_issue (value : Json) (context : string) : result GraphError QueueIssue :=
  id ← ok_or (nonblank (json_get "id" value ≫= as_str)) (MissingQueueField (context +:+ ".id"));
  status ← ok_or (parse_status <$> (json_get "status" value ≫= as_str)) (MissingQueueField (context +:+ ".status"));
  priority ← ok_or (json_get "priority" value ≫= as_u64) (MissingQueueField (context +:+ ".priority"));
  kind ← ok_or (nonblank (or_get "issue_type" "type" value ≫= as_str))
           (MissingQueueField (context +:+ ".issue_type"));
  Ok (MkQueue id status priority kind (default "" (json_get "assignee" value ≫= as_str))).

(** Rows numbered from zero, each with an identifier no row before it has. *)
Section Unique.
Context {A : Type} (row : N → Json → result GraphError A) (key : A → string) (dup : string → GraphError).
Fixpoint unique_rows (i : N) (seen : gset string) (rows : list Json) : result GraphError (list A) :=
  match rows with
  | [] => Ok []
  | r :: rows =>
      a ← row i r;
      if bool_decide (key a ∈ seen) then Err (dup (key a))
      else l ← unique_rows (i + 1) ({[ key a ]} ∪ seen) rows; Ok (a :: l)
  end.
End Unique.

Definition indexed (surface : string) (i : N) : string := surface +:+ "[" +:+ show_N i +:+ "]".
Definition issues_array (value : Json) : result GraphError (list Json) :=
  rows ← ok_or (json_get "issues" value ≫= as_array) (MalformedIssues "missing issues array");
  if bool_decide (length rows = 0) then Err EmptyIssueSet else Ok rows.
Definition parse_queue_issues (value : Json) : result GraphError (list QueueIssue) :=
  rows ← issues_array value;
  unique_rows (λ i r, parse_queue_issue r (indexed "issues" i)) q_id DuplicateIssue 0 ∅ rows.

Definition queue_rows (value : Json) : option (list Json) :=
  match as_array value with Some rows => Some rows | None => json_get "issues" value ≫= as_array end.
Definition parse_queue_ids (value : Json) (surface : string) : result GraphError (list string) :=
  rows ← ok_or (queue_rows value) (MalformedIssues (surface +:+ ": response is not an array or issues envelope"));
  unique_rows (λ i r, ok_or (nonblank (json_get "id" r ≫= as_str)) (MissingQueueField (indexed surface i +:+ ".id")))
    (λ id, id) DuplicateQueueIssue 0 ∅ rows.

(** The code looks for the identifier's repetition before it reads the status, which
    cannot fail. *)
Definition parse_br_issue (issue : Json) : result GraphError IssueRecord :=
  id ← ok_or (nonblank (json_get "id" issue ≫= as_str)) (MalformedIssues "issue has no id");
  Ok (MkIssue id (default StUnknown (parse_status <$> (json_get "status" issue ≫= as_str)))).
Definition parse_br_issues (value : Json) : result GraphError (list IssueRecord) :=
  rows ← issues_array value; unique_rows (λ _ r, parse_br_issue r) ir_id DuplicateIssue 0 ∅ rows.

Definition is_blocks (edge : Json) : bool := bool_decide ((json_get "type" edge ≫= as_str) = Some "blocks").
Definition parse_edge (child : string) (edge : Json) : result GraphError BlockerEdge :=
  match json_get "issue_id" edge ≫= as_str, json_get "depends_on_id" edge ≫= as_str with
  | Some issue, Some blocker =>
      if bool_decide (issue = child) then Ok (MkEdge child blocker)
      else Err (MalformedEdges (child +:+ ": malformed blocks edge"))
  | _, _ => Err (MalformedEdges (child +:+ ": malformed blocks edge"))
  end.
Fixpoint parse_edges (child : string) (edges : list Json) : result GraphError (list BlockerEdge) :=
  match edges with
  | [] => Ok []
  | e :: edges =>
      if is_blocks e then b ← parse_edge child e; l ← parse_edges child edges; Ok (b :: l)
      else parse_edges child edges
  end.
Definition parse_br_blockers (value : Json) (child : string) : result GraphError (list BlockerEdge) :=
  edges ← ok_or (as_array value) (MalformedEdges (child +:+ ": response is not an array")); parse_edges child edges.

Definition parse_bv_unblocks (recommendation : Json) : Unblocks :=
  match json_get "unblocks" recommendation with
  | Some v => match as_u64 v with
              | Some n => Known n
              | None => UnblocksUnknown "unblocks field is not an integer"
              end
  | None => UnblocksUnknown "unblocks field absent from BV response"
  end.

(** ** Against the world: what each command of [br] answers. *)
Inductive BrOutcome :=
  | BrCancelled | BrRunFailed (error : string) | BrTimedOut | BrFailed (stderr : string) | BrOutput (stdout : string).
Record Outside := MkOutside { cancelled_before : string → bool; br : list string → BrOutcome }.

Inductive LiveError :=
  | LiveRun (command error : string) | LiveCommandFailed (command detail : string) | LiveJson (command detail : string).
Definition live_error_str (e : LiveError) : string :=
  match e with
  | LiveRun c e => "RUN_FAILED command=" +:+ c +:+ " error=" +:+ e
  | LiveCommandFailed c d => "COMMAND_FAILED command=" +:+ c +:+ " detail=" +:+ d
  | LiveJson c d => "JSON_FAILED command=" +:+ c +:+ " detail=" +:+ d
  end.
Definition BR_COMMAND_TIMEOUT_SECS : N := 30.

Section Live.
Context `{SerdeJson} (json_error : string → string) (o : Outside) (program : string).

Section R7.
Context (epic : string) (line : N).
Definition malformed (what : string) : GraphError := MalformedDependency ("line=" +:+ show_N line +:+ " " +:+ what).
(** Whether a dependency makes its row a child of the epic. *)
Definition dependency (d : Json) : result GraphError bool :=
  fields ← ok_or (as_object d) (malformed "dependency_not_object");
  on ← ok_or (map_get "depends_on_id" fields ≫= as_str) (malformed "missing=depends_on_id");
  kind ← ok_or (map_get "type" fields ≫= as_str) (malformed "missing=type");
  Ok (bool_decide (kind = "parent-child") && bool_decide (on = epic)).
Fixpoint dependencies (ds : list Json) : result GraphError bool :=
  match ds with
  | [] => Ok false
  | d :: ds => child ← dependency d; rest ← dependencies ds; Ok (child || rest)
  end.

Record R7State := MkR7 { r7_statuses : gmap string IssueStatus; r7_children : gset string; saw_dependency : bool }.
Definition r7_row (st : R7State) (text : string) : result GraphError R7State :=
  row ← ok_or (from_str text) (malformed ("invalid_json=" +:+ json_error text));
  fields ← ok_or (as_object row) (malformed "row_is_not_object");
  id ← ok_or (nonblank (map_get "id" fields ≫= as_str)) (malformed "missing=issue_id");
  status ← ok_or (parse_status <$> (map_get "status" fields ≫= as_str)) (malformed "missing=status");
  match r7_statuses st !! id with
  | Some _ => Err (DuplicateIssue id)
  | None =>
      let statuses := <[id := status]> (r7_statuses st) in
      match map_get "dependencies" fields with
      | None => Ok (MkR7 statuses (r7_children st) (saw_dependency st))
      | Some deps =>
          ds ← ok_or (as_array deps) (malformed "dependencies_not_array");
          child ← dependencies ds;
          Ok (MkR7 statuses (if child : bool then {[ id ]} ∪ r7_children st else r7_children st)
                (saw_dependency st || negb (bool_decide (length ds = 0))))
      end
  end.
End R7.

Fixpoint r7_rows (epic : string) (line : N) (st : R7State) (ls : list string) : result GraphError R7State :=
  match ls with
  | [] => Ok st
  | l :: ls =>
      if is_empty (trim l) then r7_rows epic (line + 1) st ls
      else st ← r7_row epic line st l; r7_rows epic (line + 1) st ls
  end.

Definition non_terminal_child (statuses : gmap string IssueStatus) (id : string) : bool :=
  match statuses !! id with Some s => is_non_terminal s | None => true end.
Definition parse_r7_parent_child_jsonl (text epic : string) : result GraphError ParentChildMembership :=
  if is_empty (trim text) then Err EmptyDependencySource
  else
    st ← r7_rows epic 1 (MkR7 ∅ ∅ false) (lines text);
    if negb (saw_dependency st) then Err EmptyDependencySource
    else
      status ← ok_or (r7_statuses st !! epic) (MissingGraphIssue epic);
      if bool_decide (r7_children st = ∅) then Err (EmptyParentChildIntersection epic)
      else
        let children := btree_elems (r7_children st) in
        Ok (MkMembership R7_DEPENDENCY_SOURCE epic status children
              (List.filter (non_terminal_child (r7_statuses st)) children)).

Definition run_br (args : list string) : result LiveError string :=
  let command := program +:+ " " +:+ join " " args in
  match br o args with
  | BrCancelled => Err (LiveCommandFailed command "caller context cancelled before spawn")
  | BrRunFailed e => Err (LiveRun command e)
  | BrTimedOut => Err (LiveCommandFailed command ("TIMEOUT after " +:+ show_N BR_COMMAND_TIMEOUT_SECS +:+ "s"))
  | BrFailed stderr => Err (LiveCommandFailed command (trim stderr))
  | BrOutput stdout => Ok stdout
  end.
Definition json_failed (command text : string) : string :=
  "JSON_FAILED command=" +:+ command +:+ " detail=" +:+ json_error text.
(** A command's answer as a value; [name] is how its failure to parse calls it. *)
Definition br_value (name : string) (args : list string) : result string Json :=
  bytes ← map_err live_error_str (run_br args); ok_or (from_str bytes) (json_failed name bytes).

Definition dep_args (id : string) : list string := ["dep"; "list"; id; "--direction"; "down"; "--json"].
Definition collect_edges_of (id : string) : result string (list BlockerEdge) :=
  if cancelled_before o id then Err ("CANCELLED before blocker read bead=" +:+ id)
  else value ← br_value ("br dep list bead=" +:+ id) (dep_args id); map_err graph_error_str (parse_br_blockers value id).
Fixpoint collect_edges_for (ids : list string) : result string (list BlockerEdge) :=
  match ids with
  | [] => Ok []
  | id :: ids => es ← collect_edges_of id; rest ← collect_edges_for ids; Ok (app es rest)
  end.

Definition list_args : list string := ["list"; "-a"; "--json"].
Definition collect_live : result string GraphReport :=
  value ← br_value (program +:+ " list -a --json") list_args;
  issues ← map_err graph_error_str (parse_br_issues value);
  let ids := map ir_id (List.filter (λ i, is_non_terminal (ir_status i)) issues) in
  edges ← collect_edges_for ids;
  map_err graph_error_str (evaluate_graph issues edges).

Definition record_of (i : QueueIssue) : IssueRecord := MkIssue (q_id i) (q_status i).
Definition is_hidden (ready blocked : list string) (i : QueueIssue) : bool :=
  is_open i && queue_dispatchable i && negb (bool_decide (q_id i ∈ ready)) && negb (bool_decide (q_id i ∈ blocked)).
Definition collect_ready_live : result string ReadinessReport :=
  value ← br_value "br list -a --json" list_args;
  queue ← map_err graph_error_str (parse_queue_issues value);
  ready_value ← br_value "br ready --json" ["ready"; "--json"];
  ready ← map_err graph_error_str (parse_queue_ids ready_value "br ready");
  blocked_value ← br_value "br blocked --json" ["blocked"; "--json"];
  blocked ← map_err graph_error_str (parse_queue_ids blocked_value "br blocked");
  edges ← collect_edges_for (map q_id (List.filter (is_hidden ready blocked) queue));
  graph ← map_err graph_error_str (evaluate_graph (map record_of queue) edges);
  map_err graph_error_str (reconcile_readiness queue ready blocked graph).
End Live.

(** ** The graph says what the edges say. *)

Lemma status_map_snoc issues i : status_map (app issues [i]) = <[ir_id i := ir_status i]> (status_map issues).
Proof. unfold status_map. by rewrite foldl_snoc. Qed.

Lemma dom_status_map issues : dom (status_map issues) = list_to_set (C := gset string) (map ir_id issues).
Proof.
  induction issues as [|i issues IH] using rev_ind; [apply dom_empty_L|].
  rewrite status_map_snoc, dom_insert_L, IH, map_app, list_to_set_app_L. set_solver.
Qed.

Lemma size_list_to_set_NoDup (l : list string) : size (list_to_set (C := gset string) l) = length l ↔ NoDup l.
Proof.
  split; [|apply size_list_to_set].
  assert (∀ l : list string, size (list_to_set (C := gset string) l) <= length l) as Hle.
  { clear l. intros l. induction l as [|x l IH]; [by rewrite list_to_set_nil, size_empty|].
    cbn [length]. rewrite list_to_set_cons. pose proof (size_union_alt {[x]} (list_to_set (C := gset string) l)) as Hu.
    rewrite Hu, size_singleton.
    assert (list_to_set (C := gset string) l ∖ {[x]} ⊆ list_to_set l) as Hs%subseteq_size by set_solver. lia. }
  induction l as [|x l IH]; [constructor|]. rewrite list_to_set_cons. cbn [length]. intros Hs.
  destruct (decide (x ∈ l)) as [Hx|Hx].
  - rewrite subseteq_union_1_L in Hs by set_solver. specialize (Hle l). lia.
  - constructor; [done|]. apply IH. rewrite size_union, size_singleton in Hs by set_solver. lia.
Qed.

Lemma size_status_map issues : size (status_map issues) = length issues ↔ NoDup (map ir_id issues).
Proof. rewrite <- size_dom, dom_status_map, <- (length_map ir_id issues). apply size_list_to_set_NoDup. Qed.

Lemma status_map_lookup issues id s :
  NoDup (map ir_id issues) → status_map issues !! id = Some s ↔ MkIssue id s ∈ issues.
Proof.
  induction issues as [|[j t] issues IH] using rev_ind; [intros _; cbn; rewrite lookup_empty; set_solver|].
  rewrite map_app, NoDup_app, status_map_snoc. intros (Hnd & Hd & _). cbn in *. rewrite elem_of_app, list_elem_of_singleton.
  destruct (decide (j = id)) as [->|Hne].
  - rewrite lookup_insert_eq. split; [naive_solver|]. intros [Hin|[= ->]]; [|done].
    exfalso. apply (Hd id); [|set_solver]. apply list_elem_of_fmap. by exists (MkIssue id s).
  - rewrite lookup_insert_ne, IH by done. naive_solver.
Qed.

(** The edges of a child, and the live children of a blocker. *)
Definition edges_from (edges : list BlockerEdge) (id : string) : list BlockerEdge :=
  List.filter (λ e, bool_decide (child_id e = id)) edges.
Definition holds (statuses : gmap string IssueStatus) (id : string) (e : BlockerEdge) : bool :=
  bool_decide (blocker_id e = id) && bool_decide (is_Some (statuses !! id))
  && match statuses !! child_id e with Some s => is_non_terminal s | None => false end.

Lemma edges_of_snoc m edges e : edges_of m (app edges [e]) = add_edge m (edges_of m edges) e.
Proof. unfold edges_of. by rewrite foldl_snoc. Qed.

Lemma blockers_of_child m edges id s :
  m !! id = Some s →
  default [] (blockers_by_child (edges_of m edges) !! id) = map blocker_id (edges_from edges id).
Proof.
  intros Hid. induction edges as [|e edges IH] using rev_ind; [done|].
  rewrite edges_of_snoc. unfold edges_from in *. rewrite List.filter_app, map_app, <- IH. cbn [List.filter].
  unfold add_edge. case_bool_decide as Hc.
  - subst id. rewrite Hid. unfold push_blocker. by destruct (m !! blocker_id e); cbn; rewrite lookup_insert_eq.
  - rewrite app_nil_r. destruct (m !! child_id e); [|done]. unfold push_blocker.
    by destruct (m !! blocker_id e); cbn; rewrite lookup_insert_ne.
Qed.

Lemma dependents_of m edges id :
  default 0%N (dependents_by_blocker (edges_of m edges) !! id) = count_of (List.filter (holds m id) edges).
Proof.
  induction edges as [|e edges IH] using rev_ind; [done|].
  rewrite edges_of_snoc, List.filter_app. unfold count_of in *. rewrite length_app, Nat2N.inj_add, <- IH.
  cbn [List.filter]. unfold add_edge, holds, count_dependent.
  destruct (m !! child_id e) as [s|]; [|rewrite andb_false_r; cbn; lia].
  case_bool_decide as Hb; cbn [andb].
  - subst id. destruct (m !! blocker_id e); cbn; [|lia]. destruct (is_non_terminal s); cbn.
    + rewrite lookup_insert_eq. cbn. lia.
    + lia.
  - cbn. rewrite N.add_0_r. destruct (m !! blocker_id e); cbn; [|done].
    destruct (is_non_terminal s); cbn; [|done]. by rewrite lookup_insert_ne.
Qed.

Lemma blocker_report_state m id :
  br_state (blocker_report m id) =
  match m !! id with
  | Some Closed => Released
  | Some Tombstone | None => StaleEdgeState
  | Some _ => Blocking
  end.
Proof. unfold blocker_report. by destruct (m !! id) as [[]|]. Qed.

Lemma availability_of_map m ids :
  availability_of (map (blocker_report m) ids) =
  if existsb (λ id, bool_decide (m !! id = None ∨ m !! id = Some Tombstone)) ids then AvUnknown
  else if forallb (λ id, bool_decide (m !! id = Some Closed)) ids then Available else AvBlocked.
Proof.
  unfold availability_of. induction ids as [|id ids IH]; [done|]. cbn [map existsb forallb].
  rewrite !blocker_report_state. destruct (m !! id) as [[]|]; cbn in *; try done;
  destruct (existsb _ (map _ ids)), (existsb _ ids); try done; destruct (forallb _ ids); try done;
  by destruct (existsb _ (map _ ids)).
Qed.

Lemma find_first_unique {A} (key : A → string) l x :
  NoDup (map key l) → x ∈ l → find_first (λ y, bool_decide (key y = key x)) l = Some x.
Proof.
  induction l as [|y l IH]; [set_solver|]. cbn [map]. intros [Hn Hnd]%NoDup_cons [->|Hx]%elem_of_cons; cbn.
  - by rewrite bool_decide_true.
  - rewrite bool_decide_false; [by apply IH|]. intros Hy. apply Hn. rewrite Hy. by apply list_elem_of_fmap_2.
Qed.

Lemma evaluate_graph_ok issues edges g :
  evaluate_graph issues edges = Ok g ↔
  issues ≠ [] ∧ NoDup (map ir_id issues) ∧
  g = MkGraph "bead-availability/v1"
        (stable_sort (λ a b, str_lt (bead_id a) (bead_id b))
           (map (bead_report (status_map issues) (edges_of (status_map issues) edges)) issues))
        (es_stale (edges_of (status_map issues) edges)).
Proof.
  unfold evaluate_graph. destruct issues as [|i issues]; [naive_solver|].
  rewrite bool_decide_false by done. rewrite <- size_status_map. case_bool_decide; cbn; naive_solver.
Qed.

Lemma graph_issue_report issues edges g i :
  evaluate_graph issues edges = Ok g → i ∈ issues →
  graph_issue g (ir_id i) = Some (bead_report (status_map issues) (edges_of (status_map issues) edges) i).
Proof.
  intros (_ & Hnd & ->)%evaluate_graph_ok Hi. unfold graph_issue. cbn.
  set (f := bead_report _ _). change (ir_id i) with (bead_id (f i)). apply find_first_unique.
  - rewrite (stable_sort_Permutation _ (map f issues)), map_map. exact Hnd.
  - rewrite stable_sort_Permutation. by apply list_elem_of_fmap_2.
Qed.

Lemma elem_of_edges_from edges id b :
  b ∈ map blocker_id (edges_from edges id) ↔ MkEdge id b ∈ edges.
Proof.
  rewrite list_elem_of_fmap. unfold edges_from. setoid_rewrite list_elem_of_In. setoid_rewrite filter_In.
  setoid_rewrite bool_decide_eq_true. split; [intros ([] & -> & Hin & <-); done|]. intros Hin. by exists (MkEdge id b).
Qed.

Lemma ex_iff {A} (P Q : A → Prop) : (∀ x, P x ↔ Q x) → (∃ x, P x) ↔ (∃ x, Q x).
Proof. intros H. split; intros [x Hx]; exists x; by apply H. Qed.
Lemma forall_iff {A} (P Q : A → Prop) : (∀ x, P x ↔ Q x) → (∀ x, P x) ↔ (∀ x, Q x).
Proof. intros H. split; intros Hx x; by apply H. Qed.

Lemma available_map m ids :
  availability_of (map (blocker_report m) ids) = Available ↔ ∀ k, k ∈ ids → m !! k = Some Closed.
Proof.
  rewrite availability_of_map. destruct (existsb _ ids) eqn:He.
  - split; [done|]. intros Hall. apply existsb_exists in He as (k & Hk & Hbad%bool_decide_eq_true).
    rewrite <- list_elem_of_In in Hk. specialize (Hall k Hk). naive_solver.
  - assert (forallb (λ id, bool_decide (m !! id = Some Closed)) ids = true ↔ ∀ k, k ∈ ids → m !! k = Some Closed) as <-.
    { rewrite forallb_forall. apply forall_iff. intros k. by rewrite <- list_elem_of_In, bool_decide_eq_true. }
    by destruct (forallb _ ids).
Qed.

(** The blockers of an available row are closed rows. *)
Lemma graph_available {A} (queue : list A) f edges g i b :
  evaluate_graph (map f queue) edges = Ok g → f i ∈ map f queue → graph_issue g (ir_id (f i)) = Some b →
  availability b = Available →
  ∀ e, e ∈ edges → child_id e = ir_id (f i) → ∃ j, j ∈ queue ∧ ir_id (f j) = blocker_id e ∧ ir_status (f j) = Closed.
Proof.
  intros Hg Hi Hb Hav [c k] He Hc. cbn in *. subst c. rewrite (graph_issue_report _ _ _ _ Hg Hi) in Hb.
  injection Hb as <-. apply evaluate_graph_ok in Hg as (_ & Hnd & _). unfold bead_report in Hav. cbn in Hav.
  rewrite available_map, (blockers_of_child _ _ _ (ir_status (f i))) in Hav
    by by apply status_map_lookup; [|destruct (f i)].
  specialize (Hav k ltac:(by apply elem_of_edges_from)). apply status_map_lookup in Hav; [|done].
  apply list_elem_of_fmap in Hav as (j & Hj & Hin). exists j. by rewrite <- Hj.
Qed.

Section Evaluate.
Context (issues : list IssueRecord) (edges : list BlockerEdge).
Let known (id : string) (p : IssueStatus → bool) : bool :=
  existsb (λ i, bool_decide (ir_id i = id) && p (ir_status i)) issues.

(** in every graph that is accepted, a listed issue has one report; it is available
    exactly when each of its blockers is listed as closed, undecided exactly when some
    blocker is not listed or is a tombstone, and it is said to unblock as many edges as
    name it as the blocker of a listed child that is not terminal. *)
Theorem available_iff g id s :
  evaluate_graph issues edges = Ok g → MkIssue id s ∈ issues →
  ∃ b, graph_issue g id = Some b ∧ ba_status b = s ∧
    (availability b = Available ↔ ∀ k, MkEdge id k ∈ edges → MkIssue k Closed ∈ issues) ∧
    (availability b = AvUnknown ↔
     ∃ k, MkEdge id k ∈ edges ∧ ((∀ t, MkIssue k t ∉ issues) ∨ MkIssue k Tombstone ∈ issues)) ∧
    unblocks b = Known (count_of (List.filter
      (λ e, bool_decide (blocker_id e = id) && known (child_id e) is_non_terminal) edges)).
Proof.
  intros Hg Hi. pose proof (graph_issue_report _ _ _ _ Hg Hi) as Hb.
  apply evaluate_graph_ok in Hg as (_ & Hnd & _). eexists. split; [exact Hb|]. clear Hb.
  pose proof (status_map_lookup issues) as Hm. set (m := status_map issues) in *.
  assert (m !! id = Some s) as Hid by by apply Hm.
  unfold bead_report. cbn. rewrite (blockers_of_child _ _ _ _ Hid), Hid, dependents_of.
  split; [done|]. set (bs := map blocker_id _).
  assert (existsb (λ k, bool_decide (m !! k = None ∨ m !! k = Some Tombstone)) bs = true ↔
          ∃ k, MkEdge id k ∈ edges ∧ ((∀ t, MkIssue k t ∉ issues) ∨ MkIssue k Tombstone ∈ issues)) as Hstale.
  { rewrite existsb_exists. apply ex_iff; intros k. rewrite <- list_elem_of_In, bool_decide_eq_true. unfold bs.
    rewrite elem_of_edges_from, <- Hm by done. rewrite eq_None_not_Some. unfold is_Some.
    assert ((∀ t, MkIssue k t ∉ issues) ↔ ¬ ∃ t, m !! k = Some t) as ->; [|done].
    setoid_rewrite Hm; [|done]. naive_solver. }
  assert (availability_of (map (blocker_report m) bs) = AvUnknown ↔
          existsb (λ k, bool_decide (m !! k = None ∨ m !! k = Some Tombstone)) bs = true) as ->.
  { rewrite availability_of_map. destruct (existsb _ bs); [done|]. by destruct (forallb _ bs). }
  rewrite <- Hstale. split_and!; [|done|].
  - rewrite available_map. apply forall_iff. intros k. unfold bs. by rewrite elem_of_edges_from, Hm.
  - do 2 f_equal. apply filter_ext. intros e. unfold holds, known.
    case_bool_decide as Hb; [|done]. subst id. rewrite Hid. cbn. apply eq_true_iff_eq.
    rewrite existsb_exists. setoid_rewrite andb_true_iff. setoid_rewrite bool_decide_eq_true.
    setoid_rewrite <- list_elem_of_In. split.
    + destruct (m !! child_id e) as [t|] eqn:Ht; [|done]. apply Hm in Ht; [|done]. intros Hn. by exists (MkIssue (child_id e) t).
    + intros ([k t] & Hk & Hkc & Hn). cbn in *. subst k. apply Hm in Hk; [|done]. by rewrite Hk.
Qed.
End Evaluate.

(** ** Every open row is accounted for. *)

Lemma surface_ids_ok known ids seen s :
  surface_ids known seen ids = Ok s → ∀ id, id ∈ s ↔ id ∈ ids ∨ id ∈ seen.
Proof.
  revert seen. induction ids as [|x ids IH]; intros seen; cbn.
  - intros [= <-] id. set_solver.
  - case_bool_decide; [|done]. case_bool_decide; [done|]. cbn. intros Hs id. rewrite (IH _ Hs). set_solver.
Qed.

Section Accounts.
Context (ready blocked : gset string) (g : GraphReport).
Let pl := place ready blocked g.
Definition admits (i : QueueIssue) : bool := match pl i with Ok Admit | Ok Recover => true | _ => false end.
Definition refusal (i : QueueIssue) : option InvisibleQueueIssue :=
  match pl i with Ok (Refuse reason) => Some (MkInvisible i reason) | _ => None end.
Definition already (i : QueueIssue) : bool := match pl i with Ok AlreadyBlocked => true | _ => false end.

Lemma account_all_ok l a a' :
  account_all ready blocked g a l = Ok a' →
  (∀ i, i ∈ l → is_ok (pl i) = true) ∧ ac_admitted a' = app (ac_admitted a) (List.filter admits l) ∧
  ac_refused a' = app (ac_refused a) (omap refusal l).
Proof.
  revert a. induction l as [|i l IH]; intros a; cbn.
  - intros [= ->]. rewrite !app_nil_r. set_solver.
  - unfold admits at 1, refusal at 1, pl. destruct (place ready blocked g i) as [p|e] eqn:Hp; [|done]. cbn.
    intros (Hl & Ha & Hr)%IH. rewrite Ha, Hr. split.
    { intros j [->|Hj]%elem_of_cons; [unfold pl; by rewrite Hp|by apply Hl]. }
    destruct p; cbn; by rewrite <- ?app_assoc.
Qed.

(** Admitted, refused or already listed as blocked. *)
Lemma accounts_partition l :
  (∀ i, i ∈ l → is_ok (pl i) = true) →
  l ≡ₚ app (List.filter admits l) (app (map iq_issue (omap refusal l)) (List.filter already l)).
Proof.
  induction l as [|i l IH]; [done|]. intros Hl. pose proof (Hl i ltac:(set_solver)) as Hi.
  specialize (IH ltac:(intros; apply Hl; set_solver)). cbn. unfold admits at 1, refusal at 1, already at 1.
  destruct (pl i) as [[]|]; try done; cbn; rewrite IH at 1; solve_Permutation.
Qed.
End Accounts.

Lemma admits_iff ready blocked g i :
  (∀ id, id ∈ ready → id ∉ blocked) →
  admits ready blocked g i = true ↔
  queue_dispatchable i = true ∧
  (q_id i ∈ ready ∨ q_id i ∉ blocked ∧ ∃ b, graph_issue g (q_id i) = Some b ∧ availability b = Available).
Proof.
  intros Hd. specialize (Hd (q_id i)). unfold admits, place.
  destruct (queue_dispatchable i), (graph_issue g (q_id i)) as [b|]; repeat case_bool_decide; cbn;
    try destruct (availability b) eqn:?; try solve [naive_solver];
    (split; [done|]; intros (_ & [?|(_ & ? & [= <-] & ?)]); congruence || done).
Qed.

Lemma already_iff ready blocked g i :
  (∀ id, id ∈ ready → id ∉ blocked) →
  already ready blocked g i = bool_decide (q_id i ∈ blocked).
Proof.
  intros Hd. specialize (Hd (q_id i)). unfold already, place.
  destruct (queue_dispatchable i), (graph_issue g (q_id i)) as [b|]; repeat case_bool_decide; cbn;
    try destruct (availability b) eqn:?; naive_solver.
Qed.

Lemma queue_dispatchable_iff i :
  queue_dispatchable i = true ↔ issue_type i ≠ "epic" ∧ trim (assignee i) = "".
Proof.
  unfold queue_dispatchable. rewrite andb_true_iff, negb_true_iff, bool_decide_eq_false.
  assert (is_empty (trim (assignee i)) = true ↔ trim (assignee i) = "") as ->; [|done].
  by destruct (trim (assignee i)).
Qed.

(** What an accepted reconciliation is made of. *)
Lemma reconcile_ok issues ready_ids blocked_ids g r :
  reconcile_readiness issues ready_ids blocked_ids g = Ok r →
  ∃ ready blocked,
    (∀ id, id ∈ ready ↔ id ∈ ready_ids) ∧ (∀ id, id ∈ blocked ↔ id ∈ blocked_ids) ∧
    (∀ id, id ∈ ready → id ∉ blocked) ∧
    (∀ i, i ∈ List.filter is_open issues → is_ok (place ready blocked g i) = true) ∧
    open_candidates r = List.filter is_open issues ∧
    admitted r = stable_sort queue_lt (List.filter (admits ready blocked g) (List.filter is_open issues)) ∧
    refused r = stable_sort (λ x y, queue_lt (iq_issue x) (iq_issue y))
      (omap (refusal ready blocked g) (List.filter is_open issues)).
Proof.
  unfold reconcile_readiness. case_bool_decide; [done|]. case_bool_decide; [done|].
  destruct (surface_ids _ ∅ ready_ids) as [ready|] eqn:Hready; cbn; [|done].
  destruct (surface_ids _ ∅ blocked_ids) as [blocked|] eqn:Hblocked; cbn; [|done].
  destruct (btree_elems (ready ∩ blocked)) as [|x xs] eqn:Hx; [|done].
  case_bool_decide; [done|]. destruct (account_all _ _ _ _ _) as [a|] eqn:Ha; cbn; [|done].
  apply account_all_ok in Ha as (Hok & Had & Href). destruct (negb _); [done|]. intros [= <-].
  exists ready, blocked. cbn. rewrite Had, Href. split_and!; try done.
  - intros id. rewrite (surface_ids_ok _ _ _ _ Hready). set_solver.
  - intros id. rewrite (surface_ids_ok _ _ _ _ Hblocked). set_solver.
  - intros id Hr Hb. assert (id ∈ btree_elems (ready ∩ blocked)) as Hin; [|rewrite Hx in Hin; set_solver].
    unfold btree_elems, sort_strings. rewrite (merge_sort_Permutation String.le), elem_of_elements. set_solver.
Qed.

(** an accepted reconciliation admits exactly the open rows that are no epic, carry
    no assignee, and are listed as ready or, listed nowhere, are available in the graph;
    and every open row is admitted, refused with a reason, or already listed as blocked,
    exactly once. *)
Theorem readiness_admits_iff issues ready_ids blocked_ids g r :
  reconcile_readiness issues ready_ids blocked_ids g = Ok r →
  (∀ i, i ∈ admitted r ↔
     i ∈ issues ∧ q_status i = Open ∧ issue_type i ≠ "epic" ∧ trim (assignee i) = "" ∧
     (q_id i ∈ ready_ids ∨
      q_id i ∉ blocked_ids ∧ ∃ b, graph_issue g (q_id i) = Some b ∧ availability b = Available)) ∧
  List.filter is_open issues ≡ₚ
    app (admitted r) (app (map iq_issue (refused r))
      (List.filter (λ i, bool_decide (q_id i ∈ blocked_ids)) (List.filter is_open issues))).
Proof.
  intros (ready & blocked & Hr & Hb & Hd & Hok & _ & Had & Href)%reconcile_ok. rewrite Had, Href. split.
  - intros i. rewrite stable_sort_Permutation, !list_elem_of_In, !filter_In, admits_iff, queue_dispatchable_iff by done.
    unfold is_open. rewrite bool_decide_eq_true, Hr, Hb, <- !list_elem_of_In. tauto.
  - rewrite !stable_sort_Permutation, (accounts_partition _ _ _ _ Hok) at 1. do 2 apply Permutation_app_head.
    erewrite filter_ext; [done|]. intros i. rewrite already_iff by done. by apply bool_decide_ext.
Qed.

(** ** A row the lists forgot is offered on the graph's word only. *)
Section LiveFacts.
Context `{SerdeJson} (json_error : string → string) (o : Outside) (program : string).
Notation read_edges := (collect_edges_of json_error o program).

Lemma parse_edges_child id edges l : parse_edges id edges = Ok l → ∀ e, e ∈ l → child_id e = id.
Proof.
  revert l. induction edges as [|x edges IH]; intros l; cbn; [intros [= <-]; set_solver|].
  destruct (is_blocks x); [|apply IH].
  intros (b & Hb & (l' & Hl & [= <-])%bind_ok)%bind_ok e [->|He]%elem_of_cons; [|by eapply IH].
  unfold parse_edge in Hb. by split_cases.
Qed.

Lemma read_edges_child id l : read_edges id = Ok l → ∀ e, e ∈ l → child_id e = id.
Proof.
  unfold collect_edges_of. destruct (cancelled_before o id); [done|].
  intros (v & _ & (edges & _ & He)%map_err_ok%bind_ok)%bind_ok. by eapply parse_edges_child.
Qed.

(** The edges collected for several beads are those of each. *)
Lemma collect_edges_for_ok ids es :
  collect_edges_for json_error o program ids = Ok es →
  ∀ id, id ∈ ids → ∃ l, read_edges id = Ok l ∧ ∀ e, e ∈ l → e ∈ es.
Proof.
  revert es. induction ids as [|x ids IH]; intros es; cbn; [set_solver|].
  intros (l & Hl & (rest & Hrest & [= <-])%bind_ok)%bind_ok id [->|Hid]%elem_of_cons.
  - exists l. set_solver.
  - destruct (IH _ Hrest id Hid) as (l' & Hl' & Hin). exists l'. set_solver.
Qed.

Definition read_queue : result string (list QueueIssue) :=
  v ← br_value json_error o program "br list -a --json" list_args; map_err graph_error_str (parse_queue_issues v).
Definition read_ready : result string (list string) :=
  v ← br_value json_error o program "br ready --json" ["ready"; "--json"];
  map_err graph_error_str (parse_queue_ids v "br ready").

(** C26: whatever the commands of [br] answer, a live reconciliation admits only an open,
    unassigned row that is no epic; and if [br ready] does not list it, then its own
    blockers were read, and every one of them is listed as closed. *)
Theorem live_admission_rests_on r i :
  collect_ready_live json_error o program = Ok r → i ∈ admitted r →
  ∃ queue ready, read_queue = Ok queue ∧ read_ready = Ok ready ∧
    i ∈ queue ∧ q_status i = Open ∧ issue_type i ≠ "epic" ∧ trim (assignee i) = "" ∧
    (q_id i ∈ ready ∨
     ∃ l, read_edges (q_id i) = Ok l ∧
       ∀ e, e ∈ l → child_id e = q_id i ∧ ∃ j, j ∈ queue ∧ q_id j = blocker_id e ∧ q_status j = Closed).
Proof.
  unfold collect_ready_live. intros (v & Hv & Hr)%bind_ok Hi.
  apply bind_ok in Hr as (queue & Hqueue & (v2 & Hv2 & Hr)%bind_ok).
  apply bind_ok in Hr as (ready & Hready & (v3 & _ & Hr)%bind_ok).
  apply bind_ok in Hr as (blocked & _ & (edges & Hedges & Hr)%bind_ok).
  apply bind_ok in Hr as (g & Hg%map_err_ok & Hr%map_err_ok).
  exists queue, ready. split; [unfold read_queue; by rewrite Hv|]. split; [unfold read_ready; by rewrite Hv2|].
  pose proof Hr as (rs & bs & Hrs & Hbs & Hd & _ & _ & Had & _)%reconcile_ok.
  rewrite Had, stable_sort_Permutation, list_elem_of_In, !filter_In, admits_iff, <- list_elem_of_In in Hi by done.
  destruct Hi as ((Hq & Ho) & Hdisp & Hi). pose proof Hdisp as (He & Ha)%queue_dispatchable_iff.
  split_and!; try done. { unfold is_open in Ho. by apply bool_decide_eq_true in Ho. }
  destruct (decide (q_id i ∈ ready)) as [|Hnr]; [by left|]. right.
  destruct Hi as [Hi|(Hnb & b & Hb & Hav)]; [by apply Hrs in Hi|]. rewrite Hbs in Hnb.
  assert (q_id i ∈ map q_id (List.filter (is_hidden ready blocked) queue)) as Hhid.
  { apply list_elem_of_fmap_2. rewrite list_elem_of_In, filter_In, <- list_elem_of_In. split; [done|].
    unfold is_hidden. rewrite Ho, Hdisp, !bool_decide_false by done. done. }
  destruct (collect_edges_for_ok _ _ Hedges _ Hhid) as (l & Hl & Hin). exists l. split; [done|].
  intros e He'. pose proof (read_edges_child _ _ Hl e He') as Hc. split; [done|].
  destruct (graph_available queue record_of _ _ i _ Hg (list_elem_of_fmap_2 record_of _ _ Hq) Hb Hav e) as (j & Hj); [by apply Hin|done|].
  exists j. naive_solver.
Qed.
End LiveFacts.

(** ** The children of an epic. *)
Section R7Facts.
Context `{SerdeJson} (json_error : string → string) (epic : string).

(** What a row says by itself: its identifier, its status, and whether one of its
    dependencies makes it a child of the epic. *)
Definition names_epic (d : Json) : bool :=
  bool_decide ((json_get "type" d ≫= as_str) = Some "parent-child")
  && bool_decide ((json_get "depends_on_id" d ≫= as_str) = Some epic).
Definition row_reading (line : string) : option (string * IssueStatus * bool) :=
  row ← from_str line;
  id ← json_get "id" row ≫= as_str;
  status ← json_get "status" row ≫= as_str;
  Some (id, parse_status status,
        match json_get "dependencies" row ≫= as_array with Some ds => existsb names_epic ds | None => false end).
Definition readings (ls : list string) : list (string * IssueStatus * bool) :=
  omap row_reading (List.filter (λ l, negb (is_empty (trim l))) ls).

Lemma nonblank_Some x s : nonblank x = Some s → x = Some s.
Proof. unfold nonblank. destruct x as [t|]; [|done]. by destruct (is_empty (trim t)). Qed.

Lemma dependencies_ok n ds c : dependencies epic n ds = Ok c → c = existsb names_epic ds.
Proof.
  revert c. induction ds as [|d ds IH]; intros c; cbn; [congruence|].
  intros (b & Hb & (rest & Hrest & [= <-])%bind_ok)%bind_ok. rewrite <- (IH _ Hrest). f_equal.
  unfold dependency in Hb. apply bind_ok in Hb as (fs & Hfs%ok_or_ok & (on & Hon%ok_or_ok & Hb)%bind_ok).
  apply bind_ok in Hb as (k & Hk%ok_or_ok & [= <-]). unfold names_epic, json_get. rewrite Hfs. cbn. rewrite Hon, Hk.
  f_equal; apply bool_decide_ext; naive_solver.
Qed.

Lemma r7_row_ok n st line st' :
  r7_row json_error epic n st line = Ok st' →
  ∃ id s c, row_reading line = Some (id, s, c) ∧ r7_statuses st !! id = None ∧
    r7_statuses st' = <[id := s]> (r7_statuses st) ∧
    r7_children st' = if c : bool then {[ id ]} ∪ r7_children st else r7_children st.
Proof.
  unfold r7_row. intros (row & Hrow%ok_or_ok & (fs & Hfs%ok_or_ok & Hr)%bind_ok)%bind_ok.
  apply bind_ok in Hr as (id & Hid%ok_or_ok%nonblank_Some & (s & Hs%ok_or_ok & Hr)%bind_ok).
  apply fmap_Some in Hs as (t & Ht & ->). unfold row_reading, json_get. rewrite Hrow. cbn. rewrite Hfs. cbn.
  rewrite Hid. cbn. rewrite Ht. cbn. destruct (r7_statuses st !! id) eqn:Hn; [done|].
  destruct (map_get "dependencies" fs) as [deps|]; cbn.
  - apply bind_ok in Hr as (ds & Hds%ok_or_ok & (c & Hc%dependencies_ok & [= <-])%bind_ok).
    rewrite Hds. cbn. subst c. by eexists _, _, _.
  - injection Hr as <-. by eexists _, _, _.
Qed.

Lemma r7_rows_ok n st ls st' :
  r7_rows json_error epic n st ls = Ok st' →
  (∀ id s, r7_statuses st' !! id = Some s ↔ r7_statuses st !! id = Some s ∨ ∃ c, (id, s, c) ∈ readings ls) ∧
  (∀ id, id ∈ r7_children st' ↔ id ∈ r7_children st ∨ ∃ s, (id, s, true) ∈ readings ls).
Proof.
  revert n st. induction ls as [|l ls IH]; intros n st; cbn; [intros [= ->]; set_solver|].
  unfold readings. cbn. destruct (is_empty (trim l)); cbn; [apply IH|].
  intros (st2 & (id & s & c & Hl & Hn & Hs & Hc)%r7_row_ok & (Hst & Hch)%IH)%bind_ok. rewrite Hl. cbn. split.
  - intros id' s'. rewrite Hst, Hs. setoid_rewrite elem_of_cons. destruct (decide (id = id')) as [->|Hne].
    + rewrite lookup_insert_eq. split; [intros [[= ->]|[c' ?]]; eauto|].
      intros [?|[c' [[= -> ->]|?]]]; [congruence|by left|eauto].
    + rewrite lookup_insert_ne by done. split; [intros [?|[c' ?]]; eauto|].
      intros [?|[c' [[= -> ->]|?]]]; [eauto|done|eauto].
  - intros id'. rewrite Hch, Hc. setoid_rewrite elem_of_cons. destruct c.
    + rewrite elem_of_union, elem_of_singleton. split.
      * intros [[->|?]|[s' ?]]; eauto.
      * intros [?|[s' [[= -> ->]|?]]]; eauto.
    + split; [intros [?|[s' ?]]; eauto|]. intros [?|[s' [[=]|?]]]; eauto.
Qed.

(** an accepted dependency file has children of the epic, exactly the rows with a
    parent-child dependency on it, and nothing is left of the epic exactly when its own
    row and all of those are terminal. *)
Theorem residual_zero_iff text m :
  parse_r7_parent_child_jsonl json_error text epic = Ok m →
  child_ids m ≠ [] ∧ (∀ c, c ∈ child_ids m ↔ ∃ s, (c, s, true) ∈ readings (lines text)) ∧
  (residual_count m = 0%N ↔
   ∀ id s c, (id, s, c) ∈ readings (lines text) → id = epic ∨ c = true → is_terminal s = true).
Proof.
  unfold parse_r7_parent_child_jsonl. destruct (is_empty (trim text)); [done|].
  intros (st & (Hst & Hch)%r7_rows_ok & Hm)%bind_ok. destruct (saw_dependency st); [|done]. cbn in Hm.
  apply bind_ok in Hm as (es & Hes%ok_or_ok & Hm). case_bool_decide as Hne; [done|]. injection Hm as <-. cbn in *.
  assert (∀ c, c ∈ btree_elems (r7_children st) ↔ ∃ s, (c, s, true) ∈ readings (lines text)) as Hc.
  { intros c. unfold btree_elems, sort_strings. rewrite (merge_sort_Permutation String.le), elem_of_elements, Hch.
    set_solver. }
  assert (∀ id s, r7_statuses st !! id = Some s ↔ ∃ c, (id, s, c) ∈ readings (lines text)) as Hs.
  { intros id s. rewrite Hst, lookup_empty. naive_solver. }
  split_and!; [|done|].
  { apply set_choose_L in Hne as [x Hx]. apply Hch in Hx as [?|Hx]; [set_solver|].
    apply Hc in Hx. by destruct (btree_elems _); [set_solver|]. }
  unfold residual_count. cbn. unfold count_of. rewrite N.eq_add_0.
  assert (N.of_nat (length (List.filter (non_terminal_child (r7_statuses st)) (btree_elems (r7_children st)))) = 0%N ↔
    ∀ id s, (id, s, true) ∈ readings (lines text) → is_terminal s = true) as ->.
  { transitivity (List.filter (non_terminal_child (r7_statuses st)) (btree_elems (r7_children st)) = []).
    { destruct (List.filter _ _); cbn; [done|]. split; [lia|done]. }
    transitivity (∀ x, x ∈ btree_elems (r7_children st) → non_terminal_child (r7_statuses st) x = false).
    { split.
      - intros Hnil x Hx. destruct (non_terminal_child _ x) eqn:Ht; [|done]. exfalso.
        assert (x ∈ List.filter (non_terminal_child (r7_statuses st)) (btree_elems (r7_children st))) as Hin
          by by rewrite list_elem_of_In, filter_In, <- list_elem_of_In. rewrite Hnil in Hin. set_solver.
      - intros Hall. destruct (List.filter _ _) as [|x xs] eqn:Hf; [done|]. exfalso.
        assert (x ∈ List.filter (non_terminal_child (r7_statuses st)) (btree_elems (r7_children st))) as Hin
          by (rewrite Hf; set_solver). rewrite list_elem_of_In, filter_In, <- list_elem_of_In in Hin.
        destruct Hin as [Hx Ht]. by rewrite (Hall _ Hx) in Ht. }
    unfold non_terminal_child. split.
    - intros Hall id s Hin. specialize (Hall id ltac:(apply Hc; eauto)).
      rewrite (proj2 (Hs id s)) in Hall by eauto. by apply negb_false_iff.
    - intros Hall x (s & Hx)%Hc. rewrite (proj2 (Hs x s)) by eauto. apply negb_false_iff. eauto. }
  assert ((if is_terminal es then 0%N else 1%N) = 0%N ↔ is_terminal es = true) as -> by by destruct (is_terminal es).
  apply Hs in Hes as Hes'. split.
  - intros [Hall He] id s c Hin [->| ->]; [|eauto].
    assert (r7_statuses st !! epic = Some s) by (apply Hs; eauto). congruence.
  - intros Hall. split; [eauto|]. destruct Hes' as [c Hin]. eauto.
Qed.
End R7Facts.

(** ** Concrete graphs. *)
Definition ex_issues : list IssueRecord :=
  [MkIssue "b" Open; MkIssue "a" Closed; MkIssue "t" Tombstone; MkIssue "c" Open; MkIssue "d" Open].
Definition ex_edges : list BlockerEdge := [MkEdge "b" "a"; MkEdge "c" "b"; MkEdge "d" "t"; MkEdge "d" "b"].
Definition ex_graph : GraphReport :=
  match evaluate_graph ex_issues ex_edges with Ok g => g | Err _ => MkGraph "" [] [] end.

(** A tombstone is terminal and yet never releases the bead that it blocks. *)
Example tombstone_never_releases :
  is_terminal Tombstone = true ∧
  map (λ b, (bead_id b, availability b, unblocks b)) (g_issues ex_graph) =
  [("a", Available, Known 1); ("b", Available, Known 2); ("c", AvBlocked, Known 0); ("d", AvUnknown, Known 0);
   ("t", Available, Known 1)].
Proof. split; vm_compute; reflexivity. Qed.

Lemma available_iff_witness :
  (evaluate_graph ex_issues ex_edges = Ok ex_graph ∧ MkIssue "d" Open ∈ ex_issues) ∧
  ∃ b, graph_issue ex_graph "d" = Some b ∧ availability b ≠ Available.
Proof.
  assert (evaluate_graph ex_issues ex_edges = Ok ex_graph) as Hg by (vm_compute; reflexivity).
  assert (MkIssue "d" Open ∈ ex_issues) as Hi by (unfold ex_issues; set_solver).
  split; [done|]. destruct (available_iff ex_issues ex_edges ex_graph "d" Open Hg Hi) as (b & Hb & _ & _ & Hu & _).
  exists b. split; [done|]. enough (availability b = AvUnknown) by congruence. apply Hu. exists "t". split.
  - unfold ex_edges. set_solver.
  - right. unfold ex_issues. set_solver.
Defined.

Definition ex_queue : list QueueIssue :=
  [MkQueue "b" Open 1 "task" ""; MkQueue "a" Closed 0 "task" ""; MkQueue "t" Tombstone 0 "task" "";
   MkQueue "c" Open 2 "task" ""; MkQueue "d" Open 2 "bug" ""; MkQueue "e" Open 2 "epic" ""].
Definition ex_full : GraphReport :=
  match evaluate_graph (map record_of ex_queue) ex_edges with Ok g => g | Err _ => MkGraph "" [] [] end.
Definition ex_ready : ReadinessReport :=
  match reconcile_readiness ex_queue ["a"] ["c"] ex_full with
  | Ok r => r | Err _ => MkReadiness "" [] [] [] [] 0 0 0 0 0
  end.
Lemma readiness_admits_iff_witness :
  reconcile_readiness ex_queue ["a"] ["c"] ex_full = Ok ex_ready ∧ MkQueue "b" Open 1 "task" "" ∈ admitted ex_ready.
Proof.
  assert (reconcile_readiness ex_queue ["a"] ["c"] ex_full = Ok ex_ready) as Hr by (vm_compute; reflexivity).
  split; [done|]. apply (readiness_admits_iff _ _ _ _ _ Hr). cbn [q_status issue_type assignee q_id].
  split_and!; [unfold ex_queue; set_solver|done..|]. right. split; [set_solver|].
  exists (MkBead "b" Open Available [MkBlocker "a" Closed Released "closed blocker releases this child"] (Known 2)).
  split; vm_compute; reflexivity.
Defined.

(** [br] over the same beads; a text stands for the value it parses to. *)
Definition ex_row (i : QueueIssue) : Json :=
  jobj [("id", JString (q_id i)); ("status", JString (status_str (q_status i)));
        ("priority", JNumber (PosInt (q_priority i))); ("issue_type", JString (issue_type i))].
Definition ex_dep (e : BlockerEdge) : Json :=
  jobj [("type", JString "blocks"); ("issue_id", JString (child_id e)); ("depends_on_id", JString (blocker_id e))].
#[local] Instance ex_serde : SerdeJson := λ s,
  if bool_decide (s = "list") then Some (jobj [("issues", JArray (map ex_row ex_queue))])
  else if bool_decide (s = "ready") then Some (JArray [jobj [("id", JString "a")]])
  else if bool_decide (s = "blocked") then Some (JArray [jobj [("id", JString "c")]])
  else Some (JArray (map ex_dep (edges_from ex_edges s))).
Definition ex_outside : Outside := MkOutside (λ _, false) (λ args,
  match args with
  | ["dep"; _; id; _; _; _] => BrOutput id
  | cmd :: _ => BrOutput cmd
  | [] => BrTimedOut
  end).
Definition ex_live : ReadinessReport :=
  match collect_ready_live id ex_outside "br" with
  | Ok r => r | Err _ => MkReadiness "" [] [] [] [] 0 0 0 0 0
  end.
Lemma live_admission_rests_on_witness :
  collect_ready_live id ex_outside "br" = Ok ex_live ∧ map q_id (admitted ex_live) = ["b"] ∧
  map (λ r, q_id (iq_issue r)) (refused ex_live) = ["d"; "e"] ∧
  ∃ l, collect_edges_of id ex_outside "br" "b" = Ok l.
Proof.
  assert (collect_ready_live id ex_outside "br" = Ok ex_live) as Hr by (vm_compute; reflexivity).
  assert (MkQueue "b" Open 1 "task" "" ∈ admitted ex_live) as Hi.
  { assert (admitted ex_live = [MkQueue "b" Open 1 "task" ""]) as -> by (vm_compute; reflexivity). set_solver. }
  split_and!; [done|vm_compute; reflexivity..|].
  destruct (live_admission_rests_on id ex_outside "br" _ _ Hr Hi) as (q & ready & _ & Hready & _ & _ & _ & _ & [Hin|(l & Hl & _)]).
  - assert (read_ready id ex_outside "br" = Ok ["a"]) as Ha by (vm_compute; reflexivity).
    rewrite Ha in Hready. injection Hready as <-. cbn in Hin. set_solver.
  - exists l. exact Hl.
Defined.
