(* ===== verification/Inversion.v ===== *)
(** * Beads that wait for less urgent ones

    bead-availability/src/inversion.rs walks the blocks edges breadth first from every
    live bead and classifies the less urgent beads it waits for: directly, through a
    chain, and, as nothing inherits a priority, both again as failures of inheritance.
    A smaller number is more urgent. *)

From stdpp Require Import base numbers list option strings pretty gmap relations sorting.
From Stdlib Require Import NArith ZArith Ascii Lia.
From S2P Require Import Prelude RustStr Order Json OracleCompare.

(** ** The data. *)

Inductive InversionType := Direct | Transitive | InheritanceFailure.
Definition inversion_str (k : InversionType) : string :=
  match k with Direct => "Direct" | Transitive => "Transitive" | InheritanceFailure => "InheritanceFailure" end.
Definition BR_HAS_NO_INHERITANCE : string := "br stores priority and never inherits it".
Definition DETECT_TRANSITIVE : bool := true.
Record ScanConfig := MkConfig { max_depth : N }.
Definition production : ScanConfig := MkConfig u64_max.
Definition direct_only : ScanConfig := MkConfig 1.

Record DagIssue := MkDag { dag_id : string; dag_priority : option Z; dag_status : string }.
Record DagEdge := MkDagEdge { issue_id : string; depends_on_id : string; dep_type : string }.
Record Inversion := MkInversion {
  inversion_type : InversionType; blocked_id : string; blocked_priority : Z; blocking_id : string;
  blocking_priority : Z; inv_depth : N; blocking_chain : list string }.
Record Classification := MkClassification {
  direct : list Inversion; transitive : list Inversion; inheritance_failures : list Inversion;
  inheritance_mechanism_absent : bool; p0_with_lower_priority_blocker : list string }.

Definition has_inversion (c : Classification) : bool :=
  negb (bool_decide (length (direct c) = 0)) || negb (bool_decide (length (transitive c) = 0)).
Definition gate_exit (c : Classification) : N := if has_inversion c then 1 else 0.
Definition push_arm (kind : InversionType) (rows : list Inversion) : string :=
  "INVERSION_TYPE " +:+ inversion_str kind +:+ " count=" +:+ show_N (N.of_nat (length rows)) +:+ " example="
  +:+ match rows with r :: _ => blocked_id r | [] => "-" end +:+ lf_str.
Definition inversion_report (c : Classification) : string :=
  push_arm Direct (direct c) +:+ push_arm Transitive (transitive c)
  +:+ push_arm InheritanceFailure (inheritance_failures c)
  +:+ "INHERITANCE_MECHANISM absent " +:+ BR_HAS_NO_INHERITANCE +:+ lf_str
  +:+ "P0_WITH_LOWER_PRIORITY_BLOCKER count=" +:+ show_N (N.of_nat (length (p0_with_lower_priority_blocker c)))
  +:+ " example=" +:+ match p0_with_lower_priority_blocker c with x :: _ => x | [] => "-" end +:+ lf_str.

Inductive ScanError := EmptyIssueSet | DuplicateIssue (id : string) | Malformed (detail : string).
Definition scan_error_str (e : ScanError) : string :=
  match e with
  | EmptyIssueSet => "INVERSION_SCAN_EMPTY: no issues to classify"
  | DuplicateIssue id => "INVERSION_DUPLICATE_ISSUE id=" +:+ id
  | Malformed detail => "INVERSION_GRAPH_MALFORMED " +:+ detail
  end.
Definition scan_exit_code (e : ScanError) : N := match e with EmptyIssueSet => 2 | _ => 3 end.

(** ** The graph. *)

Definition is_live (status : string) : bool := negb (bool_decide (status = "closed")).

Fixpoint index_issues (m : gmap string DagIssue) (issues : list DagIssue) : result ScanError (gmap string DagIssue) :=
  match issues with
  | [] => Ok m
  | i :: issues =>
      match m !! dag_id i with
      | Some _ => Err (DuplicateIssue (dag_id i))
      | None => index_issues (<[dag_id i := i]> m) issues
      end
  end.

Definition walkable (by_id : gmap string DagIssue) (e : DagEdge) : bool :=
  bool_decide (dep_type e = "blocks")
  && match by_id !! issue_id e, by_id !! depends_on_id e with
     | Some child, Some blocker =>
         is_live (dag_status child) && is_live (dag_status blocker)
         && match dag_priority child, dag_priority blocker with Some _, Some _ => true | _, _ => false end
     | _, _ => false
     end.
Definition push_next (m : gmap string (list string)) (e : DagEdge) : gmap string (list string) :=
  <[issue_id e := app (default [] (m !! issue_id e)) [depends_on_id e]]> m.
Definition adjacency (by_id : gmap string DagIssue) (edges : list DagEdge) : gmap string (list string) :=
  foldl (λ m e, if walkable by_id e then push_next m e else m) ∅ edges.

(** ** The walk from one bead. *)

Record Walk := MkWalk {
  w_seen : gset string; w_queue : list (string * N * list string); found_direct : option Inversion;
  found_trans : option Inversion; found_any_lower : bool }.
Definition or_first (o : option Inversion) (use : bool) (row : Inversion) : option Inversion :=
  match o with Some r => Some r | None => if use then Some row else None end.

Section WalkFrom.
Context (by_id : gmap string DagIssue) (adj : gmap string (list string)) (depth_limit : N) (start : string) (priority : Z).

(** A blocker of the bead at [depth], reached through [chain]. *)
Definition visit (depth : N) (chain : list string) (w : Walk) (nxt : string) : Walk :=
  if bool_decide (nxt ∈ w_seen w) then w
  else
    let seen := {[ nxt ]} ∪ w_seen w in
    let skip := MkWalk seen (w_queue w) (found_direct w) (found_trans w) (found_any_lower w) in
    match by_id !! nxt with
    | None => skip
    | Some node =>
        match dag_priority node with
        | None => skip
        | Some p =>
            let d := (depth + 1)%N in
            let chain := app chain [nxt] in
            let queue := app (w_queue w) [(nxt, d, chain)] in
            if (priority <? p)%Z then
              let row := MkInversion (if (d =? 1)%N then Direct else Transitive) start priority nxt p d chain in
              MkWalk seen queue (or_first (found_direct w) (d =? 1)%N row) (or_first (found_trans w) (2 <=? d)%N row) true
            else MkWalk seen queue (found_direct w) (found_trans w) (found_any_lower w)
        end
    end.

(** One turn of the loop; nothing is left to do when the queue is empty. *)
Definition pop (w : Walk) : option Walk :=
  match w_queue w with
  | [] => None
  | (id, depth, chain) :: queue =>
      let w := MkWalk (w_seen w) queue (found_direct w) (found_trans w) (found_any_lower w) in
      if (depth_limit <=? depth)%N then Some w
      else match adj !! id with
           | None => Some w
           | Some nexts => Some (foldl (visit depth chain) w nexts)
           end
  end.
Fixpoint walk (fuel : nat) (w : Walk) : Walk :=
  match fuel with
  | O => w
  | S fuel => match pop w with None => w | Some w => walk fuel w end
  end.
Definition walk_start : Walk := MkWalk {[ start ]} [(start, 0%N, [])] None None false.
(** Every pop removes a bead of the index from the queue, and none enters it twice. *)
Definition walk_from : Walk := walk (S (size by_id)) walk_start.
End WalkFrom.

(** ** The classification. *)

Record Arms := MkArms { a_direct : list Inversion; a_trans : list Inversion; a_p0 : list string }.
Definition scan_issue (by_id : gmap string DagIssue) (adj : gmap string (list string)) (limit : N) (a : Arms) (i : DagIssue)
    : Arms :=
  if negb (is_live (dag_status i)) then a
  else match dag_priority i with
       | None => a
       | Some p =>
           let w := walk_from by_id adj limit (dag_id i) p in
           MkArms (app (a_direct a) (option_list (found_direct w))) (app (a_trans a) (option_list (found_trans w)))
             (if (p =? 0)%Z && found_any_lower w then app (a_p0 a) [dag_id i] else a_p0 a)
       end.
Definition inversion_lt (a b : Inversion) : bool := str_lt (blocked_id a) (blocked_id b).
Definition as_failure (r : Inversion) : Inversion :=
  MkInversion InheritanceFailure (blocked_id r) (blocked_priority r) (blocking_id r) (blocking_priority r) (inv_depth r)
    (blocking_chain r).
Definition failures_of (rows : list Inversion) : list Inversion :=
  omap (λ id, as_failure <$> find_first (λ r, bool_decide (blocked_id r = id)) rows)
    (btree_elems (list_to_set (map blocked_id rows))).

Definition classify_with (issues : list DagIssue) (edges : list DagEdge) (config : ScanConfig) : result ScanError Classification :=
  if bool_decide (length issues = 0) then Err EmptyIssueSet
  else
    by_id ← index_issues ∅ issues;
    let limit := if DETECT_TRANSITIVE then max_depth config else 1%N in
    let adj := adjacency by_id edges in
    let a := foldl (scan_issue by_id adj limit) (MkArms [] [] []) issues in
    let direct := stable_sort inversion_lt (a_direct a) in
    let transitive := stable_sort inversion_lt (a_trans a) in
    Ok (MkClassification direct transitive (failures_of (app direct transitive)) true (sort_strings (a_p0 a))).
Definition classify (issues : list DagIssue) (edges : list DagEdge) : result ScanError Classification :=
  classify_with issues edges production.

(** ** The graph as [br] prints it. *)

(** [as i32] keeps the low 32 bits. *)
Definition as_i32 (z : Z) : Z := ((z + 2 ^ 31) mod 2 ^ 32 - 2 ^ 31)%Z.
Definition priority_of (v : option Json) : result ScanError (option Z) :=
  match v with
  | None | Some JNull => Ok None
  | Some (JNumber n) => Ok (as_i32 <$> as_i64 (JNumber n))
  | Some _ => Err (Malformed "priority is not an integer")
  end.
Definition dag_issue (v : Json) : result ScanError DagIssue :=
  id ← ok_or (json_get "id" v ≫= as_str) (Malformed "issue has no id");
  p ← priority_of (json_get "priority" v);
  Ok (MkDag id p (default "open" (json_get "status" v ≫= as_str))).
Definition dag_edge (v : Json) : result ScanError DagEdge :=
  child ← ok_or (json_get "issue_id" v ≫= as_str) (Malformed "edge missing issue_id");
  blocker ← ok_or (json_get "depends_on_id" v ≫= as_str) (Malformed "edge missing depends_on_id");
  Ok (MkDagEdge child blocker (default "blocks" (json_get "type" v ≫= as_str))).
Fixpoint collect_ok {E A B} (f : A → result E B) (l : list A) : result E (list B) :=
  match l with [] => Ok [] | a :: l => b ← f a; bs ← collect_ok f l; Ok (b :: bs) end.
Definition parse_graph_json (value : Json) : result ScanError (list DagIssue * list DagEdge) :=
  o ← ok_or (as_object value) (Malformed "graph is not an object");
  issues ← ok_or (map_get "issues" o ≫= as_array) (Malformed "issues is not an array");
  deps ← ok_or (map_get "dependencies" o ≫= as_array) (Malformed "dependencies is not an array");
  issues ← collect_ok dag_issue issues;
  edges ← collect_ok dag_edge deps;
  Ok (issues, edges).

(** ** What the walk visits. *)

(** A chain of blocks edges, listed without its first bead. *)
Inductive chained (E : string → string → Prop) (u : string) : list string → string → Prop :=
  | chained_nil : chained E u [] u
  | chained_snoc l x y : chained E u l x → E x y → chained E u (app l [y]) y.

Lemma chained_rtc E u l v : chained E u l v → rtc E u v.
Proof. induction 1; [done|]. by eapply rtc_r. Qed.

Section WalkFacts.
Context (by_id : gmap string DagIssue) (adj : gmap string (list string)) (limit : N) (start : string) (priority : Z).
Definition nexts (x : string) : list string := default [] (adj !! x).
Definition step (x y : string) : Prop := y ∈ nexts x.
Definition ranks (x : string) (p : Z) : Prop := ∃ i, by_id !! x = Some i ∧ dag_priority i = Some p.
Definition worse (x : string) : Prop := ∃ p, ranks x p ∧ (priority < p)%Z.
Context (Hadj : ∀ x y, step x y → ∃ p, ranks y p) (Hstart : start ∈ dom by_id).
Notation visit := (visit by_id start priority).

(** A row found at [v]. *)
Definition row_at (k : InversionType) (r : Inversion) : Prop :=
  inversion_type r = k ∧ blocked_id r = start ∧ blocked_priority r = priority ∧
  ranks (blocking_id r) (blocking_priority r) ∧ (priority < blocking_priority r)%Z ∧
  chained step start (blocking_chain r) (blocking_id r) ∧ inv_depth r = N.of_nat (length (blocking_chain r)).

Record good (w : Walk) : Prop := {
  g_start : start ∈ w_seen w;
  g_known : w_seen w ⊆ dom by_id;
  g_reach x : x ∈ w_seen w → rtc step start x;
  g_queue x d l : (x, d, l) ∈ w_queue w →
    chained step start l x ∧ d = N.of_nat (length l) ∧ x ∈ w_seen w ∧ S (length l) <= size (w_seen w);
  g_direct r : found_direct w = Some r → row_at Direct r ∧ step start (blocking_id r);
  g_trans r : found_trans w = Some r → row_at Transitive r ∧ ¬ step start (blocking_id r);
  g_found x : x ∈ w_seen w → x ≠ start → worse x →
    (step start x → is_Some (found_direct w)) ∧ (¬ step start x → is_Some (found_trans w));
  g_any : found_any_lower w = true ↔ ∃ x, x ∈ w_seen w ∧ x ≠ start ∧ worse x;
}.

(** The bead being expanded: the start, or one after every direct blocker was seen. *)
Definition expanding (w : Walk) (x : string) (l : list string) : Prop :=
  chained step start l x ∧ x ∈ w_seen w ∧ S (length l) <= size (w_seen w) ∧
  ((l = [] ∧ x = start) ∨ (l ≠ [] ∧ ∀ y, step start y → y ∈ w_seen w)).

Lemma or_first_is_Some o b r : is_Some (or_first o b r) ↔ is_Some o ∨ b = true.
Proof. destruct o, b; cbn; unfold is_Some; naive_solver. Qed.

Lemma or_first_Some o b r r' : or_first o b r = Some r' → o = Some r' ∨ (b = true ∧ r' = r).
Proof. destruct o, b; cbn; naive_solver. Qed.

Lemma visit_seen d l w y : w_seen (visit d l w y) = {[ y ]} ∪ w_seen w.
Proof. unfold visit. case_bool_decide; [set_solver|]. by repeat case_match. Qed.

Lemma visit_good w x l y :
  good w → expanding w x l → step x y →
  good (visit (N.of_nat (length l)) l w y) ∧ expanding (visit (N.of_nat (length l)) l w y) x l.
Proof.
  intros Hg (Hl & Hx & Hsize & Hph) Hy.
  assert (expanding (visit (N.of_nat (length l)) l w y) x l) as Hexp.
  { unfold expanding. rewrite !visit_seen. split_and!; [done|set_solver| |].
    - etransitivity; [exact Hsize|]. apply subseteq_size. set_solver.
    - destruct Hph as [?|[? ?]]; [by left|right]. set_solver. }
  split; [|done]. unfold Inversion.visit in *. case_bool_decide as Hseen; [done|]. clear Hexp.
  destruct (Hadj _ _ Hy) as (p & i & Hi & Hp). rewrite Hi, Hp.
  assert (y ∈ dom by_id) as Hyk by by apply elem_of_dom_2 in Hi.
  assert (chained step start (app l [y]) y) as Hch by by econstructor.
  assert (y ≠ start) as Hne by (intros ->; exact (Hseen (g_start w Hg))).
  assert (∀ q, ranks y q ↔ q = p) as Hrank.
  { intros q. unfold ranks. rewrite Hi. naive_solver. }
  assert (worse y ↔ (priority < p)%Z) as Hworse.
  { unfold worse. setoid_rewrite Hrank. naive_solver. }
  assert (size ({[ y ]} ∪ w_seen w) = S (size (w_seen w))) as Hs.
  { rewrite size_union, size_singleton by set_solver. done. }
  assert (step start y ↔ l = []) as Hdirect.
  { destruct Hph as [[-> ->]|[Hnl Hall]]; [done|]. split; [|done]. intros Hsy. exfalso. by apply Hseen, Hall. }
  assert (∀ q, q ∈ app (w_queue w) [(y, (N.of_nat (length l) + 1)%N, app l [y])] →
            chained step start q.2 q.1.1 ∧ q.1.2 = N.of_nat (length q.2) ∧ q.1.1 ∈ {[ y ]} ∪ w_seen w ∧
            S (length q.2) <= size ({[ y ]} ∪ w_seen w)) as Hqueue.
  { intros [[z d] lz] [Hq| ->%list_elem_of_singleton]%elem_of_app; cbn.
    - destruct (g_queue w Hg _ _ _ Hq) as (? & ? & ? & ?). split_and!; [done..|set_solver|lia].
    - rewrite length_app. cbn. split_and!; [done|lia|set_solver|lia]. }
  assert (∀ z, z ∈ {[ y ]} ∪ w_seen w → rtc step start z) as Hreach.
  { intros z [->%elem_of_singleton|Hz]%elem_of_union; [by eapply chained_rtc|by apply (g_reach w)]. }
  assert ({[ y ]} ∪ w_seen w ⊆ dom by_id) as Hknown.
  { pose proof (g_known w Hg). set_solver. }
  assert (N.of_nat (length l) + 1 = 1 ↔ l = [])%N as H1 by (destruct l; cbn; [done|]; split; [lia|done]).
  destruct (priority <? p)%Z eqn:Hlt.
  - apply Z.ltb_lt in Hlt. split; cbn [w_seen w_queue found_direct found_trans found_any_lower]; [|done| | | | | |].
    + apply elem_of_union_r, (g_start w Hg).
    + exact Hreach.
    + intros z d lz Hz. exact (Hqueue (z, d, lz) Hz).
    + intros r [Hr|[Hr ->]]%or_first_Some; [by apply (g_direct w)|]. rewrite Hr. apply N.eqb_eq in Hr. cbn.
      split; [|by apply Hdirect, H1]. unfold row_at. cbn. rewrite Hrank, length_app. cbn. split_and!; try done. lia.
    + intros r [Hr|[Hr ->]]%or_first_Some; [by apply (g_trans w)|]. apply N.leb_le in Hr. cbn.
      assert (l ≠ []) as Hnl by (intros ->; cbn in Hr; lia). rewrite Hdirect. split; [|done].
      unfold row_at. cbn. rewrite Hrank, length_app, (proj2 (N.eqb_neq _ _)) by by rewrite H1. cbn. split_and!; try done. lia.
    + intros z Hz Hzs Hw. rewrite !or_first_is_Some.
      destruct (decide (z = y)) as [->|Hzy].
      * rewrite Hdirect, N.eqb_eq, H1, N.leb_le. split; [by right|]. intros Hnl. right. destruct l; [done|cbn; lia].
      * destruct (g_found w Hg z) as [Hd Ht]; [set_solver|done..|]. naive_solver.
    + split; [|done]. intros _. exists y. rewrite Hworse. set_solver.
  - apply Z.ltb_ge in Hlt. assert (¬ worse y) as Hnw by (rewrite Hworse; lia).
    split; cbn [w_seen w_queue found_direct found_trans found_any_lower]; [|done| | | | | |].
    + apply elem_of_union_r, (g_start w Hg).
    + exact Hreach.
    + intros z d lz Hz. exact (Hqueue (z, d, lz) Hz).
    + apply (g_direct w Hg).
    + apply (g_trans w Hg).
    + intros z Hz Hzs Hw. apply (g_found w Hg); [|done..]. destruct (decide (z = y)) as [->|]; [done|set_solver].
    + rewrite (g_any w Hg). split; intros (z & Hz & Hzs & Hw); exists z; split_and!; try done; [set_solver|].
      destruct (decide (z = y)) as [->|]; [done|set_solver].
Qed.

(** A visit queues what it sees for the first time. *)
Lemma visit_queue w d l x y :
  step x y →
  (y ∈ w_seen w ∧ visit d l w y = w) ∨
  (y ∉ w_seen w ∧ w_queue (visit d l w y) = app (w_queue w) [(y, (d + 1)%N, app l [y])]).
Proof.
  intros (p & i & Hi & Hp)%Hadj. unfold Inversion.visit. case_bool_decide; [by left|]. right. split; [done|].
  rewrite Hi, Hp. by destruct (priority <? p)%Z.
Qed.

Definition measure (w : Walk) : nat := length (w_queue w) + (size by_id - size (w_seen w)).

(** The state after the blockers [ys] of [x] are visited. *)
Lemma visits_good x l ys w :
  good w → expanding w x l → (∀ y, y ∈ ys → step x y) →
  let w' := foldl (visit (N.of_nat (length l)) l) w ys in
  good w' ∧ (∀ y, y ∈ w_seen w' ↔ y ∈ ys ∨ y ∈ w_seen w) ∧
  (∀ q, q ∈ w_queue w' → q ∈ w_queue w ∨ q.2 ≠ []) ∧
  (∀ y, y ∈ w_seen w' → y ∈ w_seen w ∨ ∃ d k, (y, d, k) ∈ w_queue w') ∧
  (∀ q, q ∈ w_queue w → q ∈ w_queue w') ∧ measure w' = measure w.
Proof.
  revert w. induction ys as [|y ys IH]; intros w Hg He Hys; cbn [foldl].
  { split_and!; try done; try tauto. intros z. split; [by right|]. intros [?%elem_of_nil|?]; done. }
  assert (step x y) as Hy by (apply Hys; left).
  destruct (visit_good _ _ _ _ Hg He Hy) as [Hg' He'].
  destruct (IH _ Hg' He') as (Hgood & Hseen & Hnew & Hqueued & Hkeep & Hmu); [intros z Hz; apply Hys; by right|].
  set (w' := foldl _ _ ys) in *. cbn zeta in *. rewrite visit_seen in *. split_and!.
  - done.
  - intros z. rewrite Hseen, elem_of_union, elem_of_singleton, elem_of_cons. tauto.
  - intros q Hq. apply Hnew in Hq as [Hq|]; [|by right].
    destruct (visit_queue w (N.of_nat (length l)) l x y Hy) as [[_ Hv]|[_ Hv]]; rewrite Hv in Hq; [by left|].
    apply elem_of_app in Hq as [Hq| ->%list_elem_of_singleton]; [by left|]. right. cbn. by destruct l.
  - intros z [[->%elem_of_singleton|Hz]%elem_of_union|Hz]%Hqueued; [|by left|by right].
    destruct (visit_queue w (N.of_nat (length l)) l x y Hy) as [[Hs _]|[_ Hv]]; [by left|]. right.
    eexists _, _. apply Hkeep. rewrite Hv. apply elem_of_app. right. by apply list_elem_of_singleton.
  - intros q Hq. apply Hkeep.
    destruct (visit_queue w (N.of_nat (length l)) l x y Hy) as [[_ Hv]|[_ Hv]]; rewrite Hv; [done|].
    apply elem_of_app. by left.
  - rewrite Hmu. unfold measure.
    destruct (visit_queue w (N.of_nat (length l)) l x y Hy) as [[_ Hv]|[Hn Hv]]; [by rewrite Hv|].
    rewrite Hv, visit_seen, length_app, size_union, size_singleton by set_solver. cbn.
    assert (size ({[ y ]} ∪ w_seen w) <= size (dom by_id)) as Hle.
    { apply subseteq_size. pose proof (g_known _ Hg') as Hk. by rewrite visit_seen in Hk. }
    rewrite size_union, size_singleton, size_dom in Hle by set_solver. lia.
Qed.

Context (Hlimit : (N.of_nat (size by_id) <= limit)%N).

(** Between two turns: what was seen is queued or has all its blockers seen; unless
    nothing happened yet, every direct blocker of the start was seen. *)
Definition settled (w : Walk) : Prop :=
  good w ∧ (∀ x, x ∈ w_seen w → (∃ d l, (x, d, l) ∈ w_queue w) ∨ ∀ y, step x y → y ∈ w_seen w) ∧
  (w_queue w = [(start, 0%N, [])] ∨
   (∀ y, step start y → y ∈ w_seen w) ∧ ∀ q, q ∈ w_queue w → q.2 ≠ []).

Lemma settled_start : settled (walk_start start).
Proof.
  split; [|split; [|by left]].
  - split; cbn; try done.
    + set_solver.
    + set_solver.
    + intros x ->%elem_of_singleton. done.
    + intros x d l [= -> -> ->]%list_elem_of_singleton. rewrite size_singleton. split_and!; [constructor|done|set_solver|done].
    + intros x ->%elem_of_singleton. done.
    + split; [done|]. intros (x & ->%elem_of_singleton & ? & _). done.
  - cbn. intros x ->%elem_of_singleton. left. exists 0%N, []. by apply list_elem_of_singleton.
Qed.

Lemma settled_pop w w' : settled w → pop by_id adj limit start priority w = Some w' → settled w' ∧ S (measure w') = measure w.
Proof.
  intros (Hg & Hclosed & Hph). unfold pop. destruct (w_queue w) as [|[[x d] l] queue] eqn:Hq; [done|].
  destruct (g_queue w Hg x d l) as (Hch & Hd & Hx & Hsize); [rewrite Hq; by left|].
  assert (size (w_seen w) <= size by_id) as Hle.
  { rewrite <- size_dom. apply subseteq_size, (g_known w Hg). }
  rewrite (proj2 (N.leb_gt _ _)) by lia. set (w0 := MkWalk _ _ _ _ _).
  assert (good w0) as Hg0.
  { destruct Hg. split; cbn; try done. intros y dy ly Hy. apply g_queue0. rewrite Hq. by right. }
  assert (expanding w0 x l) as He.
  { unfold expanding. cbn. split_and!; try done. destruct Hph as [[= -> -> -> ->]|[Hall Hne]]; [by left|]. right.
    split; [|done]. apply (Hne (x, d, l)). by left. }
  assert (measure w = S (measure w0)) as Hmu by (unfold measure; rewrite Hq; cbn; lia).
  enough (∀ w1, foldl (visit d l) w0 (nexts x) = w1 → settled w1 ∧ S (measure w1) = measure w) as Henough.
  { unfold nexts in Henough. destruct (adj !! x); intros [= <-]; by apply Henough. }
  intros w1 <-. subst d. destruct (visits_good x l (nexts x) w0 Hg0 He) as (Hgood & Hseen & Hnew & Hqueued & Hkeep & Hm); [done|].
  set (w1 := foldl _ _ _) in *. cbn zeta in *. cbn [w_seen w_queue w0] in *. split; [|lia].
  assert (∀ y, y ∈ w_seen w → y ∈ w_seen w1) as Hmono by (intros y Hy; apply Hseen; by right).
  split; [done|]. split.
  - intros y [Hy|Hy]%Hqueued; [|by left]. destruct (decide (y = x)) as [->|Hne].
    { right. intros z Hz. apply Hseen. by left. }
    destruct (Hclosed y Hy) as [(dy & ly & [Hin|Hin]%elem_of_cons)|Hc]; [congruence| |].
    + left. exists dy, ly. by apply Hkeep.
    + right. eauto.
  - right. split.
    + intros y Hy. destruct Hph as [[= -> _ _ _]|[Hall _]]; [apply Hseen; by left|eauto].
    + intros q [Hin|]%Hnew; [|done]. destruct Hph as [[= _ _ _ ->]|[_ Hne]]; [by apply elem_of_nil in Hin|].
      apply Hne. by right.
Qed.

Lemma walk_settled fuel w :
  settled w → measure w <= fuel → let w' := walk by_id adj limit start priority fuel w in settled w' ∧ w_queue w' = [].
Proof.
  revert w. induction fuel as [|fuel IH]; intros w Hs Hm; cbn.
  - split; [done|]. unfold measure in Hm. destruct (w_queue w); [done|]. cbn in Hm. lia.
  - destruct (pop _ _ _ _ _ w) as [w'|] eqn:Hp.
    + destruct (settled_pop _ _ Hs Hp) as [Hs' Hm']. apply IH; [done|lia].
    + split; [done|]. unfold pop in Hp. destruct (w_queue w) as [|[[x d] l] q]; [done|].
      destruct (limit <=? d)%N; [done|]. by destruct (adj !! x).
Qed.

(** The walk sees exactly the beads the start waits for, and stops. *)
Lemma walk_from_spec :
  let w := walk_from by_id adj limit start priority in
  good w ∧ w_queue w = [] ∧ ∀ x, x ∈ w_seen w ↔ rtc step start x.
Proof.
  destruct (walk_settled (S (size by_id)) (walk_start start) settled_start) as [(Hg & Hclosed & _) Hq].
  { unfold measure. cbn. lia. }
  fold (walk_from by_id adj limit start priority) in *. split_and!; try done.
  intros x. split; [apply (g_reach _ Hg)|].
  assert (∀ a, a ∈ w_seen (walk_from by_id adj limit start priority) → rtc step a x →
            x ∈ w_seen (walk_from by_id adj limit start priority)) as Hall; [|apply Hall, (g_start _ Hg)].
  intros a Ha Hx. induction Hx as [|a b c Hab _ IH]; [done|]. apply IH.
  destruct (Hclosed a Ha) as [(d & l & Hbad)|Hc]; [|by apply Hc]. rewrite Hq in Hbad. by apply elem_of_nil in Hbad.
Qed.
End WalkFacts.

(** ** The classification is the waiting relation. *)

Lemma index_issues_ok issues m m' :
  index_issues m issues = Ok m' →
  (∀ k i, m' !! k = Some i ↔ m !! k = Some i ∨ i ∈ issues ∧ dag_id i = k) ∧ size m' = size m + length issues.
Proof.
  revert m. induction issues as [|j issues IH]; intros m; cbn.
  - intros [= ->]. split; [set_solver|lia].
  - destruct (m !! dag_id j) eqn:Hj; [done|]. intros [Hl Hs]%IH. rewrite map_size_insert_None in Hs by done.
    split; [|lia]. intros k i. rewrite Hl, elem_of_cons. destruct (decide (dag_id j = k)) as [<-|Hne].
    + rewrite lookup_insert_eq. naive_solver.
    + rewrite lookup_insert_ne by done. naive_solver.
Qed.

Lemma adjacency_nexts m edges x :
  nexts (adjacency m edges) x =
  map depends_on_id (List.filter (λ e, walkable m e && bool_decide (issue_id e = x)) edges).
Proof.
  unfold nexts, adjacency. induction edges as [|e edges IH] using rev_ind; [done|].
  rewrite foldl_snoc, List.filter_app, map_app, <- IH. cbn [List.filter].
  destruct (walkable m e); cbn [andb]; [|by rewrite app_nil_r]. unfold push_next at 1. case_bool_decide as Hx.
  - subst x. by rewrite lookup_insert_eq.
  - by rewrite lookup_insert_ne, app_nil_r.
Qed.

Lemma adjacency_spec m edges x y :
  step (adjacency m edges) x y ↔ ∃ e, e ∈ edges ∧ walkable m e = true ∧ issue_id e = x ∧ depends_on_id e = y.
Proof.
  unfold step. rewrite adjacency_nexts, list_elem_of_fmap. split.
  - intros (e & -> & He). rewrite list_elem_of_In, filter_In, <- list_elem_of_In, andb_true_iff in He.
    destruct He as (He & Hw & Hx%bool_decide_eq_true). by exists e.
  - intros (e & He & Hw & <- & <-). exists e. split; [done|].
    rewrite list_elem_of_In, filter_In, <- list_elem_of_In, Hw, bool_decide_true by done. done.
Qed.

Section Classify.
Context (issues : list DagIssue) (edges : list DagEdge).

(** A live bead and its urgency; the beads it waits for. *)
Definition urgency (x : string) (p : Z) : Prop := ∃ st, MkDag x (Some p) st ∈ issues ∧ st ≠ "closed".
Definition waits (x y : string) : Prop :=
  MkDagEdge x y "blocks" ∈ edges ∧ (∃ p, urgency x p) ∧ ∃ q, urgency y q.

Context (by_id : gmap string DagIssue) (Hindex : index_issues ∅ issues = Ok by_id).
Context (Hsize : (N.of_nat (length issues) <= u64_max)%N).
Notation adj := (adjacency by_id edges).

Lemma by_id_spec k i : by_id !! k = Some i ↔ i ∈ issues ∧ dag_id i = k.
Proof. destruct (index_issues_ok _ _ _ Hindex) as [-> _]. rewrite lookup_empty. naive_solver. Qed.

Lemma size_by_id : (N.of_nat (size by_id) <= u64_max)%N.
Proof. destruct (index_issues_ok _ _ _ Hindex) as [_ ->]. by rewrite map_size_empty. Qed.

Lemma is_live_iff st : is_live st = true ↔ st ≠ "closed".
Proof. unfold is_live. by rewrite negb_true_iff, bool_decide_eq_false. Qed.

Lemma urgency_spec x p : urgency x p ↔ ∃ i, by_id !! x = Some i ∧ dag_priority i = Some p ∧ is_live (dag_status i) = true.
Proof.
  unfold urgency. setoid_rewrite by_id_spec. setoid_rewrite is_live_iff. split.
  - intros (st & Hin & Hl). by exists (MkDag x (Some p) st).
  - intros ([k [q|] st] & [Hin Hk] & Hp & Hl); cbn in *; [|done]. simplify_eq. by exists st.
Qed.

Lemma step_waits x y : step adj x y ↔ waits x y.
Proof.
  rewrite adjacency_spec. unfold waits. split.
  - intros ([a b t] & Hin & Hw & <- & <-). cbn in *. unfold walkable in Hw. cbn in Hw.
    apply andb_true_iff in Hw as [->%bool_decide_eq_true Hw]. split; [done|].
    destruct (by_id !! a) as [i|] eqn:Hi, (by_id !! b) as [j|] eqn:Hj; try done.
    apply andb_true_iff in Hw as [[Hli Hlj]%andb_true_iff Hp].
    destruct (dag_priority i) as [p|] eqn:Hpi, (dag_priority j) as [q|] eqn:Hpj; try done.
    split; [exists p|exists q]; apply urgency_spec; eauto.
  - intros (Hin & [p (i & Hi & Hp & Hli)%urgency_spec] & [q (j & Hj & Hq & Hlj)%urgency_spec]).
    eexists. split; [exact Hin|]. unfold walkable. cbn. by rewrite Hi, Hj, Hli, Hlj, Hp, Hq.
Qed.

Lemma ranks_urgency x p q : urgency x q → ranks by_id x p ↔ urgency x p.
Proof.
  rewrite !urgency_spec. intros (i & Hi & Hq & Hl). unfold ranks. naive_solver.
Qed.

Lemma urgency_inj x p q : urgency x p → urgency x q → p = q.
Proof. rewrite !urgency_spec. naive_solver. Qed.

(** What the walk from a live bead finds. *)
Definition overtaken (u : string) (p : Z) (v : string) : Prop := ∃ q, urgency v q ∧ (p < q)%Z.
Definition valid_row (r : Inversion) : Prop :=
  urgency (blocked_id r) (blocked_priority r) ∧ urgency (blocking_id r) (blocking_priority r) ∧
  (blocked_priority r < blocking_priority r)%Z ∧
  chained waits (blocked_id r) (blocking_chain r) (blocking_id r) ∧
  inv_depth r = N.of_nat (length (blocking_chain r)).

Lemma chained_impl (E F : string → string → Prop) u l v :
  (∀ x y, E x y → F x y) → chained E u l v → chained F u l v.
Proof. intros H. induction 1; econstructor; eauto. Qed.

Lemma rtc_iff (E F : string → string → Prop) u v : (∀ x y, E x y ↔ F x y) → rtc E u v ↔ rtc F u v.
Proof. intros H. split; apply rtc_subrel; intros x y; apply H. Qed.

Lemma tc_other u v : u ≠ v → rtc waits u v ↔ tc waits u v.
Proof. intros Hne. split; [|apply tc_rtc]. by intros [->|]%rtc_tc. Qed.

Lemma tc_urgency u v : tc waits u v → ∃ q, urgency v q.
Proof. induction 1 as [x y (_ & _ & ?)|]; done. Qed.

Lemma walk_finds u p :
  urgency u p →
  let w := walk_from by_id adj u64_max u p in
  (is_Some (found_direct w) ↔ ∃ v, waits u v ∧ overtaken u p v) ∧
  (is_Some (found_trans w) ↔ ∃ v, tc waits u v ∧ ¬ waits u v ∧ overtaken u p v) ∧
  (found_any_lower w = true ↔ ∃ v, tc waits u v ∧ overtaken u p v) ∧
  (∀ r, found_direct w = Some r → valid_row r ∧ blocked_id r = u ∧ inversion_type r = Direct ∧ waits u (blocking_id r)) ∧
  (∀ r, found_trans w = Some r → valid_row r ∧ blocked_id r = u ∧ inversion_type r = Transitive ∧ ¬ waits u (blocking_id r)).
Proof.
  intros Hu. destruct (walk_from_spec by_id adj u64_max u p) as (Hg & _ & Hseen).
  { intros x y (_ & _ & q & Hq)%step_waits. exists q. by eapply ranks_urgency. }
  { apply urgency_spec in Hu as (i & Hi & _). by apply elem_of_dom_2 in Hi. }
  { apply size_by_id. }
  set (w := walk_from _ _ _ _ _) in *. cbn zeta.
  assert (∀ v, v ∈ w_seen w ∧ v ≠ u ∧ worse by_id p v ↔ tc waits u v ∧ overtaken u p v) as Hworse.
  { intros v. rewrite Hseen, (rtc_iff _ _ _ _ step_waits). unfold worse, overtaken. split.
    - intros (Hr & Hne & q & Hq & Hlt). apply tc_other in Hr; [|done]. split; [done|]. exists q. split; [|done].
      apply tc_urgency in Hr as [q' Hq']. by eapply ranks_urgency.
    - intros (Ht & q & Hq & Hlt). assert (v ≠ u) as Hne by (intros ->; pose proof (urgency_inj _ _ _ Hu Hq); lia).
      split; [by apply tc_rtc|]. split; [done|]. exists q. split; [by eapply ranks_urgency|done]. }
  assert (∀ k r, row_at by_id adj u p k r → valid_row r ∧ blocked_id r = u ∧ inversion_type r = k) as Hrow.
  { intros k r (Hk & Hb & Hbp & Hrk & Hlt & Hc & Hd). apply (chained_impl _ waits) in Hc; [|intros; by apply step_waits].
    assert (blocking_id r ≠ u) as Hne.
    { intros He. rewrite He in Hrk. apply (ranks_urgency _ _ _ Hu) in Hrk. pose proof (urgency_inj _ _ _ Hu Hrk). lia. }
    pose proof (chained_rtc _ _ _ _ Hc) as Ht%tc_other; [|done]. apply tc_urgency in Ht as [q Hq].
    apply (ranks_urgency _ _ _ Hq) in Hrk. split_and!; try done. unfold valid_row. by rewrite Hb, Hbp. }
  split_and!.
  - split.
    + intros [r Hr]. destruct (g_direct _ _ _ _ _ Hg r Hr) as [Hra Hs]. pose proof Hra as (_ & _ & Hbp & _).
      destruct (Hrow _ _ Hra) as ((_ & Hbl & Hlt & _) & _). rewrite Hbp in Hlt.
      exists (blocking_id r). split; [by apply step_waits|]. by eexists.
    + intros (v & Hw & Ho). destruct (proj2 (Hworse v)) as (Hs & Hne & Hwo); [split; [by apply tc_once|done]|].
      apply (g_found _ _ _ _ _ Hg v Hs Hne Hwo). by apply step_waits.
  - split.
    + intros [r Hr]. destruct (g_trans _ _ _ _ _ Hg r Hr) as [Hra Hs]. rewrite step_waits in Hs. pose proof Hra as (_ & _ & Hbp & _).
      destruct (Hrow _ _ Hra) as ((_ & Hbl & Hlt & Hc & _) & Hb & _).
      exists (blocking_id r). rewrite Hb in Hc. rewrite Hbp in Hlt. split_and!; [|done|by eexists].
      apply tc_other; [|by eapply chained_rtc]. intros He. rewrite <- He in Hbl. pose proof (urgency_inj _ _ _ Hu Hbl). lia.
    + intros (v & Ht & Hnw & Ho). destruct (proj2 (Hworse v)) as (Hs & Hne & Hwo); [done|].
      apply (g_found _ _ _ _ _ Hg v Hs Hne Hwo). by rewrite step_waits.
  - rewrite (g_any _ _ _ _ _ Hg). setoid_rewrite Hworse. done.
  - intros r Hr. apply (g_direct _ _ _ _ _ Hg) in Hr as [Hr Hs]. rewrite <- step_waits.
    destruct (Hrow _ _ Hr) as (? & ? & ?). done.
  - intros r Hr. apply (g_trans _ _ _ _ _ Hg) in Hr as [Hr Hs]. rewrite <- step_waits.
    destruct (Hrow _ _ Hr) as (? & ? & ?). done.
Qed.
End Classify.

(** The rows of one bead. *)
Definition walk_of (by_id : gmap string DagIssue) (adj : gmap string (list string)) (limit : N) (i : DagIssue) : option Walk :=
  if is_live (dag_status i) then (λ p, walk_from by_id adj limit (dag_id i) p) <$> dag_priority i else None.
Definition p0_of (by_id : gmap string DagIssue) (adj : gmap string (list string)) (limit : N) (i : DagIssue) : option string :=
  w ← walk_of by_id adj limit i;
  if bool_decide (dag_priority i = Some 0%Z) && found_any_lower w then Some (dag_id i) else None.

#[local] Opaque walk_from.
Lemma scan_all by_id adj limit issues a :
  let a' := foldl (scan_issue by_id adj limit) a issues in
  a_direct a' = app (a_direct a) (omap (λ i, walk_of by_id adj limit i ≫= found_direct) issues) ∧
  a_trans a' = app (a_trans a) (omap (λ i, walk_of by_id adj limit i ≫= found_trans) issues) ∧
  a_p0 a' = app (a_p0 a) (omap (p0_of by_id adj limit) issues).
Proof.
  revert a. induction issues as [|i issues IH]; intros a; cbn; [by rewrite !app_nil_r|].
  specialize (IH (scan_issue by_id adj limit a i)). cbn in IH. destruct IH as (-> & -> & ->).
  unfold scan_issue, p0_of, walk_of. destruct (is_live (dag_status i)); cbn; [|done].
  destruct (dag_priority i) as [p|]; cbn; [|done]. set (w := walk_from by_id adj limit (dag_id i) p).
  rewrite <- !app_assoc. split_and!; [by destruct (found_direct w)|by destruct (found_trans w)|].
  assert (bool_decide (Some p = Some 0%Z) = (p =? 0)%Z) as ->.
  { destruct (Z.eqb_spec p 0) as [->|Hne]; [by rewrite bool_decide_true|]. rewrite bool_decide_false; [done|congruence]. }
  destruct ((p =? 0)%Z && found_any_lower w); cbn; [by rewrite <- app_assoc|done].
Qed.

Lemma classify_ok issues edges c :
  classify issues edges = Ok c →
  ∃ by_id, index_issues ∅ issues = Ok by_id ∧
    let adj := adjacency by_id edges in
    direct c ≡ₚ omap (λ i, walk_of by_id adj u64_max i ≫= found_direct) issues ∧
    transitive c ≡ₚ omap (λ i, walk_of by_id adj u64_max i ≫= found_trans) issues ∧
    p0_with_lower_priority_blocker c ≡ₚ omap (p0_of by_id adj u64_max) issues ∧
    inheritance_failures c = failures_of (app (direct c) (transitive c)).
Proof.
  unfold classify, classify_with. case_bool_decide; [done|]. destruct (index_issues ∅ issues) as [by_id|] eqn:Hi; [|done].
  cbn. intros [= <-]. exists by_id. split; [done|]. cbn.
  destruct (scan_all by_id (adjacency by_id edges) u64_max issues (MkArms [] [] [])) as (Hd & Ht & Hp). cbn in *.
  unfold sort_strings. split_and!; [| | |done].
  - by rewrite stable_sort_Permutation, Hd.
  - by rewrite stable_sort_Permutation, Ht.
  - by rewrite (merge_sort_Permutation String.le), Hp.
Qed.

(** The third arm: one row for every bead of the other two. *)
Lemma failure_beads rows u : u ∈ map blocked_id (failures_of rows) ↔ u ∈ map blocked_id rows.
Proof.
  unfold failures_of. rewrite list_elem_of_fmap. setoid_rewrite list_elem_of_omap. split.
  - intros (r & -> & id & Hid & Hr). apply fmap_Some in Hr as (r' & (l1 & l2 & -> & Hb & _)%find_first_Some & ->).
    cbn. rewrite map_app. apply elem_of_app. right. by left.
  - intros Hu. destruct (find_first (λ r, bool_decide (blocked_id r = u)) rows) as [r|] eqn:Hr.
    + exists (as_failure r). pose proof Hr as (? & ? & _ & Hb%bool_decide_eq_true & _)%find_first_Some.
      split; [done|]. exists u. rewrite Hr. split; [|done].
      unfold btree_elems, sort_strings. rewrite (merge_sort_Permutation String.le), elem_of_elements. by apply elem_of_list_to_set.
    + apply find_first_None in Hr. rewrite Forall_forall in Hr. apply list_elem_of_fmap in Hu as (r & -> & Hin).
      specialize (Hr r Hin). by rewrite bool_decide_true in Hr.
Qed.

Section Exact.
Context (issues : list DagIssue) (edges : list DagEdge) (c : Classification).
Context (Hc : classify issues edges = Ok c) (Hsize : (N.of_nat (length issues) <= u64_max)%N).
Notation urgency := (urgency issues).
Notation waits := (waits issues edges).

(** The beads of an arm are the live beads whose walk found a row for it. *)
Lemma arm_rows {A} (f : Walk → option A) by_id r :
  index_issues ∅ issues = Ok by_id →
  r ∈ omap (λ i, walk_of by_id (adjacency by_id edges) u64_max i ≫= f) issues ↔
  ∃ u p, urgency u p ∧ f (walk_from by_id (adjacency by_id edges) u64_max u p) = Some r.
Proof.
  intros Hi. rewrite list_elem_of_omap. split.
  - intros ([u [p|] st] & Hin & Hr); unfold walk_of in Hr; cbn in Hr; destruct (is_live st) eqn:Hl; try done.
    exists u, p. split; [|done]. exists st. by rewrite <- is_live_iff.
  - intros (u & p & (st & Hin & Hl%is_live_iff) & Hr). eexists. split; [exact Hin|]. unfold walk_of. cbn. by rewrite Hl.
Qed.

Lemma direct_rows r : r ∈ direct c →
  valid_row issues edges r ∧ inversion_type r = Direct ∧ waits (blocked_id r) (blocking_id r).
Proof.
  destruct (classify_ok _ _ _ Hc) as (m & Hi & Hd & _). rewrite Hd, (arm_rows found_direct _ _ Hi).
  intros (u & p & Hu & Hr). destruct (walk_finds issues edges m Hi Hsize u p Hu) as (_ & _ & _ & H & _).
  destruct (H r Hr) as (? & -> & ? & ?). done.
Qed.

Lemma trans_rows r : r ∈ transitive c →
  valid_row issues edges r ∧ inversion_type r = Transitive ∧ ¬ waits (blocked_id r) (blocking_id r).
Proof.
  destruct (classify_ok _ _ _ Hc) as (m & Hi & _ & Hd & _). rewrite Hd, (arm_rows found_trans _ _ Hi).
  intros (u & p & Hu & Hr). destruct (walk_finds issues edges m Hi Hsize u p Hu) as (_ & _ & _ & _ & H).
  destruct (H r Hr) as (? & -> & ? & ?). done.
Qed.

Lemma direct_beads u :
  u ∈ map blocked_id (direct c) ↔ ∃ v p q, waits u v ∧ urgency u p ∧ urgency v q ∧ (p < q)%Z.
Proof.
  rewrite list_elem_of_fmap. split.
  - intros (r & -> & ((Hu & Hv & Hlt & _) & _ & Hw)%direct_rows). eexists _, _, _. eauto.
  - destruct (classify_ok _ _ _ Hc) as (m & Hi & Hd & _). setoid_rewrite Hd. setoid_rewrite (arm_rows found_direct _ _ Hi).
    intros (v & p & q & Hw & Hu & Hv & Hlt).
    destruct (walk_finds issues edges m Hi Hsize u p Hu) as (Hf & _ & _ & Hrow & _).
    destruct (proj2 Hf) as [r Hr]; [exists v; split; [done|by exists q]|].
    exists r. destruct (Hrow r Hr) as (_ & -> & _). split; [done|]. eauto.
Qed.

Lemma trans_beads u :
  u ∈ map blocked_id (transitive c) ↔ ∃ v p q, tc waits u v ∧ ¬ waits u v ∧ urgency u p ∧ urgency v q ∧ (p < q)%Z.
Proof.
  destruct (classify_ok _ _ _ Hc) as (m & Hi & _ & Hd & _).
  rewrite list_elem_of_fmap. setoid_rewrite Hd. setoid_rewrite (arm_rows found_trans _ _ Hi). split.
  - intros (r & -> & x & p & Hu & Hr).
    destruct (walk_finds issues edges m Hi Hsize x p Hu) as (_ & Hf & _ & _ & Hrow).
    destruct (Hrow r Hr) as (_ & -> & _). destruct (proj1 Hf) as (v & Ht & Hn & q & Hq & Hlt); [by eexists|].
    eexists _, _, _. eauto.
  - intros (v & p & q & Ht & Hn & Hu & Hv & Hlt).
    destruct (walk_finds issues edges m Hi Hsize u p Hu) as (_ & Hf & _ & _ & Hrow).
    destruct (proj2 Hf) as [r Hr]; [exists v; split_and!; [done..|by exists q]|].
    exists r. destruct (Hrow r Hr) as (_ & -> & _). split; [done|]. eauto.
Qed.

Lemma p0_beads u :
  u ∈ p0_with_lower_priority_blocker c ↔ urgency u 0 ∧ ∃ v q, tc waits u v ∧ urgency v q ∧ (0 < q)%Z.
Proof.
  destruct (classify_ok _ _ _ Hc) as (m & Hi & _ & _ & Hd & _). rewrite Hd, list_elem_of_omap. split.
  - intros ([k [p|] st] & Hin & Hr); unfold p0_of, walk_of in Hr; cbn in Hr; destruct (is_live st) eqn:Hl; try done.
    cbn in Hr. case_bool_decide as Hp; [|done]. injection Hp as ->. cbn in Hr.
    destruct (found_any_lower _) eqn:Hf; [|done]. injection Hr as <-.
    assert (urgency k 0) as Hu by (exists st; by rewrite <- is_live_iff). split; [done|].
    destruct (walk_finds issues edges m Hi Hsize k 0 Hu) as (_ & _ & Hany & _).
    apply Hany in Hf as (v & Ht & q & Hq & Hlt). eauto.
  - intros (Hu & v & q & Ht & Hq & Hlt). pose proof Hu as (st & Hin & Hl%is_live_iff).
    destruct (walk_finds issues edges m Hi Hsize u 0 Hu) as (_ & _ & Hany & _).
    eexists. split; [exact Hin|]. unfold p0_of, walk_of. cbn. rewrite Hl. cbn. rewrite (proj2 Hany); [done|].
    exists v. split; [done|]. by exists q.
Qed.
End Exact.

(** C27: an accepted graph is classified exactly: the direct arm names the live beads with
    a less urgent live blocker, the transitive arm those that wait, through a chain of
    live blockers only, for a less urgent bead that does not block them itself, each row
    carries such a chain and its length, the list of urgency zero has the beads of that
    urgency that wait for anything less urgent, the third arm names the beads of the first two,
    and the gate fails exactly when some live
    bead waits for a less urgent one. *)
Theorem inversions_exact issues edges c :
  classify issues edges = Ok c → (N.of_nat (length issues) <= u64_max)%N →
  (∀ u, u ∈ map blocked_id (direct c) ↔
     ∃ v p q, waits issues edges u v ∧ urgency issues u p ∧ urgency issues v q ∧ (p < q)%Z) ∧
  (∀ u, u ∈ map blocked_id (transitive c) ↔
     ∃ v p q, tc (waits issues edges) u v ∧ ¬ waits issues edges u v ∧
       urgency issues u p ∧ urgency issues v q ∧ (p < q)%Z) ∧
  (∀ r, r ∈ app (direct c) (transitive c) → valid_row issues edges r) ∧
  (∀ u, u ∈ p0_with_lower_priority_blocker c ↔
     urgency issues u 0 ∧ ∃ v q, tc (waits issues edges) u v ∧ urgency issues v q ∧ (0 < q)%Z) ∧
  (∀ u, u ∈ map blocked_id (inheritance_failures c) ↔
     u ∈ map blocked_id (direct c) ∨ u ∈ map blocked_id (transitive c)) ∧
  (gate_exit c = 1%N ↔
     ∃ u v p q, tc (waits issues edges) u v ∧ urgency issues u p ∧ urgency issues v q ∧ (p < q)%Z).
Proof.
  intros Hc Hs. pose proof (direct_beads _ _ _ Hc Hs) as Hd. pose proof (trans_beads _ _ _ Hc Hs) as Ht.
  split_and!; [done|done| |by apply p0_beads| |].
  - intros r [Hr|Hr]%elem_of_app; [by apply (direct_rows issues edges c)|by apply (trans_rows issues edges c)].
  - intros u. destruct (classify_ok _ _ _ Hc) as (m & _ & _ & _ & _ & Hf). by rewrite Hf, failure_beads, map_app, elem_of_app.
  - assert (gate_exit c = 1%N ↔ ∃ u, u ∈ map blocked_id (direct c) ∨ u ∈ map blocked_id (transitive c)) as ->.
    { unfold gate_exit, has_inversion. destruct (direct c) as [|r l], (transitive c) as [|r' l']; cbn.
      - split; [done|]. set_solver.
      - split; [|done]. intros _. exists (blocked_id r'). right. by left.
      - split; [|done]. intros _. exists (blocked_id r). left. by left.
      - split; [|done]. intros _. exists (blocked_id r). left. by left. }
    setoid_rewrite Hd. setoid_rewrite Ht. split.
    + intros (u & [(v & p & q & Hw & Hr)|(v & p & q & Hw & _ & Hr)]); exists u, v, p, q; [|done].
      split; [by apply tc_once|done].
    + intros (u & v & p & q & Hw & Hu & Hv & Hlt). exists u.
      assert (waits issues edges u v ∨ ¬ waits issues edges u v) as [H|H]; [|left; eauto 10|right; eauto 10].
      destruct (classify_ok _ _ _ Hc) as (m & Hi & _). rewrite <- (step_waits _ _ _ Hi).
      destruct (decide (v ∈ nexts (adjacency m edges) u)); [by left|by right].
Qed.
#[local] Transparent walk_from.

(** ** A chain: the victim waits for its equal, which waits for a less urgent bead that is
    itself free of any other. *)
Definition ex_issues : list DagIssue :=
  [MkDag "victim" (Some 0%Z) "open"; MkDag "mid" (Some 0%Z) "grading"; MkDag "tail" (Some 1%Z) "open";
   MkDag "none" None "open"; MkDag "done" (Some 3%Z) "closed"].
Definition ex_edges : list DagEdge :=
  [MkDagEdge "victim" "mid" "blocks"; MkDagEdge "mid" "tail" "blocks"; MkDagEdge "tail" "victim" "blocks";
   MkDagEdge "tail" "done" "blocks"; MkDagEdge "victim" "none" "blocks"; MkDagEdge "mid" "done" "parent-child"].
Definition ex_rows : Classification :=
  match classify ex_issues ex_edges with Ok c => c | Err _ => MkClassification [] [] [] true [] end.
Example victim_is_transitive_only :
  map blocked_id (direct ex_rows) = ["mid"] ∧
  map (λ r, (blocked_id r, blocking_chain r)) (transitive ex_rows) = [("victim", ["mid"; "tail"])] ∧
  p0_with_lower_priority_blocker ex_rows = ["mid"; "victim"] ∧
  match classify_with ex_issues ex_edges direct_only with Ok c => transitive c = [] | Err _ => False end.
Proof. split_and!; vm_compute; reflexivity. Qed.

Lemma inversions_exact_witness :
  classify ex_issues ex_edges = Ok ex_rows ∧ gate_exit ex_rows = 1%N ∧
  ∃ v p q, tc (waits ex_issues ex_edges) "victim" v ∧ urgency ex_issues "victim" p ∧ urgency ex_issues v q ∧ (p < q)%Z.
Proof.
  assert (classify ex_issues ex_edges = Ok ex_rows) as Hc by (vm_compute; reflexivity).
  split; [done|]. split; [vm_compute; reflexivity|].
  assert (N.of_nat (length ex_issues) <= u64_max)%N as Hs by (apply N.leb_le; vm_compute; reflexivity).
  pose proof (inversions_exact ex_issues ex_edges ex_rows Hc Hs) as (_ & Ht & _).
  destruct (proj1 (Ht "victim")) as (v & p & q & H1 & _ & H2); [|exact (ex_intro _ v (ex_intro _ p (ex_intro _ q (conj H1 H2))))].
  assert (map blocked_id (transitive ex_rows) = ["victim"]) as -> by (vm_compute; reflexivity). by left.
Defined.
