(* ===== verification/DefinitionQuality.v ===== *)
(** * How much of a family's acceptance text is its own

    bead-availability/src/definition_quality.rs: the unchecked boxes and the numbered
    items of an acceptance text, the longest tail that most beads of a family share, and
    the share of the text that is left without it, in parts per thousand.  Lengths are in
    bytes. *)

From stdpp Require Import base numbers list option strings pretty gmap sorting.
From Stdlib Require Import NArith ZArith Ascii Lia.
From S2P Require Import Prelude RustStr Order Json.

Definition SPECIFICITY_FLOOR_MILLI : N := 365.
Definition COMPUTE_SPECIFICITY : bool := true.
Definition DERIVED_TAIL_BYTES : N := 2045.
Definition DERIVED_PREMISE_PHRASE : string := "I did not run its premise".
Definition EXIT_OK : N := 0.
Definition EXIT_BELOW_FLOOR : N := 1.
Definition EXIT_VACUOUS : N := 2.
Definition NO_CLAIM : string :=
  "NO-CLAIM: measures definition structure and specificity, never correctness. A bead can carry 100% unique acceptance that is entirely wrong. Floor-raise: boilerplate is visible and counted; a bad spec is still possible.".

Record BeadBody := MkBody { bb_id : string; acceptance : string; bb_description : string }.
Record FamilyReport := MkFamily {
  bead_count : N; total_acceptance_bytes : N; specific_bytes : N; boilerplate_bytes : N; specific_milli : N;
  floor_milli : N; cluster_size : N; cluster_suffix_bytes : N; named_specimen_hit : bool; zero_acceptance : list string;
  unchecked_boxes : N; numbered_prose : N; fr_what : N; fr_why : N; acceptance_populated : N; file_line : N;
  source_anchor : N }.
Definition below_floor (r : FamilyReport) : bool := (specific_milli r <? floor_milli r)%N.
Definition family_exit_code (r : FamilyReport) : N := if below_floor r then EXIT_BELOW_FLOOR else EXIT_OK.
Definition show_bool (b : bool) : string := if b then "true" else "false".
(** [name] in quotes, a colon, the value. *)
Definition field (name value : string) : string := dquote +:+ name +:+ dquote +:+ ":" +:+ value.
Definition to_json `{ToJson} (r : FamilyReport) (success : bool) : string :=
  "{" +:+ join "," [
    field "success" (show_bool success); field "bead_count" (show_N (bead_count r));
    field "total_acceptance_bytes" (show_N (total_acceptance_bytes r));
    field "specific_bytes" (show_N (specific_bytes r)); field "boilerplate_bytes" (show_N (boilerplate_bytes r));
    field "specific_milli" (show_N (specific_milli r)); field "floor_milli" (show_N (floor_milli r));
    field "cluster_size" (show_N (cluster_size r)); field "cluster_suffix_bytes" (show_N (cluster_suffix_bytes r));
    field "named_specimen_hit" (show_bool (named_specimen_hit r));
    field "zero_acceptance" (to_string (JArray (map JString (zero_acceptance r))));
    field "unchecked_boxes" (show_N (unchecked_boxes r)); field "numbered_prose" (show_N (numbered_prose r));
    field "what" (show_N (fr_what r)); field "why" (show_N (fr_why r));
    field "acceptance_populated" (show_N (acceptance_populated r)); field "file_line" (show_N (file_line r));
    field "source_anchor" (show_N (source_anchor r)); field "no_claim" (to_string (JString NO_CLAIM))] +:+ "}".

Inductive Vacuity := EmptySet | Unreadable | ZeroMatch.
Definition vacuity_str (v : Vacuity) : string :=
  match v with
  | EmptySet => "DEFINITION_QUALITY_EMPTY_SET" | Unreadable => "DEFINITION_QUALITY_UNREADABLE"
  | ZeroMatch => "DEFINITION_QUALITY_ZERO_MATCH"
  end.
Definition vacuity_exit_code (v : Vacuity) : N := EXIT_VACUOUS.

(** ** Items of an acceptance text. *)

Definition parse_unchecked_box (line : string) : option string :=
  match chars line with
  | bullet :: rest =>
      if bool_decide (bullet ∈ ["-"; "*"; "+"]) then
        match drop_while is_whitespace rest with
        | "[" :: inner :: "]" :: text => if is_whitespace inner then Some (trim (concat_chars text)) else None
        | _ => None
        end
      else None
  | [] => None
  end.

Definition is_digit_char (ch : string) : bool :=
  match ch with String c EmptyString => is_ascii_digit c | _ => false end.
Definition parse_numbered_item (line : string) : option string :=
  let trimmed := trim_start line in
  let digits := length (take_while is_digit_char (chars trimmed)) in
  if bool_decide (digits = 0) then None
  else trimmed_nonempty (strip_prefix ". " (str_drop digits trimmed)).

Definition find_unchecked_boxes (body : string) : list string := omap (λ l, parse_unchecked_box (trim_start l)) (lines body).
Definition find_numbered_prose (body : string) : list string := omap parse_numbered_item (lines body).

(** ** The shared tail. *)

(** How many of the last bytes agree; the texts are given from their ends. *)
Fixpoint agreeing (a b : list ascii) : nat :=
  match a, b with x :: a, y :: b => if ascii_dec x y then S (agreeing a b) else 0 | _, _ => 0 end.
(** Back to a boundary between characters. *)
Fixpoint to_boundary (a : string) (i : nat) : nat :=
  match i with
  | O => O
  | S i' => if is_char_boundary (String.length a - i) a then i else to_boundary a i'
  end.
Definition common_suffix (a b : string) : string :=
  let i := agreeing (rev (String.list_ascii_of_string a)) (rev (String.list_ascii_of_string b)) in
  str_drop (String.length a - to_boundary a i) a.

Definition len (s : string) : N := N.of_nat (String.length s).
Definition sharing (l : list BeadBody) (suf : string) : N :=
  N.of_nat (length (List.filter (λ b, ends_with (acceptance b) suf) l)).
(** One pair of the double loop. *)
Definition consider (l : list BeadBody) (best : N * string) (a b : BeadBody) : N * string :=
  let suf := common_suffix (acceptance a) (acceptance b) in
  if (len suf <? 32)%N then best
  else
    let n := sharing l suf in
    if (best.1 <? n)%N || ((n =? best.1)%N && (len best.2 <? len suf)%N) then (n, suf) else best.
Fixpoint pairs (all : list BeadBody) (best : N * string) (l : list BeadBody) : N * string :=
  match l with [] => best | a :: l => pairs all (foldl (λ best b, consider all best a b) best l) l end.
Definition largest_suffix_cluster (beads : list BeadBody) : N * string :=
  let nonempty := List.filter (λ b, negb (is_empty (acceptance b))) beads in pairs nonempty (0%N, "") nonempty.

(** ** The measurement. *)

Fixpoint sum_of {A} (f : A → N) (l : list A) : N := match l with [] => 0 | a :: l => (f a + sum_of f l)%N end.
Definition has (p : BeadBody → bool) (b : BeadBody) : N := if p b then 1 else 0.
Definition own_bytes (suffix : string) (b : BeadBody) : N :=
  if negb (is_empty suffix) && ends_with (acceptance b) suffix then (len (acceptance b) - len suffix)%N
  else len (acceptance b).
Definition blob (b : BeadBody) : string := acceptance b +:+ lf_str +:+ bb_description b.
Definition is_anchor (b : BeadBody) : bool :=
  contains (blob b) ":" && negb (all_bytes (λ c, negb (is_ascii_digit c)) (blob b))
  && (contains (blob b) ".rs:" || contains (blob b) ".md:" || contains (blob b) "src/").
Definition is_file_line (tok : string) : bool :=
  match rsplit_once ":" tok with Some (_, n) => bool_decide (is_Some (parse_u32 n)) | None => false end.
Definition blank (b : BeadBody) : bool := is_empty (trim (acceptance b)).
Definition usize_saturating_mul (a b : N) : N := N.min (a * b) u64_max.
Definition measure_family (beads : list BeadBody) : result Vacuity FamilyReport :=
  if bool_decide (length beads = 0) then Err EmptySet
  else
    let total := sum_of (λ b, len (acceptance b)) beads in
    let '(size, suffix) := largest_suffix_cluster beads in
    let specific := if COMPUTE_SPECIFICITY then sum_of (own_bytes suffix) beads else total in
    let milli := if (total =? 0)%N then 0%N
                 else let m := (usize_saturating_mul specific 1000 / total)%N in if (m <=? u32_max)%N then m else 0%N in
    Ok {| bead_count := N.of_nat (length beads); total_acceptance_bytes := total; specific_bytes := specific;
          boilerplate_bytes := sat_sub total specific; specific_milli := milli; floor_milli := SPECIFICITY_FLOOR_MILLI;
          cluster_size := size; cluster_suffix_bytes := len suffix;
          named_specimen_hit := (len suffix =? DERIVED_TAIL_BYTES)%N && contains suffix DERIVED_PREMISE_PHRASE && (2 <=? size)%N;
          zero_acceptance := map bb_id (List.filter blank beads);
          unchecked_boxes := sum_of (λ b, N.of_nat (length (find_unchecked_boxes (acceptance b)))) beads;
          numbered_prose := sum_of (λ b, N.of_nat (length (find_numbered_prose (acceptance b)))) beads;
          fr_what := sum_of (has (λ b, contains (blob b) "WHAT")) beads;
          fr_why := sum_of (has (λ b, contains (blob b) "WHY")) beads;
          acceptance_populated := sum_of (has (λ b, negb (blank b))) beads;
          file_line := sum_of (has (λ b, existsb is_file_line (split_whitespace (blob b)))) beads;
          source_anchor := sum_of (has is_anchor) beads |}.

(** ** The beads of a family. *)
Definition FAMILY_NEEDLES : list string := ["jplf"; "plan-07-8jkq"; "bead-definition-quality-ratchet-0vhw"].
Definition advertised_floor : N := SPECIFICITY_FLOOR_MILLI.
Definition enforced_floor : N := SPECIFICITY_FLOOR_MILLI.
Section Family.
Context `{SerdeJson}.
Definition body_row (needles : list string) (line : string) : result Vacuity (option BeadBody) :=
  value ← ok_or (from_str line) Unreadable;
  id ← ok_or (json_get "id" value ≫= as_str) Unreadable;
  Ok (if existsb (λ n, contains id n) needles then
        Some (MkBody id (default "" (json_get "acceptance_criteria" value ≫= as_str))
                (default "" (json_get "description" value ≫= as_str)))
      else None).
Fixpoint body_rows (needles : list string) (ls : list string) : result Vacuity (list BeadBody) :=
  match ls with
  | [] => Ok []
  | l :: ls =>
      if is_empty (trim l) then body_rows needles ls
      else b ← body_row needles l; rest ← body_rows needles ls; Ok (app (option_list b) rest)
  end.
Definition parse_issues_jsonl (text : string) (needles : list string) : result Vacuity (list BeadBody) :=
  if is_empty text then Err EmptySet
  else out ← body_rows needles (lines text); if bool_decide (length out = 0) then Err ZeroMatch else Ok out.
End Family.

(** ** The bytes add up. *)

Lemma ends_with_len s suf : ends_with s suf = true → (len suf <= len s)%N.
Proof.
  unfold ends_with. destruct (strip_suffix suf s) as [r|] eqn:Hr; [|done]. intros _.
  apply strip_suffix_Some in Hr as ->. unfold len. rewrite str_app_length. lia.
Qed.

(** The best cluster so far counts the beads that end with its tail. *)
Definition honest (all : list BeadBody) (best : N * string) : Prop :=
  best = (0%N, "") ∨ (32 <= len best.2)%N ∧ best.1 = sharing all best.2.

Lemma consider_honest all best a b : honest all best → honest all (consider all best a b).
Proof.
  intros Hh. unfold consider. destruct (len (common_suffix _ _) <? 32)%N eqn:Hl; [done|]. apply N.ltb_ge in Hl.
  destruct (_ || _); [|done]. by right.
Qed.

Lemma pairs_honest all best l : honest all best → honest all (pairs all best l).
Proof.
  revert best. induction l as [|a l IH]; intros best Hh; cbn; [done|]. apply IH.
  assert (∀ k best, honest all best → honest all (foldl (λ best b, consider all best a b) best k)) as Hk; [|by apply Hk].
  clear. intros k. induction k as [|b k IH]; intros best Hh; cbn; [done|]. apply IH, consider_honest, Hh.
Qed.

Lemma sharing_nonempty beads suf :
  (32 <= len suf)%N → sharing (List.filter (λ b, negb (is_empty (acceptance b))) beads) suf = sharing beads suf.
Proof.
  intros Hs. unfold sharing. f_equal. induction beads as [|b beads IH]; [done|]. cbn.
  destruct (is_empty (acceptance b)) eqn:He; cbn.
  - destruct (ends_with (acceptance b) suf) eqn:Hends; [|done]. apply ends_with_len in Hends.
    destruct (acceptance b); [|done]. unfold len in *. cbn in *. lia.
  - destruct (ends_with (acceptance b) suf); cbn; lia.
Qed.

Lemma own_bytes_sum beads suf :
  (32 <= len suf)%N →
  (sum_of (λ b, len (acceptance b)) beads = sum_of (own_bytes suf) beads + sharing beads suf * len suf)%N.
Proof.
  intros Hs. unfold sharing. assert (is_empty suf = false) as He by by destruct suf.
  induction beads as [|b beads IH]; cbn; [done|].
  unfold own_bytes at 1. rewrite He. cbn. destruct (ends_with (acceptance b) suf) eqn:Hends; cbn [length]; [|lia].
  apply ends_with_len in Hends. lia.
Qed.

Lemma own_bytes_empty beads : sum_of (own_bytes "") beads = sum_of (λ b, len (acceptance b)) beads.
Proof. induction beads as [|b beads IH]; cbn; [done|]. by rewrite IH. Qed.

(** in every measured family the bytes of the acceptance texts are the specific ones
    and the boilerplate, the boilerplate is one copy of the shared tail for each bead of
    the cluster, the share never exceeds one thousand, and the family is below the floor
    exactly when there is no text or the specific bytes are less than 36.5 percent. *)
Theorem family_bytes_add_up beads r :
  measure_family beads = Ok r → (total_acceptance_bytes r * 1000 <= u64_max)%N →
  total_acceptance_bytes r = (specific_bytes r + boilerplate_bytes r)%N ∧
  boilerplate_bytes r = (cluster_size r * cluster_suffix_bytes r)%N ∧ (specific_milli r <= 1000)%N ∧
  (below_floor r = true ↔
   total_acceptance_bytes r = 0%N ∨ (1000 * specific_bytes r < 365 * total_acceptance_bytes r)%N).
Proof.
  unfold measure_family. case_bool_decide; [done|]. destruct (largest_suffix_cluster beads) as [n suf] eqn:Hl.
  intros [= <-]. unfold below_floor, sat_sub, usize_saturating_mul. cbn. intros Hmax.
  set (total := sum_of _ beads) in *. set (own := sum_of (own_bytes suf) beads).
  assert (total = own + n * len suf)%N as Htotal.
  { unfold largest_suffix_cluster in Hl. set (ne := List.filter _ beads) in Hl.
    destruct (pairs_honest ne (0%N, "") ne) as [Hp|[Hlen Hn]]; [by left| |]; rewrite Hl in *.
    - injection Hp as -> ->. unfold own. rewrite own_bytes_empty. fold total. lia.
    - cbn in *. subst n. unfold ne. rewrite sharing_nonempty by done. by apply own_bytes_sum. }
  split; [lia|]. split; [lia|]. destruct (total =? 0)%N eqn:Hz.
  - apply N.eqb_eq in Hz. split; [lia|]. split; [by left|done].
  - apply N.eqb_neq in Hz. rewrite N.min_l by lia.
    assert (own * 1000 / total <= 1000)%N as Hm by (apply N.Div0.div_le_upper_bound; nia).
    rewrite (proj2 (N.leb_le _ _)) by (unfold u32_max; lia). split; [done|].
    rewrite N.ltb_lt. unfold SPECIFICITY_FLOOR_MILLI. split.
    + intros Hlt. right. pose proof (N.mul_succ_div_gt (own * 1000) total Hz). nia.
    + intros [?|Hlt]; [done|]. apply N.Div0.div_lt_upper_bound. lia.
Qed.

Definition ex_tail : string := " and then run every test of the crate again".
Definition ex_family : list BeadBody :=
  [MkBody "a" ("1. Parse." +:+ ex_tail) ""; MkBody "b" ("- [ ] Print" +:+ ex_tail) "WHY"; MkBody "c" "" "src/lib.rs:1"].
Definition ex_report : FamilyReport :=
  match measure_family ex_family with
  | Ok r => r | Err _ => MkFamily 0 0 0 0 0 0 0 0 false [] 0 0 0 0 0 0 0
  end.
Lemma family_bytes_add_up_witness :
  measure_family ex_family = Ok ex_report ∧ cluster_size ex_report = 2%N ∧ below_floor ex_report = true ∧
  (1000 * specific_bytes ex_report < 365 * total_acceptance_bytes ex_report)%N.
Proof.
  assert (measure_family ex_family = Ok ex_report) as Hr by (vm_compute; reflexivity).
  assert (below_floor ex_report = true) as Hb by (vm_compute; reflexivity).
  split; [done|]. split; [vm_compute; reflexivity|]. split; [done|].
  destruct (family_bytes_add_up _ _ Hr) as (_ & _ & _ & Hf); [vm_compute; discriminate|].
  destruct (proj1 Hf Hb) as [Hz|Hlt]; [|done]. exfalso. revert Hz. vm_compute. discriminate.
Defined.
