(* ===== verification/UdsGate.v ===== *)
(** * The gate of the target, asked before a cycle

    omp-orchestrator/src/uds_target_gate.rs asks an external program two questions, its
    version and the gate of this repository, and reads each answer's envelope before its
    content.  Only an observed projection lets a cycle claim or dispatch; an answer that
    proves nothing about the program is UNPROVEN, one that fails after it is UNWIRED. *)

From stdpp Require Import base numbers list option strings pretty gmap.
From Stdlib Require Import NArith ZArith Ascii Lia.
From S2P Require Import Prelude RustStr Utf8 Json TickMonitor Pending Resident.

Definition UDS_ENVELOPE_SCHEMA : string := "uds/v2".
Definition UDS_PROJECTION_SCHEMA : string := "uds-target-gates/v1".
Definition UDS_TARGET_GATE_VERB : string := "target-gate".
Definition UDS_VERSION_VERB : string := "version".

Record UdsTargetGateExpected := MkExpected { ex_target : string; ex_root : string; ex_owner : string }.
Record UdsTargetGateObservation := MkUds { uds_trigger : string; uds_requirements : list string }.
Inductive UdsCycleAdmission :=
  | UdsObserved (o : UdsTargetGateObservation) | UdsUnproven (detail : string) | UdsUnwired (detail : string).

Definition unwired (detail : string) : string := "UDS_TARGET_GATE_UNWIRED " +:+ detail.
Definition unproven (detail : string) : string := "UDS_TARGET_GATE_UNPROVEN " +:+ detail.
Definition uds_admission_is_unproven (error : string) : bool := starts_with error "UDS_TARGET_GATE_UNPROVEN ".
Definition uds_target_gate_exit (code : string) : option Z :=
  if bool_decide (code = "EC-PASS") then Some 0%Z
  else if bool_decide (code = "EC-RED") then Some 1%Z
  else if bool_decide (code = "EC-USAGE") then Some 2%Z
  else if bool_decide (code = "EC-UNRUN") then Some 77%Z else None.
(** The repository's own name and path. *)
Definition expected_from_host (repo_name repo : string) : UdsTargetGateExpected := MkExpected repo_name repo repo_name.

Section Envelope.
Context `{SerdeJson, Host}.

(** The value and the code of an answer whose schema, verb, code and exit agree. *)
Definition parse_uds_envelope (o : Output) (verb prefix : string) : result string (Json * string) :=
  let fail detail := prefix +:+ " " +:+ detail in
  let text key value := ok_or (json_get key value ≫= as_str) (fail ("malformed_envelope missing=" +:+ key)) in
  exit ← ok_or (o_code o) (fail "process_exit=signal");
  value ← ok_or (from_str (o_stdout o))
            (fail ("malformed_envelope detail=" +:+ host_json_error (o_stdout o) +:+ " stderr="
                   +:+ one_line_detail (utf8_lossy (o_stderr o))));
  schema ← text "schema" value;
  _ ← ensure (bool_decide (schema = UDS_ENVELOPE_SCHEMA))
        (fail ("envelope_schema=" +:+ schema +:+ " expected=" +:+ UDS_ENVELOPE_SCHEMA)) (Ok tt);
  found ← text "verb" value;
  _ ← ensure (bool_decide (found = verb)) (fail ("envelope_verb=" +:+ found +:+ " expected=" +:+ verb)) (Ok tt);
  code ← text "code" value;
  status ← ok_or (json_get "exit_status" value ≫= as_i64) (fail "malformed_envelope missing=exit_status");
  _ ← ensure (status =? exit)%Z
        (fail ("envelope_mismatch code=" +:+ code +:+ " exit_status=" +:+ show_Z status +:+ " process_exit=" +:+ show_Z exit)) (Ok tt);
  expected ← ok_or (uds_target_gate_exit code)
               (fail ("unsupported_code code=" +:+ code +:+ " exit_status=" +:+ show_Z status));
  _ ← ensure (status =? expected)%Z
        (fail ("code_exit_mismatch code=" +:+ code +:+ " exit_status=" +:+ show_Z status +:+ " expected=" +:+ show_Z expected)) (Ok tt);
  Ok (value, code).

(** ** The version. *)

Definition uds_version_is_usable (version : string) : bool :=
  let v := trim version in
  negb (is_empty v || eq_ignore_ascii_case v "unknown") && negb (all_bytes (λ c, negb (is_ascii_digit c)) v).
Definition names_verb (entry : Json) : bool :=
  bool_decide (as_str entry = Some UDS_TARGET_GATE_VERB)
  || bool_decide ((json_get "verb" entry ≫= as_str) = Some UDS_TARGET_GATE_VERB).
Definition uds_version_advertises_target_gate (value : Json) : bool :=
  existsb (λ key, match json_get key value ≫= as_array with Some l => existsb names_verb l | None => false end)
    ["commands"; "capabilities"].
Definition parse_uds_version (o : Output) : result string unit :=
  '(value, code) ← parse_uds_envelope o UDS_VERSION_VERB "UDS_TARGET_GATE_UNPROVEN";
  if negb (bool_decide (code = "EC-PASS")) then
    Err (unproven ("uds_code=" +:+ code +:+ " detail="
           +:+ default "typed UDS version refusal" (json_get "detail" value ≫= as_str)))
  else
    version ← ok_or (json_get "version" value ≫= as_str) (unproven "malformed_envelope missing=version");
    if negb (uds_version_is_usable version) then Err (unproven ("unverified_version version=" +:+ version))
    else match json_get "commit_verified" value with
         | Some (JBool true) =>
             if uds_version_advertises_target_gate value then Ok tt
             else Err (unproven "advertised_capability_missing=target-gate")
         | Some (JBool false) => Err (unproven "unverified_version commit_verified=false")
         | Some _ => Err (unproven "malformed_envelope commit_verified")
         | None => Err (unproven "unverified_version missing=commit_verified")
         end.

(** ** The projection. *)

Definition field_of (key : string) (p : list (string * Json)) : result string string :=
  ok_or (map_get key p ≫= as_str) (unwired ("malformed_projection missing=" +:+ key)).
(** A field that must be the expected one; [short] is what its mismatch is called. *)
Definition expect (short found expected : string) : result string unit :=
  if bool_decide (found = expected) then Ok tt
  else Err (unwired (short +:+ "_mismatch expected=" +:+ expected +:+ " found=" +:+ found)).
Definition projection_object (value : Json) : result string (list (string * Json)) :=
  ok_or (json_get "projection" value ≫= as_object) (unwired "malformed_projection missing=projection").
Definition parse_projection_identity (p : list (string * Json)) (e : UdsTargetGateExpected) : result string string :=
  schema ← field_of "schema" p;
  _ ← ensure (bool_decide (schema = UDS_PROJECTION_SCHEMA))
        (unwired ("projection_schema=" +:+ schema +:+ " expected=" +:+ UDS_PROJECTION_SCHEMA)) (Ok tt);
  trigger ← field_of "trigger" p;
  _ ← ensure (negb (is_empty (trim trigger))) (unwired "empty_trigger") (Ok tt);
  target ← field_of "target" p;
  _ ← expect "target" target (ex_target e);
  root ← field_of "canonical_root" p;
  _ ← expect "root" root (ex_root e);
  owner ← field_of "owner" p;
  _ ← expect "owner" owner (ex_owner e);
  Ok trigger.

Definition parse_one_requirement (row : Json) (index : N) (order : list Json) (seen : gset string) : result string string :=
  let missing := unwired ("missing_requirement index=" +:+ show_N index) in
  fields ← ok_or (as_object row) missing;
  id ← ok_or (map_get "id" fields ≫= as_str) missing;
  if is_empty (trim id) then Err (unwired ("empty_requirement_id index=" +:+ show_N index))
  else if bool_decide (id ∈ seen) then Err (unwired ("duplicate_requirement=" +:+ id))
  else
    ordered ← ok_or ((order !! N.to_nat index) ≫= as_str) (unwired ("requirement_order missing index=" +:+ show_N index));
    if negb (bool_decide (ordered = id)) then
      Err (unwired ("requirement_order index=" +:+ show_N index +:+ " expected=" +:+ ordered +:+ " found=" +:+ id))
    else
      command ← ok_or (map_get "command" fields ≫= as_str) (unwired ("missing_command=" +:+ id));
      if is_empty (trim command) then Err (unwired ("empty_command=" +:+ id)) else Ok id.
Fixpoint requirements_from (index : N) (order : list Json) (seen : gset string) (rows : list Json) : result string (list string) :=
  match rows with
  | [] => Ok []
  | row :: rows =>
      id ← parse_one_requirement row index order seen;
      ids ← requirements_from (index + 1) order ({[ id ]} ∪ seen) rows;
      Ok (id :: ids)
  end.
Definition parse_projection_requirements (p : list (string * Json)) : result string (list string) :=
  let missing key := unwired ("malformed_projection missing=" +:+ key) in
  rows ← (ok_or (map_get "requirements" p ≫= as_array) (missing "requirements") : result string (list Json));
  if bool_decide (length rows = 0%nat) then Err (unwired "empty_requirements")
  else
    declared ← ok_or (map_get "requirement_count" p ≫= as_u64) (missing "requirement_count");
    if negb (declared =? N.of_nat (length rows))%N then
      Err (unwired ("requirement_count declared=" +:+ show_N declared +:+ " actual=" +:+ show_N (N.of_nat (length rows))))
    else
      order ← ok_or (map_get "requirement_order" p ≫= as_array) (missing "requirement_order");
      ids ← requirements_from 0 order ∅ rows;
      if negb (bool_decide (length order = length ids)) then
        Err (unwired ("requirement_order_len=" +:+ show_N (N.of_nat (length order)) +:+ " actual=" +:+ show_N (N.of_nat (length ids))))
      else Ok ids.

Definition parse_uds_target_gate (o : Output) (e : UdsTargetGateExpected) : result string UdsTargetGateObservation :=
  '(value, code) ← parse_uds_envelope o UDS_TARGET_GATE_VERB "UDS_TARGET_GATE_UNWIRED";
  if negb (bool_decide (code = "EC-PASS")) then
    Err (unwired ("uds_code=" +:+ code +:+ " detail="
           +:+ default "typed UDS target-gate refusal" (json_get "detail" value ≫= as_str)))
  else
    p ← projection_object value;
    trigger ← parse_projection_identity p e;
    ids ← parse_projection_requirements p;
    Ok (MkUds trigger ids).
End Envelope.

(** ** The two questions. *)
Section Observe.
Context `{SerdeJson, Host} (env : Env) (binary registry : option string) (repo_name : string).
Notation cfg := (e_cfg env).

Definition spawn (program : string) (args : list string) : RM RunAnswer :=
  _ ← checkpoint env "CANCELLED supervisor context";
  _ ← emit (ERun program args);
  t ← trace_of;
  mret (e_run env t).
Definition version_args : list string := [UDS_VERSION_VERB; "--json"].
Definition gate_args (registry : string) : list string := [UDS_TARGET_GATE_VERB; registry; cf_repo cfg; "--json"].
(** The output of a question, or its failure under the name [label]. *)
Definition answered (refuse : string → string) (label program : string) (a : RunAnswer) : result string Output :=
  match a with
  | Exited o => Ok o
  | RunFailed e => Err (refuse (label +:+ "=" +:+ e))
  | RunTimedOut => Err (refuse (label +:+ "=TIMEOUT program=" +:+ program +:+ " after=" +:+ show_N (rc_timeout_secs cfg) +:+ "s"))
  end.
Definition observe_uds_target_gate : RM UdsTargetGateObservation :=
  match binary, registry with
  | None, _ => stm_fail (unproven "config_missing=uds_binary")
  | _, None => stm_fail (unproven "config_missing=uds_registry")
  | Some binary, Some registry =>
      a ← spawn binary version_args;
      version ← stm_lift (answered unproven "version_invoke" binary a);
      _ ← stm_lift (parse_uds_version version);
      a ← spawn binary (gate_args registry);
      output ← stm_lift (answered unwired "invoke" binary a);
      stm_lift (parse_uds_target_gate output (expected_from_host repo_name (cf_repo cfg)))
  end.
End Observe.

Definition uds_cycle_admission (r : result string UdsTargetGateObservation) : UdsCycleAdmission :=
  match r with
  | Ok o => UdsObserved o
  | Err detail => if uds_admission_is_unproven detail then UdsUnproven detail else UdsUnwired detail
  end.
Definition uds_cycle_allows_new_claim_or_dispatch (a : UdsCycleAdmission) : bool :=
  match a with UdsObserved _ => true | _ => false end.

(** ** What an observation rests on. *)

Section Facts.
Context `{SerdeJson, Host}.

Lemma envelope_ok o verb prefix value code :
  parse_uds_envelope o verb prefix = Ok (value, code) →
  from_str (o_stdout o) = Some value ∧ (json_get "verb" value ≫= as_str) = Some verb ∧
  ∃ e, o_code o = Some e ∧ uds_target_gate_exit code = Some e.
Proof.
  unfold parse_uds_envelope. intros (e & He%ok_or_ok & (v & Hv%ok_or_ok & Hr)%bind_ok)%bind_ok.
  apply bind_ok in Hr as (s & _ & (u & _ & Hr)%bind_ok).
  apply bind_ok in Hr as (f & Hf%ok_or_ok & (u2 & Hu2%ensure_tt & Hr)%bind_ok).
  apply bind_ok in Hr as (c & _ & (st & _ & Hr)%bind_ok).
  apply bind_ok in Hr as (u3 & Hu3%ensure_tt & (x & Hx%ok_or_ok & Hr)%bind_ok).
  apply bind_ok in Hr as (u4 & Hu4%ensure_tt & Hr). injection Hr as <- <-.
  apply bool_decide_eq_true in Hu2. subst f. apply Z.eqb_eq in Hu3, Hu4. subst. split_and!; [done..|].
  by eexists.
Qed.

Lemma pass_exit : uds_target_gate_exit "EC-PASS" = Some 0%Z.
Proof. reflexivity. Qed.

Lemma requirement_ok row index order seen id :
  parse_one_requirement row index order seen = Ok id →
  id ∉ seen ∧ (order !! N.to_nat index) = Some (JString id) ∧ (json_get "id" row ≫= as_str) = Some id ∧
  ∃ c, (json_get "command" row ≫= as_str) = Some c ∧ trim c ≠ "".
Proof.
  unfold parse_one_requirement, json_get. intros (fs & Hfs%ok_or_ok & (i & Hi%ok_or_ok & Hr)%bind_ok)%bind_ok.
  rewrite Hfs. cbn. rewrite Hi. destruct (is_empty (trim i)); [done|]. case_bool_decide as Hs; [done|].
  apply bind_ok in Hr as (od & Hod%ok_or_ok & Hr). case_bool_decide as Ho; [|done]. cbn in Hr. subst od.
  apply bind_ok in Hr as (c & Hc%ok_or_ok & Hr). destruct (is_empty (trim c)) eqn:Hce; [done|]. injection Hr as ->.
  split_and!; [done| |done|].
  - destruct (order !! N.to_nat index) as [[]|]; cbn in Hod; try done. congruence.
  - exists c. split; [done|]. intros Hn. by rewrite Hn in Hce.
Qed.

Lemma requirements_ok rows index order seen ids :
  requirements_from index order seen rows = Ok ids →
  NoDup ids ∧ (∀ id, id ∈ ids → id ∉ seen) ∧ length ids = length rows ∧
  ∀ k id, ids !! k = Some id → order !! (N.to_nat index + k)%nat = Some (JString id).
Proof.
  revert index seen ids. induction rows as [|row rows IH]; intros index seen ids; cbn.
  - intros [= <-]. split_and!; [constructor|set_solver|done|done].
  - intros (id & (Hs & Ho & _)%requirement_ok & (l & (Hnd & Hseen & Hlen & Hk)%IH & [= <-])%bind_ok)%bind_ok.
    split_and!.
    + constructor; [|done]. intros Hin%Hseen. set_solver.
    + intros x [->|Hx]%elem_of_cons; [done|]. apply Hseen in Hx. set_solver.
    + cbn. by rewrite Hlen.
    + intros [|k] x; cbn.
      * intros [= <-]. by rewrite Nat.add_0_r.
      * intros Hx%Hk. rewrite <- Hx. f_equal. lia.
Qed.

(** The projection's requirements are its declared order: texts, all different. *)
Lemma projection_ok p ids :
  parse_projection_requirements p = Ok ids →
  ids ≠ [] ∧ NoDup ids ∧ (map_get "requirement_order" p ≫= as_array) = Some (map JString ids) ∧
  (map_get "requirement_count" p ≫= as_u64) = Some (N.of_nat (length ids)).
Proof.
  unfold parse_projection_requirements. intros (rows & _ & Hr)%bind_ok. case_bool_decide as Hne; [done|].
  apply bind_ok in Hr as (d & Hd%ok_or_ok & Hr). destruct (d =? _)%N eqn:Hdn; [|done]. apply N.eqb_eq in Hdn.
  apply bind_ok in Hr as (order & Hord%ok_or_ok & (l & (Hnd & _ & Hlen & Hk)%requirements_ok & Hr)%bind_ok).
  case_bool_decide as Hol; [|done]. injection Hr as ->. rewrite Hord, Hd, Hdn, Hlen. split_and!; try done.
  - intros ->. cbn in Hlen. lia.
  - f_equal. apply list_eq. intros k. rewrite list_lookup_fmap. destruct (ids !! k) as [id|] eqn:Hid; cbn.
    + by apply Hk in Hid.
    + apply lookup_ge_None in Hid. apply lookup_ge_None. lia.
Qed.
End Facts.

Section Rests.
Context `{SerdeJson, Host} (env : Env) (binary registry : option string) (repo_name : string).
Notation cfg := (e_cfg env).

Lemma spawn_ok program args w w' a :
  spawn env program args w = (w', Ok a) →
  r_trace w' = ERun program args :: r_trace w ∧ a = e_run env (r_trace w') ∧ w' = log (ERun program args) w.
Proof.
  unfold spawn. rewrite stm_bind_ok. intros (w1 & u & Hc & Hr). revert Hr.
  unfold checkpoint in Hc. rewrite stm_bind_ok in Hc. destruct Hc as (w2 & t & [= <- <-] & Hc).
  apply stm_refuse_ok in Hc as [_ ->]. by intros [= <- <-].
Qed.

(** A target gate is observed only when the configured program answered both questions
    with exit 0 under the code EC-PASS, the version first, and the projection names this
    repository; its requirements are then the declared order, none twice and at least one,
    and nothing but these two commands happened. *)
Theorem uds_observed_rests_on w w' obs :
  observe_uds_target_gate env binary registry repo_name w = (w', Ok obs) →
  ∃ b r version gate value p,
    binary = Some b ∧ registry = Some r ∧
    w' = log (ERun b (gate_args env r)) (log (ERun b version_args) w) ∧
    e_run env (ERun b version_args :: r_trace w) = Exited version ∧ o_code version = Some 0%Z ∧
    e_run env (r_trace w') = Exited gate ∧ o_code gate = Some 0%Z ∧ from_str (o_stdout gate) = Some value ∧
    (json_get "projection" value ≫= as_object) = Some p ∧
    (map_get "canonical_root" p ≫= as_str) = Some (cf_repo cfg) ∧
    (map_get "target" p ≫= as_str) = Some repo_name ∧ (map_get "owner" p ≫= as_str) = Some repo_name ∧
    uds_requirements obs ≠ [] ∧ NoDup (uds_requirements obs) ∧
    (map_get "requirement_order" p ≫= as_array) = Some (map JString (uds_requirements obs)).
Proof.
  unfold observe_uds_target_gate. destruct binary as [b|]; [|done]. destruct registry as [r|]; [|done].
  rewrite stm_bind_ok. intros (w1 & a & (Ht1 & Ha & Hw1)%spawn_ok & Hr). revert Hr. rewrite stm_bind_ok.
  intros (w2 & version & Hv & Hr). revert Hr. apply stm_lift_ok in Hv as [-> Hv]. rewrite stm_bind_ok.
  intros (w3 & u & Hp & Hr). revert Hr. apply stm_lift_ok in Hp as [-> Hp]. rewrite stm_bind_ok.
  intros (w4 & a2 & (Ht2 & Ha2 & Hw4)%spawn_ok & Hr). revert Hr. rewrite stm_bind_ok.
  intros (w5 & gate & Hg & Hr). apply stm_lift_ok in Hg as [-> Hg]. apply stm_lift_ok in Hr as [-> Hr].
  destruct a as [o1| |]; try done. injection Hv as ->. destruct a2 as [o2| |]; try done. injection Hg as ->.
  unfold parse_uds_version in Hp. apply bind_ok in Hp as ([v1 c1] & (_ & _ & e1 & He1 & Hx1)%envelope_ok & Hp).
  case_bool_decide as Hc1; [|done]. subst c1. rewrite pass_exit in Hx1. injection Hx1 as <-.
  unfold parse_uds_target_gate in Hr. apply bind_ok in Hr as ([v2 c2] & (Hs2 & _ & e2 & He2 & Hx2)%envelope_ok & Hr).
  case_bool_decide as Hc2; [|done]. subst c2. rewrite pass_exit in Hx2. injection Hx2 as <-. cbn [negb] in Hr.
  apply bind_ok in Hr as (p & Hpo%ok_or_ok & (tr & Hid & (ids & (Hne & Hnd & Hord & _)%projection_ok & [= <-])%bind_ok)%bind_ok).
  unfold parse_projection_identity in Hid.
  apply bind_ok in Hid as (s & _ & (u1 & _ & Hid)%bind_ok).
  apply bind_ok in Hid as (tr' & _ & (u2 & _ & Hid)%bind_ok).
  apply bind_ok in Hid as (tg & Htg%ok_or_ok & (u3 & Hu3 & Hid)%bind_ok).
  apply bind_ok in Hid as (rt & Hrt%ok_or_ok & (u4 & Hu4 & Hid)%bind_ok).
  apply bind_ok in Hid as (ow & How%ok_or_ok & (u5 & Hu5 & _)%bind_ok).
  unfold expect in Hu3, Hu4, Hu5. case_bool_decide; [|done]. case_bool_decide; [|done]. case_bool_decide; [|done].
  cbn in *. subst. eexists b, r, version, gate, v2, p. rewrite Ht1 in Ha. split_and!; try done.
Qed.

(** A cancelled cycle is filed as an unwired gate: the error of a cancellation starts with
    neither name. *)
Lemma cancelled_is_unwired :
  uds_cycle_admission (Err "CANCELLED supervisor context") = UdsUnwired "CANCELLED supervisor context".
Proof. reflexivity. Qed.
End Rests.
