(* ===== verification/SpineEmit.v ===== *)
(** * The completion half of the step ledger

    omp-orchestrator/src/spine_emit.rs and its callers in resident.rs: which steps a
    closed bead owes, which were recorded, how often a bead was sent, and the pass of one
    tick over the beads that were dispatched.  The ledger of a cycle is state beside the
    process; its file is written at the end and read by later cycles. *)

From stdpp Require Import base numbers list option strings pretty gmap.
From Stdlib Require Import NArith ZArith Ascii Lia.
From S2P Require Import Prelude RustStr Utf8 Json AckSpine DecisionLedger ClaimFence PaneFence Lifecycle LifeLedger.
From S2P Require Import TickMonitor Receipt AckStage Pending Packet Activity Resident.

(** ** What a bead owes. *)

Definition GRADED_CLOSE_PREFIXES : list string := ["MUTATION-VERIFIED"; "DONE"; "APPROVED"; "WONTFIX"].
Record PriorDispatch := MkPrior {
  pd_bead : string; pd_pane : string; pd_status : string; pd_close_reason : option string; pd_count : N;
  already_recorded : bool }.
Definition is_graded (reason : string) : bool := existsb (starts_with reason) GRADED_CLOSE_PREFIXES.
Definition completion_kinds (p : PriorDispatch) : list StepKind :=
  if already_recorded p then []
  else if negb (bool_decide (pd_status p = "closed")) then []
  else if is_graded (trim_start (default "" (pd_close_reason p))) then [GradeReceived; AckSpine.Closed]
  else [ClosedWithoutGrade].
Definition send_kind (count : N) : StepKind := if (0 <? count)%N then Redispatched else PacketSent.

Section Text.
Context `{SerdeJson}.

(** The kind and the bead of a row of the file. *)
Definition row_kind_of (line : string) : option string :=
  (λ v, default "" (json_get "kind" v ≫= as_str)) <$> from_str (trim line).
Definition row_bead_of (line : string) : option string := from_str (trim line) ≫= λ v, json_get "bead" v ≫= as_str.
Definition is_kind (k : StepKind) (line : string) : bool := bool_decide (row_kind_of line = Some (step_kind_str k)).

Definition heartbeat_send (bead line : string) : bool :=
  contains line (dquote +:+ "DISPATCHED" +:+ dquote)
  && (contains line ("bead=" +:+ bead +:+ " ") || contains line ("bead=" +:+ bead +:+ dquote)).
Definition spine_send (bead line : string) : bool :=
  (is_kind PacketSent line || is_kind Redispatched line) && bool_decide (row_bead_of line = Some bead).
Definition prior_send_count (heartbeat spine bead : string) : N :=
  N.of_nat (length (List.filter (heartbeat_send bead) (lines heartbeat)) + length (List.filter (spine_send bead) (lines spine))).

Definition closure_of (line : string) : option string :=
  if is_empty (trim line) || negb (is_kind AckSpine.Closed line) then None
  else match row_bead_of line with Some b => if is_empty b then None else Some b | None => None end.
Definition recorded_closures (jsonl : string) : list string := btree_set (omap closure_of (lines jsonl)).
End Text.

(** [Path::with_file_name]. *)
Definition spine_ledger_path (heartbeat_ledger : string) : string :=
  match rsplit_once "/" heartbeat_ledger with
  | Some (dir, _) => dir +:+ "/omp-orchestrator.spine.jsonl"
  | None => "omp-orchestrator.spine.jsonl"
  end.
Definition assert_cycle_emitted (steps : nat) (dispatched : bool) : result string unit :=
  if dispatched && bool_decide (steps = 0%nat) then
    Err "SPINE_LEDGER_EMPTY: a dispatch cycle emitted zero StepRecords; an empty ledger is indistinguishable from a cycle that never ran"
  else Ok tt.

(** ** The tracker's word on a bead. *)

Section Tracker.
Context `{SerdeJson, Host}.

Definition tracker_rows (v : Json) : result string (list Json) :=
  match v with
  | JArray rows => Ok rows
  | JObject o => ok_or (map_get "issues" o ≫= as_array) "tracker JSON object has no issues array"
  | _ => Err "tracker JSON must be a bare row list or an issues wrapper"
  end.
Definition parse_tracker_close_state (payload : string) : result string (string * option string) :=
  parsed ← ok_or (from_str payload) ("tracker JSON malformed: " +:+ host_json_error payload);
  rows ← tracker_rows parsed;
  row ← ok_or (head rows) "tracker JSON contains no bead row";
  status ← ok_or (json_get "status" row ≫= as_str) "tracker bead row has no string status";
  Ok (status, match json_get "close_reason" row ≫= as_str with
              | Some r => if is_empty (trim r) then None else Some r
              | None => None
              end).
End Tracker.

(** ** Steps of a cycle. *)

(** [{:?}] of a kind is its name. *)
Definition step_debug (k : StepKind) : string :=
  match k with
  | BeadSelected => "BeadSelected" | PacketRendered => "PacketRendered" | FenceChecked => "FenceChecked"
  | PacketSent => "PacketSent" | AckSpine.ReceiverVerified => "ReceiverVerified" | ReceiverTimedOut => "ReceiverTimedOut"
  | GradeRequested => "GradeRequested" | GradeReceived => "GradeReceived" | AckSpine.Closed => "Closed"
  | ClosedWithoutGrade => "ClosedWithoutGrade" | Redispatched => "Redispatched" | AckReadBack => "AckReadBack"
  end.

(** The steps' clocks and cancellations, and the spine file: what it reads as, and the
    fault of appending to it. *)
Record SpineEnv := MkSpineEnv {
  sp_step : list Effect → StepEnv;
  sp_read : list Effect → option string;
  sp_heartbeat : list Effect → bool;
  sp_append : list Effect → option string }.

Notation SM := (StM (RWorld * StepLedger) string).
Definition lift_r {A} (m : RM A) : SM A := λ wl, let '(w, r) := m wl.1 in ((w, wl.2), r).

Section Spine.
Context `{SerdeJson, ToJson, Unicode, Host} (env : Env) (sp : SpineEnv).
Notation cfg := (e_cfg env).

Definition step_error_display (e : StepError) : string :=
  match e with
  | StepCancelled None => "CANCELLED step_prefix_last=None"
  | StepCancelled (Some k) => "CANCELLED step_prefix_last=Some(" +:+ step_debug k +:+ ")"
  | StepLedgerError e => AckSpine.ledger_error_display e
  end.
Definition emit_step (kind : StepKind) (bead pane detail : string) : SM unit := λ wl,
  let '(l, r) := AckSpine.step (sp_step sp (r_trace wl.1)) wl.2 kind bead pane (cf_session cfg) detail in
  ((wl.1, l), map_err (λ e, "SPINE_STEP_REFUSED kind=" +:+ step_kind_str kind +:+ " bead=" +:+ bead +:+ " " +:+ step_error_display e) r).

Definition with_newline (s : string) : string := if ends_with s lf_str then s else s +:+ lf_str.
Definition json_str (s : string) : string := to_string (JString s).
Definition persist_spine (l : StepLedger) (dispatched : bool) : RM unit :=
  _ ← stm_lift (assert_cycle_emitted (steps_taken l) dispatched);
  _ ← stm_lift (map_err (λ e, "SPINE_LEDGER_INCONSISTENT " +:+ AckSpine.ledger_error_display e) (assert_step_count l));
  if bool_decide (length (AckSpine.rows l) = 0%nat) then mret tt
  else
    _ ← emit (EAppend (spine_ledger_path (cf_heartbeat cfg)) (with_newline (to_jsonl json_str l)));
    t ← trace_of;
    match sp_append sp t with Some e => stm_fail e | None => mret tt end.

Definition spine_text (t : list Effect) : string := default "" (sp_read sp t).
Definition prior_dispatch_count (bead : string) : RM N :=
  w ← stm_get;
  mret (prior_send_count (if sp_heartbeat sp (r_trace w) then heartbeat (r_pend w) else "") (spine_text (r_trace w)) bead).

(** ** The pass over dispatched beads. *)

Definition MAX_BEADS_PER_TICK : nat := 6.
Definition candidate_of (line : string) : option (string * string) :=
  if contains line (dquote +:+ "DISPATCHED" +:+ dquote) then
    bead ← field_after line "bead="; Some (bead, default "unknown" (field_after line "pane="))
  else None.
(** Newest first, each bead once, none recorded, at most six. *)
Fixpoint candidates_from (recorded : list string) (found : list (string * string)) (ls : list string) : list (string * string) :=
  match ls with
  | [] => found
  | l :: ls =>
      match candidate_of l with
      | None => candidates_from recorded found ls
      | Some (bead, pane) =>
          if bool_decide (bead ∈ recorded) || bool_decide (bead ∈ map fst found) then candidates_from recorded found ls
          else
            let found := app found [(bead, pane)] in
            if (MAX_BEADS_PER_TICK <=? length found)%nat then found else candidates_from recorded found ls
      end
  end.

Definition load_close_state (bead : string) : RM (option (string * option string)) :=
  r ← attempt (invoke env (rc_br cfg) ["show"; bead; "--json"]);
  mret (match r with
        | Ok o => if success o then
                    match parse_tracker_close_state (utf8_lossy (o_stdout o)) with Ok s => Some s | Err _ => None end
                  else None
        | Err _ => None
        end).

Fixpoint emit_all (kinds : list StepKind) (bead pane detail : string) : SM unit :=
  match kinds with
  | [] => mret tt
  | k :: kinds => _ ← emit_step k bead pane detail; emit_all kinds bead pane detail
  end.
Fixpoint reconcile_each (candidates : list (string * string)) : SM unit :=
  match candidates with
  | [] => mret tt
  | (bead, pane) :: candidates =>
      _ ← lift_r (checkpoint env "CANCELLED during completion reconcile");
      state ← lift_r (load_close_state bead);
      _ ← match state with
          | None => mret tt
          | Some (status, reason) =>
              emit_all (completion_kinds (MkPrior bead pane status reason 0 false)) bead pane
                ("status=" +:+ status +:+ " close_reason=" +:+ default "<none>" reason)
          end;
      reconcile_each candidates
  end.
Definition reconcile_completions (tick : N) : RM nat := λ w,
  if negb (sp_heartbeat sp (r_trace w)) then (w, Ok 0%nat)
  else
    let candidates := candidates_from (recorded_closures (spine_text (r_trace w))) [] (rev (lines (heartbeat (r_pend w)))) in
    match candidates with
    | [] => (w, Ok 0%nat)
    | _ =>
        match reconcile_each candidates (w, ledger_new) with
        | ((w, l), Err e) => (w, Err e)
        | ((w, l), Ok _) =>
            (if bool_decide (steps_taken l = 0%nat) then mret 0%nat
             else
               _ ← persist_spine l false;
               _ ← beat env tick "SPINE_COMPLETIONS_RECORDED"
                     ("steps=" +:+ show_N (N.of_nat (steps_taken l)) +:+ " scanned=" +:+ show_N (N.of_nat (length candidates)));
               mret (steps_taken l)) w
        end
    end.
End Spine.

(** ** What a pass does: its steps are records of the process's own, and touch nothing else. *)

Definition SEffects {A} (P : Effect → Prop) (m : SM A) : Prop := ∀ wl, extends P wl.1 (m wl).1.1.

Section SpineEffects.
Context (P : Effect → Prop).

Lemma seffects_ret {A} (a : A) : SEffects P (mret a).
Proof. intros wl. reflexivity. Qed.
Lemma seffects_bind {A B} (m : SM A) (f : A → SM B) : SEffects P m → (∀ a, SEffects P (f a)) → SEffects P (m ≫= f).
Proof.
  intros Hm Hf wl. specialize (Hm wl). unfold mbind, stm_bind. destruct (m wl) as [[w l] [a|e]]; [|done].
  etrans; [exact Hm|]. apply (Hf a (w, l)).
Qed.
Lemma seffects_lift {A} (m : RM A) : Effects P m → SEffects P (lift_r m).
Proof. intros Hm [w l]. specialize (Hm w). unfold lift_r. cbn. by destruct (m w). Qed.

Context `{SerdeJson, ToJson, Unicode, Host} (env : Env) (sp : SpineEnv).
Lemma seffects_step kind bead pane detail : SEffects P (emit_step env sp kind bead pane detail).
Proof. intros [w l]. unfold emit_step. cbn. by destruct (AckSpine.step _ _ _ _ _ _ _). Qed.
Lemma seffects_all kinds bead pane detail : SEffects P (emit_all env sp kinds bead pane detail).
Proof.
  induction kinds as [|k kinds IH]; cbn [emit_all]; [apply seffects_ret|].
  apply seffects_bind; [apply seffects_step|by intros _].
Qed.
End SpineEffects.
#[export] Hint Resolve seffects_ret seffects_step seffects_all : effects.

Section Pass.
Context (P : Effect → Prop) `{SerdeJson, ToJson, Unicode, Host} (env : Env) (sp : SpineEnv).
Context (Hshow : ∀ program bead, P (ERun program ["show"; bead; "--json"])) (Happend : ∀ path text, P (EAppend path text)).

Lemma persist_effects l dispatched : Effects P (persist_spine env sp l dispatched).
Proof. unfold persist_spine. effects_walk. Qed.
Lemma reconcile_each_effects candidates : SEffects P (reconcile_each env sp candidates).
Proof.
  induction candidates as [|[bead pane] candidates IH]; cbn [reconcile_each]; [apply seffects_ret|].
  apply seffects_bind; [apply seffects_lift, effects_checkpoint|]. intros _.
  apply seffects_bind; [apply seffects_lift; unfold load_close_state; effects_walk|]. intros [[status reason]|].
  - apply seffects_bind; [apply seffects_all|by intros _].
  - apply seffects_bind; [apply seffects_ret|by intros _].
Qed.
Lemma reconcile_effects tick : (∀ d ok, P (EBeat "SPINE_COMPLETIONS_RECORDED" d ok)) → Effects P (reconcile_completions env sp tick).
Proof.
  intros Hbeat w. unfold reconcile_completions. destruct (negb _); [reflexivity|].
  set (cs := candidates_from _ _ _). clearbody cs. destruct cs as [|c cs]; [reflexivity|].
  pose proof (reconcile_each_effects (c :: cs) (w, ledger_new)) as Hp. cbn [fst] in Hp.
  destruct (reconcile_each env sp (c :: cs) (w, ledger_new)) as [[w1 l] [u|e]]; cbn [fst] in *; [|exact Hp].
  etrans; [exact Hp|]. case_bool_decide; [reflexivity|].
  match goal with |- extends _ _ (?m w1).1 => assert (Effects P m) as He end; [|apply He].
  apply effects_bind; [apply persist_effects|]. intros _. effects_walk.
Qed.
End Pass.

(** ** What the pass looks at. *)

Lemma candidates_from_spec recorded found ls :
  (length found < MAX_BEADS_PER_TICK)%nat → NoDup (map fst found) → (∀ bp, bp ∈ found → bp.1 ∉ recorded) →
  let cs := candidates_from recorded found ls in
  (length cs <= MAX_BEADS_PER_TICK)%nat ∧ NoDup (map fst cs) ∧ (∀ bp, bp ∈ cs → bp.1 ∉ recorded) ∧
  ∀ bp, bp ∈ cs → bp ∈ found ∨ ∃ l, l ∈ ls ∧ candidate_of l = Some bp.
Proof.
  revert found. induction ls as [|l ls IH]; intros found Hlen Hnd Hrec; cbn [candidates_from].
  { split_and!; [lia|auto..]. }
  assert (∀ found, (length found < MAX_BEADS_PER_TICK)%nat → NoDup (map fst found) → (∀ bp, bp ∈ found → bp.1 ∉ recorded) →
    let cs := candidates_from recorded found ls in
    (length cs <= MAX_BEADS_PER_TICK)%nat ∧ NoDup (map fst cs) ∧ (∀ bp, bp ∈ cs → bp.1 ∉ recorded) ∧
    ∀ bp, bp ∈ cs → bp ∈ found ∨ ∃ l', l' ∈ l :: ls ∧ candidate_of l' = Some bp) as Hskip.
  { intros f H1 H2 H3. destruct (IH f H1 H2 H3) as (? & ? & ? & Hin). split_and!; [done..|].
    intros bp [?|(l' & ? & ?)]%Hin; [by left|right]. exists l'. split; [by right|done]. }
  destruct (candidate_of l) as [[b p]|] eqn:Hl; [|by apply Hskip].
  case_bool_decide as Hr; [by apply Hskip|]. case_bool_decide as Hf; [by apply Hskip|]. cbn [orb].
  assert (NoDup (map fst (app found [(b, p)])) ∧ ∀ bp, bp ∈ app found [(b, p)] → bp.1 ∉ recorded) as [Hnd' Hrec'].
  { split.
    - rewrite map_app. cbn. apply NoDup_app. split_and!; [done| |apply NoDup_singleton].
      intros x Hx ->%list_elem_of_singleton. done.
    - intros bp [?| ->%list_elem_of_singleton]%elem_of_app; [by apply Hrec|done]. }
  destruct (MAX_BEADS_PER_TICK <=? length (app found [(b, p)]))%nat eqn:Hmax.
  - split_and!; try done.
    + rewrite length_app. cbn [length]. lia.
    + intros bp [?| ->%list_elem_of_singleton]%elem_of_app; [by left|right]. exists l. split; [by left|done].
  - apply Nat.leb_gt in Hmax. destruct (IH _ Hmax Hnd' Hrec') as (? & ? & ? & Hin).
    split_and!; [done..|]. intros bp [[?| ->%list_elem_of_singleton]%elem_of_app|(l' & ? & ?)]%Hin; [by left|right|right].
    + exists l. split; [by left|done].
    + exists l'. split; [by right|done].
Qed.

Section Owed.
Context `{SerdeJson}.

(** The pass of one tick looks at six beads at most, each once, each of a dispatch row of
    the heartbeat, and at none whose close was recorded. *)
Theorem candidates_bounded spine heartbeat :
  let recorded := recorded_closures spine in
  let cs := candidates_from recorded [] (rev (lines heartbeat)) in
  (length cs <= 6)%nat ∧ NoDup (map fst cs) ∧ (∀ bead pane, (bead, pane) ∈ cs → bead ∉ recorded) ∧
  ∀ bead pane, (bead, pane) ∈ cs → ∃ l, l ∈ lines heartbeat ∧ candidate_of l = Some (bead, pane).
Proof.
  cbn zeta. destruct (candidates_from_spec (recorded_closures spine) [] (rev (lines heartbeat))) as (? & ? & Hr & Hin).
  { unfold MAX_BEADS_PER_TICK. cbn. lia. }
  { constructor. }
  { set_solver. }
  split_and!; [done..| |]; intros bead pane Hbp.
  - exact (Hr _ Hbp).
  - apply Hin in Hbp as [?%elem_of_nil|(l & Hl & Hc)]; [done|]. exists l. split; [|done].
    by apply list_elem_of_In, in_rev, list_elem_of_In.
Qed.

Lemma ungraded_row_is_no_closure line : is_kind ClosedWithoutGrade line = true → closure_of line = None.
Proof.
  unfold closure_of, is_kind. intros Hk%bool_decide_eq_true. destruct (is_empty (trim line)); [done|]. by rewrite Hk.
Qed.

(** A close without a grade is never counted as recorded: the same bead owes the same row
    at every tick. *)
Theorem ungraded_close_repeats spine bead pane reason :
  Forall (λ line, is_kind ClosedWithoutGrade line = true) (lines spine) →
  is_graded (trim_start (default "" reason)) = false →
  recorded_closures spine = [] ∧
  completion_kinds (MkPrior bead pane "closed" reason 0 (bool_decide (bead ∈ recorded_closures spine))) = [ClosedWithoutGrade].
Proof.
  intros Hall Hg. assert (recorded_closures spine = []) as Hr.
  { unfold recorded_closures. assert (omap closure_of (lines spine) = []) as ->; [|done].
    induction Hall as [|l ls Hl _ IH]; [done|]. cbn. by rewrite ungraded_row_is_no_closure. }
  split; [done|]. rewrite Hr. unfold completion_kinds. cbn [already_recorded pd_status pd_close_reason]. by rewrite Hg.
Qed.
End Owed.
