(* ===== verification/CellMatrix.v ===== *)
(** * One row of cells per dispatch

    ack-stage/src/cell_matrix.rs: what is known of a dispatch as seven named cells, each
    observed, absent or indeterminate, projected from the stage that assessed it.  The
    theorems say which stages a row calls confirmed, and which it calls started. *)

From stdpp Require Import base numbers list option strings pretty.
From Stdlib Require Import NArith ZArith Ascii Lia.
From S2P Require Import Prelude RustStr Json TickMonitor Receipt AckStage.

Definition CELL_NAMES : list string :=
  ["paneCreated"; "promptSubmitted"; "activityObserved"; "attemptMarker"; "independentVerify"; "beadClaimed"; "gradeObserved"].
Definition CELL_COUNT : nat := length CELL_NAMES.

Inductive CellState := Observed | CAbsent | CIndeterminate.
#[global] Instance cell_state_eq_dec : EqDecision CellState.
Proof. solve_decision. Defined.
Definition cell_str (c : CellState) : string :=
  match c with Observed => "OBSERVED" | CAbsent => "ABSENT" | CIndeterminate => "INDETERMINATE" end.
(** Unchecked is absent, never blank. *)
Definition from_check (checked observed indeterminate : bool) : CellState :=
  if negb checked then CAbsent else if indeterminate then CIndeterminate else if observed then Observed else CAbsent.

Inductive MatrixError := MatrixScanEmpty | IncompleteCellSet (missing : string).
Definition matrix_error_str (e : MatrixError) : string :=
  match e with
  | MatrixScanEmpty => "MATRIX_SCAN_EMPTY: zero dispatches is a typed state, not an all-ABSENT matrix"
  | IncompleteCellSet missing => "MATRIX_INCOMPLETE missing=" +:+ missing
  end.

Record DispatchFacts := MkFacts {
  f_dispatch_id : string; f_pane_id : string; f_bead_id : string;
  pane_created : CellState; prompt_submitted : CellState; f_activity_observed : CellState; attempt_marker : CellState;
  independent_verify : CellState; bead_claimed : CellState; grade_observed : CellState;
  f_transport : CellState; f_observation : CellState; f_composer : CellState }.
Record DispatchCellMatrix := MkMatrix {
  m_dispatch_id : string; m_pane_id : string; m_bead_id : string; cells : list CellState;
  m_transport : CellState; m_observation : CellState; m_composer : CellState }.

Definition project_activity (c : CellState) : CellState :=
  match c with Observed => Observed | CAbsent => CAbsent | CIndeterminate => CIndeterminate end.

Definition ROW_STATUS : string := "DISPATCH_CELL_MATRIX".
Definition from_facts (f : DispatchFacts) : result MatrixError DispatchCellMatrix :=
  if is_empty (trim (f_dispatch_id f)) then Err (IncompleteCellSet "dispatch_id")
  else
    let cs := [pane_created f; prompt_submitted f; project_activity (f_activity_observed f); attempt_marker f;
               independent_verify f; bead_claimed f; grade_observed f] in
    if negb (length cs =? CELL_COUNT)%nat then Err (IncompleteCellSet "cell_count")
    else Ok (MkMatrix (f_dispatch_id f) (f_pane_id f) (f_bead_id f) cs (f_transport f) (f_observation f) (f_composer f)).

Definition cell (m : DispatchCellMatrix) (name : string) : option CellState :=
  '(i, _) ← list_find (λ n, n = name) CELL_NAMES; cells m !! i.
Definition is_started (m : DispatchCellMatrix) : bool :=
  bool_decide (cells m !! 2%nat = Some Observed) && bool_decide (cells m !! 3%nat = Some Observed).
Definition is_row_confirmed (m : DispatchCellMatrix) : bool := bool_decide (cells m !! 4%nat = Some Observed).
Definition matrix_detail (m : DispatchCellMatrix) : string :=
  "dispatch_id=" +:+ m_dispatch_id m +:+ " pane=" +:+ m_pane_id m +:+ " bead=" +:+ m_bead_id m
  +:+ concat_chars (zip_with (λ name c, " " +:+ name +:+ "=" +:+ cell_str c) CELL_NAMES (cells m))
  +:+ " transport=" +:+ cell_str (m_transport m) +:+ " observation=" +:+ cell_str (m_observation m)
  +:+ " composer=" +:+ cell_str (m_composer m).
Definition scan_matrices (rows : list DispatchCellMatrix) : result MatrixError unit :=
  match rows with [] => Err MatrixScanEmpty | _ => Ok tt end.

(** ** Cells of a stage. *)

(** What the delivery alone says; an acknowledgement leaves it to the pane. *)
Definition delivery_activity (d : ReceiptVerdict) : option CellState :=
  match d with
  | ReceiptConfirmed _ _ _ _ => Some Observed
  | Indeterminate _ _ => Some CIndeterminate
  | Dead _ | NoReceipt _ _ => Some CAbsent
  | AckConfirmed _ _ => None
  end.
Definition activity_observed (post_send : option PostSendObservation) (stage : option AckStageResult) : CellState :=
  match stage ≫= (λ s, delivery_activity (delivery s)) with
  | Some c => c
  | None =>
      match post_send with
      | Some (PostPresent o) => match state o with Working _ => Observed | _ => CAbsent end
      | _ => CAbsent
      end
  end.

Definition verify_cell (s : AckStageResult) : CellState :=
  if is_confirmed s then Observed else if negb (supports_delivery_claim (transport s)) then CIndeterminate else CAbsent.
Definition observation_cell (d : ReceiptVerdict) : CellState :=
  match d with ReceiptConfirmed _ _ _ _ => Observed | Indeterminate _ _ => CIndeterminate | _ => CAbsent end.
Definition composer_cell (d : ReceiptVerdict) : CellState :=
  match d with ReceiptConfirmed _ _ _ true => Observed | _ => CAbsent end.
Definition attempt_cell (d : ReceiptVerdict) : CellState :=
  match d with
  | ReceiptConfirmed _ _ _ _ | AckConfirmed _ _ => Observed
  | Indeterminate _ _ => CIndeterminate
  | _ => CAbsent
  end.
Definition facts_from_stage (dispatch_id bead_id pane_id : string)
    (pane_present submitted claimed graded pending_marker : bool) (stage : option AckStageResult)
    (post_send : option PostSendObservation) : DispatchFacts :=
  let c f := match stage with Some s => f s | None => CAbsent end in
  MkFacts dispatch_id pane_id bead_id (from_check true pane_present false) (from_check true submitted false)
    (activity_observed post_send stage) (c (λ s, attempt_cell (delivery s))) (c verify_cell)
    (from_check true claimed false) (from_check true graded false)
    (c (λ _, Observed)) (c (λ s, observation_cell (delivery s))) (c (λ s, composer_cell (delivery s))).

(** ** Fixtures of the file. *)

Definition tonight_zero_of_27_facts : DispatchFacts :=
  MkFacts "fixture-tonight-0-of-27" "%9" "omp-orchestrator-eg0m" Observed Observed Observed CAbsent CAbsent Observed CAbsent
    CAbsent Observed CAbsent.
Definition send_success_no_arrival_facts : DispatchFacts :=
  MkFacts "fixture-cp-z42vu" "%4" "omp-orchestrator-cp-z42vu" Observed Observed CAbsent CAbsent CAbsent Observed CAbsent
    Observed CAbsent CAbsent.
Definition pending_marker_no_send_facts : DispatchFacts :=
  MkFacts "fixture-pending-no-send" "%4" "omp-orchestrator-cp-z42vu" Observed CAbsent CAbsent CAbsent CAbsent Observed CAbsent
    CAbsent CAbsent CAbsent.
Definition known_good_all_observed_facts : DispatchFacts :=
  MkFacts "fixture-known-good-all-observed" "%9" "omp-orchestrator-hx3n" Observed Observed Observed Observed Observed Observed
    Observed Observed Observed Observed.

Example tonight_is_not_started : (m ← from_facts tonight_zero_of_27_facts; Ok (is_started m)) = Ok false.
Proof. reflexivity. Qed.
Example all_observed_is_started : (m ← from_facts known_good_all_observed_facts; Ok (is_started m)) = Ok true.
Proof. reflexivity. Qed.

(** ** What a row says. *)

Section Row.
Context (id bead pane : string) (present submitted claimed graded marker : bool) (stage : option AckStageResult)
  (post : option PostSendObservation).
Notation facts := (facts_from_stage id bead pane present submitted claimed graded marker stage post).

(** A row is confirmed exactly when its stage is; and a confirmed stage was acknowledged
    over a transport that can prove delivery. *)
Theorem row_confirmed_iff m : from_facts facts = Ok m →
  is_row_confirmed m = true ↔
  ∃ s c, stage = Some s ∧ is_confirmed s = true ∧ ack_comment s = Some c ∧ supports_delivery_claim (transport s) = true.
Proof.
  unfold from_facts. destruct (is_empty _); [done|]. cbn [length CELL_COUNT CELL_NAMES Nat.eqb negb].
  intros [= <-]. unfold is_row_confirmed. rewrite bool_decide_eq_true. cbn. destruct stage as [s|].
  - unfold verify_cell. destruct (is_confirmed s) eqn:Hc.
    + split; [intros _|done]. unfold is_confirmed in Hc. rewrite !andb_true_iff in Hc.
      destruct Hc as [[[Hst Hack] Hdl] Hs]. destruct (ack_comment s) as [c|] eqn:Ha; [|done].
      exists s, c. split_and!; [done| |done..]. unfold is_confirmed. by rewrite Hst, Ha, Hdl, Hs.
    + split; [by destruct (supports_delivery_claim _)|]. intros (s' & c & [= <-] & Hn & _). congruence.
  - split; [done|]. by intros (s & c & ? & _).
Qed.
End Row.

(** The row of a dispatch whose pane was not looked at again: acknowledged, so confirmed and
    carrying the receiver's marker, and yet never started. *)
Theorem acknowledged_never_started id bead pane present submitted claimed graded marker s p c m :
  delivery s = AckConfirmed p c →
  from_facts (facts_from_stage id bead pane present submitted claimed graded marker (Some s) None) = Ok m →
  cell m "activityObserved" = Some CAbsent ∧ cell m "attemptMarker" = Some Observed ∧ is_started m = false.
Proof.
  unfold from_facts. intros Hd. destruct (is_empty _); [done|]. cbn [length CELL_COUNT CELL_NAMES Nat.eqb negb].
  intros [= <-]. unfold is_started, activity_observed. cbn [cells nth_error mbind option_bind project_activity]. cbn. rewrite Hd.
  split_and!; reflexivity.
Qed.

(** Of every stage the acknowledgement stage confirms, that is the delivery. *)
Lemma confirmed_is_acknowledged i : is_confirmed (assess i) = true → ∃ p c, delivery (assess i) = AckConfirmed p c.
Proof.
  unfold is_confirmed. rewrite !andb_true_iff. intros [[[_ Ha] Hd] Hs]. revert Ha Hd Hs. unfold assess.
  cbn [action ack_comment delivery transport].
  destruct (match_verdict_in_session _ _ _ _); intros Ha Hd Hs; try done. rewrite Hs. by eexists _, _.
Qed.
