(* ===== verification/Observe.v ===== *)
(** * What a cycle observes before it decides

    omp-orchestrator/src/resident.rs: the reading of the tick monitor's answer, of the
    project's scopes, of the plan's assembly and of the build volume, the sweep of finished
    panes, and the policy file.  The files and the [df] table are arguments; what is
    printed for an operator is not an effect here. *)

From stdpp Require Import base numbers list option strings pretty gmap.
From Stdlib Require Import NArith ZArith Ascii Lia SpecFloat.
From S2P Require Import Prelude RustStr Utf8 Json Pending Supervisor Packet Resident.

(** ** Evidence about the repository's conformance table. *)

Inductive ConformanceEvidence :=
  | EvCurrent (detail : string) | EvMissing (detail : string) | EvStale (detail : string) | EvUnavailable (detail : string).
Definition asupersync_conformance_evidence (r : result string Output) : ConformanceEvidence :=
  match r with
  | Err e => EvUnavailable (one_line_detail e)
  | Ok o =>
      let stdout := utf8_lossy (o_stdout o) in
      let detail := one_line_detail ("exit=" +:+ exit_label (o_code o) +:+ " stdout=" +:+ trim stdout
                      +:+ " stderr=" +:+ trim (utf8_lossy (o_stderr o))) in
      if contains stdout "reason=UNREADABLE" then EvMissing detail
      else if contains stdout "reason=STALE" then EvStale detail
      else if success o && contains stdout "ASUPERSYNC_CONFORMANCE_CURRENT" then EvCurrent detail
      else EvUnavailable detail
  end.

(** ** The project's scopes. *)

Inductive OmpoPsEvidence := Measured (project_scopes daemon_count : N) | Unmeasured (reason : string).
Section Ompo.
Context `{SerdeJson}.
Definition count_list {A} (l : list A) : N := N.of_nat (length l).
Definition scopes_of (data : Json) : option (list Json) := json_get "project_scopes" data ≫= as_array.
Definition daemons_of (scopes : list Json) : N :=
  foldr N.add 0%N (map count_list (omap (λ s, json_get "daemons" s ≫= as_array) scopes)).
Definition classify_ompo_ps_output (o : Output) : OmpoPsEvidence :=
  if negb (success o) then
    Unmeasured (if contains (utf8_lossy (o_stdout o)) "UAD_UNKNOWN_VERB" || contains (utf8_lossy (o_stderr o)) "UAD_UNKNOWN_VERB"
                then "old_ompo_unknown_verb" else "ompo_ps_command_failed")
  else match from_str (o_stdout o) with
       | None => Unmeasured "ompo_ps_invalid_json"
       | Some value =>
           let data := default value (json_get "data" value) in
           let or_else (x y : option N) := match x with Some n => Some n | None => y end in
           match or_else (json_get "project_scope_count" data ≫= as_u64) (count_list <$> scopes_of data),
                 or_else (json_get "daemon_row_count" data ≫= as_u64) (daemons_of <$> scopes_of data) with
           | Some scopes, Some daemons => Measured scopes daemons
           | _, _ => Unmeasured "ompo_ps_invalid_shape"
           end
       end.
End Ompo.

(** ** The tick monitor's panes. *)

Section Monitor.
Context `{SerdeJson, Host}.

Definition string_set (v : option Json) : list string := btree_set (omap as_str (default [] (v ≫= as_array))).
Definition or_unproven (o : option Json) : string := default "UNPROVEN" (o ≫= as_str).
Definition pane_name (row : Json) : option string :=
  match json_get "pane" row with Some v => Some v | None => json_get "pane_id" row end ≫= as_str.
Definition observed_pane (dispatchable free : list string) (row : Json) : result string PaneObservation :=
  pane ← ok_or (pane_name row) "MONITOR_BLIND pane row has no pane id";
  let state := or_unproven (json_get "state" row) in
  let liveness := or_unproven (json_get "liveness" row) in
  let d := bool_decide (pane ∈ dispatchable) in
  Ok (MkPane pane state liveness d (d || bool_decide (pane ∈ free) || bool_decide (state = "IDLE"))
        (existsb (λ x, bool_decide (liveness = x)) ["LIVE"; "WORKING"]
         || existsb (λ x, bool_decide (state = x)) ["WORKING"; "DIALOG"])
        (bool_decide (state = "DIALOG"))).
Fixpoint observed_panes (dispatchable free : list string) (rows : list Json) : result string (list PaneObservation) :=
  match rows with
  | [] => Ok []
  | row :: rows => p ← observed_pane dispatchable free row; ps ← observed_panes dispatchable free rows; Ok (p :: ps)
  end.
Definition idle_set (key : string) (value : Json) : list string :=
  string_set (json_get "idle_panes" value ≫= json_get key).
Definition parse_observation (bytes : string) (census : option GateCensus) : result string Observation :=
  value ← ok_or (from_str bytes) ("MONITOR_BLIND invalid tick-monitor JSON: " +:+ host_json_error bytes);
  rows ← (ok_or ((json_get "omp_lifecycle" value ≫= json_get "panes") ≫= as_array)
            "MONITOR_BLIND missing omp_lifecycle.panes" : result string (list Json));
  if bool_decide (length rows = 0%nat) then Err "MONITOR_BLIND tick-monitor returned zero panes"
  else
    ps ← observed_panes (idle_set "dispatchable" value) (idle_set "free_capacity" value) rows;
    Ok (MkObservation ps (MkQueue 0 true) census).
End Monitor.

(** ** The plan and its sections. *)

Inductive DocsVerdict := Fresh | Stale (why : string) | NotApplicable (why : string).
(** An entry of the sections' directory: its name where that is text, its content where
    that could be read. *)
Definition DocEntry : Type := option string * option string.
Definition digit_first (name : string) : bool := match name with String c _ => is_ascii_digit c | EmptyString => false end.
Definition section_of (e : DocEntry) : option (string * string) :=
  name ← e.1; if ends_with name ".md" && digit_first name then text ← e.2; Some (name, text) else None.
Definition last_chars (n : nat) (s : string) : string := concat_chars (rev (take n (rev (chars s)))).
(** The stable end of a section, looked up in the assembly. *)
Definition probe (section : string) : string := trim (last_chars 240 (trim section)).
Definition assembled (assembly section : string) : bool :=
  let p := probe section in is_empty p || contains assembly p.
Definition bool_word (b : bool) : string := if b then "true" else "false".

Section Docs.
Context (plan_path dir_path : string).
Definition docs_are_stale (assembly : option string) (dir : option (list DocEntry)) : result string DocsVerdict :=
  let sections := omap section_of (default [] dir) in
  match sections, assembly with
  | [], Some _ => Err ("DOCS_STALE assembly present at " +:+ plan_path +:+ " but zero numbered sections in " +:+ dir_path
                       +:+ " — an empty scan set cannot distinguish fresh from broken")
  | [], None => Ok (NotApplicable ("no assembly and no numbered sections (dir_readable="
                       +:+ bool_word (bool_decide (is_Some dir)) +:+ " plan=" +:+ plan_path +:+ " sections_dir=" +:+ dir_path
                       +:+ ") — this repo does not assemble a plan"))
  | _, None => Ok (Stale ("assembly absent path=" +:+ plan_path +:+ " while " +:+ show_N (count_list sections)
                       +:+ " numbered sections exist in " +:+ dir_path))
  | _, Some assembly =>
      let missing := map fst (List.filter (λ s, negb (assembled assembly s.2)) sections) in
      if bool_decide (length missing = 0%nat) then Ok Fresh
      else Ok (Stale (show_N (count_list missing) +:+ " of " +:+ show_N (count_list sections)
                 +:+ " sections are not in the assembly: " +:+ join "," missing))
  end.
End Docs.
Definition degraded_policy_authorized `{SerdeJson} (decisions : option string) : bool :=
  match decisions with Some text => authority_allows_degraded text | None => false end.

(** ** The volume a build would write to. *)

(** [Path::parent], of a path without [.] components. *)
Definition parent (path : string) : option string :=
  let t := trim_end_matches (is_char "/") path in
  if is_empty t then None
  else match rsplit_once "/" t with
       | None => Some EmptyString
       | Some (d, _) => let d := trim_end_matches (is_char "/") d in Some (if is_empty d then "/" else d)
       end.
(** The [target-dir] of the [build] table. *)
Fixpoint target_dir_in (in_build : bool) (ls : list string) : option string :=
  match ls with
  | [] => None
  | raw :: ls =>
      let line := trim raw in
      if starts_with line "#" then target_dir_in in_build ls
      else if starts_with line "[" then target_dir_in (bool_decide (line = "[build]")) ls
      else if negb in_build then target_dir_in in_build ls
      else match strip_prefix "target-dir" line ≫= split_once "=" with
           | None => target_dir_in in_build ls
           | Some (_, v) =>
               let v := trim_matches (is_char "'") (trim_matches (is_char "034") (trim v)) in
               if is_empty v then target_dir_in in_build ls else Some v
           end
  end.
(** The environment first, then the repository's file, then the home's. *)
Definition resolve_target_dir_with_env (repo : string) (env_override repo_config home_config : option string) : string :=
  match env_override with
  | Some v => v
  | None =>
      match find_map (λ c, c ≫= λ text, target_dir_in false (lines text)) [repo_config; home_config] with
      | Some v => v
      | None => repo +:+ "/target"
      end
  end.

Inductive DfOutcome := DfCompleted (stdout : string) | DfTimedOut | DfUnspawned (error : string).
Definition DF_DEADLINE_SECS : N := 30.
Fixpoint existing_ancestor (fuel : nat) (exists_ : string → bool) (path : string) : option string :=
  if exists_ path then Some path
  else match fuel with
       | 0%nat => None
       | S fuel => p ← parent path; existing_ancestor fuel exists_ p
       end.

Definition f64_div (a b : spec_float) : spec_float := SFdiv 53 1024 a b.
Definition f64_min (a b : spec_float) : spec_float := if SFltb a b then a else b.
Definition f64_max (a b : spec_float) : spec_float := if SFltb a b then b else a.
Definition f64_of_u64 (n : N) : spec_float := f64_of_Z (Z.of_N n).
Definition f64_lit (n d : Z) : spec_float := f64_div (f64_of_Z n) (f64_of_Z d).
Definition HEADROOM_CAP_GIB : spec_float := f64_of_Z 16.
Definition ABSOLUTE_MIN_GIB : spec_float := f64_of_Z 1.
Definition gib_of (kb : N) : spec_float := f64_div (f64_div (f64_of_u64 kb) (f64_of_Z 1024)) (f64_of_Z 1024).
Definition required_gib (total_kb : N) : spec_float :=
  f64_max (f64_min (SFmul 53 1024 (f64_lit 8 100) (gib_of total_kb)) HEADROOM_CAP_GIB) ABSOLUTE_MIN_GIB.

Section Disk.
(** [{:.n}] of a float and [{:?}] of a text. *)
Context (fixed : nat → spec_float → string) (debug_str : string → string).
Definition disk_floor_verdict (total_kb avail_kb : N) : option string :=
  if SFltb (gib_of avail_kb) (required_gib total_kb) then
    Some ("free=" +:+ fixed 2 (gib_of avail_kb) +:+ "GiB ("
      +:+ fixed 1 (SFmul 53 1024 (f64_div (f64_of_u64 avail_kb) (f64_of_u64 total_kb)) (f64_of_Z 100))
      +:+ "%) below floor " +:+ fixed 2 (required_gib total_kb) +:+ "GiB (8% of " +:+ fixed 0 (gib_of total_kb)
      +:+ "GiB, capped at " +:+ fixed 0 HEADROOM_CAP_GIB +:+ "GiB, min " +:+ fixed 0 ABSOLUTE_MIN_GIB
      +:+ "GiB); a build here fails as a LINKER error, not as disk-full")
  else None.
Definition df_row (probe text : string) : result string (N * N) :=
  line ← ok_or (lines text !! 1%nat) ("DISK_PRESSURE df produced no data row for " +:+ probe
           +:+ " — an unreadable volume is a FINDING, never a pass");
  let f := split_whitespace line in
  match (f !! 1%nat) ≫= parse_u64, (f !! 3%nat) ≫= parse_u64 with
  | Some total, Some avail => Ok (total, avail)
  | _, _ => Err ("DISK_PRESSURE could not parse df row: " +:+ debug_str line)
  end.
Definition disk_pressure (exists_ : string → bool) (df : string → DfOutcome) (target : string)
    : result string (option string) :=
  match existing_ancestor (String.length target + 1) exists_ target with
  | None => Ok None
  | Some probe =>
      match df probe with
      | DfTimedOut => Err ("DISK_PRESSURE df TIMED_OUT after " +:+ show_N DF_DEADLINE_SECS +:+ "s on " +:+ probe
          +:+ " — process group signalled. This is NOT a capacity verdict: statfs measured 78ms healthy, so a timeout means a"
          +:+ " WEDGED MOUNT and the free space is UNKNOWN, never zero and never fine")
      | DfUnspawned e => Err ("DISK_PRESSURE df failed to spawn: " +:+ e)
      | DfCompleted text =>
          '(total, avail) ← df_row probe (utf8_lossy text);
          if (total =? 0)%N then Err "DISK_PRESSURE df reported a zero-size volume"
          else Ok ((λ why, "volume=" +:+ probe +:+ " " +:+ why) <$> disk_floor_verdict total avail)
      end
  end.
End Disk.

(** A percentage of a large volume is no floor: 58 GiB of 926 pass, 15 of 926 do not, and a
    small volume needs one. *)
Example disk_floor_is_capped :
  let pass t a := bool_decide (disk_floor_verdict (λ _ _, "") (t * 1048576) (a * 1048576) = None) in
  (pass 926 58, pass 926 16, pass 926 15, pass 9 1, pass 100 8, pass 100 7)%N = (true, true, false, true, true, false).
Proof. vm_compute. reflexivity. Qed.

(** ** The policy file. *)

Record DispatchPolicy := MkPolicy {
  dp_interval_secs : N; dp_command_timeout_secs : N; dp_receipt_timeout_secs : N; dp_receipt_poll_ms : N;
  dp_pending_max_age_secs : N; dp_mail_timeout_secs : N; dp_origin : string }.
Definition policy_defaults : DispatchPolicy := MkPolicy 90 30 90 250 600 10 "defaults".
Definition set_policy (key : string) (v : N) (p : DispatchPolicy) : DispatchPolicy :=
  let 'MkPolicy i c r o a m g := p in
  if bool_decide (key = "interval_secs") then MkPolicy v c r o a m g
  else if bool_decide (key = "command_timeout_secs") then MkPolicy i v r o a m g
  else if bool_decide (key = "receipt_timeout_secs") then MkPolicy i c v o a m g
  else if bool_decide (key = "receipt_poll_ms") then MkPolicy i c r v a m g
  else if bool_decide (key = "pending_dispatch_max_age_secs") then MkPolicy i c r o v m g
  else if bool_decide (key = "mail_request_timeout_secs") then MkPolicy i c r o a v g
  else p.
Definition with_origin (origin : string) (p : DispatchPolicy) : DispatchPolicy :=
  let 'MkPolicy i c r o a m _ := p in MkPolicy i c r o a m origin.
(** The key and the value of a line; [Some (_, None)] when the value is no number. *)
Definition policy_line (raw : string) : option (string * option N) :=
  let line := trim raw in
  if is_empty line || starts_with line "#" then None
  else '(key, v) ← split_once "=" line; Some (trim key, parse_u64 (trim_matches (is_char "034") (trim v))).
Fixpoint policy_lines (p : DispatchPolicy) (parsed : bool) (ls : list string) : DispatchPolicy :=
  match ls with
  | [] => if parsed then p else policy_defaults
  | l :: ls =>
      match policy_line l with
      | None => policy_lines p parsed ls
      | Some (_, None) => with_origin "malformed-fallback" policy_defaults
      | Some (key, Some v) => policy_lines (set_policy key v p) true ls
      end
  end.
(** The text between the first and the second occurrence of [sep]. *)
Definition split_second (sep s : string) : option string :=
  '(_, rest) ← split_once sep s; Some (match split_once sep rest with Some (a, _) => a | None => rest end).
Definition dispatch_section (text : string) : option string :=
  s ← split_second "[dispatch]" text; Some (match split_once "[" s with Some (a, _) => a | None => s end).
Definition parse_dispatch_policy (text : option string) : DispatchPolicy :=
  match text ≫= dispatch_section with
  | None => policy_defaults
  | Some section => policy_lines (with_origin "config.toml" policy_defaults) false (lines section)
  end.
Example policy_of_file :
  parse_dispatch_policy (Some ("[dispatch]" +:+ lf_str +:+ "interval_secs = 45" +:+ lf_str +:+ "receipt_poll_ms = 100" +:+ lf_str +:+ "[x]"))
  = MkPolicy 45 30 90 100 600 10 "config.toml" ∧
  parse_dispatch_policy (Some ("[dispatch]" +:+ lf_str +:+ "interval_secs = soon")) = with_origin "malformed-fallback" policy_defaults.
Proof. split; reflexivity. Qed.

(** ** The commands of an observation. *)

Record CycleConfig := MkCycleConfig {
  cc_tick_monitor : string; cc_monitor_state : string; cc_bv : string; cc_exclude_panes : list string;
  cc_uds_binary : option string; cc_uds_registry : option string; cc_repo_name : string; cc_max_ticks : option N }.

Section Commands.
Context `{SerdeJson, ToJson, Unicode, Host} (env : Env) (cc : CycleConfig).
Notation cfg := (e_cfg env).

Definition observe_conformance : RM ConformanceEvidence :=
  r ← attempt (invoke env "asupersync-conformance" ["--repo"; cf_repo cfg; "--check"; "ASUPERSYNC-CONFORMANCE.md"]);
  mret (asupersync_conformance_evidence r).

Definition observe_ompo_ps : RM OmpoPsEvidence :=
  r ← attempt (invoke env (rc_ompo cfg) ["ps"; "--repo"; cf_repo cfg; "--json"]);
  match r with
  | Ok o => mret (classify_ompo_ps_output o)
  | Err e =>
      if starts_with e "CANCELLED supervisor context" then stm_fail e
      else mret (Unmeasured (if starts_with e "TIMEOUT " then "ompo_ps_timeout" else "ompo_binary_unavailable"))
  end.

Definition monitor_args : list string :=
  app ["observe"; "--session"; cf_session cfg; "--repo"; cf_repo cfg; "--state"; cc_monitor_state cc]
    (List.concat (map (λ p, ["--exclude-pane"; p]) (cc_exclude_panes cc))).
Definition without_panes (ids : list string) (o : Observation) : Observation :=
  MkObservation (List.filter (λ p, negb (bool_decide (pane_id p ∈ ids))) (panes o)) (queue o) (gate_census o).
(** The monitor's answer, the excluded panes left out. *)
Definition observe_panes (census : list Effect → option GateCensus) : RM Observation :=
  bytes ← run_ok env (cc_tick_monitor cc) (cc_tick_monitor cc) monitor_args;
  t ← trace_of;
  o ← stm_lift (parse_observation bytes (census t));
  mret (without_panes (cc_exclude_panes cc) o).

Definition reaper_args_for (repo session : string) : list string := ["--repo"; repo; "--session"; session].
Definition finished_pane_reaper_args : list string := reaper_args_for (cf_repo cfg) (cf_session cfg).
Definition run_finished_pane_sweep : RM string :=
  bytes ← run_ok env (rc_reap cfg) (rc_reap cfg) finished_pane_reaper_args;
  let summary := trim (utf8_lossy bytes) in
  if is_empty summary then stm_fail ("REAP_FINISHED_PANES_EMPTY program=" +:+ rc_reap cfg) else mret summary.
End Commands.

(** ** What an observation says. *)

Section Facts.
Context `{SerdeJson, Host}.

Lemma observed_panes_ok d f rows ps :
  observed_panes d f rows = Ok ps → Forall2 (λ row p, observed_pane d f row = Ok p) rows ps.
Proof.
  revert ps. induction rows as [|row rows IH]; intros ps; cbn.
  - intros [= <-]. constructor.
  - intros (p & Hp & (l & Hl & [= <-])%bind_ok)%bind_ok. constructor; [done|]. by apply IH.
Qed.

Lemma string_set_elem v s : s ∈ string_set v ↔ ∃ l, (v ≫= as_array) = Some l ∧ JString s ∈ l.
Proof.
  unfold string_set. rewrite elem_of_btree_set, list_elem_of_omap. destruct (v ≫= as_array) as [l|]; cbn [default from_option].
  - split.
    + intros (x & Hx & Hs). exists l. split; [done|]. destruct x; cbn in Hs; try done. by simplify_eq.
    + intros (l' & [= <-] & Hin). by exists (JString s).
  - split; [|by intros (l & ? & _)]. intros (x & Hx%elem_of_nil & _). done.
Qed.

(** What the monitor's answer is read as: every pane is a row of the answer in its order,
    at least one; a pane is dispatchable exactly when the answer's own list says so, a
    dispatchable pane is capacity, and a dialog is working and awaits a human at once.
    The queue is not known yet, and the census is the caller's. *)
Theorem observation_reads_monitor bytes census o :
  parse_observation bytes census = Ok o →
  panes o ≠ [] ∧ ready_count (queue o) = 0%N ∧ gate_census o = census ∧
  ∃ value rows, from_str bytes = Some value ∧
    Forall2 (λ row p, pane_name row = Some (pane_id p)) rows (panes o) ∧
    ∀ p, p ∈ panes o →
      (is_dispatchable p = true ↔ ∃ l, (json_get "idle_panes" value ≫= json_get "dispatchable") ≫= as_array = Some l ∧
                                        JString (pane_id p) ∈ l) ∧
      (is_dispatchable p = true → is_free_capacity p = true) ∧
      (awaits_human p = true → is_working p = true).
Proof.
  unfold parse_observation. intros (value & Hv%ok_or_ok & (rows & _ & Hr)%bind_ok)%bind_ok.
  case_bool_decide as Hne; [done|]. apply bind_ok in Hr as (ps & Hps%observed_panes_ok & [= <-]). cbn [panes queue gate_census].
  split_and!; [|done..|].
  { intros ->. apply Hne. by apply Forall2_nil_inv_r in Hps as ->. }
  exists value, rows. split_and!; [done| |].
  - eapply Forall2_impl; [exact Hps|]. intros row p (n & Hn%ok_or_ok & [= <-])%bind_ok. done.
  - intros p Hp. apply list_elem_of_lookup in Hp as (i & Hi).
    destruct (Forall2_lookup_r _ _ _ _ _ Hps Hi) as (row & _ & (n & _ & [= <-])%bind_ok). cbn.
    split_and!; [rewrite bool_decide_eq_true; apply string_set_elem|by intros ->|].
    intros Hd%bool_decide_eq_true. rewrite Hd. cbn. by rewrite !orb_true_r.
Qed.

(** The plan is fresh exactly when it has sections and the end of each one, where it has
    any, is in the assembly. *)
Theorem docs_fresh_iff plan dir_path assembly dir :
  docs_are_stale plan dir_path assembly dir = Ok Fresh ↔
  ∃ text, assembly = Some text ∧ omap section_of (default [] dir) ≠ [] ∧
    ∀ name s, (name, s) ∈ omap section_of (default [] dir) → probe s = "" ∨ contains text (probe s) = true.
Proof.
  unfold docs_are_stale. cbv zeta. destruct (omap _ _) as [|s0 ss] eqn:Hs.
  { split; [by destruct assembly|]. by intros (? & _ & ? & _). }
  destruct assembly as [text|]; [|split; [done|by intros (? & ? & _)]].
  set (l := s0 :: ss). assert (∀ s, negb (assembled text s) = false ↔ probe s = "" ∨ contains text (probe s) = true) as Hp.
  { intros s. unfold assembled. cbv zeta. rewrite negb_false_iff, orb_true_iff.
    destruct (probe s); cbn [is_empty]; (split; intros [?|?]; [by left|by right|by left|by right]) || (split; intros [?|?]; [done|by right|done|by right]). }
  case_bool_decide as Hm.
  - split; [intros _|done]. exists text. split_and!; [done..|]. intros name s Hin. apply Hp.
    destruct (negb (assembled text s)) eqn:Ha; [|done]. rewrite length_map in Hm. apply nil_length_inv in Hm.
    assert ((name, s) ∈ List.filter (λ x, negb (assembled text x.2)) l) as Hf
      by (apply list_elem_of_In, filter_In; split; [by apply list_elem_of_In|done]).
    rewrite Hm in Hf. by apply elem_of_nil in Hf.
  - split; [done|]. intros (t & [= <-] & _ & Hall). destruct Hm. rewrite length_map.
    destruct (List.filter _ l) as [|[n s] k] eqn:Hf; [done|].
    assert (In (n, s) (List.filter (λ x, negb (assembled text x.2)) l)) as Hin by (rewrite Hf; by left).
    apply filter_In in Hin as [Hin Hn]. apply list_elem_of_In, Hall, Hp in Hin. cbn in Hn. congruence.
Qed.
End Facts.
