(* ===== verification/PeerGate.v ===== *)
(** * Grading comes before new work

    omp-orchestrator/src/resident.rs: the gate that offers a receiver-verified bead to an
    idle peer before the supervisor dispatches anything new, and the command that records
    the grader in the tracker and prints the packet it is handed.  The tracker's export is
    what the environment answers for it; the lifecycle ledger is the process's own file. *)

From stdpp Require Import base numbers list option strings pretty gmap.
From Stdlib Require Import NArith ZArith Ascii Lia.
From S2P Require Import Prelude RustStr Order Utf8 Json DecisionLedger ClaimFence Lifecycle LifeLedger Pending QueueSelect Supervisor AckStage Packet.
From S2P Require Import Activity Resident Preflight Observe.

Record PeerGradeClaim := MkPeerClaim {
  pg_bead : string; pg_receiver_pane : string; pg_grader_pane : string; pg_grader_assignee : string }.
Record PeerGradeSkip := MkPeerSkip { sk_candidates : N; sk_panes : N; sk_reason : string }.
Inductive PeerGradeGate := Claimed (c : PeerGradeClaim) | NoCandidate | Skipped (s : PeerGradeSkip).

Definition ledger_detail (s : PeerGradeSkip) : string :=
  "candidate_count=" +:+ show_N (sk_candidates s) +:+ " observed_panes=" +:+ show_N (sk_panes s) +:+ " " +:+ sk_reason s
  +:+ " next_action=continue-ranked-dispatch".
Definition refusal_line (s : PeerGradeSkip) : string :=
  "PEER_GRADE_SKIPPED typed_outcome=selection_refused candidate_count=" +:+ show_N (sk_candidates s) +:+ " " +:+ sk_reason s.

Definition peer_grade_error_detail (e : AssignGradeError) : string :=
  match e with
  | EmptyObservation => "reason=empty_observation"
  | ObserverPaneUnresolved => "reason=observer_pane_unresolved"
  | NoEligibleGrader reason => "reason=" +:+ reason
  | GraderCarryingOwnDispatch p l w =>
      "reason=grader_carrying_own_dispatch pane=" +:+ p +:+ " liveness=" +:+ l +:+ " is_working=" +:+ show_bool w
  | GraderIdentityUnresolved d => "reason=grader_identity_unresolved detail=" +:+ d
  | AgJsonl d => "reason=tracker_unreadable detail=" +:+ d
  end.

Definition refuse_placeholder_identity (field value : string) : result string unit :=
  if placeholder value then Err ("PEER_GRADING_REFUSED reason=placeholder_identity field=" +:+ field +:+ " value=" +:+ value) else Ok tt.

Definition observed_of (p : PaneObservation) : ObservedPane :=
  MkObserved (pane_id p) (pane_liveness p) (is_dispatchable p) (is_working p).
Definition candidate_bead (c : ReceiverVerifiedCandidate) : string := id_bead (ca_identity c).
Definition candidate_pane (c : ReceiverVerifiedCandidate) : string := Lifecycle.pane (id_target (ca_identity c)).

Section Gate.
Context `{SerdeJson, ToJson, Unicode, BrShowDecode, Host} (env : Env) (tracker : list Effect → result string string)
  (ledger_path : string).
Notation cfg := (e_cfg env).

(** The export's lines of these beads. *)
Definition names_one_of (ids : list string) (line : string) : bool :=
  match from_str line ≫= λ row, json_get "id" row ≫= as_str with Some id => bool_decide (id ∈ ids) | None => false end.
Definition candidate_lines (ids : list string) (text : string) : string :=
  join lf_str (List.filter (names_one_of ids) (lines text)).
Definition read_ledger_text (fault : option string) (file : option string) : result string string :=
  match fault, file with
  | None, Some text => Ok text
  | e, _ => Err (default "No such file or directory (os error 2)" e)
  end.

(** The panes the selection may choose from: all of them, or the one that was named. *)
Definition selectable (preferred : option string) (ps : list ObservedPane) : result string (list ObservedPane) :=
  match preferred with
  | None => Ok ps
  | Some p =>
      if existsb (λ o, bool_decide (ob_pane o = p) && ob_dispatchable o) ps
      then Ok (List.filter (λ o, bool_decide (ob_pane o = p)) ps)
      else Err ("PEER_GRADING_REFUSED grader_pane=" +:+ p +:+ " reason=preferred_grader_not_idle")
  end.
Definition select_grader (preferred : option string) (observer : string) (ps : list ObservedPane) (jsonl ledger : string) :=
  match preferred with
  | Some p => assign_peer_grade_for_named_grader host_json_error observer p ps jsonl ledger
  | None => assign_peer_grade_with_ledger host_json_error observer ps jsonl ledger
  end.
Definition self_grade (preferred : option string) (e : AssignGradeError) : option string :=
  match preferred, e with
  | Some p, NoEligibleGrader reason => if bool_decide (reason = "no_distinct_idle_peer") then Some p else None
  | _, _ => None
  end.

Definition claim_of (cs : list ReceiverVerifiedCandidate) (a : GradeAssignment) : result string PeerGradeClaim :=
  c ← ok_or (find_first (λ c, bool_decide (candidate_bead c = as_bead a)) cs)
        ("PEER_GRADING_LEDGER_UNREADABLE bead=" +:+ as_bead a +:+ " reason=assignment_not_receiver_verified");
  _ ← refuse_placeholder_identity "bead" (as_bead a);
  _ ← refuse_placeholder_identity "receiver_pane" (candidate_pane c);
  _ ← refuse_placeholder_identity "grader_pane" (as_grader a);
  Ok (MkPeerClaim (as_bead a) (candidate_pane c) (as_grader a) (QueueSelect.as_assignee a)).

Definition gate_peer_grading_inner (o : Observation) (tick : N) (preferred : option string) (observer : string)
    : RM PeerGradeGate :=
  t ← trace_of; w ← stm_get;
  cs ← stm_lift (map_err (λ e, "PEER_GRADING_LEDGER_UNREADABLE error=" +:+ lf_error_display e)
         (receiver_verified_candidates (e_ledger_fault env t) (r_ledger w) (tracker t)));
  match cs with
  | [] =>
      _ ← beat env tick "PEER_GRADING_LEDGER_EMPTY"
            "reason=no_receiver_verified_candidate next_action=continue-ranked-dispatch";
      mret NoCandidate
  | first :: _ =>
      text ← stm_lift (map_err (λ e, "PEER_GRADING_LEDGER_UNREADABLE path=" +:+ cf_repo cfg +:+ "/.beads/issues.jsonl error=" +:+ e)
               (tracker t));
      let jsonl := candidate_lines (map candidate_bead cs) text in
      _ ← stm_refuse (is_empty jsonl) "PEER_GRADING_LEDGER_UNREADABLE reason=receiver_verified_tracker_row_missing";
      ledger ← stm_lift (map_err (λ e, "PEER_GRADING_LEDGER_UNREADABLE path=" +:+ ledger_path +:+ " error=" +:+ e)
                 (read_ledger_text (e_ledger_fault env t) (r_ledger w)));
      ps ← stm_lift (selectable preferred (map observed_of (panes o)));
      match select_grader preferred observer ps jsonl ledger with
      | Ok a => c ← stm_lift (claim_of cs a); mret (Claimed c)
      | Err e =>
          match self_grade preferred e with
          | Some p => stm_fail ("PEER_GRADING_REFUSED bead=" +:+ candidate_bead first +:+ " grader_pane=" +:+ p +:+ " reason=self_grade")
          | None =>
              let s := MkPeerSkip (count_list cs) (count_list ps) (peer_grade_error_detail e) in
              _ ← beat env tick "PEER_GRADING_SKIPPED" (ledger_detail s); mret (Skipped s)
          end
      end
  end.
Definition ORCHESTRATOR : string := "__orchestrator__".
Definition gate_peer_grading (o : Observation) (tick : N) : RM PeerGradeGate :=
  gate_peer_grading_inner o tick None ORCHESTRATOR.
Definition gate_peer_grading_for_pane (o : Observation) (tick : N) (grader_pane : string) : RM PeerGradeGate :=
  gate_peer_grading_inner o tick (Some grader_pane) ORCHESTRATOR.

(** ** The command of an observer. *)

Inductive PeerGradeCommandOutcome :=
  | CmdClaimed (c : PeerGradeClaim) (packet : string) | ActivePeerGrade | CmdNoCandidate | CmdSkipped (s : PeerGradeSkip).
Definition peer_grade_outcome_wire (o : PeerGradeCommandOutcome) : string :=
  match o with
  | CmdClaimed _ _ => "PEER_GRADE_CLAIMED" | ActivePeerGrade => "PEER_GRADE_ACTIVE" | CmdNoCandidate => "PEER_GRADE_EMPTY"
  | CmdSkipped _ => "PEER_GRADE_SKIPPED"
  end.
(** The exit, and what is printed: the claim line and the packet, or the refusal. *)
Definition peer_grade_command_exit (o : PeerGradeCommandOutcome) : N * string :=
  match o with
  | CmdClaimed c packet =>
      (0, peer_grade_outcome_wire o +:+ " bead=" +:+ pg_bead c +:+ " receiver_pane=" +:+ pg_receiver_pane c
          +:+ " grader_pane=" +:+ pg_grader_pane c +:+ " experiment=observer-requested" +:+ lf_str +:+ packet)
  | ActivePeerGrade => (2, "PEER_GRADING_REFUSED reason=active_peer_grade")
  | CmdNoCandidate => (2, "PEER_GRADE_EMPTY typed_outcome=no_receiver_verified_candidate")
  | CmdSkipped s => (2, refusal_line s)
  end%N.

Definition assign_args (c : PeerGradeClaim) : list string := ["update"; pg_bead c; "--assignee"; pg_grader_assignee c].
Definition record_grader_assignment (c : PeerGradeClaim) : RM unit :=
  let failed rest := "GRADE_CLAIM_FAILED bead=" +:+ pg_bead c +:+ " grader_pane=" +:+ pg_grader_pane c +:+ " reason=" +:+ rest in
  o ← rename_error (λ e, failed ("RECORD_COMMAND_FAILED error=" +:+ e)) (invoke env (rc_br cfg) (assign_args c));
  _ ← stm_lift (map_err (λ e, failed ("TRACKER_REFUSED detail=" +:+ e)) (require_success (rc_br cfg) o));
  mret tt.
Definition render_peer_grade_packet (c : PeerGradeClaim) (observer : string) : RM string :=
  snapshot ← load_bead_snapshot env (pg_bead c);
  t ← trace_of;
  stm_lift (map_err (λ e, "GRADE_PACKET_REFUSED bead=" +:+ pg_bead c +:+ " grader_pane=" +:+ pg_grader_pane c
                          +:+ " observer_pane=" +:+ observer +:+ " code=" +:+ packet_error_code e
                          +:+ " error=" +:+ packet_error_display e)
              (render_grading_packet (e_issues env t) snapshot (cf_repo cfg) (pg_grader_pane c) observer)).
Definition run_peer_grade_claim (cc : CycleConfig) (census : list Effect → GateCensus) (observer : string)
    (preferred : option string) : RM PeerGradeCommandOutcome :=
  o ← observe_panes env cc (λ t, Some (census t));
  now ← now_unix env;
  gate ← match preferred with
         | Some p => gate_peer_grading_for_pane o now p
         | None => gate_peer_grading_inner o now None observer
         end;
  match gate with
  | Claimed c =>
      if bool_decide (pg_bead c = "<active-peer-grade>") then mret ActivePeerGrade
      else _ ← record_grader_assignment c; packet ← render_peer_grade_packet c observer; mret (CmdClaimed c packet)
  | NoCandidate => mret CmdNoCandidate
  | Skipped s => mret (CmdSkipped s)
  end.
End Gate.

(** ** The receiver of a ledger row is an author of its bead. *)

Section Authors.
Context `{SerdeJson, ToJson}.

Definition on_file (out : list (string * list string)) (bead p : string) : Prop := p ∈ default [] (bt_get bead out).

Lemma bt_get_remove {A} k k' (l : list (string * A)) : k ≠ k' → bt_get k (bt_remove k' l) = bt_get k l.
Proof.
  intros Hne. unfold bt_get, bt_remove. induction l as [|[j v] l IH]; [done|]. cbn.
  destruct (base.decide (j = k')) as [->|Hj].
  - rewrite bool_decide_eq_true_2 by done. cbn. rewrite (bool_decide_eq_false_2 (k' = k)) by congruence. done.
  - rewrite bool_decide_eq_false_2 by done. cbn. by destruct (bool_decide (j = k)).
Qed.

Lemma push_pane_keeps s v p : p ∈ s → p ∈ push_pane_field s v.
Proof.
  unfold push_pane_field. destruct (_ ≫= tmux_pane_id); [|done]. intros Hp.
  unfold set_insert. apply elem_of_btree_set. by right.
Qed.
Lemma push_panes_keep kss v s p : p ∈ s → p ∈ foldl (λ s ks, push_pane_field s (path ks v)) s kss.
Proof. revert s. induction kss as [|ks kss IH]; intros s Hp; [done|]. cbn [foldl]. apply IH. by apply push_pane_keeps. Qed.

Lemma ledger_panes_pane v s pane p :
  get_str "pane" v = Some pane → tmux_pane_id pane = Some p → p ∈ ledger_panes v s.
Proof.
  intros Hv Hp. unfold ledger_panes. cbn [foldl]. do 6 apply push_pane_keeps.
  assert (path ["pane"] v ≫= as_str = Some pane) as Hpath by exact Hv.
  unfold push_pane_field at 1. rewrite Hpath. change (Some pane ≫= tmux_pane_id) with (tmux_pane_id pane). rewrite Hp.
  unfold set_insert. apply elem_of_btree_set, list_elem_of_here.
Qed.

Lemma author_row_keeps out line bead p : on_file out bead p → on_file (ledger_author_row out line) bead p.
Proof.
  unfold on_file, ledger_author_row. intros Hp. destruct (is_empty (trim line)); [done|].
  destruct (from_str line) as [v|]; [|done]. cbv zeta. set (b := trim _). destruct (is_empty b); [done|].
  case_bool_decide as Hn.
  - destruct (base.decide (bead = b)) as [->|Hne]; [|by rewrite bt_get_remove].
    assert (p ∈ ledger_panes v (default [] (bt_get b out))) as Hin by by apply push_panes_keep.
    rewrite Hn in Hin. by apply elem_of_nil in Hin.
  - rewrite bt_get_insert. case_decide as He; [subst bead|done]. by apply push_panes_keep.
Qed.

Lemma author_row_adds out line row bead pane p :
  is_empty (trim line) = false → from_str line = Some row → get_str "bead" row = Some bead → is_empty (trim bead) = false →
  get_str "pane" row = Some pane → tmux_pane_id pane = Some p → on_file (ledger_author_row out line) (trim bead) p.
Proof.
  intros Hl Hr Hb Hne Hp Hid. unfold on_file, ledger_author_row. rewrite Hl, Hr. cbv zeta. unfold get_str in Hb.
  assert (trim (default "" match json_get "bead" row ≫= as_str with
                           | Some b => Some b
                           | None => path ["identity"; "bead"] row ≫= as_str
                           end) = trim bead) as -> by (by rewrite Hb). rewrite Hne.
  pose proof (ledger_panes_pane row (default [] (bt_get (trim bead) out)) pane p Hp Hid) as Hin.
  case_bool_decide as Hn; [rewrite Hn in Hin; by apply elem_of_nil in Hin|].
  rewrite bt_get_insert. by rewrite decide_True.
Qed.

Lemma ledger_authors_adds ls line row bead pane p :
  line ∈ ls → is_empty (trim line) = false → from_str line = Some row → get_str "bead" row = Some bead →
  is_empty (trim bead) = false → get_str "pane" row = Some pane → tmux_pane_id pane = Some p →
  ∀ out, on_file (foldl ledger_author_row out ls) (trim bead) p.
Proof.
  intros Hin Hl Hr Hb Hne Hp Hid. induction ls as [|x ls IH]; [by apply elem_of_nil in Hin|]. intros out. cbn [foldl].
  apply elem_of_cons in Hin as [<-|Hin]; [|by apply IH].
  assert (on_file (ledger_author_row out line) (trim bead) p) as Hon by by eapply author_row_adds.
  clear IH. revert Hon. generalize (ledger_author_row out line). induction ls as [|y ls IH]; intros o Ho; [done|]. cbn [foldl].
  apply IH. by apply author_row_keeps.
Qed.

Lemma insert_panes_key ps p key s :
  p ∈ ps → pane_assignee_key p = Some key → key ∈ foldl (λ s p, insert_pane p s) s ps.
Proof.
  assert (∀ x s q, x ∈ s → x ∈ insert_pane q s) as Hkeep.
  { intros x s0 q Hx. unfold insert_pane. cbv zeta. unfold set_insert.
    destruct (pane_assignee_key q); rewrite ?elem_of_btree_set, ?elem_of_cons, ?elem_of_btree_set, ?elem_of_cons; tauto. }
  intros Hin Hk. revert s. induction ps as [|q ps IH]; [by apply elem_of_nil in Hin|]. intros s. cbn [foldl].
  apply elem_of_cons in Hin as [<-|Hin]; [|by apply IH].
  assert (key ∈ insert_pane p s) as Hon.
  { unfold insert_pane. rewrite Hk. unfold set_insert. apply elem_of_btree_set, list_elem_of_here. }
  clear IH. revert Hon. generalize (insert_pane p s). induction ps as [|y ps IH]; intros o Ho; [done|]. cbn [foldl].
  apply IH. by apply Hkeep.
Qed.

Lemma row_string_ok row k s : row_string row k = Ok s → get_str k row = Some s ∧ is_empty (trim s) = false.
Proof. unfold row_string. destruct (get_str k row) as [x|]; [|done]. destruct (is_empty (trim x)) eqn:Hx; [done|]. by intros [= <-]. Qed.
Lemma row_identity_ok row i : row_identity row = Ok i →
  get_str "bead" row = Some (id_bead i) ∧ is_empty (trim (id_bead i)) = false ∧ get_str "pane" row = Some (Lifecycle.pane (id_target i)).
Proof.
  unfold row_identity. intros (inv & _ & (iv & _ & (b & [Hb Hbe]%row_string_ok & Hr)%bind_ok)%bind_ok)%bind_ok.
  apply bind_ok in Hr as (b' & Hb' & (repo & _ & (s & _ & (p & [Hp _]%row_string_ok & (t & Ht & (d & _ & Hi)%bind_ok)%bind_ok)%bind_ok)%bind_ok)%bind_ok).
  unfold BeadId_new in Hb'. destruct (blank b); [done|]. injection Hb' as <-.
  unfold DispatchTarget_new in Ht. destruct (blank s); [done|]. destruct (blank p); [done|]. injection Ht as <-.
  unfold LifecycleIdentity_new in Hi. destruct (is_empty (trim repo)); [done|]. destruct (is_empty (trim d)); [done|]. by injection Hi as <-.
Qed.

Lemma bt_insert_elem {A} k (v : A) l x : x ∈ bt_insert k v l → x = (k, v) ∨ x ∈ l.
Proof.
  induction l as [|[k' w] l IH]; cbn [bt_insert]; [by intros ->%list_elem_of_singleton; left|].
  destruct (String.compare k k').
  - intros [->|Hx]%elem_of_cons; [by left|right]. by apply list_elem_of_further.
  - intros [->|Hx]%elem_of_cons; [by left|by right].
  - intros [->|Hx]%elem_of_cons; [right; apply list_elem_of_here|].
    apply IH in Hx as [->|Hx]; [by left|right]. by apply list_elem_of_further.
Qed.
Lemma latest_rows keep rows m m' kv :
  latest_of keep (λ _ row, Ok row) rows m = Ok m' → kv ∈ m' → kv ∈ m ∨ kv.2 ∈ rows.
Proof.
  revert m. induction rows as [|row rows IH]; intros m; cbn [latest_of]; [by intros [= ->]; left|].
  intros (i & _ & Hr)%bind_ok Hin. destruct (negb (keep i)).
  - apply IH in Hr as [?|?]; [by left|right; by apply list_elem_of_further|done].
  - cbn in Hr. apply IH in Hr as [[->|?]%bt_insert_elem|?]; [|by left| |done]; right; [apply list_elem_of_here|by apply list_elem_of_further].
Qed.
Lemma candidates_rows latest cs c :
  candidates_of latest = Ok cs → c ∈ cs → ∃ kv, kv ∈ latest ∧ row_identity kv.2 = Ok (ca_identity c).
Proof.
  revert cs. induction latest as [|[k row] latest IH]; intros cs; cbn [candidates_of].
  { by intros [= <-] ?%elem_of_nil. }
  destruct (_ && _).
  - intros (i & Hi & (o & _ & (e & _ & (rest & Hrest & [= <-])%bind_ok)%bind_ok)%bind_ok)%bind_ok.
    intros [->|Hc]%elem_of_cons; [exists (k, row); split; [apply list_elem_of_here|done]|].
    destruct (IH _ Hrest Hc) as (kv & ? & ?). exists kv. split; [by apply list_elem_of_further|done].
  - intros Hrest Hc. destruct (IH _ Hrest Hc) as (kv & ? & ?). exists kv. split; [by apply list_elem_of_further|done].
Qed.
Lemma parse_lines_elem l rows row : parse_lines l = Ok rows → row ∈ rows → ∃ x, x ∈ l ∧ from_str x = Some row.
Proof.
  revert rows. induction l as [|x l IH]; intros rows; cbn [parse_lines]; [by intros [= <-] ?%elem_of_nil|].
  intros (r & Hr%ok_or_ok & (rs & Hrs & [= <-])%bind_ok)%bind_ok [->|Hin]%elem_of_cons.
  - exists x. split; [apply list_elem_of_here|done].
  - destruct (IH _ Hrs Hin) as (y & ? & ?). exists y. split; [by apply list_elem_of_further|done].
Qed.

(** A candidate is a row of the ledger's text. *)
Lemma candidate_row fault text tracker cs c :
  receiver_verified_candidates fault (Some text) tracker = Ok cs → c ∈ cs →
  ∃ line row, line ∈ lines text ∧ is_empty (trim line) = false ∧ from_str line = Some row ∧ row_identity row = Ok (ca_identity c).
Proof.
  unfold receiver_verified_candidates.
  intros (st & _ & (rows & Hrows & (latest & Hlatest & (cs0 & Hcs & [= <-])%bind_ok)%bind_ok)%bind_ok)%bind_ok Hc.
  rewrite stable_sort_Permutation in Hc.
  destruct (candidates_rows _ _ _ Hcs Hc) as (kv & Hkv & Hid).
  apply (latest_rows _ _ _ _ _ Hlatest) in Hkv as [Hkv|Hkv]; [by apply elem_of_nil in Hkv|].
  unfold read_rows in Hrows. apply bind_ok in Hrows as (u & _ & Hrows). unfold rows_of in Hrows.
  destruct (parse_lines_elem _ _ _ Hrows Hkv) as (line & Hl & Hfs). cbn [default from_option] in Hl.
  apply list_elem_of_In, filter_In in Hl as [Hl Hne%negb_true_iff].
  exists line, kv.2. split_and!; [by apply list_elem_of_In|done..].
Qed.

(** Whoever received the bead is no stranger to it. *)
Lemma receiver_is_author fault text tracker cs c b :
  receiver_verified_candidates fault (Some text) tracker = Ok cs → c ∈ cs →
  trim (candidate_bead c) = candidate_bead c → b_id b = candidate_bead c →
  ¬ (stranger (author_panes b (parse_ledger_authors text)) (candidate_pane c) ∧
     is_Some (pane_assignee_key (candidate_pane c))).
Proof.
  intros Hcs Hc Htrim Hb [(_ & _ & Hs) [key Hk]]. apply (Hs key Hk).
  destruct (candidate_row _ _ _ _ _ Hcs Hc) as (line & row & Hl & Hne & Hr & Hid).
  apply row_identity_ok in Hid as (Hrb & Hrbe & Hrp). fold (candidate_bead c) in Hrb, Hrbe. fold (candidate_pane c) in Hrp.
  assert (tmux_pane_id (candidate_pane c) = Some (trim (candidate_pane c))) as Ht.
  { unfold tmux_pane_id, pane_assignee_key in *. cbv zeta in *. destruct (strip_prefix "%" (trim (candidate_pane c))) as [d|]; [|done].
    cbn in Hk |- *. by destruct (is_empty d || negb (all_bytes is_ascii_digit d)). }
  pose proof (ledger_authors_adds _ _ _ _ _ _ Hl Hne Hr Hrb Hrbe Hrp Ht []) as Hon.
  unfold author_panes. cbv zeta. rewrite Hb, <-Htrim. unfold on_file in Hon. fold (parse_ledger_authors text) in Hon.
  destruct (bt_get _ _) as [ps|]; [|by apply elem_of_nil in Hon].
  apply (insert_panes_key ps (trim (candidate_pane c))); [done|].
  unfold pane_assignee_key in *. by rewrite trim_idem.
Qed.
End Authors.

(** ** What a claim rests on. *)

Section Claim.
Context `{SerdeJson, ToJson, Unicode, BrShowDecode, Host} (env : Env) (tracker : list Effect → result string string)
  (ledger_path : string).
Notation cfg := (e_cfg env).
Notation gate := (gate_peer_grading_inner env tracker ledger_path).

Lemma refuse_identity_ok field v u : refuse_placeholder_identity field v = Ok u → placeholder v = false.
Proof. unfold refuse_placeholder_identity. by destruct (placeholder v). Qed.

Lemma claim_of_ok cs a c : claim_of cs a = Ok c →
  ∃ cand, cand ∈ cs ∧ candidate_bead cand = as_bead a ∧
    c = MkPeerClaim (as_bead a) (candidate_pane cand) (as_grader a) (QueueSelect.as_assignee a) ∧
    placeholder (as_bead a) = false ∧ placeholder (candidate_pane cand) = false ∧ placeholder (as_grader a) = false.
Proof.
  unfold claim_of. intros (cand & Hc%ok_or_ok & Hr)%bind_ok.
  apply bind_ok in Hr as (u1 & Hb%refuse_identity_ok & Hr). apply bind_ok in Hr as (u2 & Hp%refuse_identity_ok & Hr).
  apply bind_ok in Hr as (u3 & Hg%refuse_identity_ok & [= <-]).
  apply find_first_Some in Hc as (l1 & l2 & -> & Hbead & _). apply bool_decide_eq_true in Hbead.
  exists cand. split_and!; [|done..]. apply elem_of_app. right. apply list_elem_of_here.
Qed.

Lemma selectable_ok preferred ps qs : selectable preferred ps = Ok qs →
  ∀ q, q ∈ qs → q ∈ ps ∧ (∀ p, preferred = Some p → ob_pane q = p).
Proof.
  unfold selectable. destruct preferred as [p|]; [|by intros [= ->]]. destruct (existsb _ _); [|done].
  intros [= <-] q Hq. apply list_elem_of_In, filter_In in Hq as [Hq Hp%bool_decide_eq_true].
  split; [by apply list_elem_of_In|]. by intros ? [= <-].
Qed.

(** The steps of a claim. *)
Lemma gate_claimed o tick preferred observer w w' c :
  gate o tick preferred observer w = (w', Ok (Claimed c)) →
  w' = w ∧ ∃ cs text ledger ps a,
    receiver_verified_candidates (e_ledger_fault env (r_trace w)) (r_ledger w) (tracker (r_trace w)) = Ok cs ∧
    tracker (r_trace w) = Ok text ∧ r_ledger w = Some ledger ∧ selectable preferred (map observed_of (panes o)) = Ok ps ∧
    select_grader preferred observer ps (candidate_lines (map candidate_bead cs) text) ledger = Ok a ∧ claim_of cs a = Ok c.
Proof.
  unfold gate_peer_grading_inner. rewrite stm_bind_ok. intros (w1 & t & [= <- <-] & Hr). revert Hr.
  rewrite stm_bind_ok. intros (w2 & w0 & [-> ->]%stm_get_ok & Hr). revert Hr.
  rewrite stm_bind_ok. intros (w3 & cs & [-> Hcs%map_err_ok]%stm_lift_ok & Hr). revert Hr.
  destruct cs as [|first cs].
  { rewrite stm_bind_ok. intros (w4 & u & _ & [_ ?]%stm_ret_ok). done. }
  rewrite stm_bind_ok. intros (w4 & text & [-> Ht%map_err_ok]%stm_lift_ok & Hr). revert Hr. cbv zeta.
  rewrite stm_bind_ok. intros (w5 & u & [_ ->]%stm_refuse_ok & Hr). revert Hr.
  rewrite stm_bind_ok. intros (w6 & ledger & [-> Hl%map_err_ok]%stm_lift_ok & Hr). revert Hr.
  rewrite stm_bind_ok. intros (w7 & ps & [-> Hps]%stm_lift_ok & Hr). revert Hr.
  destruct (select_grader _ _ _ _ _) as [a|e] eqn:Hsel.
  2:{ destruct (self_grade _ _); [done|]. rewrite stm_bind_ok. intros (w8 & v & _ & [_ ?]%stm_ret_ok). done. }
  rewrite stm_bind_ok. intros (w8 & c' & [-> Hc]%stm_lift_ok & [-> Heq]%stm_ret_ok). injection Heq as <-.
  split; [done|]. exists (first :: cs), text, ledger, ps, a. split_and!; try done.
  unfold read_ledger_text in Hl. destruct (e_ledger_fault _ _); [by destruct (r_ledger w)|]. by destruct (r_ledger w); [injection Hl as ->|].
Qed.

(** C18: A claim to grade changes nothing yet, and it names a bead the lifecycle ledger holds as
    received, with the pane that received it; a grader of this very observation, seen
    idle, carrying nothing, other than the observer and the one that was asked for, under
    its own name on the server; and a finished bead of the export none of whose authors,
    in the tracker or the ledger, is that grader: so the grader is not the receiver, where
    the bead's name has no blanks around it.  No name of it is a placeholder. *)
Theorem peer_claim_rests_on o tick preferred observer w w' c :
  gate o tick preferred observer w = (w', Ok (Claimed c)) →
  w' = w ∧ ∃ cs cand text ledger,
    receiver_verified_candidates (e_ledger_fault env (r_trace w)) (r_ledger w) (tracker (r_trace w)) = Ok cs ∧
    cand ∈ cs ∧ candidate_bead cand = pg_bead c ∧ candidate_pane cand = pg_receiver_pane c ∧
    tracker (r_trace w) = Ok text ∧ r_ledger w = Some ledger ∧
    (∃ p, p ∈ panes o ∧ pane_id p = pg_grader_pane c ∧ is_dispatchable p = true ∧ pane_liveness p = "CONFIRMED_IDLE" ∧
          is_working p = false) ∧
    pg_grader_pane c ≠ observer ∧ (∀ p, preferred = Some p → pg_grader_pane c = p) ∧
    pane_assignee_key (pg_grader_pane c) = Some (pg_grader_assignee c) ∧
    (trim (pg_bead c) = pg_bead c → pg_grader_pane c ≠ pg_receiver_pane c) ∧
    (∃ beads b, parse_jsonl host_json_error (candidate_lines (map candidate_bead cs) text) = Ok beads ∧ b ∈ beads ∧
       is_reapable b = true ∧ b_id b = pg_bead c ∧
       stranger (author_panes b (parse_ledger_authors ledger)) (pg_grader_pane c)) ∧
    placeholder (pg_bead c) = false ∧ placeholder (pg_receiver_pane c) = false ∧ placeholder (pg_grader_pane c) = false.
Proof.
  intros (-> & cs & text & ledger & ps & a & Hcs & Ht & Hl & Hps & Hsel & Hc)%gate_claimed. split; [done|].
  apply claim_of_ok in Hc as (cand & Hin & Hb & -> & Hpb & Hpp & Hpg). cbn.
  unfold select_grader, assign_peer_grade_for_named_grader, assign_peer_grade_with_ledger in Hsel.
  assert (∃ named, assign_peer_grade_inner host_json_error observer named ps
            (candidate_lines (map candidate_bead cs) text) ledger = Ok a) as [named Ha] by (destruct preferred; eauto).
  pose proof (peer_grade_assignment host_json_error observer named ps (candidate_lines (map candidate_bead cs) text) ledger) as Hspec.
  cbv zeta in Hspec. rewrite Ha in Hspec.
  destruct Hspec as (_ & Hne & (q & Hq & Hqg & Hidle) & Hkey & b & (beads & Hbeads & Hbin & Hreap) & Hbid & Hst).
  destruct (selectable_ok _ _ _ Hps _ Hq) as [Hqp Hpref]. apply list_elem_of_fmap in Hqp as (p & -> & Hp).
  unfold is_confirmed_idle in Hidle. rewrite !andb_true_iff in Hidle. destruct Hidle as [[Hd Hli%bool_decide_eq_true] Hw%negb_true_iff].
  cbn in *. exists cs, cand, text, ledger. split_and!; try done.
  - by exists p.
  - intros x Hx. rewrite <-Hqg. by apply Hpref.
  - intros Htrim Heq. rewrite Hl in Hcs. rewrite <-Hb in Htrim.
    apply (receiver_is_author _ _ _ _ _ b Hcs Hin Htrim); [congruence|]. rewrite <-Heq. split; [done|by eexists].
  - by exists beads, b.
Qed.

(** The answer for an active grade is never given: its bead would be a placeholder. *)
Lemma active_grade_unreachable cc census observer preferred w w' :
  run_peer_grade_claim env tracker ledger_path cc census observer preferred w ≠ (w', Ok ActivePeerGrade).
Proof.
  unfold run_peer_grade_claim. rewrite stm_bind_ok. intros (w1 & o & _ & Hr). revert Hr.
  rewrite stm_bind_ok. intros (w2 & now & _ & Hr). revert Hr. rewrite stm_bind_ok. intros (w3 & g & Hg & Hr). revert Hr.
  destruct g as [c| |s]; [|by intros [_ ?]%stm_ret_ok..]. case_bool_decide as Hb.
  - intros _. assert (∃ o t p x, gate_peer_grading_inner env tracker ledger_path o t p x w2 = (w3, Ok (Claimed c))) as (o' & t' & p' & x' & Hc)
      by (destruct preferred; eauto).
    apply gate_claimed in Hc as (_ & cs & text & ledger & ps & a & _ & _ & _ & _ & _ & Hc).
    apply claim_of_ok in Hc as (cand & _ & _ & -> & Hpb & _). cbn in Hb. by rewrite Hb in Hpb.
  - rewrite stm_bind_ok. intros (w4 & u & _ & Hr). revert Hr. rewrite stm_bind_ok. intros (w5 & v & _ & [_ ?]%stm_ret_ok). done.
Qed.
End Claim.

(** ** A claim. *)

Section Example.
Definition ex_row : Json :=
  jobj [("event", JString "receiver_verified"); ("status", JString (status_str ReceiverVerified)); ("invoker", JString (invoker_str Scheduled));
        ("bead", JString "b-9"); ("repo", JString "/repo"); ("session", JString "omp"); ("pane", JString "%9");
        ("packet_digest", JString "d1"); ("objective", JString "do it"); ("idempotency_key", JString "k1")].
#[local] Instance ex_json : SerdeJson := λ s, if bool_decide (s = "L") then Some ex_row else QueueSelect.ex_serde s.
#[local] Instance ex_to_json : ToJson := λ _, "".
#[local] Instance ex_unicode : Unicode := ascii_only.
#[local] Instance ex_host : Host := {|
  host_json_error := λ _, "json"; host_hash := λ _, 0%N; host_object_text := λ _ _ _ _ _, ""; host_sha256 := λ _, "";
  host_debug_admission := λ _, "" |}.
#[local] Instance ex_decode : BrShowDecode := λ _, Err "none".
Definition ex_env : Env := calm_env (λ _, RunFailed "none") (λ _, 0%N).
Definition ex_ledger : RWorld := with_ledger (Some "L") ex_world.
Definition ex_observation : Observation :=
  MkObservation [MkPane "%9" "IDLE" "CONFIRMED_IDLE" true true false false; MkPane "%4" "IDLE" "CONFIRMED_IDLE" true true false false]
    (MkQueue 0 true) None.

Lemma peer_claim_rests_on_witness :
  let c := MkPeerClaim "b-9" "%9" "%4" "pane4-%4" in
  gate_peer_grading_inner ex_env (λ _, Ok "D") "/ledger" ex_observation 1 None ORCHESTRATOR ex_ledger = (ex_ledger, Ok (Claimed c)) ∧
  ∃ p, p ∈ panes ex_observation ∧ pane_id p = "%4" ∧ is_working p = false.
Proof.
  cbv zeta. split; [vm_compute; reflexivity|].
  destruct (peer_claim_rests_on ex_env (λ _, Ok "D") "/ledger" ex_observation 1 None ORCHESTRATOR ex_ledger ex_ledger
              (MkPeerClaim "b-9" "%9" "%4" "pane4-%4")) as (_ & cs & cand & text & ledger & H); [vm_compute; reflexivity|].
  destruct H as (_ & _ & _ & _ & _ & _ & (p & Hp & Hid & _ & _ & Hw) & _). exists p. cbn in Hid. split_and!; done.
Defined.
End Example.
