(* ===== verification/Closeout.v ===== *)
(** * After a dispatch: silence, results and closes

    omp-orchestrator/src/resident.rs: the watch for a verdict on a dispatched bead, the
    report of the outcome, which is written before anybody is told of it, and the close of
    a bead, which counts only once the tracker was read back. *)

From stdpp Require Import base numbers list option strings pretty gmap.
From Stdlib Require Import NArith ZArith Ascii Lia.
From S2P Require Import Prelude RustStr Utf8 Json DecisionLedger ClaimFence PaneFence Lifecycle LifeLedger TickMonitor Receipt AckStage.
From S2P Require Import SilenceWatch Pending Packet Activity Resident Preflight Observe SpineEmit.

(** ** Reservations and closes. *)

Record ReservationLease := MkLease { le_id : Z; le_path : string; le_holder : string; le_reason : string }.
Inductive CloseReadback := RbClosed (status : string) | PolicyRefused (refusal : string) | Unread (detail : string).

(** [str::parse::<i64>]. *)
Definition parse_i64 (s : string) : option Z :=
  match strip_prefix "-" s with
  | Some r => if is_empty r then None
              else n ← parse_digits r 0; if (n <=? 9223372036854775808)%N then Some (- Z.of_N n)%Z else None
  | None => Z.of_N <$> parse_below 9223372036854775808 s
  end.
Definition lease_line (bead line : string) : option ReservationLease :=
  match split_whitespace line with
  | id :: path :: holder :: _ :: reason =>
      id ← parse_i64 id;
      let reason := join " " reason in
      if contains reason bead then Some (MkLease id path holder reason) else None
  | _ => None
  end.
Definition parse_active_reservation_leases (text bead : string) : list ReservationLease := omap (lease_line bead) (lines text).

Section Close.
Context `{SerdeJson, ToJson, Unicode, Host} (env : Env).
Notation cfg := (e_cfg env).

Definition lease_args : list string := ["file_reservations"; "list"; "--active-only"; cf_repo cfg].
Definition active_reservation_leases (bead : string) : RM (list ReservationLease) :=
  if is_empty (trim (rc_am cfg)) then mret []
  else
    o ← invoke env (rc_am cfg) lease_args;
    if success o then mret (parse_active_reservation_leases (utf8_lossy (o_stdout o)) bead)
    else stm_fail (process_output_text (rc_am cfg) o).

Definition close_args (bead reason : string) : list string := ["close"; bead; "--reason"; reason; "--json"].
Definition show_args (bead : string) : list string := ["show"; bead; "--json"].
Definition read_close_back (show : result string Output) : CloseReadback :=
  match show with
  | Err e => Unread ("tracker readback unreadable: " +:+ e)
  | Ok o =>
      if success o then
        match parse_tracker_close_state (utf8_lossy (o_stdout o)) with
        | Ok (status, _) => if bool_decide (status = "closed") then RbClosed status
                            else Unread ("tracker readback status=" +:+ status +:+ "; expected closed")
        | Err detail => Unread detail
        end
      else Unread (process_output_text (rc_br cfg) o)
  end.
Definition close_and_read_back (bead reason : string) : RM CloseReadback :=
  leases ← attempt (active_reservation_leases bead);
  match leases with
  | Err e => mret (PolicyRefused ("CLOSE_REFUSED_RESERVATION_CHECK bead=" +:+ bead +:+ " detail=" +:+ e))
  | Ok (l :: _) =>
      mret (PolicyRefused ("CLOSE_REFUSED_RESERVATION_LEASE bead=" +:+ bead +:+ " reservation_id=" +:+ show_Z (le_id l)
              +:+ " holder=" +:+ le_holder l +:+ " path=" +:+ le_path l +:+ " reason=" +:+ le_reason l
              +:+ " next_action=release_reservation"))
  | Ok [] =>
      close ← attempt (invoke env (rc_br cfg) (close_args bead reason));
      match close with
      | Err e => mret (Unread ("close command unreadable: " +:+ e))
      | Ok o =>
          if success o then show ← attempt (invoke env (rc_br cfg) (show_args bead)); mret (read_close_back show)
          else mret (PolicyRefused (process_output_text (rc_br cfg) o))
      end
  end.
Definition close_readback_exit (r : CloseReadback) : N * string :=
  match r with
  | RbClosed status => (0, "CLOSE_READBACK CLOSED status=" +:+ status)
  | PolicyRefused refusal => (1, "CLOSE_READBACK POLICY_REFUSED " +:+ refusal)
  | Unread detail => (2, "CLOSE_READBACK UNREAD " +:+ detail)
  end%N.

(** ** The silence watch. *)

Definition SILENCE_WATCH : string := "dispatch-silence-watch".
Definition silence_args (bead receiver_agent : string) (epoch : Z) : list string :=
  [bead; cf_session cfg; receiver_agent; show_Z epoch; show_N (N.max (rc_interval_secs cfg) 1)].
Definition detector_of (line : string) : option string := strip_prefix "bead=" line ≫= split_second "detector=".
Definition verdict_of_detector (d : string) : result string SilenceVerdict :=
  ok_or (find_first (λ v, bool_decide (detector v = d)) [VerdictPosted; SilentPastDeadline; Reassigned; TrackerError])
    ("DISPATCH_SILENCE_WATCH unknown verdict=" +:+ d).
Definition run_silence_watch (bead : string) (epoch : Z) (receiver_agent : string) : RM SilenceVerdict :=
  bytes ← run_ok env SILENCE_WATCH SILENCE_WATCH (silence_args bead receiver_agent epoch);
  d ← stm_lift (ok_or (find_map detector_of (lines (utf8_lossy bytes))) "DISPATCH_SILENCE_WATCH malformed verdict output");
  stm_lift (verdict_of_detector (trim d)).

(** ** Telling of an outcome. *)

Definition RESULT_PANE : string := "1".
Definition dispatch_result_ntm_args (pane bead : string) (tick : N) (result : string) : list string :=
  [ntm_send_arg (cf_session cfg); "--panes=" +:+ RESULT_PANE;
   "--msg=DISPATCH_RESULT tick=" +:+ show_N tick +:+ " pane=" +:+ pane +:+ " bead=" +:+ bead +:+ " " +:+ one_line_detail result].
Definition verify_intent : Intent := MkIntent VerifyReceipt false false true true.
Definition authorize_result_notification (bead result : string) : Prelude.result string unit :=
  if is_empty (trim bead) || is_empty (trim result) then
    Err "DISPATCH_RESULT_PREFLIGHT_REFUSED packet_complete=false: result notification is empty"
  else
    _ ← map_err (λ e, "DISPATCH_RESULT_PREFLIGHT_REFUSED reason=" +:+ not_approved_debug e)
          (Lifecycle.authorize (Lifecycle.classify verify_intent));
    Ok tt.
Definition mail_recipient (contract : option string) (pane : string) : Prelude.result string string :=
  match agent_for_pane contract pane with
  | Some agent => Ok agent
  | None => let c := trim (rc_receiver_agent cfg) in
            if is_empty c then Err ("recipient_unresolved pane=" +:+ pane) else Ok c
  end.

(** [{:?}] of a list of texts, and the daemon's answer to the durable message. *)
Context (debug_list : list string → string) (mail : list Effect → Prelude.result string string).
Definition receipt_accepts (t : TransportReceipt) : bool :=
  match t with
  | NtmRobotSend r => negb (blocked r) && existsb (λ x, bool_decide (x = RESULT_PANE)) (successful r)
  | TmuxSendKeysLiteral _ => false
  end.
Definition notify_refusal (bead : string) (t : TransportReceipt) : string :=
  "DISPATCH_RESULT_NOTIFY_REFUSED pane=" +:+ RESULT_PANE +:+ " bead=" +:+ bead +:+
  match t with
  | NtmRobotSend r => " blocked=" +:+ bool_str (blocked r) +:+ " successful=" +:+ debug_list (successful r)
                      +:+ " failed=" +:+ debug_list (failed r)
  | TmuxSendKeysLiteral _ => " transport=tmux_send_keys_literal"
  end.
Definition notify_dispatch_result (tick : N) (pane bead result : string) : RM unit :=
  _ ← admit_immediately_before_send env (cf_session cfg) RESULT_PANE;
  bytes ← run_ok env (rc_ntm cfg) (rc_ntm cfg) (dispatch_result_ntm_args pane bead tick result);
  t ← stm_lift (map_err (λ e, "DISPATCH_RESULT_NOTIFY_REFUSED pane=" +:+ RESULT_PANE +:+ " bead=" +:+ bead
                                +:+ " malformed ntm receipt: " +:+ transport_error_display e)
                  (capture_ntm utf8_valid host_json_error bytes));
  stm_require (receipt_accepts t) (notify_refusal bead t).

Definition result_row (pane bead detail : string) : string :=
  "target_pane=" +:+ RESULT_PANE +:+ " source_pane=" +:+ pane +:+ " bead=" +:+ bead +:+ " " +:+ detail.
Definition notify_result (tick : N) (pane bead result : string) : RM unit :=
  match authorize_result_notification bead result with
  | Ok _ => notify_dispatch_result tick pane bead result
  | Err e => stm_fail e
  end.
Definition record_notice (tick : N) (pane bead : string) (notice : Prelude.result string unit) : RM unit :=
  match notice with
  | Ok _ => mret tt
  | Err e => beat env tick "DISPATCH_RESULT_NOTIFY_DEGRADED" (result_row pane bead (one_line_detail e))
  end.
Definition record_mail (tick : N) (pane bead : string) : RM unit :=
  _ ← emit (EMail pane bead);
  t ← trace_of;
  match mail t with
  | Ok summary => beat env tick "DISPATCH_RESULT_MAIL_PERSISTED" ("source_pane=" +:+ pane +:+ " bead=" +:+ bead +:+ " " +:+ summary)
  | Err e => beat env tick "DISPATCH_RESULT_MAIL_DEGRADED"
               ("source_pane=" +:+ pane +:+ " bead=" +:+ bead +:+ " " +:+ one_line_detail e)
  end.
Definition report_dispatch_result (tick : N) (pane bead result : string) : RM unit :=
  _ ← beat env tick "DISPATCH_RESULT_RECORDED" (result_row pane bead (one_line_detail result));
  notice ← attempt (notify_result tick pane bead result);
  _ ← record_notice tick pane bead notice;
  record_mail tick pane bead.
Definition queue_empty_detail (free_capacity : N) : string :=
  "QUEUE_EMPTY_NEEDS_JOSH owner=josh next_action=authorize-or-create-work free_capacity=" +:+ show_N free_capacity.
End Close.

(** The status a failing daemon's envelope is filed under. *)
Definition classify_mail_envelope_status `{SerdeJson} (envelope : string) : string :=
  match from_str envelope with
  | None => "DISPATCH_RESULT_MAIL_PROTOCOL"
  | Some value =>
      let error := json_get "error" value in
      let first := find_map (λ o, o) [json_get "class" value; json_get "db_error_classification" value;
                                      error ≫= json_get "type"; error ≫= json_get "class"] in
      let class := default "" (first ≫= as_str) in
      let message := default "" ((error ≫= json_get "message") ≫= as_str) in
      if eq_ignore_ascii_case class "fd_exhaustion" || contains message "Too many open files"
      then "DISPATCH_RESULT_MAIL_FD_EXHAUSTION"
      else if eq_ignore_ascii_case class "timeout" || contains message "deadline exceeded"
      then "DISPATCH_RESULT_MAIL_TIMED_OUT" else "DISPATCH_RESULT_MAIL_PROTOCOL"
  end.

(** ** What a close, a report and a watch establish. *)

Section Facts.
Context `{SerdeJson, ToJson, Unicode, Host} (env : Env).
Notation cfg := (e_cfg env).

(** A line of the listing is a reservation for the bead: a number, a path, a holder, an
    expiry, and a reason in which the bead's id occurs. *)
Definition reserves (bead line : string) : Prop :=
  ∃ n path holder expires reason, split_whitespace line = n :: path :: holder :: expires :: reason ∧
    is_Some (parse_i64 n) ∧ contains (join " " reason) bead = true.
Lemma lease_line_none bead line : lease_line bead line = None ↔ ¬ reserves bead line.
Proof.
  unfold lease_line, reserves. destruct (split_whitespace line) as [|n [|p [|h [|x reason]]]];
    [split; [by intros _ (? & ? & ? & ? & ? & [=] & _)|done]..|].
  destruct (parse_i64 n) as [k|] eqn:Hn; cbn [mbind option_bind].
  - destruct (contains _ _) eqn:Hc; split; try done.
    + intros Hno. destruct Hno. exists n, p, h, x, reason. by rewrite Hn.
    + intros _ (? & ? & ? & ? & ? & [= <- <- <- <- <-] & _ & ?). congruence.
  - split; [|done]. intros _ (? & ? & ? & ? & ? & [= <- <- <- <- <-] & [? ?] & _). congruence.
Qed.
Lemma omap_nil {A B} (f : A → option B) l : omap f l = [] ↔ ∀ x, x ∈ l → f x = None.
Proof.
  induction l as [|a l IH]; cbn; [split; [by intros _ x ?%elem_of_nil|done]|].
  destruct (f a) eqn:Ha; [split; [done|intros Hall; rewrite Hall in Ha by constructor; done]|]. rewrite IH.
  split; [intros Hall x [->|?]%elem_of_cons; auto|intros Hall x ?; apply Hall; by constructor].
Qed.

(** No reservation names the bead: none is kept, because no mail program is configured, or
    the program listed them and no line is one for the bead. *)
Definition unreserved (bead : string) (w : RWorld) : Prop :=
  is_empty (trim (rc_am cfg)) = true ∨
  (e_cancelled env (r_trace w) = false ∧ ∃ o, e_run env (ERun (rc_am cfg) (lease_args env) :: r_trace w) = Exited o ∧
     success o = true ∧ ∀ line, line ∈ lines (utf8_lossy (o_stdout o)) → ¬ reserves bead line).
Definition listed (w : RWorld) : RWorld :=
  if is_empty (trim (rc_am cfg)) then w else log (ERun (rc_am cfg) (lease_args env)) w.

Lemma leases_none bead w : unreserved bead w → active_reservation_leases env bead w = (listed w, Ok []).
Proof.
  unfold active_reservation_leases, listed, unreserved. destruct (is_empty _); [done|].
  intros [?|(Hc & o & Ho & Hs & Hall)]; [done|]. unfold invoke, checkpoint, mbind, stm_bind. cbn. rewrite Hc. cbn. rewrite Ho. cbn.
  rewrite Hs. assert (parse_active_reservation_leases (utf8_lossy (o_stdout o)) bead = []) as ->; [|done].
  apply omap_nil. intros line Hl. by apply lease_line_none, Hall.
Qed.
Lemma leases_ok bead w wl ls :
  active_reservation_leases env bead w = (wl, Ok ls) → ls = [] → wl = listed w ∧ unreserved bead w.
Proof.
  unfold active_reservation_leases, listed, unreserved. destruct (is_empty _); [intros [= <- _]; auto|].
  rewrite stm_bind_ok. intros (w1 & o & Hi & Hr) ->. pose proof (invoke_calm _ _ _ _ _ _ Hi) as Hc. apply invoke_ok in Hi as [-> Ho].
  destruct (success o) eqn:Hs; [|done]. injection Hr as <- Hp. split; [done|]. right. split; [done|]. exists o. split_and!; [done..|].
  intros line Hl. apply lease_line_none. revert line Hl. by apply omap_nil.
Qed.

(** C19: A bead is reported closed only when no reservation names it -- the listing
    succeeded and none of its lines is a reservation whose reason mentions the bead, or no
    mail program is configured, and then none is asked --, after that the close command
    succeeded, and after that the tracker was asked again and said closed.  When a
    reservation names the bead, or the listing could not be had, nothing but the listing is
    run and the close is refused. *)
Theorem closed_is_read_back bead reason w :
  let '(w', r) := close_and_read_back env bead reason w in
  (∀ status, r = Ok (RbClosed status) → status = "closed" ∧ unreserved bead w ∧ ∃ close show,
     w' = log (ERun (rc_br cfg) (show_args bead)) (log (ERun (rc_br cfg) (close_args bead reason)) (listed w)) ∧
     e_run env (ERun (rc_br cfg) (close_args bead reason) :: r_trace (listed w)) = Exited close ∧ success close = true ∧
     e_run env (r_trace w') = Exited show ∧ success show = true ∧
     ∃ cr, parse_tracker_close_state (utf8_lossy (o_stdout show)) = Ok ("closed", cr)) ∧
  (¬ unreserved bead w →
     extends (λ e, e = ERun (rc_am cfg) (lease_args env)) w w' ∧ ∃ refusal, r = Ok (PolicyRefused refusal)).
Proof.
  destruct (close_and_read_back env bead reason w) as [w' r] eqn:Hrun. revert Hrun. unfold close_and_read_back.
  assert (Effects (λ e, e = ERun (rc_am cfg) (lease_args env)) (active_reservation_leases env bead)) as Heff.
  { unfold active_reservation_leases. effects_walk. }
  specialize (Heff w). unfold mbind, stm_bind, attempt at 1.
  destruct (active_reservation_leases env bead w) as [wl [[|l ls]|e]] eqn:Hl; cbn [fst] in Heff.
  2:{ intros [= <- <-]. split; [done|]. intros _. split; [done|by eexists]. }
  2:{ intros [= <- <-]. split; [done|]. intros _. split; [done|by eexists]. }
  apply leases_ok in Hl as [-> Hclear]; [|done].
  intros Hrun. split; [|done].
  intros status ->. revert Hrun. unfold attempt.
  destruct (invoke env (rc_br cfg) (close_args bead reason) _) as [w1 [close|e]] eqn:Hclose; [|done].
  destruct (success close) eqn:Hsc; [|done]. apply invoke_ok in Hclose as [-> Hclose].
  destruct (invoke env (rc_br cfg) (show_args bead) _) as [w2 show] eqn:Hshow. intros [= -> Hrb].
  unfold read_close_back in Hrb. destruct show as [show|e]; [|done]. destruct (success show) eqn:Hss; [|done].
  apply invoke_ok in Hshow as [-> Hshow]. destruct (parse_tracker_close_state _) as [[st cr]|] eqn:Hp; [|done].
  case_bool_decide as Hst; [|done]. injection Hrb as <-. split; [done|]. subst st.
  split; [done|]. exists close, show. split_and!; try done. by exists cr.
Qed.

Lemma beat_err tick status detail w w' e :
  beat env tick status detail w = (w', Err e) → starts_with e "HEARTBEAT_WRITE_ERROR path=" = true.
Proof.
  unfold beat, write_heartbeat. destruct (e_hb _ _) as [ts [d|] op wr led]; cbn.
  { intros [= _ <-]. by apply starts_with_app. }
  destruct op as [o|]; cbn; [intros [= _ <-]; by apply starts_with_app|].
  destruct wr as [[x k]|]; cbn; [intros [= _ <-]; by apply starts_with_app|done].
Qed.

Context (debug_list : list string → string) (mail : list Effect → Prelude.result string string).

Definition told_rows : list string := ["DISPATCH_RESULT_MAIL_PERSISTED"; "DISPATCH_RESULT_MAIL_DEGRADED"].
Lemma record_mail_ok tick pane bead w w' r :
  record_mail env mail tick pane bead w = (w', r) →
  ∃ st d, st ∈ told_rows ∧ r_trace w' = EBeat st d (is_ok r) :: EMail pane bead :: r_trace w ∧
    ∀ e, r = Err e → starts_with e "HEARTBEAT_WRITE_ERROR path=" = true.
Proof.
  unfold record_mail, mbind, stm_bind. cbn. destruct (mail _) as [m|m]; intros Hb; pose proof Hb as ->%beat_traced;
    (eexists _, _; split; [|split; [reflexivity|]]; [rewrite ?elem_of_cons; set_solver|]);
    intros e ->; by eapply beat_err.
Qed.

(** C20: The outcome of a dispatch is written before anybody is told of it: the first thing
    a report does is the result's row.  When the row could not be written nothing more is
    done: no notice is sent and no mail; a report succeeds only when it was, and when,
    whatever became of the pane's notice, the mail was attempted and the row that tells
    what became of it was written last; and a report fails for no reason but a heartbeat
    that could not be written. *)
Theorem result_recorded_first tick pane bead result w :
  let '(w', r) := report_dispatch_result env debug_list mail tick pane bead result w in
  let row := EBeat "DISPATCH_RESULT_RECORDED" (result_row pane bead (one_line_detail result)) in
  (∃ written t, r_trace w' = app t (row written :: r_trace w) ∧
     (written = false → t = [] ∧ is_ok r = false) ∧
     (is_ok r = true → written = true ∧ ∃ t' st d, st ∈ told_rows ∧ t = EBeat st d true :: EMail pane bead :: t')) ∧
  (∀ e, r = Err e → starts_with e "HEARTBEAT_WRITE_ERROR path=" = true).
Proof.
  destruct (report_dispatch_result _ _ _ _ _ _ _ w) as [w' r] eqn:Hr. cbv zeta. revert Hr.
  unfold report_dispatch_result, mbind at 1, stm_bind at 1.
  destruct (beat _ _ _ _ w) as [w1 [[]|e1]] eqn:Hb; pose proof Hb as Ht%beat_traced.
  2:{ intros [= <- <-]. split; [|intros e [= <-]; by eapply beat_err]. exists false, []. by rewrite Ht. }
  unfold mbind at 1, stm_bind at 1. destruct (attempt (notify_result _ _ _ _ _ _) w1) as [w2 n] eqn:Hn.
  assert (extends (λ _, True) w1 w2) as (t2 & Ht2 & _).
  { assert (Effects (λ _, True) (attempt (notify_result env debug_list tick pane bead result))) as He.
    { unfold notify_result, notify_dispatch_result. effects_walk; auto with effects. }
    specialize (He w1). by rewrite Hn in He. }
  destruct n as [n|e]; [|revert Hn; unfold attempt; by destruct (notify_result _ _ _ _ _ _ w1)].
  unfold mbind at 1, stm_bind at 1. destruct (record_notice env tick pane bead n w2) as [w3 r3] eqn:Hr3.
  assert (extends (λ _, True) w2 w3) as (t3 & Ht3 & _).
  { assert (Effects (λ _, True) (record_notice env tick pane bead n)) as He by (unfold record_notice; effects_walk; auto with effects).
    specialize (He w2). by rewrite Hr3 in He. }
  assert (r_trace w3 = app (app t3 t2) (r_trace w1)) as Ht13 by (by rewrite Ht3, Ht2, app_assoc).
  destruct r3 as [[]|e].
  - intros (st & d & Hst & Hm & He)%record_mail_ok. split; [|done].
    exists true, (EBeat st d (is_ok r) :: EMail pane bead :: app t3 t2).
    rewrite Hm, Ht13, Ht. split; [done|]. split; [done|]. intros ->. eauto 10.
  - intros [= <- <-]. split.
    + exists true, (app t3 t2). by rewrite Ht13, Ht.
    + intros e' [= <-]. unfold record_notice in Hr3. destruct n; [done|]. by eapply beat_err.
Qed.

(** The watch is handed the receiver's name, and the tracker holds the composite assignee
    of the claim: whatever was posted, the answer is that the bead was reassigned. *)
Theorem claimed_bead_reads_reassigned comments agent pane inc assignee epoch now deadline :
  tracker_assignee_with_composite true agent pane inc = Ok assignee → is_empty (trim comments) = false →
  SilenceWatch.classify comments assignee agent epoch now deadline = Reassigned.
Proof.
  unfold tracker_assignee_with_composite. cbn [negb]. destruct (_ || _); [done|]. destruct (is_empty (trim agent)); [done|].
  intros [= <-] Hc. unfold SilenceWatch.classify. rewrite Hc. case_bool_decide as Heq; [|done]. exfalso.
  apply (f_equal String.length) in Heq. rewrite !str_app_length in Heq. cbn in Heq. lia.
Qed.
End Facts.
