(* ===== verification/Cycle.v ===== *)
(** * One cycle of the supervisor, and the supervisor

    omp-orchestrator/src/resident.rs, [run_cycle] and [run_supervisor]: the components of
    the other files in the order the program calls them.  What the crates outside this
    model answer (the findings' tracker, the worker oracle, the tick's receipt, the mail
    daemon) and what the files hold is an environment, a function of the trace so far.
    Lines printed for an operator are not effects, and neither are the reads of [br]
    through which the ready queue is collected. *)

From stdpp Require Import base numbers list option strings pretty gmap.
From Stdlib Require Import NArith ZArith Ascii Lia SpecFloat.
From S2P Require Import Availability SilenceWatch UdsGate.
From S2P Require Import Prelude RustStr Order Utf8 Json AckSpine DecisionLedger ClaimFence PaneFence Lifecycle LifeLedger.
From S2P Require Import TickMonitor Receipt AckStage CellMatrix Pending QueueSelect Findings Supervisor Packet Activity Resident.
From S2P Require Import Transport Receiver Preflight SendVerify SpineEmit Observe PeerGate Closeout.

(** ** What the outside answers. *)

(** What became of filing: the identifier of the bead, or of a recovery the number filed. *)
Inductive FilingAnswer := Filed (id : string) | FilingCancelled (spool_path : string) | FilingFailed (error : string).
Record CycleEnv := MkCycleEnv {
  cy_spine : SpineEnv;
  cy_spool : list Effect → option string;
  cy_recover : list Effect → FilingAnswer;
  cy_file : list Effect → FilingAnswer;
  cy_marker_dir : list Effect → DirRead;
  cy_marker_row : list Effect → string → Pending.RowEnv;
  cy_plan : list Effect → option string;
  cy_sections : list Effect → option (list DocEntry);
  cy_decisions : list Effect → option string;
  cy_reap_sweep : option string;
  cy_queue : list Effect → Outside;
  cy_tracker : list Effect → Prelude.result string string;
  cy_target_env : option string;
  cy_build_configs : list Effect → option string * option string;
  cy_exists : list Effect → string → bool;
  cy_df : list Effect → string → DfOutcome;
  cy_oracle : list Effect → Prelude.result string unit;
  cy_token : list Effect → option string;
  cy_tick_row : list Effect → option string;
  cy_intent : list Effect → IntentEnv;
  cy_ack : list Effect → AckEnv;
  cy_clear : list Effect → option string;
  cy_mail : list Effect → Prelude.result string string;
  cy_census : list Effect → GateCensus }.

(** Texts of the standard library: floats, [{:?}] of texts, lists and decisions. *)
Record Texts := MkTexts {
  tx_f64 : spec_float → string; tx_fixed : nat → spec_float → string; tx_str : string → string;
  tx_list : list string → string; tx_decision : SupervisorDecision → string }.

Section Cycle.
Context `{SerdeJson, ToJson, Unicode, BrShowDecode, Host} (env : Env) (cc : CycleConfig) (cy : CycleEnv) (tx : Texts)
  (ledger_path spool_path : string).
Notation cfg := (e_cfg env).

(** The step's own clock reading of the environment. *)
Definition ask {A} (f : list Effect → A) : RM A := t ← trace_of; mret (f t).
(** An operation on the marker directory and the heartbeat. *)
Definition on_markers {A} (m : StM Pending.World string A) : RM A := λ w,
  let '(p, r) := m (r_pend w) in (MkR (r_trace w) p (r_ledger w) (r_mint w) (r_occ w), r).

(** The heartbeat's text, where it can be read. *)
Definition heartbeat_text : RM string :=
  w ← stm_get; mret (if sp_heartbeat (cy_spine cy) (r_trace w) then heartbeat (r_pend w) else EmptyString).

(** ** Findings of the supervisor itself. *)

Definition decision_label (d : SupervisorDecision) : string :=
  match d with
  | AwaitingHuman _ => "awaiting-human" | Dispatch _ _ => "dispatch" | GateUnwired _ => "gate-unwired"
  | EscalateIdleIncident _ _ => "idle-incident" | MonitorBlind _ => "monitor-blind" | QueueUnreadable _ => "queue-unreadable"
  | WorkspaceUnloaded _ => "workspace-unloaded" | AuthorizedIdle _ _ => "authorized-idle" | QueueEmptyNeedsJosh _ => "queue-empty"
  | SupervisedWorking _ _ => "supervised-working"
  end.
Definition finding_key (d : SupervisorDecision) : option string :=
  match d with
  | AwaitingHuman _ => Some "awaiting-human" | EscalateIdleIncident _ _ => Some "idle-incident"
  | QueueEmptyNeedsJosh _ => Some "queue-empty" | MonitorBlind _ => Some "monitor-blind"
  | WorkspaceUnloaded _ => Some "workspace-unloaded" | GateUnwired _ => Some "gate-unwired"
  | Dispatch _ _ | QueueUnreadable _ | AuthorizedIdle _ _ | SupervisedWorking _ _ => None
  end.
Definition observed_finding (key line : string) : bool :=
  match from_str line with
  | Some row =>
      bool_decide (get_str "status" row = Some "FINDING_OBSERVED")
      && match get_str "detail" row with
         | Some d => existsb (λ f, bool_decide (strip_prefix "key=" f = Some key)) (split_whitespace d)
         | None => false
         end
  | None => false
  end.
Definition prior_finding_observations (heartbeat_text key : string) : N :=
  N.min (N.of_nat (length (List.filter (observed_finding key) (lines heartbeat_text)))) u32_max.

Definition recover_pending_findings (tick : N) : RM unit :=
  fault ← ask (cy_spool cy);
  match fault with
  | Some e => stm_fail ("FINDING_RECOVERY_REFUSED spool=" +:+ spool_path +:+ " error=" +:+ e)
  | None =>
      a ← ask (cy_recover cy);
      match a with
      | Filed n => beat env tick "FINDING_RECOVERY" ("pending=" +:+ n +:+ " filed=" +:+ n)
      | FilingCancelled p => beat env tick "FINDING_RECOVERY_DEFERRED" ("pending_path=" +:+ p +:+ " reason=cancelled")
      | FilingFailed e =>
          _ ← beat env tick "FINDING_RECOVERY_DEGRADED" ("error=" +:+ e);
          stm_fail ("FINDING_RECOVERY_DEGRADED error=" +:+ e)
      end
  end.

Definition file_supervisor_finding (tick : N) (d : SupervisorDecision) : RM unit :=
  match finding_key d with
  | None => mret tt
  | Some key =>
      text ← heartbeat_text;
      let seen := sat_add32 (prior_finding_observations text key) 1 in
      let about := "key=" +:+ key +:+ " seen=" +:+ show_N seen in
      _ ← beat env tick "FINDING_OBSERVED" (about +:+ " decision=" +:+ tx_decision tx d);
      match finding_for (tx_list tx) d seen with
      | Some (Owed _) =>
          a ← ask (cy_file cy);
          match a with
          | Filed id => beat env tick "FINDING_FILED" (about +:+ " bead_id=" +:+ id)
          | FilingCancelled p => beat env tick "FINDING_DEFERRED" (about +:+ " spool_path=" +:+ p)
          | FilingFailed e =>
              _ ← beat env tick "FINDING_PUBLISH_FAILED" (about +:+ " error=" +:+ e);
              stm_fail ("FINDING_PUBLISH_FAILED " +:+ about +:+ " error=" +:+ e)
          end
      | _ => mret tt
      end
  end.

(** ** What stops a cycle before it observes. *)

Definition SURVIVE_GATE_UNWIRED : bool := true.
Definition apply_uds_cycle_halt (tick : N) (a : UdsCycleAdmission) : RM unit :=
  match a with
  | UdsObserved _ => stm_fail "UDS_TARGET_GATE_UNWIRED invariant_broken observed_reached_halt"
  | UdsUnproven detail =>
      _ ← beat env tick "UDS_TARGET_GATE_UNPROVEN" ("detail=" +:+ detail +:+ " owner=josh");
      beat env tick "NO_DISPATCH_TICK" "skip_reap=true"
  | UdsUnwired detail =>
      _ ← beat env tick "GATE_UNWIRED" ("unwired=" +:+ detail +:+ " owner=josh");
      _ ← beat env tick "NO_DISPATCH_TICK" "skip_reap=true";
      if SURVIVE_GATE_UNWIRED then mret tt else stm_fail ("GATE_UNWIRED unwired=" +:+ detail)
  end.
Definition uds_admission : RM UdsCycleAdmission :=
  r ← attempt (observe_uds_target_gate env (cc_uds_binary cc) (cc_uds_registry cc) (cc_repo_name cc));
  mret (uds_cycle_admission r).

(** The completions of closed beads; their failure is a row. *)
Definition reconcile_step (tick : N) : RM unit :=
  r ← attempt (reconcile_completions env (cy_spine cy) tick);
  match r with
  | Ok _ => mret tt
  | Err e => beat env tick "SPINE_RECONCILE_DEGRADED" (one_line_detail e)
  end.

(** The markers of the last dispatches: the panes they block and the beads they free; or the
    marker nobody can date, which stops the cycle. *)
Definition marker_fence (tick : N) : RM (option (list string * list string)) :=
  dir ← ask (cy_marker_dir cy); row ← ask (cy_marker_row cy);
  f ← on_markers (process_pending_markers host_json_error cfg dir row tick);
  match f with
  | StopUndatable detail _ _ => _ ← beat env tick "DISPATCH_RETRY_BLOCKED" detail; mret None
  | Proceed o =>
      _ ← (if bool_decide (length (cleared o) = 0%nat) && bool_decide (length (blocked_panes o) = 0%nat)
           then beat env tick "NO_PENDING_DISPATCH" "owner=loop next_action=continue" else mret tt);
      mret (Some (blocked_panes o, map cl_bead (cleared o)))
  end.

(** Are the plan documents fresh, and may a packet go if they are not. *)
Definition docs_step (tick : N) : RM (bool * bool) :=
  plan ← ask (cy_plan cy); sections ← ask (cy_sections cy);
  v ← stm_lift (docs_are_stale (cf_repo cfg +:+ "/docs/PLAN.md") (cf_repo cfg +:+ "/docs/plan") plan sections);
  fresh ← match v with
          | Fresh => mret true
          | Stale why => _ ← beat env tick "DOCS_STALE" why; mret false
          | NotApplicable why => _ ← beat env tick "DOCS_ASSEMBLY_NOT_APPLICABLE" why; mret true
          end;
  decisions ← ask (cy_decisions cy);
  mret (fresh, fresh || degraded_policy_authorized decisions).

(** ** Observation and queue. *)

(** [str::trim_start_matches] of a text: every repetition at the start. *)
Fixpoint trim_start_text (fuel : nat) (p s : string) : string :=
  match fuel, strip_prefix p s with
  | S fuel, Some r => trim_start_text fuel p r
  | _, _ => s
  end.
Definition UNAVAILABLE : string := "unavailable:".
Definition sweep_step (tick : N) : RM unit :=
  summary ← match cy_reap_sweep cy with
            | Some v =>
                if starts_with v UNAVAILABLE then
                  let reason := trim (trim_start_text (String.length v) UNAVAILABLE v) in
                  _ ← stm_refuse (is_empty reason)
                        "REAP_SWEEP_SKIP_REASON_EMPTY OMP_REAP_SWEEP=unavailable: requires a reason; an unexplained degradation is indistinguishable from a bug";
                  _ ← beat env tick "REAP_SWEEP_SKIPPED" reason;
                  mret ("SKIPPED reason=" +:+ reason)
                else run_finished_pane_sweep env
            | None => run_finished_pane_sweep env
            end;
  beat env tick "REAP_FINISHED_PANES" summary.

Definition readiness_step (tick : N) : RM ReadinessReport :=
  q ← ask (cy_queue cy);
  r ← stm_lift (map_err (λ e, "QUEUE_VISIBILITY_UNREADABLE owner=josh next_action=repair-br-or-escalate: " +:+ e)
        (collect_ready_live host_json_error q (rc_br cfg)));
  _ ← (if bool_decide (length (Availability.recovered r) = 0%nat) then mret tt
       else beat env tick "QUEUE_READY_RECOVERED" ("recovered=" +:+ show_N (count_list (Availability.recovered r)) +:+ " ids="
                                                   +:+ join "," (recovered_ids r)));
  _ ← (if bool_decide (length (Availability.refused r) = 0%nat) then mret tt
       else beat env tick "QUEUE_READY_REFUSED" ("refused=" +:+ show_N (count_list (Availability.refused r)) +:+ " ids="
                                                 +:+ join "," (map (λ x, q_id (iq_issue x)) (Availability.refused r))));
  mret r.

Definition window_status (w : RankWindow) : string :=
  match w with
  | RecommendationsOnly => "QUEUE_RANK_RECOMMENDATIONS" | EmptyReady => "QUEUE_RANK_WINDOW_EMPTY"
  | FilteredFiledOnly => "QUEUE_RANK_FILTERED_FILED_ONLY" | _ => "QUEUE_RANK_FALLBACK"
  end.
(** The ready beads in the order of the graph's ranking. *)
Definition rank_step (tick : N) (ready : list QueueIssue) : RM (list string) :=
  let bv := cc_bv cc in
  let unranked next e := "QUEUE_UNRANKED owner=josh next_action=" +:+ next +:+ ": " +:+ e in
  o ← rename_error (unranked "repair-bv-or-escalate") (invoke env bv ["--robot-triage"]);
  triage ← stm_lift (map_err (unranked "repair-bv") (require_success bv o));
  o ← rename_error (unranked "repair-bv-insights") (invoke env bv ["--robot-insights"]);
  insights ← stm_lift (map_err (unranked "repair-bv-insights") (require_success bv o));
  tracker ← ask (cy_tracker cy);
  order ← stm_lift (select_dispatch_order_with_pagerank host_json_error (tx_f64 tx) triage (map q_id ready)
                      (bt_extend (map (λ i, (q_id i, q_priority i)) ready) []) insights
                      (match tracker with Ok text => text | Err _ => EmptyString end) (rc_receiver_agent cfg));
  _ ← beat env tick (window_status (window order))
        ("window=" +:+ window_label (window order) +:+ " rank_source=bv.full_stats.pagerank ready="
         +:+ show_N (count_list ready) +:+ " scored=" +:+ show_N (N.of_nat (scored order)));
  mret (ids order).

Definition withheld_detail (w : PhaseGate.Withheld) : string :=
  "WITHHELD_PHASE_GATE phase=" +:+ PhaseGate.wh_phase w +:+ " blocking_bead=" +:+ PhaseGate.wh_blocking_bead w
  +:+ " — the phase order is binding on dispatch; this candidate is outside the arc and is not in the declared exception set".
Fixpoint withheld_rows (tick : N) (l : list (string * PhaseGate.Withheld)) : RM unit :=
  match l with
  | [] => mret tt
  | (id, w) :: l => _ ← beat env tick "PHASE_GATE_WITHHELD" ("id=" +:+ id +:+ " code=phase_gate " +:+ withheld_detail w);
                    withheld_rows tick l
  end.
Definition phase_step (tick : N) (ids : list string) : RM (list string) :=
  match PhaseGate.apply_phase_gate ids (count PhaseGate.is_arc_member ids) false PhaseGate.PHASE_GATE_ENABLED with
  | Ok o => _ ← beat env tick "PHASE_GATE" (PhaseGate.render o); _ ← withheld_rows tick (PhaseGate.withheld o); mret (PhaseGate.admitted o)
  | Err e =>
      let detail := "code=" +:+ PhaseGate.code e +:+ " " +:+ PhaseGate.gate_error_display e in
      _ ← beat env tick "PHASE_GATE_REFUSED" detail; stm_fail ("PHASE_GATE_REFUSED " +:+ detail)
  end.

(** The build volume and the machine's ledger of test oracles; [false] ends the cycle. *)
Definition disk_step (tick : N) : RM bool :=
  configs ← ask (cy_build_configs cy); ex ← ask (cy_exists cy); df ← ask (cy_df cy);
  p ← stm_lift (disk_pressure (tx_fixed tx) (tx_str tx) ex df
        (resolve_target_dir_with_env (cf_repo cfg) (cy_target_env cy) configs.1 configs.2));
  match p with Some why => _ ← beat env tick "DISK_PRESSURE" why; mret false | None => mret true end.
Definition oracle_step (tick : N) : RM bool :=
  r ← ask (cy_oracle cy);
  match r with Ok _ => mret true | Err e => _ ← beat env tick "WORKER_ORACLE_REFUSED" e; mret false end.

(** ** A dispatch. *)

Record DispatchOutcome := MkOutcome { do_detail : string; do_clear_intent : bool }.
Definition send_detail (prior : N) (r : result string SendVerdict) : string :=
  "prior_dispatches=" +:+ show_N prior +:+
  match r with
  | Ok (Delivered stage) => " verdict=" +:+ verdict_label (delivery stage)
  | Ok v => " status=" +:+ send_status_word v
  | Err e => " send_failed=" +:+ one_line_detail e
  end.
Definition delivered_stage (r : result string SendVerdict) : option AckStageResult :=
  match r with Ok (Delivered stage) => Some stage | _ => None end.
(** The row of the dispatch's cells; that it could not be written or built is printed. *)
Definition cell_row (tick : N) (pane bead : string) (r : result string SendVerdict) : RM unit :=
  match from_facts (facts_from_stage (show_N tick +:+ "-" +:+ pane +:+ "-" +:+ bead) bead pane true true true false true
                      (delivered_stage r) None) with
  | Ok m => _ ← attempt (beat env tick ROW_STATUS (matrix_detail m)); mret tt
  | Err _ => mret tt
  end.

Definition transport_label (stage : AckStageResult) : string := kind_label (kind (AckStage.transport stage)).
Definition silence_outcome (tick : N) (pane bead : string) (stage : AckStageResult) (silence : SilenceVerdict) : RM DispatchOutcome :=
  let unresolved next :=
    mret (MkOutcome ("status=DISPATCH_SILENCE verdict=" +:+ detector silence +:+ " next_action=" +:+ next)
            (clears_pending_dispatch_intent silence)) in
  match silence with
  | VerdictPosted =>
      let facts := "receiver=" +:+ transport_label stage +:+ " ack_action=" +:+ action_label (AckStage.action stage) in
      _ ← beat env tick "DISPATCHED" ("pane=" +:+ pane +:+ " bead=" +:+ bead +:+ " " +:+ facts);
      mret (MkOutcome ("status=DISPATCHED " +:+ facts +:+ " silence_verdict=VERDICT_POSTED") (clears_pending_dispatch_intent silence))
  | TrackerError => unresolved "re-read-tracker"
  | _ => unresolved "inspect-or-resolve-pending"
  end.
Definition verdict_outcome (tick : N) (pane bead receiver : string) (epoch : N) (r : result string SendVerdict) : RM DispatchOutcome :=
  match r with
  | Ok (Delivered stage) =>
      silence ← run_silence_watch env bead (Z.of_N epoch) receiver;
      _ ← beat env tick "DISPATCH_SILENCE_WATCH" ("pane=" +:+ pane +:+ " bead=" +:+ bead +:+ " verdict=" +:+ detector silence);
      silence_outcome tick pane bead stage silence
  | Ok (SIndeterminate reason t) => mret (MkOutcome ("status=DISPATCH_INDETERMINATE reason=" +:+ reason +:+ " transport=" +:+ t) false)
  | Ok (SAckPending after d) => mret (MkOutcome ("status=ACK_PENDING after=" +:+ show_N after +:+ "s" +:+ d) false)
  | Ok (SFailed e) | Err e => stm_fail e
  end.

(** What the rest of a cycle knows when it dispatches. *)
Record Chosen := MkChosen {
  ch_pane : string; ch_row : PaneObservation; ch_bead : string; ch_ids : IdentityRegistries; ch_hold : HoldIntent;
  ch_fresh : bool; ch_degraded : bool; ch_count : N }.

Notation sp := (cy_spine cy).
(** From the preparation to the outcome; [None] is a send that was still polling. *)
Definition dispatch_block (fuel : nat) (tick : N) (c : Chosen) : SM (option DispatchOutcome) :=
  let pane := ch_pane c in let bead := ch_bead c in
  '(snapshot, receiver, admission) ← lift_r (prepare_bead_dispatch env pane (ch_row c) bead (ch_ids c) tick true (ch_hold c)
                                               (ch_fresh c) (ch_degraded c) (ch_count c));
  epoch ← lift_r (now_unix env);
  intent ← lift_r (ask (cy_intent cy));
  _ ← lift_r (on_markers (write_dispatch_intent cfg intent pane bead));
  _ ← emit_step env sp FenceChecked bead pane "per-pane dispatch fence passed; intent written";
  before ← lift_r (capture_pane env pane);
  _ ← emit_step env sp PacketRendered bead pane ("receiver=" +:+ receiver);
  prior ← lift_r (prior_dispatch_count sp bead);
  sent ← lift_r (attempt (send_and_verify env pane bead receiver tick fuel (ch_row c) snapshot before admission (ch_count c)));
  match (match sent with Ok None => None | Ok (Some v) => Some (Ok v) | Err e => Some (Err e) end) with
  | None => mret None
  | Some stage_result =>
      _ ← emit_step env sp (send_kind prior) bead pane (send_detail prior stage_result);
      _ ← lift_r (cell_row tick pane bead stage_result);
      o ← lift_r (verdict_outcome tick pane bead receiver epoch stage_result);
      mret (Some o)
  end.

Definition report_detail (r : result string DispatchOutcome) : string :=
  match r with
  | Ok o => do_detail o
  | Err e => "status=" +:+ dispatch_status_word e +:+ " detail=" +:+ one_line_detail e
  end.
(** The steps and the outcome are on file before the marker is settled. *)
Definition settle (tick : N) (pane bead : string) (r : result string DispatchOutcome) : RM unit :=
  match r with
  | Ok o =>
      if do_clear_intent o then
        a ← ask (cy_ack cy); hb ← ask (e_hb env);
        on_markers (record_successful_dispatch host_json_error cfg a hb tick pane bead)
      else mret tt
  | Err e =>
      _ ← match intent_clear_reason e with
          | None => mret tt
          | Some reason =>
              fault ← ask (cy_clear cy);
              _ ← on_markers (clear_dispatch_intent cfg fault pane);
              beat env tick "DISPATCH_INTENT_CLEARED" ("pane=" +:+ pane +:+ " bead=" +:+ bead +:+ " reason=" +:+ reason
                +:+ " owner=loop next_action=continue")
          end;
      stm_fail e
  end.
Definition conclude (tick : N) (pane bead : string) (l : StepLedger) (r : result string DispatchOutcome) : RM unit :=
  persisted ← attempt (persist_spine env sp l true);
  _ ← match persisted with Ok _ => mret tt | Err e => beat env tick "SPINE_LEDGER_REFUSED" e end;
  let detail := report_detail r in
  reported ← attempt (report_dispatch_result env (tx_list tx) (cy_mail cy) tick pane bead detail);
  match reported with
  | Err e => stm_fail ("DISPATCH_RESULT_LEDGER_WRITE_FAILED source_pane=" +:+ pane +:+ " bead=" +:+ bead +:+ " result=" +:+ detail
               +:+ " owner=josh next_action=repair-heartbeat-ledger report_error=" +:+ e)
  | Ok _ => settle tick pane bead r
  end.
Definition dispatch_bead (fuel : nat) (tick : N) (c : Chosen) (l : StepLedger) : RM (option unit) := λ w,
  match dispatch_block fuel tick c (w, l) with
  | ((w, _), Ok None) => (w, Ok None)
  | ((w, l), Ok (Some o)) => (_ ← conclude tick (ch_pane c) (ch_bead c) l (Ok o); mret (Some tt)) w
  | ((w, l), Err e) => (_ ← conclude tick (ch_pane c) (ch_bead c) l (Err e); mret (Some tt)) w
  end.

Fixpoint cooldown_rows (tick : N) (skipped : list (string * N)) : RM unit :=
  match skipped with
  | [] => mret tt
  | (id, age) :: skipped =>
      _ ← beat env tick "REDISPATCH_COOLDOWN" ("bead=" +:+ id +:+ " age_secs=" +:+ show_N age +:+ " next_action=grade-or-human");
      cooldown_rows tick skipped
  end.
Definition opened (bead pane : string) : RM StepLedger := λ w,
  let '((w, l), r) := emit_step env sp BeadSelected bead pane "selected from the bv-ordered ready queue" (w, ledger_new) in
  (w, match r with Ok _ => Ok l | Err e => Err e end).
Definition dispatch_arm (fuel : nat) (tick : N) (o : Observation) (pane : string) (beads gone : list string) (hold : HoldIntent)
    (fresh degraded : bool) : RM (option unit) :=
  text ← heartbeat_text;
  if bool_decide (select_next_bead beads gone = None) && negb (bool_decide (length gone = 0%nat)) then
    _ ← beat env tick "DISPATCH_MARKER_CLEARED_NO_ALTERNATE"
          ("cleared_beads=" +:+ join "," gone +:+ " next_action=await-new-ready");
    mret (Some tt)
  else
    now ← now_unix env;
    let '(selected, skipped) := select_ready_skipping_cooldown beads text now gone in
    _ ← cooldown_rows tick skipped;
    match selected with
    | None => if bool_decide (length skipped = 0%nat)
              then stm_fail "QUEUE_UNREADABLE ready count changed before bead selection" else mret (Some tt)
    | Some bead =>
        row ← stm_lift (ok_or (find_first (λ p, bool_decide (pane_id p = pane)) (panes o))
                ("DISPATCH_PREFLIGHT_REFUSED bead=" +:+ bead +:+ " pane=" +:+ pane +:+ " observation_row_missing"));
        l ← opened bead pane;
        ids ← load_identity_registries env;
        dispatch_bead fuel tick (MkChosen pane row bead ids hold fresh degraded (count Supervisor.is_dispatchable (panes o))) l
    end.

(** ** The decision and what follows from it. *)

Definition gate_part (census : GateCensus) (name : string) : string + string :=
  match find_first (λ r, bool_decide (gate r = name)) (census_rows census) with
  | Some row =>
      let labels := reachability_label (reachability row) +:+ "→" +:+ next_action (reachability row) +:+ "]" in
      if is_reachable (reachability row) then inr (name +:+ "[now " +:+ labels) else inl (name +:+ "[" +:+ labels)
  | None => inl (name +:+ "[UNKNOWN→investigate-census]")
  end.
Definition gate_detail (census : GateCensus) (unwired : list string) : string :=
  let parts := map (gate_part census) unwired in
  let named := omap (λ p, match p with inl x => Some x | inr _ => None end) parts in
  let disagreed := omap (λ p, match p with inl _ => None | inr x => Some x end) parts in
  "unwired=" +:+ join " " named +:+
  (if bool_decide (length disagreed = 0%nat) then " owner=josh"
   else " census_disagreed=" +:+ join " " disagreed +:+ " owner=josh next_action=investigate-census -- these rows were UNWIRED at decision time and REACHABLE when relabelled seconds later; the census is not stable and its verdict cannot be trusted until it is").

Definition refused_with (tick : N) (status detail error : string) : RM (option unit) :=
  _ ← beat env tick status detail; stm_fail error.
Definition noted (tick : N) (status detail : string) : RM (option unit) :=
  _ ← beat env tick status detail; mret (Some tt).
Definition act (fuel : nat) (tick : N) (o : Observation) (d : SupervisorDecision) (beads gone : list string) (hold : HoldIntent)
    (fresh degraded : bool) : RM (option unit) :=
  match d with
  | AwaitingHuman names => noted tick "AWAITING_HUMAN" names
  | Dispatch pane _ => dispatch_arm fuel tick o pane beads gone hold fresh degraded
  | GateUnwired unwired =>
      census ← ask (cy_census cy);
      let detail := gate_detail census unwired in
      refused_with tick "GATE_UNWIRED" detail ("GATE_UNWIRED " +:+ detail)
  | EscalateIdleIncident n r =>
      noted tick "IDLE_UNAUTHORIZED" ("dispatchable=" +:+ show_N n +:+ " ready=" +:+ show_N r +:+ " next_action=dispatch-or-authorize")
  | MonitorBlind e => refused_with tick "MONITOR_BLIND" e ("MONITOR_BLIND owner=josh next_action=repair-monitor detail=" +:+ e)
  | QueueUnreadable e => refused_with tick "QUEUE_UNREADABLE" e ("QUEUE_UNREADABLE owner=josh next_action=repair-queue detail=" +:+ e)
  | WorkspaceUnloaded e =>
      refused_with tick "WORKSPACE_UNLOADED" e ("WORKSPACE_UNLOADABLE owner=josh next_action=repair-workspace detail=" +:+ e)
  | AuthorizedIdle n at_ => noted tick "IDLE_AUTHORIZED" ("panes=" +:+ show_N n +:+ " expires_at=" +:+ show_N at_)
  | QueueEmptyNeedsJosh n => refused_with tick "QUEUE_EMPTY_NEEDS_JOSH" (queue_empty_detail n) (queue_empty_detail n)
  | SupervisedWorking n r => noted tick "SUPERVISED_WORKING" ("working=" +:+ show_N n +:+ " ready=" +:+ show_N r)
  end.

(** Grading comes before new work: the bead to grade goes to the front of the queue. *)
Definition grade_first (tick : N) (o : Observation) (d : SupervisorDecision) (beads : list string)
    : RM (SupervisorDecision * list string * HoldIntent) :=
  match d with
  | Dispatch _ _ =>
      g ← gate_peer_grading env (cy_tracker cy) ledger_path o tick;
      match g with
      | Claimed c =>
          _ ← stm_lift (refuse_placeholder_identity "bead" (pg_bead c));
          _ ← stm_lift (refuse_placeholder_identity "receiver_pane" (pg_receiver_pane c));
          _ ← stm_lift (refuse_placeholder_identity "grader_pane" (pg_grader_pane c));
          _ ← beat env tick "PEER_GRADING_REQUIRED"
                ("bead=" +:+ pg_bead c +:+ " receiver_pane=" +:+ pg_receiver_pane c +:+ " grader_pane=" +:+ pg_grader_pane c
                 +:+ " requirement=peer-grading-before-new-work");
          mret (Dispatch (pg_grader_pane c) (pg_bead c),
                pg_bead c :: List.filter (λ id, negb (bool_decide (id = pg_bead c))) beads, Grade)
      | _ => mret (d, beads, LifeLedger.Work)
      end
  | _ => mret (d, beads, LifeLedger.Work)
  end.
Definition decision_of (o : Observation) : RM SupervisorDecision :=
  now ← now_unix env; token ← ask (cy_token cy);
  mret (Supervisor.decide o (applicable (read_idle_authorization token now) (cf_session cfg) (panes o) (queue o))).
Definition decide_and_act (fuel : nat) (tick : N) (o : Observation) (beads gone : list string) (fresh degraded : bool)
    : RM (option unit) :=
  d ← decision_of o;
  '(d, beads, hold) ← grade_first tick o d beads;
  _ ← file_supervisor_finding tick d;
  row ← ask (cy_tick_row cy);
  _ ← match row with Some e => beat env tick "TICK_ROW_NOT_WRITTEN" e | None => mret tt end;
  act fuel tick o d beads gone hold fresh degraded.

(** ** The cycle. *)

Definition with_queue (n : N) (o : Observation) : Observation := MkObservation (panes o) (MkQueue n true) (gate_census o).
Definition observed_queue (census : list Effect → option GateCensus) (tick : N) (blocked : list string)
    : RM (Observation * list string) :=
  o ← observe_panes env cc census;
  _ ← observe_ompo_ps env;
  let o := without_panes blocked o in
  _ ← sweep_step tick;
  ready ← readiness_step tick;
  ids ← rank_step tick (Availability.admitted ready);
  ids ← phase_step tick ids;
  mret (with_queue (count_list ids) o, ids).
Definition supervise (census : list Effect → option GateCensus) (fuel : nat) (tick : N) : RM (option unit) :=
  _ ← reconcile_step tick;
  fence ← marker_fence tick;
  match fence with
  | None => mret (Some tt)
  | Some (blocked, gone) =>
      '(fresh, degraded) ← docs_step tick;
      '(o, ids) ← observed_queue census tick blocked;
      room ← disk_step tick;
      if negb room then mret (Some tt)
      else
        oracle ← oracle_step tick;
        if negb oracle then mret (Some tt) else decide_and_act fuel tick o ids gone fresh degraded
  end.
Definition run_cycle_with (census : list Effect → option GateCensus) (fuel : nat) (tick : N) : RM (option unit) :=
  _ ← beat env tick "CYCLE_STARTED" "phase=observe";
  _ ← observe_conformance env;
  _ ← recover_pending_findings tick;
  a ← uds_admission;
  if uds_cycle_allows_new_claim_or_dispatch a then supervise census fuel tick
  else _ ← apply_uds_cycle_halt tick a; mret (Some tt).
(** As it is called: the cycle hands the observation no census. *)
Definition run_cycle : nat → N → RM (option unit) := run_cycle_with (λ _, None).

(** ** The supervisor: its ticks, until it is cancelled or has made as many as it may.

    [None] is a supervisor that is still running. *)
Definition last_tick (tick : N) : bool := match cc_max_ticks cc with Some m => (m <=? tick)%N | None => false end.
Definition one_tick (fuel : nat) (tick : N) : RM (option unit) := λ w,
  match run_cycle fuel tick w with
  | (w, Ok r) => (w, Ok r)
  | (w, Err e) =>
      (_ ← attempt (beat env tick "SUPERVISOR_REFUSED" e);
       if contains e "GATE_UNWIRED" && negb SURVIVE_GATE_UNWIRED then stm_fail e else mret (Some tt)) w
  end.
Fixpoint run_supervisor (fuel polls : nat) (tick : N) : RM (option unit) :=
  match fuel with
  | O => mret None
  | S fuel =>
      _ ← checkpoint env "CANCELLED supervisor loop";
      let tick := (tick + 1)%N in
      r ← one_tick polls tick;
      match r with
      | None => mret None
      | Some _ => if last_tick tick then mret (Some tt) else _ ← rsleep; run_supervisor fuel polls tick
      end
  end.
End Cycle.

(** ** What a cycle may do before it decides: read, and write rows that are no dispatch. *)

Definition DISPATCH_ROWS : list string :=
  ["DISPATCHED"; "DISPATCH_CLAIMED"; "DISPATCH_RESULT_RECORDED"; "DISPATCH_SILENCE_WATCH"; "AT_SEND_CAPTURE"; "PEER_GRADING_REQUIRED"].
Definition QUERIES : list string :=
  ["--repo"; "version"; "target-gate"; "show"; "observe"; "ps"; "--robot-triage"; "--robot-insights"].
Definition observing (e : Effect) : bool :=
  match e with
  | ERun _ args => match args with a :: _ => bool_decide (a ∈ QUERIES) | [] => false end
  | EBeat status _ _ => negb (bool_decide (status ∈ DISPATCH_ROWS))
  | EJournal _ _ | EAdmit _ _ | EMail _ _ | EStage _ _ | EUnstage _ => false
  | EClock | EAppend _ _ | ESleep => true
  end.
Lemma observing_quiet e : observing e = true → is_send e = false.
Proof.
  destruct e as [p [|a l]| | | | | | | | |]; try done. cbn [observing]. intros Ha%bool_decide_eq_true. unfold QUERIES in Ha.
  repeat (apply elem_of_cons in Ha as [->|Ha]; [reflexivity|]). by apply elem_of_nil in Ha.
Qed.

Section Observing.
Context (P : Effect → Prop) (HP : ∀ e, observing e = true → P e).
Context `{SerdeJson, ToJson, Unicode, BrShowDecode, Host} (env : Env) (cc : CycleConfig) (cy : CycleEnv) (tx : Texts)
  (spool_path : string).

Ltac obs := effects_walk; try (intros; apply HP; reflexivity).
Lemma ask_effects {A} (f : list Effect → A) : Effects P (ask f).
Proof. apply effects_bind; [apply effects_trace|]. intros t. apply effects_ret. Qed.
Lemma markers_effects {A} (m : StM Pending.World string A) : Effects P (on_markers m).
Proof. apply effects_same. intros w. unfold on_markers. by destruct (m (r_pend w)). Qed.
Lemma text_effects : Effects P (heartbeat_text cy).
Proof. apply effects_bind; [apply effects_get|]. intros w. apply effects_ret. Qed.
Hint Resolve ask_effects markers_effects text_effects : effects.

Lemma recover_effects tick : Effects P (recover_pending_findings env cy spool_path tick).
Proof. unfold recover_pending_findings. obs. Qed.
Lemma finding_effects tick d : Effects P (file_supervisor_finding env cy tx tick d).
Proof. unfold file_supervisor_finding. obs. Qed.
Lemma halt_effects tick a : Effects P (apply_uds_cycle_halt env tick a).
Proof. unfold apply_uds_cycle_halt. obs. Qed.
Lemma admission_effects : Effects P (uds_admission env cc).
Proof. unfold uds_admission, observe_uds_target_gate, UdsGate.spawn. obs. Qed.
Lemma conformance_effects : Effects P (observe_conformance env).
Proof. unfold observe_conformance. obs. Qed.
Lemma reconcile_step_effects tick : Effects P (reconcile_step env cy tick).
Proof.
  unfold reconcile_step. apply effects_bind; [apply effects_attempt, reconcile_effects; intros; apply HP; reflexivity|].
  intros r. obs.
Qed.
Lemma fence_effects tick : Effects P (marker_fence env cy tick).
Proof. unfold marker_fence. obs. Qed.
Lemma docs_effects tick : Effects P (docs_step env cy tick).
Proof. unfold docs_step. obs. Qed.
Lemma sweep_effects tick : Effects P (sweep_step env cy tick).
Proof. unfold sweep_step, run_finished_pane_sweep. obs. Qed.
Lemma readiness_effects tick : Effects P (readiness_step env cy tick).
Proof. unfold readiness_step. obs. Qed.
Lemma rank_effects tick ready : Effects P (rank_step env cc cy tx tick ready).
Proof.
  unfold rank_step. cbv zeta. obs. intros ok. apply HP. unfold window_status.
  match goal with |- context [window ?x] => by destruct (window x) end.
Qed.
Lemma withheld_effects tick l : Effects P (withheld_rows env tick l).
Proof. induction l as [|[id w] l IH]; cbn [withheld_rows]; [apply effects_ret|]. apply effects_bind; [obs|by intros _]. Qed.
Lemma phase_effects tick ids : Effects P (phase_step env tick ids).
Proof. unfold phase_step. obs. by apply withheld_effects. Qed.
Lemma disk_effects tick : Effects P (disk_step env cy tx tick).
Proof. unfold disk_step. obs. Qed.
Lemma oracle_effects tick : Effects P (oracle_step env cy tick).
Proof. unfold oracle_step. obs. Qed.
Lemma decision_effects o : Effects P (decision_of env cy o).
Proof. unfold decision_of. obs. Qed.
Lemma observe_effects census : Effects P (observe_panes env cc census).
Proof. unfold observe_panes, monitor_args. obs. Qed.
Lemma ompo_effects : Effects P (observe_ompo_ps env).
Proof. unfold observe_ompo_ps. obs. Qed.
End Observing.
#[export] Hint Resolve ask_effects markers_effects text_effects recover_effects finding_effects halt_effects admission_effects
  conformance_effects reconcile_step_effects fence_effects docs_effects sweep_effects readiness_effects rank_effects
  phase_effects disk_effects oracle_effects decision_effects observe_effects ompo_effects : effects.

(** ** A cycle that was given no census. *)

(** The rows of the four ways a cycle ends without a refusal and without a decision. *)
Definition HALTS : list string := ["NO_DISPATCH_TICK"; "DISPATCH_RETRY_BLOCKED"; "DISK_PRESSURE"; "WORKER_ORACLE_REFUSED"].
Definition halted (w w' : RWorld) : Prop :=
  ∃ t st d, r_trace w' = app t (r_trace w) ∧ EBeat st d true ∈ t ∧ st ∈ HALTS.
Lemma halted_after P w w1 w2 : extends P w w1 → halted w1 w2 → halted w w2.
Proof.
  intros (t1 & H1 & _) (t & st & d & H2 & Hin & Hst). exists (app t t1), st, d.
  rewrite H2, H1, app_assoc. split_and!; [done| |done]. apply elem_of_app. by left.
Qed.
Lemma halted_before P w w1 w2 : halted w w1 → extends P w1 w2 → halted w w2.
Proof.
  intros (t & st & d & H1 & Hin & Hst) (t2 & H2 & _). exists (app t2 t), st, d.
  rewrite H2, H1, app_assoc. split_and!; [done| |done]. apply elem_of_app. by right.
Qed.
Definition Halting (m : RM (option unit)) : Prop := ∀ w w' r, m w = (w', Ok r) → r = Some tt ∧ halted w w'.
Lemma halting_after {A} P (m : RM A) f :
  Effects P m → (∀ w w' a, m w = (w', Ok a) → Halting (f a)) → Halting (m ≫= f).
Proof.
  intros Hm Hf w w' r. rewrite stm_bind_ok. intros (w1 & a & Hr & Ha). destruct (Hf _ _ _ Hr _ _ _ Ha) as [-> Hh].
  split; [done|]. specialize (Hm w). rewrite Hr in Hm. by eapply halted_after.
Qed.

Section Blind.
Context `{SerdeJson, ToJson, Unicode, BrShowDecode, Host} (env : Env) (cc : CycleConfig) (cy : CycleEnv) (tx : Texts)
  (ledger_path spool_path : string).
Notation cfg := (e_cfg env).
Definition seen (e : Effect) : Prop := observing e = true.
Ltac sees := first [apply recover_effects | apply finding_effects | apply halt_effects | apply admission_effects
  | apply conformance_effects | apply reconcile_step_effects | apply fence_effects | apply docs_effects
  | apply disk_effects | apply oracle_effects | apply decision_effects | apply ask_effects]; first [exact (λ e H, H) | assumption].

Lemma beat_halts tick st d w w' u : beat env tick st d w = (w', Ok u) → st ∈ HALTS → halted w w'.
Proof.
  intros Hb%beat_traced Hst. by exists [EBeat st d true], st, d; split_and!; [|apply list_elem_of_here|].
Qed.
Lemma beat_seen tick st d w w' r : beat env tick st d w = (w', r) → st ∉ DISPATCH_ROWS → extends seen w w'.
Proof.
  intros Hb Hs. eapply (effects_run seen), Hb. apply effects_beat. intros ok. unfold seen. cbn. by apply negb_true_iff, bool_decide_eq_false.
Qed.
Lemma fence_halts tick w w' : marker_fence env cy tick w = (w', Ok None) → halted w w'.
Proof.
  unfold marker_fence. rewrite stm_bind_ok. intros (w1 & dir & [= <- _] & Hr). rewrite stm_bind_ok in Hr.
  destruct Hr as (w2 & row & [= <- _] & Hr). rewrite stm_bind_ok in Hr. destruct Hr as (w3 & f & Hf & Hr).
  eapply (halted_after seen); [match type of Hf with ?m w = _ => pose proof (markers_effects seen _ w : extends seen w (m w).1) as He end;
    rewrite Hf in He; exact He|]. clear Hf.
  destruct f as [o|detail reason path]; rewrite stm_bind_ok in Hr; destruct Hr as (w4 & u & Hb & Hr); [done|].
  injection Hr as <-. eapply beat_halts; [exact Hb|]. unfold HALTS. set_solver.
Qed.
Lemma disk_halts tick w w' : disk_step env cy tx tick w = (w', Ok false) → halted w w'.
Proof.
  unfold disk_step. do 3 (rewrite stm_bind_ok; intros (? & ? & [= <- _] & Hr); revert Hr).
  rewrite stm_bind_ok. intros (w1 & p & [= <- _] & Hr). destruct p; [|done]. revert Hr.
  rewrite stm_bind_ok. intros (w2 & u & Hb & [= <-]). eapply beat_halts; [exact Hb|]. unfold HALTS. set_solver.
Qed.
Lemma oracle_halts tick w w' : oracle_step env cy tick w = (w', Ok false) → halted w w'.
Proof.
  unfold oracle_step. rewrite stm_bind_ok. intros (? & r & [= <- _] & Hr). destruct r; [done|]. revert Hr.
  rewrite stm_bind_ok. intros (w2 & u & Hb & [= <-]). eapply beat_halts; [exact Hb|]. unfold HALTS. set_solver.
Qed.

(** The observation carries the census it was given, all the way to the decision. *)
Lemma observe_census census w w' o : observe_panes env cc census w = (w', Ok o) → ∃ t, gate_census o = census t.
Proof.
  unfold observe_panes. rewrite stm_bind_ok. intros (w1 & bytes & _ & Hr). rewrite stm_bind_ok in Hr.
  destruct Hr as (w2 & t & _ & Hr). rewrite stm_bind_ok in Hr. destruct Hr as (w3 & o' & Ho & Hr).
  injection Hr as _ <-. exists t. cbn. injection Ho as _ Ho. revert Ho. unfold parse_observation.
  intros (v & _ & (rows & _ & Hr)%bind_ok)%bind_ok. case_bool_decide; [done|].
  by apply bind_ok in Hr as (ps & _ & [= <-]).
Qed.
Lemma queue_census census tick blocked w w' o ids :
  observed_queue env cc cy tx census tick blocked w = (w', Ok (o, ids)) → ∃ t, gate_census o = census t.
Proof.
  unfold observed_queue. rewrite stm_bind_ok. intros (w1 & o1 & Ho & Hr). apply observe_census in Ho as [t Ho].
  do 5 (rewrite stm_bind_ok in Hr; destruct Hr as (? & ? & _ & Hr)). injection Hr as _ <- _. by exists t.
Qed.
Lemma queue_effects P census tick blocked :
  (∀ e, observing e = true → P e) → Effects P (observed_queue env cc cy tx census tick blocked).
Proof.
  intros HP. unfold observed_queue. apply effects_bind; [by apply observe_effects|]. intros o. apply effects_bind; [by apply ompo_effects|].
  intros _. cbv zeta. apply effects_bind; [by apply sweep_effects|]. intros _. apply effects_bind; [by apply readiness_effects|].
  intros r. apply effects_bind; [by apply rank_effects|]. intros l. apply effects_bind; [by apply phase_effects|].
  intros l'. apply effects_ret.
Qed.

(** Without a census there is nothing to decide. *)
Lemma unwired_decision o w :
  gate_census o = None → ∃ w', decision_of env cy o w = (w', Ok (GateUnwired ["CENSUS_NOT_PERFORMED"])).
Proof. intros Ho. unfold decision_of, Supervisor.decide. rewrite Ho. by eexists. Qed.
Lemma decided_unwired o w w' d :
  gate_census o = None → decision_of env cy o w = (w', Ok d) → d = GateUnwired ["CENSUS_NOT_PERFORMED"].
Proof. intros Ho Hd. destruct (unwired_decision o w Ho) as [w1 Hw]. rewrite Hw in Hd. by injection Hd as _ <-. Qed.
Lemma blind_effects fuel tick o beads gone fresh degraded :
  gate_census o = None → Effects seen (decide_and_act env cy tx ledger_path fuel tick o beads gone fresh degraded).
Proof.
  intros Ho. unfold decide_and_act. apply effects_bind_with; [sees|]. intros w w' d Hd.
  apply (decided_unwired _ _ _ _ Ho) in Hd as ->. revert w'. cbn [grade_first].
  apply effects_bind_with; [apply effects_ret|]. intros w1 w2 x Hx. injection Hx as _ <-. revert w2.
  apply effects_bind; [sees|]. intros _. apply effects_bind; [sees|]. intros row.
  apply effects_bind; [destruct row; [by apply effects_beat|apply effects_ret]|]. intros _. cbn [act].
  apply effects_bind; [sees|]. intros c. unfold refused_with. apply effects_bind; [by apply effects_beat|]. intros _. apply effects_fail.
Qed.
Lemma blind_fails fuel tick o beads gone fresh degraded w w' r :
  gate_census o = None → decide_and_act env cy tx ledger_path fuel tick o beads gone fresh degraded w ≠ (w', Ok r).
Proof.
  intros Ho. unfold decide_and_act. rewrite stm_bind_ok. intros (w1 & d & Hd & Hr).
  apply (decided_unwired _ _ _ _ Ho) in Hd as ->. revert Hr. cbn [grade_first].
  rewrite stm_bind_ok. intros (w2 & x & Hx & Hr). injection Hx as _ <-. revert Hr.
  do 3 (rewrite stm_bind_ok; intros (? & ? & _ & Hr); revert Hr). cbn [act].
  rewrite stm_bind_ok. intros (w3 & c & _ & Hr). revert Hr. cbv zeta. unfold refused_with.
  rewrite stm_bind_ok. by intros (w4 & u & _ & Hr).
Qed.
Notation run_cycle_with := (run_cycle_with env cc cy tx ledger_path spool_path).
Notation run_cycle := (run_cycle env cc cy tx ledger_path spool_path).

Lemma cycle_effects fuel tick : Effects seen (run_cycle fuel tick).
Proof.
  unfold Cycle.run_cycle, Cycle.run_cycle_with. apply effects_bind; [by apply effects_beat|]. intros _.
  apply effects_bind; [sees|]. intros _. apply effects_bind; [sees|]. intros _. apply effects_bind; [sees|]. intros a.
  destruct (uds_cycle_allows_new_claim_or_dispatch a); [|apply effects_bind; [sees|]; intros _; apply effects_ret].
  unfold supervise. apply effects_bind; [sees|]. intros _. apply effects_bind; [sees|]. intros [[blocked gone]|]; [|apply effects_ret].
  apply effects_bind; [sees|]. intros [fresh degraded]. apply effects_bind_with; [by apply queue_effects|].
  intros w1 w2 [o ids] [t Ho]%queue_census. revert w2.
  apply effects_bind; [sees|]. intros [|]; [|apply effects_ret]. cbn [negb]. apply effects_bind; [sees|].
  intros [|]; [|apply effects_ret]. cbn [negb]. by apply blind_effects.
Qed.
Lemma cycle_halts fuel tick : Halting (run_cycle fuel tick).
Proof.
  unfold Cycle.run_cycle, Cycle.run_cycle_with. apply (halting_after seen); [by apply effects_beat|]. intros _ _ _ _.
  apply (halting_after seen); [sees|]. intros _ _ _ _. apply (halting_after seen); [sees|]. intros _ _ _ _.
  apply (halting_after seen); [sees|]. intros _ _ a _.
  destruct (uds_cycle_allows_new_claim_or_dispatch a).
  - unfold supervise. apply (halting_after seen); [sees|]. intros _ _ _ _. intros w w' r.
    rewrite stm_bind_ok. intros (w1 & f & Hf & Hr). destruct f as [[blocked gone]|].
    2:{ injection Hr as <- <-. split; [done|]. by eapply fence_halts. }
    pose proof (fence_effects seen (λ e H, H) env cy tick w) as He. rewrite Hf in He. cbn [fst] in He.
    match type of Hr with ?m w1 = _ => enough (Halting m) as Hm by
      (destruct (Hm _ _ _ Hr) as [-> ?]; split; [done|]; by eapply halted_after) end. clear Hf He Hr w w' r w1.
    apply (halting_after seen); [sees|]. intros _ _ [fresh degraded] _.
    apply (halting_after seen); [by apply queue_effects|]. intros _ _ [o ids] [t Ho]%queue_census.
    intros w w' r. rewrite stm_bind_ok. intros (w1 & b & Hb & Hr). destruct b; cbn [negb] in Hr.
    2:{ injection Hr as <- <-. split; [done|]. by eapply disk_halts. }
    pose proof (disk_effects seen (λ e H, H) env cy tx tick w) as He. rewrite Hb in He. cbn [fst] in He.
    match type of Hr with ?m w1 = _ => enough (Halting m) as Hm by
      (destruct (Hm _ _ _ Hr) as [-> ?]; split; [done|]; by eapply halted_after) end. clear Hb He Hr w w' r w1.
    intros w w' r. rewrite stm_bind_ok. intros (w1 & b & Hb & Hr). destruct b; cbn [negb] in Hr.
    2:{ injection Hr as <- <-. split; [done|]. by eapply oracle_halts. }
    by apply blind_fails in Hr.
  - intros w w' r. rewrite stm_bind_ok. intros (w1 & u & Hu & [= <- <-]). split; [done|].
    revert Hu. unfold apply_uds_cycle_halt. destruct a as [obs|detail|detail]; [done|..];
      rewrite stm_bind_ok; intros (w2 & u2 & Ha & Hb);
      (eapply halted_after; [eapply beat_seen; [done|by eapply (proj1 (bool_decide_eq_false _))]|]).
    + eapply beat_halts; [exact Hb|]. unfold HALTS. set_solver.
    + rewrite stm_bind_ok in Hb. destruct Hb as (w3 & u3 & Hb & Hc). injection Hc as <-.
      eapply beat_halts; [exact Hb|]. unfold HALTS. set_solver.
Qed.

Lemma tick_effects fuel tick : Effects seen (one_tick env cc cy tx ledger_path spool_path fuel tick).
Proof.
  intros w. unfold one_tick. pose proof (cycle_effects fuel tick w) as He.
  destruct (run_cycle fuel tick w) as [w1 [r|e]]; [done|]. etrans; [exact He|]. clear He. cbn [fst]. revert w1.
  match goal with |- ∀ w1, extends seen w1 (?m w1).1 => change (Effects seen m) end.
  apply effects_bind; [by apply effects_attempt, effects_beat|]. intros _. destruct (_ && _); [apply effects_fail|apply effects_ret].
Qed.
Lemma supervisor_effects fuel polls tick : Effects seen (run_supervisor env cc cy tx ledger_path spool_path fuel polls tick).
Proof.
  revert tick. induction fuel as [|fuel IH]; intros tick; cbn [run_supervisor]; [apply effects_ret|].
  apply effects_bind; [apply effects_checkpoint|]. intros _. cbv zeta. apply effects_bind; [apply tick_effects|].
  intros [u|]; [|apply effects_ret]. destruct (last_tick _ _); [apply effects_ret|].
  apply effects_bind; [by apply effects_sleep|]. intros _. apply IH.
Qed.
(** A tick always ends, whatever became of its cycle. *)
Lemma tick_ends fuel tick w w' r : one_tick env cc cy tx ledger_path spool_path fuel tick w = (w', Ok r) → r = Some tt.
Proof.
  unfold one_tick. destruct (run_cycle fuel tick w) as [w1 [x|e]] eqn:Hc.
  - intros [= <- <-]. by apply cycle_halts in Hc as [-> _].
  - rewrite stm_bind_ok. intros (w2 & u & _ & Hr). destruct (_ && _); [done|]. by injection Hr as _ <-.
Qed.

(** C4: A cycle sends nothing, stages nothing, claims nothing and journals nothing, for every
    answer of the outside: it hands the observation no census of the gates, and without
    one the decision is that the gates are unwired.  Whenever it returns without a
    refusal, it had stopped before the decision, and its row says at which of the four
    halts. *)
Theorem cycle_never_dispatches fuel tick w :
  extends (λ e, observing e = true) w (run_cycle fuel tick w).1 ∧
  ∀ w' r, run_cycle fuel tick w = (w', Ok r) → r = Some tt ∧ halted w w'.
Proof. split; [apply cycle_effects|]. intros w' r. apply cycle_halts. Qed.

(** C40: The supervisor, however long it runs, does nothing else either; and with a bound on
    its ticks it stops. *)
Theorem supervisor_only_observes polls w :
  (∀ fuel tick, extends (λ e, observing e = true) w (run_supervisor env cc cy tx ledger_path spool_path fuel polls tick w).1) ∧
  ∀ bound, cc_max_ticks cc = Some bound →
    (run_supervisor env cc cy tx ledger_path spool_path (S (N.to_nat bound)) polls 0 w).2 ≠ Ok None.
Proof.
  split; [intros fuel tick; apply supervisor_effects|]. intros bound Hb.
  assert (∀ fuel tick w w', (N.to_nat bound < N.to_nat tick + fuel)%nat → fuel ≠ O →
            run_supervisor env cc cy tx ledger_path spool_path fuel polls tick w ≠ (w', Ok None)) as Hend.
  { intros fuel. induction fuel as [|fuel IH]; intros tick w0 w' Hle Hne; [done|]. cbn [run_supervisor].
    rewrite stm_bind_ok. intros (w2 & u & _ & Hr). revert Hr.
    cbv zeta. rewrite stm_bind_ok. intros (w3 & x & Hx%tick_ends & Hr). subst x. revert Hr.
    unfold last_tick. rewrite Hb. destruct (bound <=? tick + 1)%N eqn:Hlast; [done|]. apply N.leb_gt in Hlast.
    rewrite stm_bind_ok. intros (w4 & v & _ & Hr). apply IH in Hr; [done|lia|lia]. }
  intros Hn. eapply (Hend (S (N.to_nat bound)) 0%N w); [lia|done|].
  rewrite <-Hn. apply surjective_pairing.
Qed.

(** ** A cycle that is given a census. *)







(** The phase gate refuses an empty queue although it is switched off, so no cycle decides
    over one: that the queue is empty, or could not be read, is never its verdict. *)
Theorem queue_alarm_unreachable census tick blocked w w' o ids :
  observed_queue env cc cy tx census tick blocked w = (w', Ok (o, ids)) →
  ids ≠ [] ∧ readable (queue o) = true ∧
  ∀ a, (∀ n, Supervisor.decide o a ≠ QueueEmptyNeedsJosh n) ∧ (∀ e, Supervisor.decide o a ≠ QueueUnreadable e).
Proof.
  unfold observed_queue. rewrite stm_bind_ok. intros (? & x & _ & Hr). revert Hr.
  do 4 (rewrite stm_bind_ok; intros (? & ? & _ & Hr); revert Hr). rewrite stm_bind_ok. intros (w1 & l & Hp & [= _ <- <-]).
  assert (l ≠ []) as Hl.
  { revert Hp. unfold phase_step, PhaseGate.apply_phase_gate.
    case_bool_decide as Hne; [rewrite stm_bind_ok; by intros (w2 & u & _ & Hr)|]. unfold PhaseGate.PHASE_GATE_ENABLED. cbn [negb].
    rewrite stm_bind_ok. intros (w2 & u & _ & Hr). rewrite stm_bind_ok in Hr. destruct Hr as (w3 & v & _ & Hr). by injection Hr as _ <-. }
  split_and!; [done..|]. intros a.
  assert (ready_count (queue (with_queue (count_list l) x)) =? 0 = false)%N as Hz.
  { cbn. apply N.eqb_neq. unfold count_list. destruct l; [done|]. cbn. lia. }
  split; intros y; unfold Supervisor.decide;
    (destruct (gate_census_decision _) as [d|] eqn:Hg; [apply gate_decision_unwired in Hg as [k ->]; done|]);
    (case_bool_decide; [done|]); cbn [queue with_queue readable negb]; cbv zeta;
    (destruct (negb _); [done|]); cbn [queue with_queue ready_count] in Hz |- *; rewrite Hz;
    (destruct (List.filter _ _); [|done]); (destruct (_ <? _)%N; [by destruct (expiry a)|done]).
Qed.
End Blind.
