(* ===== verification/NtmKernel.v ===== *)
(** * The kernel through which NTM is asked

    ntm-kernel/src/lib.rs: the argument vector of a call, the four outcomes of an answer,
    the motion between two snapshots, the presence of a pane in a health payload, and the
    census of rate-limited panes with its three values.  What the program [ntm] answers is
    an argument. *)

From stdpp Require Import base numbers list option strings.
From Stdlib Require Import NArith ZArith Ascii Lia.
From S2P Require Import Prelude RustStr Order Utf8 Json DecisionLedger ClaimFence PaneFence Lifecycle LifeLedger TickMonitor Receipt AckStage Pending Packet Activity Resident.

(** ** A call and its arguments. *)

Inductive NtmVerb := AgentHealth | Dialogs | AnswerDialog | Interrupt | InspectPane | FleetHealth | Assign | IsWorking.
Definition flag (v : NtmVerb) : string :=
  match v with
  | AgentHealth => "--robot-agent-health" | Dialogs => "--robot-dialogs" | AnswerDialog => "--robot-answer-dialog"
  | Interrupt => "--robot-interrupt" | InspectPane => "--robot-inspect-pane" | FleetHealth => "--robot-fleet-health"
  | IsWorking => "--robot-is-working" | Assign => "--assign"
  end.
Definition pane_selector_flag (v : NtmVerb) : string := match v with InspectPane => "--inspect-index" | _ => "--panes" end.

Record NtmCall := MkCall {
  nc_verb : NtmVerb; nc_session : option string; nc_panes : option string; nc_subcommand : option (list string);
  nc_extra : list string }.
Definition on_session (v : NtmVerb) (session : string) : NtmCall := MkCall v (Some session) None None [].
Definition bare (v : NtmVerb) : NtmCall := MkCall v None None None [].
Definition subcommand (parts : list string) : NtmCall := MkCall Assign None None (Some parts) [].
Definition with_panes (panes : string) (c : NtmCall) : NtmCall :=
  MkCall (nc_verb c) (nc_session c) (Some panes) (nc_subcommand c) (nc_extra c).
Definition args (l : list string) (c : NtmCall) : NtmCall :=
  MkCall (nc_verb c) (nc_session c) (nc_panes c) (nc_subcommand c) (app (nc_extra c) l).
Definition arg (a : string) : NtmCall → NtmCall := args [a].
Definition argv (c : NtmCall) : list string :=
  app (match nc_subcommand c with
       | Some parts => parts
       | None => match nc_session c with
                 | Some session => [flag (nc_verb c) +:+ "=" +:+ session]
                 | None => [flag (nc_verb c)]
                 end
       end)
    (app (match nc_panes c with Some p => [pane_selector_flag (nc_verb c) +:+ "=" +:+ p] | None => [] end) (nc_extra c)).

(** ** The outcome of an answer. *)

Inductive NtmOutcome :=
  | Answered (payload : Json)
  | Refused (exit_code : option Z) (stderr : string)
  | Unparsable (exit_code : option Z) (detail : string)
  | Unanswerable (reason_code detail : string).
Definition payload (o : NtmOutcome) : option Json := match o with Answered p => Some p | _ => None end.
Definition is_answered (o : NtmOutcome) : bool := match o with Answered _ => true | _ => false end.
Definition outcome_state (o : NtmOutcome) : string :=
  match o with
  | Answered _ => "ANSWERED" | Refused _ _ => "REFUSED" | Unparsable _ _ => "UNPARSABLE" | Unanswerable _ _ => "UNANSWERABLE"
  end.

Section Answer.
Context `{SerdeJson}.

Definition classify_answer (o : Output) : NtmOutcome :=
  if negb (success o) then Refused (o_code o) (utf8_lossy (o_stderr o))
  else match from_str (o_stdout o) with
       | None => Unparsable (o_code o) "stdout is not JSON"
       | Some p =>
           if bool_decide ((json_get "success" p ≫= as_bool) = Some true) then Answered p
           else Unparsable (o_code o) "payload.success is not true"
       end.
(** [deadline] is the [{:?}] of the duration. *)
Definition unanswered (deadline : string) (c : NtmCall) (a : RunAnswer) : NtmOutcome + Output :=
  match a with
  | Exited o => inr o
  | RunTimedOut => inl (Unanswerable "NTM_TIMEOUT" ("ntm " +:+ join " " (argv c) +:+ " exceeded " +:+ deadline))
  | RunFailed e => inl (Unanswerable "NTM_UNAVAILABLE" e)
  end.
Definition invoke_bounded (deadline : string) (c : NtmCall) (a : RunAnswer) : NtmOutcome :=
  match unanswered deadline c a with inr o => classify_answer o | inl u => u end.
Record NtmRun := MkRun { nr_argv : list string; nr_success : bool; nr_exit : option Z; nr_stdout : string; nr_stderr : string }.
Definition run_bounded (deadline : string) (c : NtmCall) (a : RunAnswer) : result NtmOutcome NtmRun :=
  match unanswered deadline c a with
  | inr o => Ok (MkRun (argv c) (success o) (o_code o) (utf8_lossy (o_stdout o)) (utf8_lossy (o_stderr o)))
  | inl u => Err u
  end.
Definition invoke_async (a : result string Output) : NtmOutcome :=
  match a with Ok o => classify_answer o | Err e => Unanswerable "NTM_UNAVAILABLE" e end.
End Answer.

(** ** Motion and presence. *)

Record PaneSnapshot := MkSnap { sn_pane : string; sn_lines : N; sn_chars : N; sn_digest : string }.
Inductive Motion := Moved | Still | Indeterminate.
Definition motion (first second : PaneSnapshot) : Motion :=
  if negb (bool_decide (sn_pane first = sn_pane second)) || is_empty (sn_digest first) || is_empty (sn_digest second)
  then Indeterminate
  else if bool_decide (sn_digest first = sn_digest second) then Still else Moved.

Definition panes_map (p : Json) : option (list (string * Json)) := json_get "panes" p ≫= as_object.
Definition pane_denominator (p : Json) : result string N :=
  match panes_map p with Some m => Ok (N.of_nat (length m)) | None => Err "NTM_NO_PANE_MAP" end.
Inductive Presence := Healthy | Critical | Absent.
Definition presence (p : Json) (pane : string) : Presence :=
  match panes_map p ≫= map_get pane with
  | None => Absent
  | Some row => if (0 <? default 0 (json_get "critical_count" row ≫= as_u64))%N then Critical else Healthy
  end.

(** ** The census of rate limits. *)

Inductive RateLimitCensus := Known (panes : list (string * bool)) | CensusUnknown (reason : string).
Definition is_rate_limited (c : RateLimitCensus) (pane : string) : option bool :=
  match c with Known m => bt_get pane m | CensusUnknown _ => None end.
Definition bound (c : RateLimitCensus) : string :=
  match c with
  | Known m => "KNOWN panes=" +:+ show_N (N.of_nat (length m))
  | CensusUnknown reason => "UNKNOWN " +:+ reason
  end.
Definition limited_row (kv : string * Json) : option (string * bool) :=
  b ← (json_get "local_state" kv.2 ≫= json_get "is_rate_limited") ≫= as_bool; Some (kv.1, b).
Definition rate_limited_from_payload (document : Json) : RateLimitCensus :=
  match panes_map document with
  | None => CensusUnknown "payload carried no `panes` object"
  | Some m => Known (bt_extend (omap limited_row m) [])
  end.
Definition rate_limited_call (session : string) : NtmCall := arg "--no-caut" (on_session AgentHealth session).
Definition rate_limited_panes `{SerdeJson} (deadline session : string) (a : RunAnswer) : RateLimitCensus :=
  let o := invoke_bounded deadline (rate_limited_call session) a in
  match payload o with
  | Some document => rate_limited_from_payload document
  | None => CensusUnknown ("agent-health " +:+ outcome_state o)
  end.

(** ** What an answer says. *)

Section Facts.
Context `{SerdeJson}.

(** Only a command that exited with success and printed an object that says so itself is
    an answer. *)
Theorem answered_iff o p :
  classify_answer o = Answered p ↔
  success o = true ∧ from_str (o_stdout o) = Some p ∧ json_get "success" p ≫= as_bool = Some true.
Proof.
  unfold classify_answer. destruct (success o); cbn [negb]; [|naive_solver].
  destruct (from_str (o_stdout o)) as [q|]; [|naive_solver]. case_bool_decide; naive_solver.
Qed.

Lemma bt_get_extend_absent {A} (kvs l : list (string * A)) k :
  k ∉ map fst kvs → bt_get k (bt_extend kvs l) = bt_get k l.
Proof.
  revert l. induction kvs as [|[j v] kvs IH]; intros l Hk; [done|].
  change (bt_extend ((j, v) :: kvs) l) with (bt_extend kvs (bt_insert j v l)).
  rewrite IH by (intros Hin; apply Hk; cbn; by right). rewrite bt_get_insert. case_decide as He; [|done].
  subst j. destruct Hk. cbn. by left.
Qed.
Lemma bt_get_extend_once {A} (kvs l : list (string * A)) k v :
  NoDup (map fst kvs) → (k, v) ∈ kvs → bt_get k (bt_extend kvs l) = Some v.
Proof.
  revert l. induction kvs as [|[j w] kvs IH]; intros l Hnd Hin; [by apply elem_of_nil in Hin|].
  cbn [map fst] in Hnd. apply NoDup_cons in Hnd as [Hj Hnd].
  change (bt_extend ((j, w) :: kvs) l) with (bt_extend kvs (bt_insert j w l)).
  apply elem_of_cons in Hin as [[= <- <-]|Hin]; [|by apply IH].
  rewrite bt_get_extend_absent by done. rewrite bt_get_insert. by rewrite decide_True.
Qed.
Lemma limited_keys m : map fst (omap limited_row m) `sublist_of` map fst m.
Proof.
  induction m as [|[k row] m IH]; [done|]. cbn [omap list_omap map]. unfold limited_row at 1. cbn [snd fst].
  destruct (_ ≫= as_bool) as [b|]; cbn; [by apply sublist_skip|by apply sublist_cons].
Qed.

(** A pane is called limited, or free of a limit, exactly when the payload names it with
    that very value; a pane the payload does not name, and a payload that could not be
    had, say nothing about it. *)
Theorem rate_limit_measured_iff deadline session a pane b :
  (∀ o document m, a = Exited o → from_str (o_stdout o) = Some document → panes_map document = Some m → NoDup (map fst m)) →
  is_rate_limited (rate_limited_panes deadline session a) pane = Some b ↔
  ∃ o document m row, a = Exited o ∧ classify_answer o = Answered document ∧ panes_map document = Some m ∧
    (pane, row) ∈ m ∧ (json_get "local_state" row ≫= json_get "is_rate_limited") ≫= as_bool = Some b.
Proof.
  intros Hnd. unfold rate_limited_panes, invoke_bounded, unanswered. split.
  - destruct a as [o|e|]; [|done..]. destruct (classify_answer o) as [document| | |] eqn:Ho; [|done..]. cbn [payload].
    unfold rate_limited_from_payload. destruct (panes_map document) as [m|] eqn:Hm; [|done]. cbn [is_rate_limited].
    intros Hg. destruct (base.decide (pane ∈ map fst (omap limited_row m))) as [Hin|Hn].
    2:{ rewrite bt_get_extend_absent in Hg by done. done. }
    apply list_elem_of_fmap in Hin as ([k c] & -> & Hin). cbn [fst] in *.
    assert (NoDup (map fst (omap limited_row m))) as Hd.
    { eapply sublist_NoDup; [|apply limited_keys]. apply answered_iff in Ho as (_ & Hp & _). by eapply Hnd. }
    rewrite (bt_get_extend_once _ _ _ _ Hd Hin) in Hg. injection Hg as ->.
    apply list_elem_of_omap in Hin as ([k' row] & Hrow & Hl). unfold limited_row in Hl. cbn [snd fst] in Hl.
    destruct (_ ≫= as_bool) as [b'|] eqn:Hb; [|done]. cbn in Hl. injection Hl as -> ->. by exists o, document, m, row.
  - intros (o & document & m & row & -> & Ho & Hm & Hrow & Hb). rewrite Ho. cbn [payload].
    unfold rate_limited_from_payload. rewrite Hm. cbn [is_rate_limited].
    apply bt_get_extend_once.
    + eapply sublist_NoDup; [|apply limited_keys]. apply answered_iff in Ho as (_ & Hp & _). by eapply Hnd.
    + apply list_elem_of_omap. exists (pane, row). split; [done|]. unfold limited_row. cbn [snd fst]. by rewrite Hb.
Qed.

(** A still pane is one whose digests were both read and agree. *)
Lemma still_is_measured a b : motion a b = Still → sn_pane a = sn_pane b ∧ sn_digest a = sn_digest b ∧ sn_digest a ≠ "".
Proof.
  unfold motion. case_bool_decide; cbn [negb orb]; [|done]. destruct (sn_digest a) eqn:Ha; [done|]. destruct (sn_digest b) eqn:Hb; [done|].
  cbn [is_empty orb]. case_bool_decide; [|done]. done.
Qed.
End Facts.
