(* ===== verification/Ready.v ===== *)
(** * Can this pane safely receive a dispatch

    pane-dispatch-ready/src/lib.rs and main.rs, with the graded evidence of two captures of
    omp-types/src/pane_observation.rs: the classifier of a capture, the confirmation of a
    free verdict by a second capture, the refusal of a rate-limited agent, and the live pass
    over the panes of tmux.  The regular expressions are matched as the regex crate does,
    leftmost and in the order of the alternatives; what tmux, shasum, ntm and the composer
    probe answer, and the clock, are arguments. *)

From stdpp Require Import base numbers list option strings.
From Stdlib Require Import NArith ZArith Ascii Lia.
From S2P Require Import Prelude RustStr Order Utf8 Json DecisionLedger ClaimFence PaneFence Lifecycle LifeLedger TickMonitor Receipt AckStage Pending Packet Activity Resident NtmKernel.
From S2P Require Refill.

(** ** Evidence of two captures. *)

Definition MIN_TWO_CAPTURE_INTERVAL_SECS : N := 75.
Inductive UnknownReason := UUnreadable | MissingLastStatusLine | Unclassified.
Inductive PaneLiveness := LUnknown (r : UnknownReason) | LIdle | LWorking (elapsed_secs : N).
Record CaptureSnapshot := MkSnapshot {
  captured_at_secs : N; cs_liveness : PaneLiveness; timer_token_of : option string; content_hash : string }.
Inductive EvidenceGrade := SingleCapture | TwoCapture (interval_secs : N) (timer_changed content_hash_changed : bool).
Definition dominates (e weaker : EvidenceGrade) : bool :=
  match e, weaker with
  | TwoCapture i t h, SingleCapture => (MIN_TWO_CAPTURE_INTERVAL_SECS <=? i)%N && (t || h)
  | _, _ => false
  end.
Inductive ObservationError := IntervalTooShort (actual_secs : N) | NoMeaningfulChange.
Definition observation_error_str (e : ObservationError) : string :=
  match e with
  | IntervalTooShort n => "two captures are " +:+ show_N n +:+ " seconds apart; " +:+ show_N MIN_TWO_CAPTURE_INTERVAL_SECS
                          +:+ " seconds are required"
  | NoMeaningfulChange => "timer and spinner-stripped content hash are unchanged"
  end.
Record GradedObservation := MkGraded {
  go_pane : string; go_liveness : PaneLiveness; go_evidence : EvidenceGrade; go_admissibility : DispatchAdmissibility }.
Definition graded_unknown (pane : string) (r : UnknownReason) : GradedObservation :=
  MkGraded pane (LUnknown r) SingleCapture AUnknown.
Definition from_last_status_line (pane : string) (l : PaneLiveness) (a : DispatchAdmissibility) : GradedObservation :=
  MkGraded pane l SingleCapture a.
Definition from_two_captures (pane : string) (previous current : CaptureSnapshot) (a : DispatchAdmissibility)
    : result ObservationError GradedObservation :=
  let interval := sat_sub (captured_at_secs current) (captured_at_secs previous) in
  if (interval <? MIN_TWO_CAPTURE_INTERVAL_SECS)%N then Err (IntervalTooShort interval)
  else
    let timer := negb (bool_decide (timer_token_of previous = timer_token_of current)) in
    let content := negb (bool_decide (content_hash previous = content_hash current)) in
    if negb timer && negb content then Err NoMeaningfulChange
    else Ok (MkGraded pane (cs_liveness current) (TwoCapture interval timer content) a).

(** ** Patterns. *)

Inductive Atom := Lit (s : string) | Digit | LitCi (s : string).
Definition long_s : string := bytes2 197 191.
(** One letter, either case; the letter s has a third form, its long form. *)
Definition ci_char (c : ascii) (s : string) : option (string * string) :=
  match s with
  | String d r =>
      if bool_decide (ascii_lower d = c) then Some (String d EmptyString, r)
      else if bool_decide (c = "s"%char) then r ← strip_prefix long_s s; Some (long_s, r) else None
  | EmptyString => None
  end.
Fixpoint ci_prefix (p s : string) : option (string * string) :=
  match p with
  | EmptyString => Some (EmptyString, s)
  | String c p => '(a, r) ← ci_char c s; '(b, r) ← ci_prefix p r; Some (a +:+ b, r)
  end.
Definition match_atom (a : Atom) (s : string) : option (string * string) :=
  match a with
  | Lit p => r ← strip_prefix p s; Some (p, r)
  | Digit => match s with String d r => if is_ascii_digit d then Some (String d EmptyString, r) else None | EmptyString => None end
  | LitCi p => ci_prefix p s
  end.
Fixpoint match_atoms (l : list Atom) (s : string) : option string :=
  match l with
  | [] => Some EmptyString
  | a :: l => '(m, r) ← match_atom a s; m' ← match_atoms l r; Some (m +:+ m')
  end.
Definition Regex : Type := list (list Atom).
(** The leftmost match, and there the first alternative. *)
Fixpoint first_match (re : Regex) (s : string) : option string :=
  match find_map (λ alt, match_atoms alt s) re with
  | Some m => Some m
  | None => match s with EmptyString => None | String _ r => first_match re r end
  end.
Definition is_match (re : Regex) (s : string) : bool := match first_match re s with Some _ => true | None => false end.

Definition BUSY_RE : Regex :=
  [Lit "Working ("; Digit] ::
  map (λ p, [Lit p])
    ["esc to interrupt"; "Pursuing goal"; "Thinking…"; "Sautéed for"; "Infusing…"; "Warping…"; "Warping..."; "Flummoxing…";
     "Flummoxing..."; "ctrl + t to view transcript"].
Definition AGENT_RE : Regex :=
  map (λ p, [LitCi p]) ["claude"; "codex"; "opus"; "gpt-"; "bypass permissions"; "dangerously"].
Definition QUOTA_RE : Regex :=
  map (λ p, [Lit p])
    ["You've hit your usage limit"; "hit usage limits"; "Weekly limit left: 0%"; "purchasing more credits"; "purchase more credits"].
Definition DEFAULT_BUSY_TAIL : nat := 6.
Definition DEFAULT_PROMPT_TAIL : nat := 12.
Definition DEFAULT_QUOTA_TAIL : nat := 8.
Definition TWO_CAPTURE_MIN_SECS : N := MIN_TWO_CAPTURE_INTERVAL_SECS.

(** ** Rules, states, verdicts. *)

Inductive Rule := TwoCaptureLiveness | TwoCaptureInterval | BusyMarkersLoadBearing | TailOnlyBusy | QuotaBeforeBusy | ComposerFailClosed.
Definition RULES : list Rule :=
  [TwoCaptureLiveness; TwoCaptureInterval; BusyMarkersLoadBearing; TailOnlyBusy; QuotaBeforeBusy; ComposerFailClosed].
Definition rule_str (r : Rule) : string :=
  match r with
  | TwoCaptureLiveness => "two_capture_liveness" | TwoCaptureInterval => "two_capture_interval"
  | BusyMarkersLoadBearing => "busy_markers_load_bearing" | TailOnlyBusy => "tail_only_busy"
  | QuotaBeforeBusy => "quota_before_busy" | ComposerFailClosed => "composer_fail_closed"
  end.
Definition parse_rule (name : string) : option Rule := find_first (λ r, bool_decide (rule_str r = name)) RULES.
Record Rules := MkRules {
  two_capture_liveness : bool; two_capture_interval : bool; busy_markers_load_bearing : bool; tail_only_busy : bool;
  quota_before_busy : bool; composer_fail_closed : bool }.
Definition default_rules : Rules := MkRules true true true true true true.
Definition off (r : Rule) (s : Rules) : Rules :=
  let 'MkRules l i b t q c := s in
  match r with
  | TwoCaptureLiveness => MkRules false i b t q c | TwoCaptureInterval => MkRules l false b t q c
  | BusyMarkersLoadBearing => MkRules l i false t q c | TailOnlyBusy => MkRules l i b false q c
  | QuotaBeforeBusy => MkRules l i b t false c | ComposerFailClosed => MkRules l i b t q false
  end.
Definition disable (name : string) (s : Rules) : option Rules := (λ r, off r s) <$> parse_rule name.
Definition known_names_csv : string := join ", " (map rule_str RULES).

Inductive ReadyState := Free | RBusy | RWedged | QuotaBlocked | NoAgent | RUnreadable.
#[global] Instance ReadyState_eq_dec : EqDecision ReadyState.
Proof. solve_decision. Defined.
Definition STATES : list ReadyState := [Free; RBusy; RWedged; QuotaBlocked; NoAgent; RUnreadable].
Definition ready_str (s : ReadyState) : string :=
  match s with
  | Free => "FREE" | RBusy => "BUSY" | RWedged => "WEDGED" | QuotaBlocked => "QUOTA_BLOCKED" | NoAgent => "NO_AGENT"
  | RUnreadable => "UNREADABLE"
  end.
Definition parse_state (s : string) : option ReadyState := find_first (λ x, bool_decide (ready_str x = s)) STATES.
Record ReadyVerdict := MkReady { rv_state : ReadyState; rv_reason : string }.
Definition pipe_line (v : ReadyVerdict) : string := ready_str (rv_state v) +:+ "|" +:+ rv_reason v.

(** ** The classifier of a capture. *)

Definition tail_lines (text : string) (n : nat) : string :=
  let l := split_char lf text in
  if (length l <=? n)%nat then text else join lf_str (drop (length l - n) l).

Definition esc : string := String "027" EmptyString.
Definition ascii_char (p : ascii → bool) (ch : string) : bool := match ch with String c EmptyString => p c | _ => false end.
Fixpoint strip_sgr_chars (csi : bool) (cs : list string) : list string :=
  match cs with
  | [] => []
  | c :: rest =>
      if csi then strip_sgr_chars (negb (ascii_char is_ascii_alpha c)) rest
      else match rest with
           | d :: rest' => if bool_decide (c = esc) && bool_decide (d = "[") then strip_sgr_chars true rest'
                           else c :: strip_sgr_chars false rest
           | [] => [c]
           end
  end.
Definition strip_sgr (line : string) : string := concat_chars (strip_sgr_chars false (chars line)).

Definition starts_space (s : string) : bool := match chars s with c :: _ => is_whitespace c | [] => false end.
Definition PI : string := "π".
Definition prompt_line (line : string) : bool :=
  contains line "❯" || contains line "›"
  || (let t := trim_start line in
      match t with String c rest => (bool_decide (c = ">"%char) || bool_decide (c = "$"%char)) && starts_space rest | EmptyString => false end)
  || (let b := trim_start (strip_sgr line) in
      starts_with b PI && starts_space (trim_start_matches (λ ch, bool_decide (ch = PI)) b)).
Definition has_prompt_marker (tail : string) : bool := existsb prompt_line (lines tail).

Section Classifier.
Context `{Unicode}.

Definition NO_TEXT : string := "empty capture — pane blank or capture-pane failed; state unknowable (fail closed)".
Definition classify (text : string) (buffer_changed : bool) (rules : Rules) : ReadyVerdict :=
  if is_empty text then MkReady RUnreadable NO_TEXT
  else if negb (is_match AGENT_RE text) then MkReady NoAgent "no agent process rendering in this pane (bare shell)"
  else
  match (if quota_before_busy rules then first_match QUOTA_RE (tail_lines text DEFAULT_QUOTA_TAIL) else None) with
  | Some hit => MkReady QuotaBlocked ("provider quota exhausted (" +:+ hit +:+ ") — not busy, not free; needs spend, not a dispatch")
  | None =>
  if bool_decide (TickMonitor.classify text = Wedged)
  then MkReady RWedged "a packet arrived and was PARKED unsubmitted — an operator must submit or clear the queued message; waiting will not clear it"
  else
  let tail := if tail_only_busy rules then tail_lines text DEFAULT_BUSY_TAIL else text in
  match (if busy_markers_load_bearing rules then first_match BUSY_RE tail else None) with
  | Some hit => MkReady RBusy ("agent is working: " +:+ hit)
  | None =>
  if buffer_changed then MkReady RBusy "pane buffer changed between captures — rendered work is in flight"
  else if negb (has_prompt_marker (tail_lines text DEFAULT_PROMPT_TAIL))
  then MkReady RBusy "no prompt marker in the live region — free-prompt not PROVEN (fail closed)"
  else MkReady Free "agent present, composer holds no typed text (bare prompt or autosuggestion)"
  end
  end.

Definition apply_composer_rc (v : ReadyVerdict) (rc : Z) (rules : Rules) : ReadyVerdict :=
  if negb (bool_decide (rv_state v = Free)) then v
  else if (rc =? 0)%Z then MkReady RBusy "operator text typed in the composer, not ours to overwrite"
  else if (rc =? 1)%Z then v
  else if composer_fail_closed rules
  then MkReady RBusy ("composer discriminator failed to evaluate (rc=" +:+ show_Z rc +:+ ") — fail closed")
  else v.
Definition missing_composer (path : string) : ReadyVerdict :=
  MkReady RBusy ("composer discriminator missing at " +:+ path +:+ " (fail closed)").

(** The second capture. *)
Definition moved (e : EvidenceGrade) : bool := match e with TwoCapture _ t h => t || h | SingleCapture => false end.
Definition confirm_free (first : ReadyVerdict) (next_text : string) (previous current : CaptureSnapshot) (rules : Rules)
    : ReadyVerdict :=
  if negb (bool_decide (rv_state first = Free)) then first
  else if negb (two_capture_liveness rules) then first
  else if negb (two_capture_interval rules) then classify next_text false rules
  else match from_two_captures "pane-dispatch-ready" previous current AUnknown with
       | Ok o => classify next_text (moved (go_evidence o)) rules
       | Err e => MkReady RUnreadable ("TWO_CAPTURE_UNPROVEN: " +:+ observation_error_str e +:+ " (fail closed)")
       end.
End Classifier.

(** ** What is read from one capture. *)

Definition timer_unit (ch : string) : bool := bool_decide (ch = "h") || bool_decide (ch = "m") || bool_decide (ch = "s").
Definition timer_piece (token : string) : option string :=
  let t := trim_matches (λ ch, negb (ascii_char is_ascii_digit ch) && negb (timer_unit ch)) token in
  if is_empty t || negb (existsb (ascii_char is_ascii_digit) (chars t))
     || negb (match last (chars t) with Some ch => timer_unit ch | None => false end)
  then None else Some t.
Fixpoint timer_of_tokens (tokens : list string) : option string :=
  match tokens with
  | [] => None
  | token :: rest =>
      match timer_piece token with
      | None => timer_of_tokens rest
      | Some first => Some (match head rest ≫= timer_piece with Some second => first +:+ " " +:+ second | None => first end)
      end
  end.
Definition timer_token (text : string) : option string := find_map (λ l, timer_of_tokens (split_whitespace l)) (rev (lines text)).

(** U+2800 to U+28FF. *)
Definition is_spinner (ch : string) : bool :=
  match ch with
  | String a (String b (String c EmptyString)) => bool_decide (N_of_ascii a = 226%N) && byte_in 160 163 b && byte_in 128 191 c
  | _ => false
  end.
Definition spinner_stripped_content (text : string) : string :=
  concat_chars (List.filter (λ ch, negb (is_spinner ch)) (chars text)).
(** [u8::is_ascii_whitespace]. *)
Definition is_byte_space (c : ascii) : bool := existsb (λ n, bool_decide (N_of_ascii c = n)) [32; 9; 10; 12; 13]%N.
Definition sha_of (a : RunAnswer) : string :=
  match a with
  | Exited o =>
      if success o
      then default "" (utf8_lossy <$> find_first (λ p, negb (is_empty p)) (split_chars (ascii_char is_byte_space) (bytes_of (o_stdout o))))
      else ""
  | _ => ""
  end.
Definition capture_snapshot (at_ : N) (text hash : string) : CaptureSnapshot :=
  MkSnapshot at_ (LUnknown Unclassified) (timer_token text) hash.

(** ** The rate limit. *)

Inductive RateLimitCoverage := MeasuredLimited | MeasuredFree | CovUnmeasured.
Definition coverage_of (answer : option bool) : RateLimitCoverage :=
  match answer with Some true => MeasuredLimited | Some false => MeasuredFree | None => CovUnmeasured end.
Definition coverage_str (c : RateLimitCoverage) : string :=
  match c with MeasuredLimited => "measured_limited" | MeasuredFree => "measured_free" | CovUnmeasured => "unmeasured" end.
Definition refusal_input (c : RateLimitCoverage) : bool := match c with MeasuredLimited => true | _ => false end.
Definition confirms_free (c : RateLimitCoverage) : bool := match c with MeasuredFree => true | _ => false end.

Definition SUBSTANTIVE_CONTENT_ROWS : nat := 3.
Definition ANCHOR : string := "usage limit".
(** The characters of the rows with runs of spaces made one, newest first, and the row of each. *)
Definition push_flat (index : nat) (acc : list (string * nat)) (ch : string) : list (string * nat) :=
  if is_whitespace ch then
    match acc with
    | (c, _) :: _ => if bool_decide (c = " ") then acc else (" ", index) :: acc
    | [] => [(" ", index)]
    end
  else (ch, index) :: acc.
Fixpoint flatten (index : nat) (acc : list (string * nat)) (ls : list string) : list (string * nat) :=
  match ls with
  | [] => acc
  | l :: ls => flatten (S index) (push_flat index (foldl (push_flat index) acc (chars l)) " ") ls
  end.
(** [str::rfind]: a byte offset. *)
Fixpoint rfind (p s : string) : option nat :=
  match s with
  | EmptyString => if is_empty p then Some 0%nat else None
  | String _ r =>
      match rfind p r with
      | Some i => Some (S i)
      | None => if starts_with s p then Some 0%nat else None
      end
  end.
Definition last_limit_line (ls : list string) : option nat :=
  let flat := rev (flatten 0 [] ls) in
  i ← rfind ANCHOR (concat_chars (map fst flat));
  (map snd flat) !! (i + String.length ANCHOR - 1)%nat.

Fixpoint strip_csi_chars (csi : bool) (cs : list string) : list string :=
  match cs with
  | [] => []
  | c :: rest =>
      if csi then strip_csi_chars (negb (ascii_char (byte_in 64 126) c)) rest
      else if bool_decide (c = esc) then
             match rest with d :: rest' => strip_csi_chars (bool_decide (d = "[")) rest' | [] => [] end
           else c :: strip_csi_chars false rest
  end.
Definition strip_csi (line : string) : string := concat_chars (strip_csi_chars false (chars line)).
Definition BADGE : string := bytes4 240 159 147 129.
(** U+2500 to U+257F. *)
Definition is_box (ch : string) : bool :=
  match ch with
  | String a (String b (String c EmptyString)) =>
      bool_decide (N_of_ascii a = 226%N) && byte_in 148 149 b && byte_in 128 191 c
  | _ => false
  end.
Definition is_composer_footer (line : string) : bool :=
  let t := trim (strip_csi line) in
  match chars t with
  | [] => true
  | first :: _ =>
      bool_decide (first = PI) || bool_decide (first = ">") || contains t BADGE
      || forallb (λ ch, is_whitespace ch || is_box ch) (chars t)
  end.
Definition is_limit_message_tail (line : string) : bool :=
  let t := trim line in
  starts_with t "Error: Retry" || contains t "Try again in" || contains t "You have hit your"
  || starts_with t "ChatGPT usage limit" || starts_with t "limit (pro plan)"
  || (let d := chars (trim_start_matches (λ ch, bool_decide (ch = "~")) t) in
      let digits := take_while (ascii_char is_ascii_digit) d in
      negb (bool_decide (length digits = 0%nat))
      && starts_with (trim_start (concat_chars (drop (length digits) d))) "min").
Definition content_after (ls : list string) (limit : nat) : nat :=
  length (List.filter (λ l, negb (is_composer_footer l) && negb (is_limit_message_tail l)) (drop (S limit) ls)).
Definition rate_limit_refusal (is_rate_limited : bool) (capture : string) : option string :=
  if negb is_rate_limited then None
  else
    let ls := lines capture in
    match last_limit_line ls with
    | None => Some "agent reports rate-limited and no limit line could be located in the capture -- refusing on the typed field alone rather than admitting on a failed text match"
    | Some limit =>
        let n := content_after ls limit in
        if (SUBSTANTIVE_CONTENT_ROWS <=? n)%nat then None
        else Some ("agent reports rate-limited and only " +:+ show_N (N.of_nat n)
                   +:+ " substantive row(s) follow the limit line (below the " +:+ show_N (N.of_nat SUBSTANTIVE_CONTENT_ROWS)
                   +:+ "-row recovery floor) -- dispatch would park until reset")
    end.

(** The row is looked up by a byte offset in a table by characters.  In the first capture
    the agent recovered, with three rows of work below the limit, and is refused as if no
    limit line were there; without the frame above it, it is admitted. *)
Definition recovered_rows : list string := ["hit your usage limit"; "reading src"; "editing src"; "running tests"].
Example frame_hides_recovery :
  last_limit_line (app ["╭────────────────────────────────────────────────╮"] recovered_rows) = None ∧
  rate_limit_refusal true (join lf_str recovered_rows) = None ∧
  bool_decide (rate_limit_refusal true (join lf_str (app ["╭────────────────────────────────────────────────╮"] recovered_rows)) = None) = false.
Proof. vm_compute. auto. Qed.

(** ** The live pass. *)

(** The composer probe: no such file, or what it answered. *)
Inductive ComposerProbe := NoComposer (path : string) | Probe (path : string) (a : RunAnswer).
Definition composer_rc (a : RunAnswer) : Z :=
  match a with Exited o => default 99%Z (o_code o) | RunTimedOut => 124 | RunFailed _ => 77 end.
Record LivePane := MkLive {
  lp_first : RunAnswer; lp_first_at : N; lp_first_probe : ComposerProbe; lp_first_hash : RunAnswer;
  lp_second : RunAnswer; lp_second_at : N; lp_second_probe : ComposerProbe; lp_second_hash : RunAnswer }.
Record LiveSession := MkSession {
  ls_name : string; ls_health : RunAnswer; ls_panes : RunAnswer; ls_pane : string → LivePane }.

Definition completed (a : RunAnswer) : string := match a with Exited o => utf8_lossy (o_stdout o) | _ => "" end.
Definition floored_capture_interval (requested : option N) : N :=
  N.max (default TWO_CAPTURE_MIN_SECS requested) TWO_CAPTURE_MIN_SECS.

Section Live.
Context `{SerdeJson, Unicode} (rules : Rules) (pane_filter : option string).

Definition classify_with_composer (text : string) (changed : bool) (p : ComposerProbe) : ReadyVerdict :=
  let v := classify text changed rules in
  if negb (bool_decide (rv_state v = Free)) then v
  else match p with
       | NoComposer path => if composer_fail_closed rules then missing_composer path else v
       | Probe _ a => apply_composer_rc v (composer_rc a) rules
       end.

(** The verdict of the captures, before the census. *)
Definition observed_verdict (l : LivePane) : ReadyVerdict :=
  let txt := completed (lp_first l) in
  let v := classify_with_composer txt false (lp_first_probe l) in
  if bool_decide (rv_state v = Free) && two_capture_liveness rules then
    let next := completed (lp_second l) in
    let v := confirm_free v next
               (capture_snapshot (lp_first_at l) txt (sha_of (lp_first_hash l)))
               (capture_snapshot (lp_second_at l) next (sha_of (lp_second_hash l))) rules in
    if bool_decide (rv_state v = Free) then classify_with_composer next false (lp_second_probe l) else v
  else v.
Definition limited_verdict (c : RateLimitCoverage) (l : LivePane) (v : ReadyVerdict) : ReadyVerdict :=
  if bool_decide (rv_state v = Free) then
    match rate_limit_refusal (refusal_input c) (completed (lp_first l)) with
    | Some reason => MkReady QuotaBlocked reason
    | None => v
    end
  else v.
Record ReadyRow := MkRow {
  rr_session : string; rr_pane : string; rr_verdict : ReadyVerdict; rr_coverage : RateLimitCoverage; rr_bound : string }.
Definition pane_row (s : LiveSession) (census : RateLimitCensus) (pane : string) : ReadyRow :=
  let c := coverage_of (is_rate_limited census pane) in
  let l := ls_pane s pane in
  MkRow (ls_name s) pane (limited_verdict c l (observed_verdict l)) c (bound census).
Definition wanted (pane : string) : bool := match pane_filter with Some f => bool_decide (pane = f) | None => true end.
Definition session_rows (s : LiveSession) : list ReadyRow :=
  let census := rate_limited_panes "30s" (ls_name s) (ls_health s) in
  map (pane_row s census)
    (List.filter (λ p, negb (is_empty p) && wanted p) (map trim (lines (completed (ls_panes s))))).
Definition live_rows (ss : list LiveSession) : list ReadyRow := List.concat (map session_rows ss).
Definition free_count (rows : list ReadyRow) : nat :=
  length (List.filter (λ r, bool_decide (rv_state (rr_verdict r) = Free)) rows).
(** The sessions of the pass: those named, or all that tmux lists, or none at all. *)
Definition session_names (named : list string) (listed : RunAnswer) : option (list string) :=
  match named with
  | [] => let t := completed listed in
          if is_empty (trim t) then None else Some (List.filter (λ l, negb (is_empty l)) (map trim (lines t)))
  | _ => Some named
  end.
Definition tmux_healthy (a : RunAnswer) : bool := match a with Exited o => success o | _ => false end.
(** The exit, and the rows. *)
Definition run_live (version : RunAnswer) (named : list string) (listed : RunAnswer) (session : string → LiveSession)
    : N * list ReadyRow :=
  if negb (tmux_healthy version) then (2%N, [])
  else match session_names named listed with
       | None => (1%N, [])
       | Some names =>
           let rows := live_rows (map session names) in
           (if (0 <? free_count rows)%nat then 0%N else 1%N, rows)
       end.
End Live.

Definition row_json (r : ReadyRow) : Json :=
  jobj [("session", JString (rr_session r)); ("pane", JString (rr_pane r));
        ("state", JString (ready_str (rv_state (rr_verdict r)))); ("reason", JString (rv_reason (rr_verdict r)));
        ("rate_limit", JString (coverage_str (rr_coverage r))); ("rate_limit_bound", JString (rr_bound r))].

(** ** What the classifier and the pass say. *)

Section Facts.
Context `{Unicode}.

(** A capture is free exactly when it shows an agent, no exhausted quota in its last eight
    lines, no parked packet, no sign of work in its last six, and a prompt in its last
    twelve, and the buffer did not move. *)
Theorem classify_free_iff text changed :
  rv_state (classify text changed default_rules) = Free ↔
  text ≠ "" ∧ is_match AGENT_RE text = true ∧ is_match QUOTA_RE (tail_lines text 8) = false ∧
  TickMonitor.classify text ≠ Wedged ∧ is_match BUSY_RE (tail_lines text 6) = false ∧ changed = false ∧
  has_prompt_marker (tail_lines text 12) = true.
Proof.
  unfold classify, is_match. cbn [quota_before_busy tail_only_busy busy_markers_load_bearing default_rules].
  unfold DEFAULT_QUOTA_TAIL, DEFAULT_BUSY_TAIL, DEFAULT_PROMPT_TAIL.
  destruct text as [|c s]; [cbn; naive_solver|]. set (text := String c s). change (is_empty text) with false. cbn iota.
  assert (text ≠ "") as Hne by done. clearbody text.
  destruct (first_match AGENT_RE text); cbn [negb]; [|split; [done|]; by intros (_ & ? & _)].
  destruct (first_match QUOTA_RE _); [split; [done|]; by intros (_ & _ & ? & _)|].
  case_bool_decide as Hw; [split; [done|]; by intros (_ & _ & _ & ? & _)|].
  destruct (first_match BUSY_RE _); [split; [done|]; by intros (_ & _ & _ & _ & ? & _)|].
  destruct changed; [split; [done|]; by intros (_ & _ & _ & _ & _ & ? & _)|].
  destruct (has_prompt_marker _); cbn [negb]; split; try done; by intros (_ & _ & _ & _ & _ & _ & ?).
Qed.

(** Two captures grade stronger than one exactly when they are far enough apart and
    something but the spinner moved between them. *)
Theorem two_captures_iff pane p c a o :
  from_two_captures pane p c a = Ok o ↔
  (75 <= captured_at_secs c - captured_at_secs p)%N ∧
  (timer_token_of p ≠ timer_token_of c ∨ content_hash p ≠ content_hash c) ∧
  dominates (go_evidence o) SingleCapture = true ∧
  o = MkGraded pane (cs_liveness c)
        (TwoCapture (captured_at_secs c - captured_at_secs p)
           (negb (bool_decide (timer_token_of p = timer_token_of c))) (negb (bool_decide (content_hash p = content_hash c)))) a.
Proof.
  unfold from_two_captures, sat_sub, MIN_TWO_CAPTURE_INTERVAL_SECS. destruct (N.ltb_spec (captured_at_secs c - captured_at_secs p) 75) as [Hlt|Hge].
  { split; [done|]. intros [? _]. lia. }
  destruct (_ && _) eqn:Hm.
  { split; [done|]. rewrite !negb_involutive in Hm. apply andb_true_iff in Hm as [Ht%bool_decide_eq_true Hh%bool_decide_eq_true].
    by intros (_ & [?|?] & _). }
  rewrite !negb_involutive in Hm. apply andb_false_iff in Hm as Hor.
  rewrite !bool_decide_eq_false in Hor.
  split; [|by intros (_ & _ & _ & ->)]. intros [= <-]. split; [done|]. split; [done|]. split; [|done]. cbn [go_evidence dominates].
  apply andb_true_iff. split; [unfold MIN_TWO_CAPTURE_INTERVAL_SECS; by apply N.leb_le|].
  apply orb_true_iff. rewrite !negb_true_iff. by apply andb_false_iff.
Qed.

(** Evidence of two captures is evidence of motion, and a capture that moved is busy. *)
Lemma confirm_never_free first next p c : rv_state (confirm_free first next p c default_rules) ≠ Free.
Proof.
  unfold confirm_free. case_bool_decide as Hf; cbn [negb]; [|done]. cbn [two_capture_liveness two_capture_interval default_rules negb].
  destruct (from_two_captures _ _ _ _) as [o|e] eqn:Ho; [|done].
  intros Hfree. apply classify_free_iff in Hfree as (_ & _ & _ & _ & _ & Hm & _).
  apply two_captures_iff in Ho as (_ & _ & Hd & ->). cbn in Hm, Hd. rewrite Hm, andb_false_r in Hd. done.
Qed.

Context `{SerdeJson, ToJson}.

(** C25: The pass never offers a pane under its own rules, whatever the panes show and the
    programs answer: a free capture is confirmed by evidence that exists only for a pane
    that moved, and a pane that moved is busy.  It exits as if there were no target, and a
    consumer that joins its rows with another surface finds no idle pane in them. *)
Theorem never_free pane_filter version named listed session :
  let '(exit, rows) := run_live default_rules pane_filter version named listed session in
  exit ≠ 0%N ∧ free_count rows = 0%nat ∧
  ∀ r, r ∈ rows → rv_state (rr_verdict r) ≠ Free ∧ Refill.oracle_observation (row_json r) ≠ Refill.Idle.
Proof.
  assert (∀ l, rv_state (observed_verdict default_rules l) ≠ Free) as Hv.
  { intros l. unfold observed_verdict. cbn [two_capture_liveness default_rules]. rewrite andb_true_r.
    case_bool_decide as Hf; [|done]. case_bool_decide as Hc; [|done]. by apply confirm_never_free in Hc. }
  assert (∀ s census pane, rv_state (rr_verdict (pane_row default_rules s census pane)) ≠ Free) as Hrow.
  { intros s census pane. cbn. unfold limited_verdict. case_bool_decide as Hf; [|done]. by apply Hv in Hf. }
  assert (∀ r, r ∈ live_rows default_rules pane_filter (map session (default [] (session_names named listed))) →
            rv_state (rr_verdict r) ≠ Free) as Hall.
  { intros r Hr. apply list_elem_of_In, in_concat in Hr as (rs & Hrs & Hr). apply in_map_iff in Hrs as (s & <- & _).
    apply in_map_iff in Hr as (p & <- & _). apply Hrow. }
  unfold run_live. destruct (negb (tmux_healthy version)); [split_and!; [done..|]; by intros r ?%elem_of_nil|].
  destruct (session_names named listed) as [names|]; [|split_and!; [done..|]; by intros r ?%elem_of_nil].
  cbn [default from_option] in Hall.
  set (rows := live_rows _ _ _) in *. assert (free_count rows = 0%nat) as Hz.
  { unfold free_count. destruct (List.filter _ rows) as [|r l] eqn:Hfl; [done|].
    assert (In r (List.filter (λ r, bool_decide (rv_state (rr_verdict r) = Free)) rows)) as Hin by (rewrite Hfl; by left).
    apply filter_In in Hin as [Hin Hf%bool_decide_eq_true]. apply list_elem_of_In, Hall in Hin. done. }
  rewrite Hz. split_and!; [done..|]. intros r Hr. specialize (Hall r Hr). split; [done|].
  destruct r as [s p [st reason] c b]. cbn in Hall. destruct st; try done; by destruct c.
Qed.
End Facts.
